(* ===== verification/_CoqProject ===== *)
-Q . S2P
Prelude.v
JsStr.v
OMap.v
JsNum.v
JsVal.v
Exn.v
JsLib.v
JsonText.v
NodePath.v
Ipv4.v
Mac.v
Eff.v
Files.v
QaInit.v
QaInitSpec.v
Scaffold.v
ScaffoldSpec.v
Install.v
InstallSpec.v
Host.v
Digest.v
Runtime.v
Lan.v
Cloud.v
Inventory.v
Scan.v
Telemetry.v
Dto.v
Threads.v
Server.v
Poller.v
PollerInv.v
Schedules.v
Handlers.v
DeviceApi.v
ScheduleApi.v
WebServer.v
WebServerSpec.v
DevServer.v
DevServerSpec.v
Build.v
BuildSpec.v
Testkit.v
TestkitSpec.v
Logger.v
LoggerSpec.v
Service.v
PollerSpec.v
HandlersSpec.v
WebApi.v
WebAuth.v
WebSpec.v
StreamClient.v
DevicesMachine.v
DevicesSpec.v
Cli.v
CliSpec.v
Tui.v
TuiSpec.v
Views.v
ViewsSpec.v
Shell.v
ShellSpec.v
Lights.v
LightsSpec.v
Card.v
CardSpec.v
