(* ===== verification/Prelude.v ===== *)
(** * Merossity: a verification library

    Merossity drives Meross smart plugs and lamps over the local network. A server (packages/core)
    polls the devices, answers HTTP requests and streams what changes to its clients; a web client
    (apps/web) signs in, shows the devices and switches them; a command line (packages/cli) does the
    same from a terminal. Beside them the repository has tools: scripts that build the pages, create
    packages and wire their checks, a logger and a test kit. This library models the program, the process
    that serves it and the tools, and proves what they promise.

    ** How the parts interact

    A device answers signed messages on [http://host/config]. The server finds hosts by scanning an
    IPv4 block or by MAC address in the neighbour tables, gets the key that signs the messages from the
    Meross cloud when the user signs in, and keeps key, devices and hosts in one configuration file.
    The poller keeps the last state and reading of every device with a known host, and sends each
    change to the event streams. The routes call the handlers, which talk to the devices directly and
    ask the poller for a fresh state. The web client posts to the routes and keeps its tables from the
    stream. The command line uses the same libraries and the same file without the server.

    ** The files, from the bottom up

    - JavaScript: Prelude.v (tactics, stable sort, lists, words), JsStr.v (strings), OMap.v (objects
      used as maps, in insertion order), JsNum.v (doubles, decimal text), JsVal.v (untyped values,
      [Number], [String], [??]), Exn.v (what is thrown), JsLib.v (dates, JSON text), JsonText.v (the
      grammar of JSON, and that its texts read back), NodePath.v (the paths of node).
    - Effects: Eff.v (an async function as a tree of effects, [runs] for what it can do), Threads.v (the
      event loop: the interleaving of such trees over one shared state, and a rely-guarantee
      weakest precondition), Runtime.v (the calls to the platform, the configuration of
      meross/config.ts, helpers of api/shared.ts), Files.v (the calls of the tools, and a file system in
      memory that answers them), Host.v (what the start-up code asks of Bun and the system).
    - Data of packages/core/src: Ipv4.v (meross/lan/ping-sweep.ts, discovery.ts), Mac.v (lan/mac.ts,
      resolve-ip.ts), Digest.v (the readers of device replies of api/shared.ts), Lan.v (lan/message.ts,
      http.ts and a file per namespace), Cloud.v (meross/cloud), Inventory.v (inventory.ts, dump.ts),
      Scan.v (the worker pools of the scans; for the handlers a scan is one call, answered
      with the replies that its pool can gather, [scans_valid]), Telemetry.v (api/telemetry-db.ts).
    - The poller, api/state-poller.ts: Dto.v (its data and pure functions), Server.v (its fields and
      messages), Poller.v (its methods); PollerInv.v, Service.v and PollerSpec.v prove it correct.
    - The handlers, a file of packages/core/src/api each: Handlers.v (hosts, cloud, configuration),
      DeviceApi.v (devices, telemetry), Schedules.v and ScheduleApi.v (timers, triggers and the table
      of routes); HandlersSpec.v proves them correct.
    - The web client, apps/web/src: WebApi.v (lib/api.ts), WebAuth.v (state/authMachine.ts,
      appMachine.ts, views/auth/loginRegion.ts) with WebSpec.v; StreamClient.v (the parsers and the
      event stream of state/devicesMachine.ts), DevicesMachine.v (its machine) with DevicesSpec.v.
    - The views of the web client, apps/web/src/views: Views.v (what they derive and post) with
      ViewsSpec.v; Lights.v (devices/SmartLightControls.tsx: the controls of a light) with LightsSpec.v;
      Card.v (devices/DeviceCard.tsx: the card of a device, its dialog and its calls; ui/toast.tsx) with
      CardSpec.v; Shell.v (App.tsx, AuthView.tsx, the elements of devices/InventoryView.tsx and
      DeviceGroup.tsx) with ShellSpec.v.
    - The command line, packages/cli/src: Cli.v (meross.ts) with CliSpec.v; Tui.v (tui.tsx, the terminal
      interface: its state, keys, calls, effects and screens) with TuiSpec.v.
    - The process around them: WebServer.v (apps/web/src/index.ts, the headers of responses) with
      WebServerSpec.v, DevServer.v (apps/web/src/dev/serve-with-control.ts) with DevServerSpec.v,
      Build.v (apps/web/build.ts) with BuildSpec.v.
    - The tools: QaInit.v (packages/qa/scripts/qa-init.ts) with QaInitSpec.v, Scaffold.v (packages/new:
      index.ts and the scaffolders) with ScaffoldSpec.v, Install.v (the scripts that run at installation:
      scripts/postinstall.ts, those of packages/cli, packages/new and of the web template) with InstallSpec.v,
      Testkit.v (packages/qa/src/testkit)
      with TestkitSpec.v, Logger.v (packages/qa/src/logger) with LoggerSpec.v.

    A definition has the name of the source where Rocq allows it. An object is a Record, a union an
    Inductive, an async function an effect tree, an XState machine a step function from an event to
    the next context and the calls it starts, a React component its local state, its callbacks as effect
    trees over it, and the list of the elements it shows, each with what it does. An answer of the platform
    (clock, network, files, randomness) is whatever it is: theorems about [runs] hold for all of them,
    witnesses run the same trees on concrete ones.

    ** What the theorems show

    - The poller under every interleaving (Service.v): one poll per device in flight, versions that only
      grow (a stale notice repeats the message it directly follows), stale exactly with an error. Blocks of
      it (PollerSpec.v): what a failed and a successful poll, the timer and a new stream do to the whole
      state of the server, deliveries to the subscribers included. The change test is the negation of an
      equivalence, delays are bounded (Dto.v).
    - The handlers (HandlersSpec.v): which messages a command sends, that requests are clamped or
      refused, that a timer patch changes the requested fields only, that a second message goes out
      exactly when the first one failed or was refused, that a discovery saves what one reply of every
      address gave, what is written to the configuration and when; which of these lose a concurrent write.
    - The cloud (Cloud.v): a sign-in ends within twelve requests and takes credentials only from an
      accepted last reply.
    - Blocks, scans, digests, inventory and telemetry: the hosts of a block each once, every address
      probed at most once by pools that never get stuck, sorted and well-formed lists, buckets that
      partition the samples.
    - The web client: the form submits complete input once (WebSpec.v), and a sign-in from the form
      through the handler to the shell of the application is one round; the stream is never lost for
      good and leaks nothing, and reads back every field the server sends (StreamClient.v); the devices
      machine implements the state chart of docs/devices-machine-statechart.md, runs one operation at a
      time, undoes a failed toggle, and its tables mirror the texts of the messages the server sends (DevicesSpec.v).
    - The views: requests that their handlers take as they were meant, one scan after a
      reload whatever the refresh ends in, colours as text that reads back, and which rules the timer editor
      can save (ViewsSpec.v); every request the controls of a light ever make is accepted (LightsSpec.v); a
      card never has two saves of one timer under way, and makes no request of its own without an
      address (CardSpec.v); the page is never blank, its form waits for one login at a time, and the inventory shows
      one card for each device (ShellSpec.v).
    - The command line (CliSpec.v): the search for a region tries its domains in order, stops, reports and stores as told, the
      switch command sends one message, the table is aligned. The terminal interface (TuiSpec.v) keeps its
      form and screens well formed under every interleaving, never shows the password, and what its
      sequences write and send is stated with their flaws: letters that cannot be typed, a scan that writes an outdated list of devices back.
    - The process: the web server serves files below its directory only, in production with every security header, and builds its
      pages when they are stale (WebServerSpec.v); a development server finds its port in order, asks only a
      server of its own name to stop, and takes over from it (DevServerSpec.v); the build script deletes at
      most one directory, strictly inside the project (BuildSpec.v).
    - The tools: wiring the checks of a package a second time changes no more than the layout of a file it had created, and JSON with comments reads as
      the value without them (QaInitSpec.v); a new package is written only below a directory inside the repository
      (ScaffoldSpec.v); installing a renamed repository again changes nothing, and the walk over it writes only what
      the names change (InstallSpec.v); waiting for output and for a condition ends, a server under test is stopped, an artifact is one
      file of the output directory (TestkitSpec.v); a log line is written for the levels asked for and
      reads back, patterns of namespaces match what they stand for, a spinner leaves no timer (LoggerSpec.v).

    ** Bounds and fuel

    Effect trees are well founded, so a modelled function ends once its calls are answered; the loops
    of the source are structural recursions on the list or the number of attempts they run over. Fuel
    is used for the decimal text of a double (JsNum.v: the position of the point is searched a few places
    from an estimate by the binary logarithm, and seventeen digits always tell a double apart), for
    parsing JSON (JsLib.v: twice the length of the text and three, as every second call reads a
    character), for the directories above a path (NodePath.v: its length) and for the attempts of polling
    (Testkit.v: the timeout over the interval and one are enough, by [pollUntil_ends]). Bit operations are those
    of 32-bit words (Ipv4.v), doubles those of the Standard Library's SpecFloat with 53 bits of
    mantissa; a count or a channel that the source keeps as an integral double is a [Z], and where it
    crosses the wire (StreamClient.v) it is assumed below [2 ^ 53], where a double is exact.

    ** What is not modelled

    Hashes, base64 and [localeCompare] are parameters, the last one with the laws of a comparison.
    Strings are bytes: the source's lengths and cases agree with them on ASCII text. Of the React
    components layout, styles, icons and the wrappers of the component library (ui/rac) are left out;
    InventoryView.tsx is taken to render after every event and tui.tsx before every key. The bundler,
    sockets and files under the web server are effects with any answer; an await that waits for nothing is no suspension. The templates that
    are copied, the script of the template for component libraries, which asks its questions at the terminal, and the
    one that makes a link are not modelled.
    Left out as well are abort signals beyond the timeout they carry, the SQLite engine below the four statements,
    names that an object inherits ([__proto__]) as flags of the build, and the XState library,
    whose documented order of actions and of event delivery the step functions follow. *)

From stdpp Require Export base list strings sorting gmap.
From Stdlib Require Export ZArith Lia.

(** ** Scope, notations *)

Declare Scope js_scope.
Delimit Scope js_scope with js.
Open Scope js_scope.

(** [a ?? b] of the source, here [a ?: b], on an option: the default is used for an absent value. *)
Notation "a ?: b" := (default b a) (at level 60, right associativity) : js_scope.

(** ** Tactics *)

(** Case analysis on the discriminee of the first [match] or [if] of the goal. *)
Ltac step_match :=
  match goal with
  | |- context [match ?x with _ => _ end] =>
      lazymatch x with
      | context [match _ with _ => _ end] => fail
      | _ => destruct x eqn:?
      end
  end.

(** The same in the hypothesis [H]. *)
Ltac step_match_in H :=
  match type of H with
  | context [match ?x with _ => _ end] =>
      lazymatch x with
      | context [match _ with _ => _ end] => fail
      | _ => destruct x eqn:?
      end
  end.

(** Splits every match of the hypothesis [H], which equates a computation with a result, and drops
    the branches that return something else. *)
Ltac split_matches H :=
  repeat (simpl in H; first [discriminate H | step_match_in H]); simplify_eq.

(** Boolean facts of the context as propositions. *)
Ltac bool_hyps :=
  repeat match goal with
  | H : _ && _ = true |- _ => apply andb_prop in H as [??]
  | H : _ || _ = false |- _ => apply orb_false_elim in H as [??]
  | H : negb _ = true |- _ => apply negb_true_iff in H
  | H : negb _ = false |- _ => apply negb_false_iff in H
  | H : (_ =? _)%Z = true |- _ => apply Z.eqb_eq in H
  | H : (_ =? _)%Z = false |- _ => apply Z.eqb_neq in H
  | H : (_ <=? _)%Z = true |- _ => apply Z.leb_le in H
  | H : (_ <=? _)%Z = false |- _ => apply Z.leb_gt in H
  | H : (_ <? _)%Z = true |- _ => apply Z.ltb_lt in H
  | H : (_ <? _)%Z = false |- _ => apply Z.ltb_ge in H
  | H : bool_decide _ = true |- _ => apply bool_decide_eq_true in H
  | H : bool_decide _ = false |- _ => apply bool_decide_eq_false in H
  end.

(** ** Lists *)

(** Strictly increasing chains of a stable sort. The comparators of the source return a number;
    [sort] only asks whether it is at most zero, which is what a stable sort observes. *)
Section StableSort.
Context {A : Type} (cmp : A → A → Z).

Fixpoint sort_insert (x : A) (l : list A) : list A :=
  match l with
  | [] => [x]
  | y :: l' => if (cmp x y <=? 0)%Z then x :: l else y :: sort_insert x l'
  end.

Definition js_sort (l : list A) : list A := foldr sort_insert [] l.

Definition cmp_le (x y : A) : Prop := (cmp x y <= 0)%Z.

Lemma sort_insert_perm x l : sort_insert x l ≡ₚ x :: l.
Proof.
  induction l as [|y l IH]; simpl; [done|]. case_match; [done|].
  rewrite IH. apply Permutation_swap.
Qed.

Lemma js_sort_perm l : js_sort l ≡ₚ l.
Proof. induction l as [|x l IH]; simpl; [done|]. by rewrite sort_insert_perm, IH. Qed.

Lemma js_sort_length l : length (js_sort l) = length l.
Proof. apply Permutation_length, js_sort_perm. Qed.

Lemma js_sort_nil l : js_sort l = [] ↔ l = [].
Proof.
  split; [|by intros ->]. intros H. apply Permutation_nil_r.
  by rewrite <- H, js_sort_perm.
Qed.

Lemma elem_of_js_sort x l : x ∈ js_sort l ↔ x ∈ l.
Proof. by rewrite js_sort_perm. Qed.

Lemma Forall_js_sort (P : A → Prop) l : Forall P (js_sort l) ↔ Forall P l.
Proof. by rewrite js_sort_perm. Qed.

(** Already sorted lists are left alone: the algorithm is stable. *)
Lemma js_sort_id l : StronglySorted cmp_le l → js_sort l = l.
Proof.
  induction 1 as [|x l Hl IH Hx]; simpl; [done|]. rewrite IH.
  destruct l as [|y l]; simpl; [done|].
  inversion Hx as [|?? Hxy]; subst. unfold cmp_le in Hxy.
  by rewrite (proj2 (Z.leb_le _ _) Hxy).
Qed.

Section Ordered.
Hypothesis cmp_total : ∀ x y, cmp_le x y ∨ cmp_le y x.
Hypothesis cmp_trans : ∀ x y z, cmp_le x y → cmp_le y z → cmp_le x z.

Lemma sort_insert_sorted x l :
  StronglySorted cmp_le l → StronglySorted cmp_le (sort_insert x l).
Proof.
  induction 1 as [|y l Hl IH Hy]; simpl; [repeat constructor|].
  destruct (cmp x y <=? 0)%Z eqn:E.
  - apply Z.leb_le in E. repeat constructor; [done..|].
    eapply Forall_impl; [exact Hy|]. intros z Hz. eapply cmp_trans; [exact E|exact Hz].
  - apply Z.leb_gt in E. constructor; [done|]. rewrite sort_insert_perm.
    constructor; [|done]. destruct (cmp_total x y) as [H|H]; [unfold cmp_le in H; lia|done].
Qed.

Lemma js_sort_sorted l : StronglySorted cmp_le (js_sort l).
Proof. induction l; simpl; [constructor|]. by apply sort_insert_sorted. Qed.

Lemma js_sort_idemp l : js_sort (js_sort l) = js_sort l.
Proof. apply js_sort_id, js_sort_sorted. Qed.
End Ordered.
End StableSort.

Lemma StronglySorted_impl {A} (R1 R2 : A → A → Prop) l :
  (∀ x y, R1 x y → R2 x y) → StronglySorted R1 l → StronglySorted R2 l.
Proof.
  intros HR. induction 1 as [|x l Hl IH Hx]; constructor; [done|].
  eapply Forall_impl; [exact Hx|]. auto.
Qed.

(** In a sorted list every element is below the later ones. *)
Lemma StronglySorted_lookup {A} (R : A → A → Prop) l i j x y :
  StronglySorted R l → (i < j)%nat → l !! i = Some x → l !! j = Some y → R x y.
Proof.
  intros Hs. revert i j. induction Hs as [|z l Hs IH Hz]; intros i j Hij Hi Hj; [done|].
  destruct j as [|j]; [lia|]. destruct i as [|i]; simpl in *; simplify_eq.
  - rewrite Forall_forall in Hz. apply Hz. by eapply list_elem_of_lookup_2.
  - eapply IH; [|done..]. lia.
Qed.

(** A comparator that subtracts two integer keys is total and transitive. *)
Lemma key_cmp_total {A} (k : A → Z) (x y : A) :
  cmp_le (λ a b, k a - k b)%Z x y ∨ cmp_le (λ a b, k a - k b)%Z y x.
Proof. unfold cmp_le. lia. Qed.

Lemma key_cmp_trans {A} (k : A → Z) (x y z : A) :
  cmp_le (λ a b, k a - k b)%Z x y → cmp_le (λ a b, k a - k b)%Z y z →
  cmp_le (λ a b, k a - k b)%Z x z.
Proof. unfold cmp_le. lia. Qed.

(** [Array.from(new Set(l))]: the first occurrence of each element, in order. *)
Section Dedup.
Context {A : Type} `{EqDecision A}.

Definition js_dedup (l : list A) : list A :=
  reverse (foldl (λ seen x, if decide (x ∈ seen) then seen else x :: seen) [] l).

Lemma js_dedup_acc (l seen : list A) :
  NoDup seen →
  let r := foldl (λ seen x, if decide (x ∈ seen) then seen else x :: seen) seen l in
  NoDup r ∧ ∀ x, x ∈ r ↔ x ∈ seen ∨ x ∈ l.
Proof.
  revert seen; induction l as [|y l IH]; intros seen Hs; simpl.
  - split; [done|]. intros x. set_solver.
  - destruct (decide (y ∈ seen)) as [Hy|Hy].
    + destruct (IH seen Hs) as [H1 H2]. split; [done|]. intros x. rewrite H2. set_solver.
    + destruct (IH (y :: seen)) as [H1 H2]; [by constructor|].
      split; [done|]. intros x. rewrite H2. set_solver.
Qed.

Lemma js_dedup_NoDup l : NoDup (js_dedup l).
Proof.
  unfold js_dedup. rewrite reverse_Permutation. apply (js_dedup_acc l []). constructor.
Qed.

Lemma elem_of_js_dedup x l : x ∈ js_dedup l ↔ x ∈ l.
Proof.
  unfold js_dedup. rewrite elem_of_reverse.
  destruct (js_dedup_acc l [] (NoDup_nil_2)) as [_ H]. rewrite H. set_solver.
Qed.
End Dedup.

(** The first element that satisfies a boolean test ([Array.prototype.find]). *)
Fixpoint js_find {A} (p : A → bool) (l : list A) : option A :=
  match l with
  | [] => None
  | x :: l' => if p x then Some x else js_find p l'
  end.

Lemma js_find_Some {A} (p : A → bool) l x : js_find p l = Some x → x ∈ l ∧ p x = true.
Proof.
  induction l as [|y l IH]; simpl; [done|]. case_match; intros; simplify_eq; [set_solver|].
  destruct IH; set_solver.
Qed.

Lemma js_find_None {A} (p : A → bool) l : js_find p l = None ↔ ∀ x, x ∈ l → p x = false.
Proof.
  induction l as [|y l IH]; simpl; [set_solver|].
  destruct (p y) eqn:E.
  - split; [done|]. intros H. rewrite (H y) in E; [done|set_solver].
  - rewrite IH. set_solver.
Qed.

(** ** Options *)

Lemma default_is_Some {A} (d : A) (o : option A) : is_Some o → o = Some (o ?: d).
Proof. by intros [x ->]. Qed.

(** ** Integers *)

(** [x >>> 0]: the unsigned 32-bit reading of an integer. *)
Definition uint32 (x : Z) : Z := x mod 2 ^ 32.

Lemma uint32_id x : (0 <= x < 2 ^ 32)%Z → uint32 x = x.
Proof. intros. by apply Z.mod_small. Qed.

Lemma uint32_range x : (0 <= uint32 x < 2 ^ 32)%Z.
Proof. by apply Z.mod_pos_bound. Qed.

(** Clamping into an interval, as [Math.max(lo, Math.min(hi, x))]. *)
Definition clampZ (lo hi x : Z) : Z := Z.max lo (Z.min hi x).

Lemma clampZ_range lo hi x : (lo <= hi)%Z → (lo <= clampZ lo hi x <= hi)%Z.
Proof. unfold clampZ. lia. Qed.

Create HintDb js discriminated.
#[export] Hint Resolve uint32_range clampZ_range js_sort_perm js_dedup_NoDup : js.
#[export] Hint Rewrite @elem_of_js_sort @elem_of_js_dedup @js_sort_length : js.
