(* ===== verification/JsStr.v ===== *)
(** * Strings of the source

    The strings the program handles (uuids, hosts, MAC addresses, hexadecimal digests, model names,
    JSON keys) are ASCII; a [string] is the byte sequence of its UTF-8 encoding, and the operations
    below are those of [String.prototype] on ASCII text, leaving bytes from 128 on alone. *)

From S2P Require Export Prelude.
From stdpp Require Export pretty.
From Stdlib Require Export Ascii.

Local Open Scope string_scope.

(** ** Character classes *)

(** White space as [trim] and [parseInt] skip it: TAB, LF, VT, FF, CR and the space. *)
Definition is_ws (c : ascii) : bool :=
  let n := nat_of_ascii c in ((9 <=? n)%nat && (n <=? 13)%nat) || (n =? 32)%nat.

Definition is_digit (c : ascii) : bool :=
  let n := nat_of_ascii c in (48 <=? n)%nat && (n <=? 57)%nat.

Definition is_lower (c : ascii) : bool :=
  let n := nat_of_ascii c in (97 <=? n)%nat && (n <=? 122)%nat.

Definition is_upper (c : ascii) : bool :=
  let n := nat_of_ascii c in (65 <=? n)%nat && (n <=? 90)%nat.

Definition digit_val (c : ascii) : Z := Z.of_nat (nat_of_ascii c) - 48.

Definition char_lower (c : ascii) : ascii :=
  if is_upper c then ascii_of_nat (nat_of_ascii c + 32) else c.

Definition char_upper (c : ascii) : ascii :=
  if is_lower c then ascii_of_nat (nat_of_ascii c - 32) else c.

(** [[0-9a-f]] of a regular expression without the [i] flag. *)
Definition is_hex_lower (c : ascii) : bool :=
  is_digit c || let n := nat_of_ascii c in (97 <=? n)%nat && (n <=? 102)%nat.

(** The same with the [i] flag. *)
Definition is_hex (c : ascii) : bool := is_hex_lower (char_lower c).

(** ** Operations *)

Fixpoint str_map (f : ascii → ascii) (s : string) : string :=
  match s with EmptyString => EmptyString | String c s' => String (f c) (str_map f s') end.

Definition to_lower : string → string := str_map char_lower.
Definition to_upper : string → string := str_map char_upper.

Fixpoint str_all (p : ascii → bool) (s : string) : bool :=
  match s with EmptyString => true | String c s' => p c && str_all p s' end.

Fixpoint str_filter (p : ascii → bool) (s : string) : string :=
  match s with
  | EmptyString => EmptyString
  | String c s' => if p c then String c (str_filter p s') else str_filter p s'
  end.

Fixpoint trim_start (s : string) : string :=
  match s with
  | EmptyString => EmptyString
  | String c s' => if is_ws c then trim_start s' else s
  end.

(** Drops the trailing white space: a character stays when it is not white or something follows. *)
Fixpoint trim_end (s : string) : string :=
  match s with
  | EmptyString => EmptyString
  | String c s' =>
      match trim_end s' with
      | EmptyString => if is_ws c then EmptyString else String c EmptyString
      | t => String c t
      end
  end.

Definition trim (s : string) : string := trim_end (trim_start s).

(** [s.startsWith(p)] *)
Fixpoint starts_with (p s : string) : bool :=
  match p, s with
  | EmptyString, _ => true
  | String a p', String b s' => Ascii.eqb a b && starts_with p' s'
  | _, EmptyString => false
  end.

(** [s.includes(p)] *)
Fixpoint includes (p s : string) : bool :=
  starts_with p s || match s with EmptyString => false | String _ s' => includes p s' end.

(** [s.split(c)] for a one-character separator: never the empty array. *)
Fixpoint split_on (c : ascii) (s : string) : list string :=
  match s with
  | EmptyString => [EmptyString]
  | String d s' =>
      if Ascii.eqb c d then EmptyString :: split_on c s'
      else match split_on c s' with
           | w :: ws => String d w :: ws
           | [] => [String d EmptyString]
           end
  end.

(** [l.join(sep)] *)
Fixpoint join (sep : string) (l : list string) : string :=
  match l with
  | [] => EmptyString
  | [w] => w
  | w :: l' => w +:+ sep +:+ join sep l'
  end.

(** [s.replaceAll(a, b)] for one-character strings, and [s.replaceAll(a, '')]. *)
Definition replace_char (a b : ascii) : string → string :=
  str_map (λ c, if Ascii.eqb c a then b else c).

Definition remove_char (a : ascii) : string → string := str_filter (λ c, negb (Ascii.eqb c a)).

(** [s.slice(0, n)], [s.slice(n)] and [s.slice(-n)]. *)
Fixpoint str_take (n : nat) (s : string) : string :=
  match n, s with
  | S n', String c s' => String c (str_take n' s')
  | _, _ => EmptyString
  end.

Fixpoint str_drop (n : nat) (s : string) : string :=
  match n, s with
  | S n', String _ s' => str_drop n' s'
  | _, _ => s
  end.

Definition str_last (n : nat) (s : string) : string := str_drop (String.length s - n) s.

(** [x.repeat(n)] *)
Fixpoint str_repeat (x : string) (n : nat) : string :=
  match n with O => EmptyString | S n' => x +:+ str_repeat x n' end.

Definition str_truthy (s : string) : bool := match s with EmptyString => false | _ => true end.

(** [s || undefined], [s || null] *)
Definition nonempty (s : string) : option string := if str_truthy s then Some s else None.

(** ** [Number.parseInt(s, 10)]

    Skips white space, reads an optional sign and the longest run of digits; [None] is NaN. The
    result is the exact integer, which the source only compares with small bounds. *)
Fixpoint take_digits (acc : option Z) (s : string) : option Z :=
  match s with
  | EmptyString => acc
  | String c s' =>
      if is_digit c
      then take_digits (Some (match acc with Some a => 10 * a | None => 0 end + digit_val c)%Z) s'
      else acc
  end.

Definition parseInt10 (s : string) : option Z :=
  match trim_start s with
  | String "-" s' => Z.opp <$> take_digits None s'
  | String "+" s' => take_digits None s'
  | s' => take_digits None s'
  end.

(** ** Lemmas *)

Lemma str_truthy_spec s : str_truthy s = true ↔ s ≠ EmptyString.
Proof. by destruct s. Qed.

Lemma str_truthy_false s : str_truthy s = false ↔ s = EmptyString.
Proof. by destruct s. Qed.

Lemma nonempty_Some s t : nonempty s = Some t ↔ s = t ∧ t ≠ EmptyString.
Proof. unfold nonempty. destruct s; naive_solver. Qed.

Lemma length_app_str s t : String.length (s +:+ t) = (String.length s + String.length t)%nat.
Proof. induction s as [|c s IH]; [done|]. exact (f_equal S IH). Qed.

Lemma app_assoc_str s t u : (s +:+ t) +:+ u = s +:+ (t +:+ u).
Proof. induction s as [|c s IH]; [done|]. exact (f_equal (String c) IH). Qed.

Lemma app_empty s : s +:+ "" = s.
Proof. induction s as [|c s IH]; [done|]. exact (f_equal (String c) IH). Qed.

Lemma length_repeat_char c n : String.length (str_repeat (String c EmptyString) n) = n.
Proof. induction n as [|n IH]; [done|]. exact (f_equal S IH). Qed.

Lemma take_all s : str_take (String.length s) s = s.
Proof. induction s as [|c s IH]; [done|]. cbn. by rewrite IH. Qed.

Lemma str_all_impl (p q : ascii → bool) s : (∀ c, p c = true → q c = true) → str_all p s = true → str_all q s = true.
Proof. intros Hi. induction s as [|c s IH]; [done|]. cbn. intros [Hc Hs]%andb_prop. by rewrite Hi, IH. Qed.


Lemma str_all_take p n s : str_all p s = true → str_all p (str_take n s) = true.
Proof. revert n. induction s as [|c s IH]; intros [|n]; cbn; try done. intros [-> Hs]%andb_prop. by apply IH. Qed.

Lemma length_take_le n s : (String.length (str_take n s) <= n)%nat ∧ (String.length (str_take n s) <= String.length s)%nat.
Proof. revert n. induction s as [|c s IH]; intros [|n]; cbn; try lia. destruct (IH n). lia. Qed.

Lemma all_filtered p s : str_all p (str_filter p s) = true.
Proof. induction s as [|c s IH]; cbn; [done|]. destruct (p c) eqn:E; [cbn; by rewrite E|done]. Qed.

Lemma str_map_app f s t : str_map f (s +:+ t) = str_map f s +:+ str_map f t.
Proof. induction s as [|c s IH]; simpl; [done|]. unfold String.append in *. by rewrite <- IH. Qed.

Lemma str_map_idemp f (Hf : ∀ c, f (f c) = f c) s : str_map f (str_map f s) = str_map f s.
Proof. induction s as [|c s IH]; simpl; [done|]. by rewrite Hf, IH. Qed.

Lemma ascii_nat_range c : (nat_of_ascii c < 256)%nat.
Proof. apply nat_ascii_bounded. Qed.

Lemma char_lower_not_upper c : is_upper (char_lower c) = false.
Proof.
  unfold char_lower. destruct (is_upper c) eqn:E; [|done].
  unfold is_upper in *. apply andb_prop in E as [E1 E2].
  apply Nat.leb_le in E1, E2. rewrite nat_ascii_embedding by lia.
  apply andb_false_intro2, Nat.leb_gt. lia.
Qed.

Lemma char_lower_idemp c : char_lower (char_lower c) = char_lower c.
Proof. unfold char_lower at 1. by rewrite char_lower_not_upper. Qed.

Lemma to_lower_idemp s : to_lower (to_lower s) = to_lower s.
Proof. apply str_map_idemp, char_lower_idemp. Qed.

(** [trim] leaves no white space at either end, so trimming twice changes nothing. *)
Lemma trim_start_idemp s : trim_start (trim_start s) = trim_start s.
Proof. induction s as [|c s IH]; simpl; [done|]. destruct (is_ws c) eqn:E; [done|]. simpl. by rewrite E. Qed.

Lemma trim_end_idemp s : trim_end (trim_end s) = trim_end s.
Proof.
  induction s as [|c s IH]; simpl; [done|].
  destruct (trim_end s) as [|d t] eqn:E.
  - destruct (is_ws c) eqn:Ec; simpl; [done|by rewrite Ec].
  - cbn [trim_end] in *. by rewrite IH.
Qed.

Lemma trim_start_head c s : is_ws c = false → trim_start (String c s) = String c s.
Proof. simpl. by intros ->. Qed.

Lemma trim_start_cases s :
  trim_start s = EmptyString ∨ ∃ c t, trim_start s = String c t ∧ is_ws c = false.
Proof.
  induction s as [|c s IH]; simpl; [by left|]. destruct (is_ws c) eqn:E; [done|]. right. eauto.
Qed.

Lemma trim_end_head c s : is_ws c = false → ∃ t, trim_end (String c s) = String c t.
Proof. intros E. simpl. destruct (trim_end s); [rewrite E|]; eauto. Qed.

Lemma trim_idemp s : trim (trim s) = trim s.
Proof.
  unfold trim. destruct (trim_start_cases s) as [->|(c & t & -> & Hc)]; [done|].
  destruct (trim_end_head c t Hc) as [u Hu]. rewrite Hu, trim_start_head by done.
  rewrite <- Hu. apply trim_end_idemp.
Qed.

(** Splitting what was joined: words free of the separator come back. *)
Lemma split_on_free c w : str_all (λ d, negb (Ascii.eqb c d)) w = true → split_on c w = [w].
Proof.
  induction w as [|d w IH]; simpl; [done|]. intros H. apply andb_prop in H as [H1 H2].
  apply negb_true_iff in H1. by rewrite H1, IH.
Qed.

Lemma split_on_app c w s :
  str_all (λ d, negb (Ascii.eqb c d)) w = true →
  split_on c (w +:+ String c s) = w :: split_on c s.
Proof.
  induction w as [|d w IH]; simpl; intros H.
  - by rewrite Ascii.eqb_refl.
  - apply andb_prop in H as [H1 H2]. apply negb_true_iff in H1.
    unfold String.append in IH |- *. by rewrite H1, (IH H2).
Qed.

Lemma split_on_sep c w s :
  str_all (λ d, negb (Ascii.eqb c d)) w = true →
  split_on c (w +:+ String c EmptyString +:+ s) = w :: split_on c s.
Proof. apply split_on_app. Qed.

Lemma split_on_nonempty c s : split_on c s ≠ [].
Proof. destruct s as [|d s]; simpl; [done|]. repeat case_match; done. Qed.

Lemma starts_with_refl s : starts_with s s = true.
Proof. induction s as [|c s IH]; simpl; [done|]. by rewrite Ascii.eqb_refl, IH. Qed.

#[export] Hint Rewrite trim_idemp to_lower_idemp starts_with_refl : js.

(** ** Collation

    [a.localeCompare(b)] depends on the locale of the host; what the source relies on is that it is a
    consistent comparison, the interface below. *)
Class Collation (cmp : string → string → Z) : Prop := {
  coll_refl a : cmp a a = 0%Z;
  coll_total a b : cmp_le cmp a b ∨ cmp_le cmp b a;
  coll_trans a b c : cmp_le cmp a b → cmp_le cmp b c → cmp_le cmp a c;
}.

(** Comparison by code units, an instance. *)
Fixpoint byte_compare (a b : string) : Z :=
  match a, b with
  | EmptyString, EmptyString => 0
  | EmptyString, _ => -1
  | _, EmptyString => 1
  | String x a', String y b' =>
      let d := (Z.of_nat (nat_of_ascii x) - Z.of_nat (nat_of_ascii y))%Z in
      if (d =? 0)%Z then byte_compare a' b' else d
  end.

#[export] Instance byte_collation : Collation byte_compare.
Proof.
  split; unfold cmp_le.
  - induction a as [|x a IH]; simpl; [done|]. by rewrite Z.sub_diag.
  - induction a as [|x a IH]; intros [|y b]; simpl; try lia.
    repeat case_match; bool_hyps; try lia. apply IH.
  - induction a as [|x a IH]; intros [|y b] [|z c]; simpl; try lia.
    repeat case_match; bool_hyps; try lia. apply IH.
Qed.

(** Two comparators in sequence: the second decides the ties of the first. *)
Definition lex_cmp {A} (c1 c2 : A → A → Z) (a b : A) : Z := if (c1 a b =? 0)%Z then c2 a b else c1 a b.

Section Lex.
Context {A : Type} (k : A → Z) (c2 : A → A → Z).
Hypothesis c2_total : ∀ a b, cmp_le c2 a b ∨ cmp_le c2 b a.
Hypothesis c2_trans : ∀ a b c, cmp_le c2 a b → cmp_le c2 b c → cmp_le c2 a c.

Let cmp := lex_cmp (λ a b, k a - k b)%Z c2.

Lemma lex_le a b : cmp_le cmp a b ↔ (k a < k b)%Z ∨ (k a = k b ∧ cmp_le c2 a b).
Proof. unfold cmp_le, cmp, lex_cmp. case_match; bool_hyps; lia. Qed.

Lemma lex_total a b : cmp_le cmp a b ∨ cmp_le cmp b a.
Proof.
  rewrite !lex_le. destruct (c2_total a b), (Z.lt_trichotomy (k a) (k b)) as [|[|]]; auto.
Qed.

Lemma lex_trans a b c : cmp_le cmp a b → cmp_le cmp b c → cmp_le cmp a c.
Proof.
  rewrite !lex_le. intros [|[? H1]] [|[? H2]]; [left; lia..|]. right. split; [lia|].
  by eapply c2_trans.
Qed.
End Lex.

(** ** Examples *)

Example trim_ex : trim "  a b	 " = "a b".
Proof. reflexivity. Qed.

Example split_ex : split_on "." "10.0.0.1" = ["10"; "0"; "0"; "1"].
Proof. reflexivity. Qed.

Example parseInt10_ex :
  (parseInt10 " 24x", parseInt10 "", parseInt10 "-3", parseInt10 "x") = (Some 24, None, Some (-3), None)%Z.
Proof. reflexivity. Qed.
