(* ===== verification/OMap.v ===== *)
(** * Insertion-ordered maps

    A [Map] and an object used as a dictionary iterate in insertion order, which the source observes
    (the poller walks its tables, object spreads decide the order of the configuration file). They
    are association lists here, with an abstraction to [gmap] under which the operations are stdpp's
    lookup, insert and delete. *)

From S2P Require Export JsStr.

Section OMap.
Context {K V : Type} `{EqDecision K}.

Abbreviation jsmap := (list (K * V)).

(** [m.get(k)], [o?.[k]] *)
Fixpoint jget (k : K) (m : jsmap) : option V :=
  match m with
  | [] => None
  | (k', v) :: m' => if decide (k = k') then Some v else jget k m'
  end.

(** [m.set(k, v)], [o[k] = v]: an existing key keeps its place. *)
Fixpoint jset (k : K) (v : V) (m : jsmap) : jsmap :=
  match m with
  | [] => [(k, v)]
  | (k', v') :: m' => if decide (k = k') then (k, v) :: m' else (k', v') :: jset k v m'
  end.

(** [m.delete(k)], [delete o[k]] *)
Fixpoint jdel (k : K) (m : jsmap) : jsmap :=
  match m with
  | [] => []
  | (k', v') :: m' => if decide (k = k') then jdel k m' else (k', v') :: jdel k m'
  end.

(** [m.has(k)], [[...m.keys()]] and [{ ...m1, ...m2 }] *)
Definition jhas (k : K) (m : jsmap) : bool := match jget k m with Some _ => true | None => false end.

Definition jkeys (m : jsmap) : list K := fst <$> m.

Definition jvalues (m : jsmap) : list V := snd <$> m.

Definition jspread (m1 m2 : jsmap) : jsmap := foldl (λ m '(k, v), jset k v m) m1 m2.

(** Every key once: what [Map] and object literals guarantee. *)
Definition jwf (m : jsmap) : Prop := NoDup (jkeys m).

Lemma jget_set_eq k v m : jget k (jset k v m) = Some v.
Proof. induction m as [|[k' v'] m IH]; simpl; repeat case_decide; simpl; repeat case_decide; done. Qed.

Lemma jget_set_ne k k' v m : k ≠ k' → jget k' (jset k v m) = jget k' m.
Proof.
  intros Hne. induction m as [|[k2 v2] m IH]; simpl; [by case_decide|].
  repeat case_decide; simplify_eq; simpl; repeat case_decide; naive_solver.
Qed.

Lemma jget_set k k' v m : jget k' (jset k v m) = if decide (k = k') then Some v else jget k' m.
Proof. case_decide; [subst; apply jget_set_eq|by apply jget_set_ne]. Qed.

Lemma jget_del_eq k m : jget k (jdel k m) = None.
Proof. induction m as [|[k' v'] m IH]; simpl; [done|]. case_decide; [done|]. simpl. by case_decide. Qed.

Lemma jget_del_ne k k' m : k ≠ k' → jget k' (jdel k m) = jget k' m.
Proof.
  intros Hne. induction m as [|[k2 v2] m IH]; simpl; [done|].
  repeat case_decide; simplify_eq; simpl; repeat case_decide; naive_solver.
Qed.

Lemma jget_del k k' m : jget k' (jdel k m) = if decide (k = k') then None else jget k' m.
Proof. case_decide; [subst; apply jget_del_eq|by apply jget_del_ne]. Qed.

Lemma jget_elem k v m : jget k m = Some v → (k, v) ∈ m.
Proof.
  induction m as [|[k' v'] m IH]; simpl; [done|].
  case_decide; intros; simplify_eq; [left|right; auto].
Qed.

Lemma jget_keys k m : k ∈ jkeys m ↔ is_Some (jget k m).
Proof.
  induction m as [|[k' v'] m IH]; simpl.
  - split; [by intros ?%elem_of_nil|by intros [??]].
  - rewrite elem_of_cons, IH. case_decide; [subst; naive_solver eauto|naive_solver].
Qed.

Lemma jget_None k m : jget k m = None ↔ k ∉ jkeys m.
Proof. rewrite jget_keys, <- eq_None_not_Some. done. Qed.

Lemma jhas_true k m : jhas k m = true ↔ k ∈ jkeys m.
Proof. rewrite jget_keys. unfold jhas. destruct (jget k m); split; try done; eauto. Qed.

Lemma jhas_false k m : jhas k m = false ↔ jget k m = None.
Proof. unfold jhas. by destruct (jget k m). Qed.

Lemma jget_elem_wf k v m : jwf m → (k, v) ∈ m → jget k m = Some v.
Proof.
  induction m as [|[k' v'] m IH]; unfold jwf in *; simpl; intros Hn Hin; [by apply elem_of_nil in Hin|].
  apply NoDup_cons in Hn as [Hk Hn]. apply elem_of_cons in Hin as [|Hin]; simplify_eq.
  - by case_decide.
  - case_decide; [|auto]. subst. destruct Hk. apply list_elem_of_fmap. by exists (k', v).
Qed.

Lemma jkeys_cons k v m : jkeys ((k, v) :: m) = k :: jkeys m.
Proof. done. Qed.

Lemma jkeys_set k v m : jkeys (jset k v m) = if decide (k ∈ jkeys m) then jkeys m else jkeys m ++ [k].
Proof.
  induction m as [|[k' v'] m IH]; [done|].
  cbn [jset]. destruct (decide (k = k')) as [->|Hne]; rewrite !jkeys_cons.
  - rewrite decide_True by left. done.
  - rewrite IH. repeat case_decide; set_solver.
Qed.

Lemma elem_of_jkeys_set k k' v m : k' ∈ jkeys (jset k v m) ↔ k' = k ∨ k' ∈ jkeys m.
Proof. rewrite jkeys_set. case_decide; set_solver. Qed.

Lemma jwf_nil : jwf [].
Proof. constructor. Qed.

Lemma jwf_set k v m : jwf m → jwf (jset k v m).
Proof.
  unfold jwf. rewrite jkeys_set. case_decide as H; [done|]. intros Hn.
  apply NoDup_app. split_and!; [done|set_solver|apply NoDup_singleton].
Qed.

Lemma jkeys_del k m : jkeys (jdel k m) = filter (λ k', k' ≠ k) (jkeys m).
Proof.
  induction m as [|[k' v'] m IH]; simpl; [done|]. rewrite filter_cons.
  repeat case_decide; simplify_eq; simpl; by rewrite IH.
Qed.

Lemma elem_of_jkeys_del k k' m : k' ∈ jkeys (jdel k m) ↔ k' ≠ k ∧ k' ∈ jkeys m.
Proof. by rewrite jkeys_del, list_elem_of_filter. Qed.

Lemma jwf_del k m : jwf m → jwf (jdel k m).
Proof. unfold jwf. rewrite jkeys_del. apply NoDup_filter. Qed.

Lemma jset_length_in k v m : k ∈ jkeys m → length (jset k v m) = length m.
Proof.
  intros H. rewrite <- (length_fmap fst), <- (length_fmap fst m). fold (jkeys (jset k v m)).
  rewrite jkeys_set. by case_decide.
Qed.

Lemma jset_length_le k v m : (length (jset k v m) <= S (length m))%nat.
Proof. induction m as [|[k' v'] m IH]; simpl; [done|]. case_decide; simpl; lia. Qed.

Lemma jdel_length_le k m : (length (jdel k m) <= length m)%nat.
Proof. induction m as [|[k' v'] m IH]; simpl; [done|]. case_decide; simpl; lia. Qed.

Lemma jdel_notin k m : k ∉ jkeys m → jdel k m = m.
Proof.
  induction m as [|[k' v'] m IH]; simpl; [done|]. intros H. apply not_elem_of_cons in H as [??].
  case_decide; [done|]. by rewrite IH.
Qed.

Lemma jset_jset k v v' m : jset k v (jset k v' m) = jset k v m.
Proof.
  induction m as [|[k' x] m IH]; cbn; [by rewrite decide_True|]. destruct (decide (k = k')) as [<-|Hne]; cbn.
  - by rewrite decide_True.
  - by rewrite decide_False, IH.
Qed.

Lemma jset_id k v m : jget k m = Some v → jset k v m = m.
Proof.
  induction m as [|[k' v'] m IH]; simpl; [done|]. case_decide; intros; simplify_eq; [done|].
  by rewrite IH.
Qed.

(** The last write of a spread wins; keys the right side lacks keep their value. *)
Lemma jget_spread k m1 m2 : jwf m2 → jget k (jspread m1 m2) =
  match jget k m2 with Some v => Some v | None => jget k m1 end.
Proof.
  revert m1. induction m2 as [|[k' v'] m2 IH]; intros m1 Hwf; simpl; [done|].
  inversion Hwf as [|?? Hk Hwf']; subst. rewrite (IH (jset k' v' m1) Hwf').
  case_decide; subst.
  - destruct (jget k' m2) eqn:E; [|by rewrite jget_set_eq].
    destruct Hk. apply jget_keys; eauto.
  - destruct (jget k m2); [done|]. by rewrite jget_set_ne.
Qed.

Lemma jwf_spread m1 m2 : jwf m1 → jwf (jspread m1 m2).
Proof.
  revert m1. induction m2 as [|[k v] m2 IH]; intros m1 H; simpl; [done|]. by apply IH, jwf_set.
Qed.

(** ** Abstraction to finite maps *)

Context `{!Countable K}.

Definition to_gmap (m : jsmap) : gmap K V := foldr (λ '(k, v) g, <[k := v]> g) ∅ m.

Lemma lookup_to_gmap k m : to_gmap m !! k = jget k m.
Proof.
  induction m as [|[k' v'] m IH]; simpl; [by rewrite lookup_empty|].
  rewrite lookup_insert. repeat case_decide; naive_solver.
Qed.

Lemma to_gmap_set k v m : to_gmap (jset k v m) = <[k := v]> (to_gmap m).
Proof.
  apply map_eq. intros k'. rewrite lookup_to_gmap, jget_set, lookup_insert, lookup_to_gmap. done.
Qed.

Lemma to_gmap_del k m : to_gmap (jdel k m) = delete k (to_gmap m).
Proof.
  apply map_eq. intros k'. rewrite lookup_to_gmap, jget_del, lookup_delete, lookup_to_gmap. done.
Qed.

(** Two maps with the same lookups: equality up to iteration order. *)
Definition jequiv (m1 m2 : jsmap) : Prop := ∀ k, jget k m1 = jget k m2.

#[global] Instance jequiv_equivalence : Equivalence jequiv.
Proof. split; unfold jequiv; [by intros m k|by intros m1 m2 H k|]. intros m1 m2 m3 H1 H2 k. by rewrite H1. Qed.

#[global] Instance jget_proper k : Proper (jequiv ==> eq) (jget k).
Proof. intros m1 m2 H. apply H. Qed.

#[global] Instance jset_proper k v : Proper (jequiv ==> jequiv) (jset k v).
Proof. intros m1 m2 H k'. by rewrite !jget_set, (H k'). Qed.

#[global] Instance jdel_proper k : Proper (jequiv ==> jequiv) (jdel k).
Proof. intros m1 m2 H k'. by rewrite !jget_del, (H k'). Qed.

#[global] Instance to_gmap_proper : Proper (jequiv ==> eq) to_gmap.
Proof. intros m1 m2 H. apply map_eq. intros k. by rewrite !lookup_to_gmap. Qed.
End OMap.

Arguments jwf {_ _} _.
Abbreviation jsmap K V := (list (K * V)).

#[export] Hint Rewrite @jget_set_eq @jget_del_eq : js.
#[export] Hint Rewrite @jget_set_ne @jget_del_ne using congruence : js.
#[export] Hint Resolve jwf_set jwf_del jwf_nil jwf_spread : js.

(** Lookups of updated maps, with the key comparisons decided by the context. *)
Ltac map_simpl :=
  repeat first
    [ rewrite jget_set_eq in * | rewrite jget_del_eq in *
    | rewrite jget_set_ne in * by congruence | rewrite jget_del_ne in * by congruence ].
