(* ===== verification/JsNum.v ===== *)
(** * Numbers of the source

    A JavaScript number is an IEEE 754 double. [num] is the Standard Library's executable model of
    that format ([spec_float] with 53 bits of precision), so [*], [/], [+] and [-] round as the
    engine does, and a number that is an integer has an exact [Z] value. *)

From S2P Require Export JsStr.
From Stdlib Require Export SpecFloat.

Local Open Scope Z_scope.

Abbreviation num := spec_float.

#[export] Instance num_eq_dec : EqDecision num.
Proof. unfold EqDecision, Decision. decide equality; try apply Z.eq_dec; try apply Pos.eq_dec; try apply Bool.bool_dec. Defined.

Definition num_prec : Z := 53.
Definition num_emax : Z := 1024.

Definition num_nan : num := S754_nan.

(** The double nearest to an integer. *)
Definition num_of_Z (z : Z) : num := binary_normalize num_prec num_emax z 0 false.

Definition num_add : num → num → num := SFadd num_prec num_emax.
Definition num_sub : num → num → num := SFsub num_prec num_emax.
Definition num_mul : num → num → num := SFmul num_prec num_emax.
Definition num_div : num → num → num := SFdiv num_prec num_emax.

(** [===] on numbers, [<] and [<=]: false when either side is NaN. *)
Definition num_eqb : num → num → bool := SFeqb.
Definition num_ltb : num → num → bool := SFltb.
Definition num_leb : num → num → bool := SFleb.

(** [Number.isFinite], [Number.isNaN] *)
Definition is_finite (x : num) : bool :=
  match x with S754_zero _ | S754_finite _ _ _ => true | _ => false end.

Definition is_nan (x : num) : bool := match x with S754_nan => true | _ => false end.

(** A finite double is [n / d] with [d] a power of two. *)
Definition num_ratio (x : num) : option (Z * Z) :=
  match x with
  | S754_zero _ => Some (0, 1)
  | S754_finite s m e =>
      Some (if 0 <=? e then (cond_Zopp s (Zpos m) * 2 ^ e, 1) else (cond_Zopp s (Zpos m), 2 ^ (- e)))
  | _ => None
  end.

(** The exact value of an integer double: [Number.isInteger x] is [is_Some (num_Z x)]. *)
Definition num_Z (x : num) : option Z :=
  match num_ratio x with
  | Some (n, d) => if n mod d =? 0 then Some (n / d) else None
  | None => None
  end.

Definition is_integer (x : num) : bool := match num_Z x with Some _ => true | None => false end.

(** [Math.floor] and [Math.round] (halves go up) of a finite number; [None] when the argument, and
    then the result, is not finite. The integer result is exact; the sign of a zero result is not
    kept, which no expression of the source can tell. *)
Definition num_floor (x : num) : option Z := (λ '(n, d), n / d) <$> num_ratio x.

Definition num_round (x : num) : option Z := (λ '(n, d), (2 * n + d) / (2 * d)) <$> num_ratio x.

(** [Math.max(a, b)] and [Math.min(a, b)]: NaN when either argument is. *)
Definition num_max (a b : num) : num :=
  if is_nan a || is_nan b then num_nan else if num_ltb a b then b else a.

Definition num_min (a b : num) : num :=
  if is_nan a || is_nan b then num_nan else if num_ltb b a then b else a.

(** ** Decimal text *)

(** The double nearest to [m * 10 ^ e], for [0 <= m]. The exponent is cut where the result is
    infinite or zero whatever the digits are. *)
Definition num_of_dec (s : bool) (m e : Z) : num :=
  match m with
  | Zpos p =>
      if 0 <=? e then
        if 400 <? e then S754_infinity s
        else match m * 10 ^ e with
             | Zpos q => binary_round num_prec num_emax s q 0
             | _ => S754_zero s
             end
      else if 400 + Z.log2 m <? - e then S754_zero s
      else let '(q, ez, lz) := SFdiv_core_binary num_prec num_emax (Zpos p) 0 (10 ^ (- e)) 0 in
           binary_round_aux num_prec num_emax s q ez lz
  | _ => S754_zero s
  end.

(** Reads a run of digits: the value so far and how many were read. *)
Fixpoint read_digits (acc : Z) (n : nat) (s : string) : Z * nat * string :=
  match s with
  | String c s' => if is_digit c then read_digits (10 * acc + digit_val c) (S n) s' else (acc, n, s)
  | EmptyString => (acc, n, s)
  end.

(** An exponent part, or nothing; [None] for a malformed one. *)
Definition read_exponent (s : string) : option Z :=
  match s with
  | EmptyString => Some 0
  | String c s1 =>
      if Ascii.eqb (char_lower c) "e" then
        let '(neg, s2) := match s1 with
                          | String "-" t => (true, t)
                          | String "+" t => (false, t)
                          | _ => (false, s1)
                          end in
        let '(v, n, rest) := read_digits 0 0 s2 in
        match n, rest with
        | S _, EmptyString => Some (if (neg : bool) then - v else v)
        | _, _ => None
        end
      else None
  end.

(** An unsigned decimal literal: digits, an optional fraction, an optional exponent. *)
Definition read_decimal (neg : bool) (s : string) : num :=
  let '(ip, n1, s1) := read_digits 0 0 s in
  let '(m, n2, s2) := match s1 with
                      | String "." t => let '(v, k, r) := read_digits ip 0 t in (v, k, r)
                      | _ => (ip, O, s1)
                      end in
  match (n1 + n2)%nat, read_exponent s2 with
  | O, _ => num_nan
  | _, Some e => num_of_dec neg m (e - Z.of_nat n2)
  | _, None => num_nan
  end.

(** [0x], [0o] and [0b] literals. *)
Definition hex_val (c : ascii) : Z :=
  if is_digit c then digit_val c else Z.of_nat (nat_of_ascii (char_lower c)) - 87.

Fixpoint read_radix (r acc : Z) (s : string) : option Z :=
  match s with
  | EmptyString => Some acc
  | String c s' =>
      if is_hex c && (hex_val c <? r) then read_radix r (r * acc + hex_val c) s' else None
  end.

Definition radix_literal (r : Z) (s : string) : num :=
  match s with
  | EmptyString => num_nan
  | _ => match read_radix r 0 s with Some z => num_of_Z z | None => num_nan end
  end.

(** [Number(s)] on a string. *)
Definition str_to_num (s : string) : num :=
  match trim s with
  | EmptyString => S754_zero false
  | String "0" (String c t) as u =>
      let c' := char_lower c in
      if Ascii.eqb c' "x" then radix_literal 16 t
      else if Ascii.eqb c' "o" then radix_literal 8 t
      else if Ascii.eqb c' "b" then radix_literal 2 t
      else read_decimal false u
  | String "+" t => if String.eqb t "Infinity" then S754_infinity false else read_decimal false t
  | String "-" t => if String.eqb t "Infinity" then S754_infinity true else read_decimal true t
  | u => if String.eqb u "Infinity" then S754_infinity false else read_decimal false u
  end.

(** ** [String(x)]: the shortest digits that read back as [x] *)

(** The least [n] of the candidates with [x < 10 ^ n], for [x = n0 / d0]. *)
Fixpoint dec_point (n0 d0 : Z) (n : Z) (fuel : nat) : Z :=
  match fuel with
  | O => n
  | S f => if (if 0 <=? n then n0 <? d0 * 10 ^ n else n0 * 10 ^ (- n) <? d0)
           then n else dec_point n0 d0 (n + 1) f
  end.

(** [n0 / d0 * 10 ^ p], rounded to the nearest integer. *)
Definition scaled (n0 d0 p : Z) : Z :=
  let n1 := if 0 <=? p then n0 * 10 ^ p else n0 in
  let d1 := if 0 <=? p then d0 else d0 * 10 ^ (- p) in
  (2 * n1 + d1) / (2 * d1).

Fixpoint shortest (x : num) (n0 d0 n : Z) (k : Z) (fuel : nat) : Z * Z :=
  let s := scaled n0 d0 (k - n) in
  match fuel with
  | O => (s, k)
  | S f => if num_eqb (num_of_dec false s (n - k)) x then (s, k)
           else shortest x n0 d0 n (k + 1) f
  end.

Definition num_digits (x : num) : Z * Z * Z :=
  match num_ratio x with
  | Some (n0, d0) =>
      let est := (Z.log2 n0 - Z.log2 d0) * 30103 / 100000 - 1 in
      let n := dec_point n0 d0 est 5 in
      let '(s, k) := shortest x n0 d0 n 1 16 in
      if s =? 10 ^ k then (s / 10, k, n + 1) else (s, k, n)
  | None => (0, 0, 0)
  end.

Definition format_digits (s k n : Z) : string :=
  let ds := pretty s in
  let zeros z := str_repeat "0" (Z.to_nat z) in
  if (k <=? n) && (n <=? 21) then ds +:+ zeros (n - k)
  else if (0 <? n) && (n <=? 21) then str_take (Z.to_nat n) ds +:+ "." +:+ str_drop (Z.to_nat n) ds
  else if (-6 <? n) && (n <=? 0) then "0." +:+ zeros (- n) +:+ ds
  else let e := n - 1 in
       str_take 1 ds +:+ (if k =? 1 then "" else "." +:+ str_drop 1 ds) +:+ "e"
         +:+ (if e <? 0 then "-" else "+") +:+ pretty (Z.abs e).

Definition num_to_str (x : num) : string :=
  match x with
  | S754_nan => "NaN"
  | S754_infinity false => "Infinity"
  | S754_infinity true => "-Infinity"
  | S754_zero _ => "0"
  | S754_finite sg m e =>
      let '(s, k, n) := num_digits (S754_finite false m e) in
      (if sg then "-" else "") +:+ format_digits s k n
  end.

(** ** Lemmas *)

Lemma num_Z_finite x z : num_Z x = Some z → is_finite x = true.
Proof. unfold num_Z. destruct x; simpl; done. Qed.

Lemma is_integer_spec x : is_integer x = true ↔ is_Some (num_Z x).
Proof. unfold is_integer. destruct (num_Z x); split; try done; eauto. Qed.

Lemma num_ratio_finite x : is_finite x = true ↔ is_Some (num_ratio x).
Proof. destruct x; simpl; split; try done; eauto. Qed.

Lemma num_ratio_pos x n d : num_ratio x = Some (n, d) → 0 < d.
Proof.
  destruct x as [s|s| |s m e]; simpl; intros H; simplify_eq; [lia|].
  destruct (0 <=? e) eqn:E; simplify_eq; [lia|]. apply Z.leb_gt in E. lia.
Qed.

Lemma num_round_finite x : is_finite x = true ↔ is_Some (num_round x).
Proof. rewrite num_ratio_finite. unfold num_round. by rewrite fmap_is_Some. Qed.

(** Rounding a number that is an integer gives it back. *)
Lemma num_round_Z x z : num_Z x = Some z → num_round x = Some z.
Proof.
  unfold num_Z, num_round. destruct (num_ratio x) as [[n d]|] eqn:E; [|done].
  pose proof (num_ratio_pos _ _ _ E) as Hd. destruct (n mod d =? 0) eqn:F; [|done].
  apply Z.eqb_eq in F. intros H; simplify_eq. simpl. f_equal.
  apply Z.mod_divide in F as [q ->]; [|lia]. rewrite Z.div_mul by lia.
  replace (2 * (q * d) + d) with (d + q * (2 * d)) by ring.
  rewrite Z.div_add by lia. rewrite Z.div_small by lia. lia.
Qed.

Lemma num_floor_Z x z : num_Z x = Some z → num_floor x = Some z.
Proof. unfold num_Z, num_floor. destruct (num_ratio x) as [[n d]|]; [|done]. case_match; [|done]. by intros [= <-]. Qed.

Lemma num_floor_round x f r : num_floor x = Some f → num_round x = Some r → f <= r <= f + 1.
Proof.
  unfold num_floor, num_round. destruct (num_ratio x) as [[n d]|] eqn:E; [|done].
  pose proof (num_ratio_pos _ _ _ E) as Hd. simpl. intros; simplify_eq.
  assert (n / d = (2 * n) / (2 * d)) as -> by (rewrite Z.div_mul_cancel_l; lia).
  split; [apply Z.div_le_mono; lia|].
  transitivity ((2 * n + 1 * (2 * d)) / (2 * d)); [apply Z.div_le_mono; lia|].
  rewrite Z.div_add; lia.
Qed.

(** ** Integers below [2 ^ 53] are exact *)

Section Exact.
Lemma digits2_iter p n : Zpos (digits2_pos (Pos.iter xO p n)) = Zpos (digits2_pos p) + Zpos n.
Proof.
  induction n as [|n IH] using Pos.peano_ind; [simpl; lia|].
  rewrite Pos.iter_succ. cbn [digits2_pos]. lia.
Qed.

Lemma iter_xO p n : Zpos (Pos.iter xO p n) = Zpos p * 2 ^ Zpos n.
Proof.
  induction n as [|n IH] using Pos.peano_ind; [simpl; lia|].
  rewrite Pos.iter_succ, Pos2Z.inj_succ, Z.pow_succ_r, Pos2Z.inj_xO, IH by lia. ring.
Qed.

Lemma digits2_bound p d : 0 <= d → Zpos p < 2 ^ d → Zpos (digits2_pos p) <= d.
Proof.
  revert d; induction p as [p IH|p IH|]; intros d Hd H; cbn [digits2_pos].
  1,2: assert (Zpos (digits2_pos p) <= d - 1); [|lia].
  1,2: assert (0 < d) by (destruct (Z.eq_dec d 0) as [->|]; [simpl in H; lia|lia]).
  1,2: apply IH; [lia|]; replace d with (Z.succ (d - 1)) in H by lia;
       rewrite Z.pow_succ_r in H by lia; lia.
  destruct (Z.eq_dec d 0) as [->|]; [simpl in H; lia|lia].
Qed.

(** A mantissa of 53 bits with an exponent in range is not rounded. *)
Lemma round_aux_exact s m e :
  Zpos (digits2_pos m) = 53 → -1074 <= e <= 971 →
  binary_round_aux num_prec num_emax s (Zpos m) e loc_Exact = S754_finite s m e.
Proof.
  intros Hd He. unfold binary_round_aux, shr_fexp. cbn [Zdigits2].
  assert (fexp num_prec num_emax (Zpos (digits2_pos m) + e) - e = 0) as ->.
  { unfold fexp, emin, num_prec, num_emax. rewrite Hd. lia. }
  cbn [shr shr_record_of_loc shr_m loc_of_shr_record round_nearest_even Zdigits2].
  assert (fexp num_prec num_emax (Zpos (digits2_pos m) + e) - e = 0) as ->.
  { unfold fexp, emin, num_prec, num_emax. rewrite Hd. lia. }
  cbn [shr shr_record_of_loc shr_m].
  assert ((e <=? num_emax - num_prec) = true) as -> by (apply Z.leb_le; unfold num_prec, num_emax; lia).
  done.
Qed.

Lemma binary_round_small s p :
  Zpos p < 2 ^ 53 →
  ∃ m e, binary_round num_prec num_emax s p 0 = S754_finite s m e ∧ e <= 0 ∧
         Zpos m = Zpos p * 2 ^ (- e).
Proof.
  intros Hp. pose proof (digits2_bound p 53 ltac:(lia) Hp) as Hd.
  unfold binary_round, shl_align.
  assert (fexp num_prec num_emax (Zpos (digits2_pos p) + 0) = Zpos (digits2_pos p) - 53) as ->.
  { unfold fexp, emin, num_prec, num_emax. lia. }
  destruct (Zpos (digits2_pos p) - 53 - 0) as [|q|q] eqn:E; [|lia|].
  - exists p, 0. rewrite round_aux_exact by lia. split; [done|]. simpl. lia.
  - exists (Pos.iter xO p q), (Zpos (digits2_pos p) - 53).
    rewrite round_aux_exact; [|rewrite digits2_iter; lia|lia].
    split; [done|]. split; [lia|]. rewrite iter_xO. do 2 f_equal. lia.
Qed.

Lemma num_Z_of_Z z : Z.abs z < 2 ^ 53 → num_Z (num_of_Z z) = Some z.
Proof.
  intros Hz. unfold num_of_Z, binary_normalize. destruct z as [|p|p]; [done|..].
  all: match goal with |- context [binary_round _ _ ?s ?p _] =>
         destruct (binary_round_small s p ltac:(lia)) as (m & e & -> & He & Hm) end.
  all: unfold num_Z; cbn [num_ratio]; cbn [cond_Zopp].
  all: assert (Hpow : 0 < 2 ^ (- e)) by (apply Z.pow_pos_nonneg; lia).
  all: destruct (0 <=? e) eqn:E0.
  all: try (apply Z.leb_le in E0; assert (e = 0) as -> by lia; rewrite Z.mod_1_r, Z.div_1_r;
            simpl in *; f_equal; lia).
  all: rewrite Hm.
  - rewrite Z.mod_mul, Z.div_mul by lia. done.
  - rewrite <- Z.mul_opp_l, Z.mod_mul, Z.div_mul by lia. done.
Qed.
End Exact.

#[export] Hint Rewrite num_Z_of_Z using (simpl; lia) : js.

(** ** Examples *)

Example num_to_str_ex :
  num_to_str <$> [num_of_Z 0; num_of_Z 45000; num_div (num_of_Z 2256) (num_of_Z 10);
                  num_div (num_of_Z (-1)) (num_of_Z 3); num_of_Z (10 ^ 21); num_div (num_of_Z 1) (num_of_Z (10 ^ 7))]
  = ["0"; "45000"; "225.6"; "-0.3333333333333333"; "1e+21"; "1e-7"].
Proof. vm_compute. reflexivity. Qed.

Example str_to_num_ex :
  (num_Z (str_to_num " 42 "), num_Z (str_to_num "1e3"), num_Z (str_to_num "0x1F"), str_to_num "4x",
   num_to_str (str_to_num "0.1"), num_Z (str_to_num "")) =
  (Some 42, Some 1000, Some 31, S754_nan, "0.1", Some 0).
Proof. vm_compute. reflexivity. Qed.

Example num_round_ex :
  (num_round (str_to_num "2.5"), num_round (str_to_num "-2.5"), num_floor (str_to_num "-2.5")) =
  (Some 3, Some (-2), Some (-3)).
Proof. vm_compute. reflexivity. Qed.
