(* ===== verification/JsVal.v ===== *)
(** * Untyped values of the source

    What [JSON.parse] returns and what request bodies and device replies are: the source reads them
    through optional chaining, [??], [Number(...)], [String(...)] and type tests. *)

From S2P Require Export OMap JsNum.

Local Open Scope string_scope.

Inductive val : Type :=
| VUndef
| VNull
| VBool (b : bool)
| VNum (n : num)
| VStr (s : string)
| VArr (l : list val)
| VObj (o : list (string * val)).

Section ValInd.
Context (P : val → Prop).
Hypothesis Hundef : P VUndef.
Hypothesis Hnull : P VNull.
Hypothesis Hbool : ∀ b, P (VBool b).
Hypothesis Hnum : ∀ n, P (VNum n).
Hypothesis Hstr : ∀ s, P (VStr s).
Hypothesis Harr : ∀ l, Forall P l → P (VArr l).
Hypothesis Hobj : ∀ o, Forall (λ kv, P (snd kv)) o → P (VObj o).

(** Induction over the values nested in arrays and objects. *)
Fixpoint val_ind' (v : val) : P v :=
  match v with
  | VUndef => Hundef
  | VNull => Hnull
  | VBool b => Hbool b
  | VNum n => Hnum n
  | VStr s => Hstr s
  | VArr l => Harr l ((fix go l := match l return Forall P l with
                                   | [] => @List.Forall_nil _ _
                                   | x :: l' => @List.Forall_cons _ _ _ _ (val_ind' x) (go l')
                                   end) l)
  | VObj o => Hobj o ((fix go o := match o return Forall (λ kv, P (snd kv)) o with
                                   | [] => @List.Forall_nil _ _
                                   | kv :: o' => @List.Forall_cons _ _ _ _ (val_ind' (snd kv)) (go o')
                                   end) o)
  end.
End ValInd.

(** ** Reading *)

(** [v?.k] for a property name [k] that no built-in prototype defines. *)
Definition prop (k : string) (v : val) : val :=
  match v with
  | VObj o => jget k o ?: VUndef
  | _ => VUndef
  end.

(** [v?.k1?.k2...] *)
Definition path (ks : list string) (v : val) : val := foldl (λ v k, prop k v) v ks.

(** [a ?? b] on values. *)
Definition nullish (v : val) : bool := match v with VUndef | VNull => true | _ => false end.

Definition coalesce (a b : val) : val := if nullish a then b else a.

(** [k in v] for a record. *)
Definition has_prop (k : string) (v : val) : bool :=
  match v with VObj o => jhas k o | _ => false end.

(** ** Type tests *)

Definition truthy (v : val) : bool :=
  match v with
  | VUndef | VNull => false
  | VBool b => b
  | VNum n => negb (is_nan n || num_eqb n (S754_zero false))
  | VStr s => str_truthy s
  | VArr _ | VObj _ => true
  end.

Definition is_undef (v : val) : bool := match v with VUndef => true | _ => false end.

(** [typeof v === 'object'] *)
Definition typeof_object (v : val) : bool :=
  match v with VNull | VArr _ | VObj _ => true | _ => false end.

(** [v && typeof v === 'object'] *)
Definition is_object (v : val) : bool := match v with VArr _ | VObj _ => true | _ => false end.

Definition is_array (v : val) : bool := match v with VArr _ => true | _ => false end.

Definition is_string (v : val) : bool := match v with VStr _ => true | _ => false end.

Definition as_str (v : val) : option string := match v with VStr s => Some s | _ => None end.

Definition arr_items (v : val) : list val := match v with VArr l => l | _ => [] end.

(** ** Conversions *)

(** [String(v)]. An array joins its elements, absent ones as the empty string; a record reads
    [[object Object]]. *)
Fixpoint to_str (v : val) : string :=
  match v with
  | VUndef => "undefined"
  | VNull => "null"
  | VBool true => "true"
  | VBool false => "false"
  | VNum n => num_to_str n
  | VStr s => s
  | VArr l => join "," (map (λ x, match x with VUndef | VNull => "" | _ => to_str x end) l)
  | VObj _ => "[object Object]"
  end.

(** [Number(v)] *)
Definition to_num (v : val) : num :=
  match v with
  | VUndef => num_nan
  | VNull => S754_zero false
  | VBool b => num_of_Z (if b then 1 else 0)
  | VNum n => n
  | VStr s => str_to_num s
  | VArr _ | VObj _ => str_to_num (to_str v)
  end.

(** [String(v ?? '')] *)
Definition str_or_empty (v : val) : string := to_str (coalesce v (VStr "")).

(** ** Building *)

(** A record literal: the properties whose value is [undefined] do not reach the wire
    ([JSON.stringify] drops them), so they are left out. *)
Definition mk_obj (l : list (string * val)) : val :=
  VObj (List.filter (λ '(_, v), negb (is_undef v)) l).

(** [...(v !== undefined ? { k: v } : {})] *)
Definition opt_prop {A} (k : string) (f : A → val) (o : option A) : list (string * val) :=
  match o with Some a => [(k, f a)] | None => [] end.

(** [v.k = w] on a record. *)
Definition set_prop (k : string) (w v : val) : val :=
  match v with VObj o => VObj (jset k w o) | _ => v end.

Definition VZ (z : Z) : val := VNum (num_of_Z z).

Definition VOpt {A} (f : A → val) (o : option A) : val := match o with Some a => f a | None => VNull end.

(** ** Lemmas *)

Lemma nullish_path v ks : nullish v = true → ks ≠ [] → path ks v = VUndef.
Proof.
  intros Hv. assert (∀ ks, path ks VUndef = VUndef) as Hu.
  { intros l. induction l as [|k l IH]; [done|]. exact IH. }
  destruct ks as [|k ks]; [done|]. intros _. destruct v; try done; apply Hu.
Qed.

Lemma prop_set_eq k w v : is_object v = true → is_array v = false → prop k (set_prop k w v) = w.
Proof. destruct v; try done. simpl. by rewrite jget_set_eq. Qed.

Lemma prop_set_ne k k' w v : k ≠ k' → prop k' (set_prop k w v) = prop k' v.
Proof. intros. destruct v; try done. simpl. by rewrite jget_set_ne. Qed.

Lemma coalesce_str v s : coalesce v (VStr "") = VStr s → str_or_empty v = s.
Proof. unfold str_or_empty. by intros ->. Qed.

Lemma truthy_not_nullish v : truthy v = true → nullish v = false.
Proof. by destruct v. Qed.

Lemma is_object_truthy v : is_object v = true → truthy v = true.
Proof. by destruct v. Qed.

(** ** Examples *)

Example to_num_ex :
  (num_Z (to_num (VArr [VStr "7"])), to_num (VObj []), num_Z (to_num VNull), to_num VUndef,
   to_str (VArr [VZ 1; VNull; VStr "a"])) =
  (Some 7%Z, S754_nan, Some 0%Z, S754_nan, "1,,a").
Proof. vm_compute. reflexivity. Qed.
