(* ===== verification/Exn.v ===== *)
(** * Errors of the source

    The exceptions the program throws, as values, and the error monad of the synchronous code that
    throws them. *)

From S2P Require Export JsVal.

(** The error classes: [Error], [MerossCloudError] (cloud/types.ts), [MerossLanHttpError]
    (lan/http.ts), [MerossDumpParseError] (dump.ts) and [ApiError] of the web client (lib/api.ts). *)
Inductive exn : Type :=
| JsError (message : string)
| CloudError (message : string) (apiStatus : option num) (info : val)
| LanHttpError (message : string)
| DumpParseError (message : string)
| ApiError (message : string) (code details : val) (status : Z).

(** [e instanceof Error ? e.message : String(e)]: everything thrown is an [Error]. *)
Definition exn_message (e : exn) : string :=
  match e with
  | JsError m | CloudError m _ _ | LanHttpError m | DumpParseError m | ApiError m _ _ _ => m
  end.

Inductive result (A : Type) : Type :=
| Ok (a : A)
| Err (e : exn).
Arguments Ok {A} _.
Arguments Err {A} _.

Definition rbind {A B} (r : result A) (f : A → result B) : result B :=
  match r with Ok a => f a | Err e => Err e end.

Definition result_opt {A} (r : result A) : option A := match r with Ok a => Some a | Err _ => None end.

Definition is_ok {A} (r : result A) : bool := match r with Ok _ => true | Err _ => false end.

Notation "'let?' x ':=' r 'in' k" := (rbind r (λ x, k))
  (at level 100, x name, r at level 100, k at level 200, right associativity) : js_scope.
Notation "'let?' ' p ':=' r 'in' k" := (rbind r (λ x, match x with p => k end))
  (at level 100, p pattern, r at level 100, k at level 200, right associativity) : js_scope.

Lemma rbind_Ok {A B} (r : result A) (f : A → result B) b :
  rbind r f = Ok b ↔ ∃ a, r = Ok a ∧ f a = Ok b.
Proof. destruct r; simpl; naive_solver. Qed.

Lemma rbind_Err {A B} (r : result A) (f : A → result B) e :
  rbind r f = Err e ↔ r = Err e ∨ ∃ a, r = Ok a ∧ f a = Err e.
Proof. destruct r; simpl; naive_solver. Qed.

#[export] Hint Rewrite @rbind_Ok : js.
