(* ===== verification/JsLib.v ===== *)
(** * Dates and JSON

    The parts of the standard library of the source language that the program prints and parses
    with: [Date.prototype.toISOString], [JSON.stringify] and [JSON.parse]. *)

From S2P Require Export Exn.

Local Open Scope string_scope.
Local Open Scope Z_scope.

(** ** Dates *)

Definition pad (n : nat) (z : Z) : string :=
  let s := pretty z in str_repeat "0" (n - String.length s) +:+ s.

(** Year, month and day of a day number (day 0 is 1970-01-01), proleptic Gregorian. *)
Definition civil_of_days (days : Z) : Z * Z * Z :=
  let z := days + 719468 in
  let era := z / 146097 in
  let doe := z mod 146097 in
  let yoe := (doe - doe / 1460 + doe / 36524 - doe / 146096) / 365 in
  let doy := doe - (365 * yoe + yoe / 4 - yoe / 100) in
  let mp := (5 * doy + 2) / 153 in
  let d := doy - (153 * mp + 2) / 5 + 1 in
  let m := if mp <? 10 then mp + 3 else mp - 9 in
  (yoe + era * 400 + (if m <=? 2 then 1 else 0), m, d).

(** [new Date(ms).toISOString()] *)
Definition to_iso (ms : Z) : string :=
  let '(y, m, d) := civil_of_days (ms / 86400000) in
  let t := ms mod 86400000 in
  let year := if (0 <=? y) && (y <=? 9999) then pad 4 y
              else if y <? 0 then "-" +:+ pad 6 (- y) else "+" +:+ pad 6 y in
  year +:+ "-" +:+ pad 2 m +:+ "-" +:+ pad 2 d +:+ "T" +:+ pad 2 (t / 3600000) +:+ ":"
  +:+ pad 2 (t / 60000 mod 60) +:+ ":" +:+ pad 2 (t / 1000 mod 60) +:+ "." +:+ pad 3 (t mod 1000) +:+ "Z".

Example to_iso_ex : to_iso 1700000000123 = "2023-11-14T22:13:20.123Z".
Proof. vm_compute. reflexivity. Qed.

(** ** [JSON.stringify], without indentation *)

Definition chr (z : Z) : ascii := ascii_of_nat (Z.to_nat z).

Definition hex_digit (z : Z) : ascii := chr (if z <? 10 then z + 48 else z + 87).

Definition json_char (c : ascii) : string :=
  let n := Z.of_nat (nat_of_ascii c) in
  if n =? 34 then String "\" (String c EmptyString)
  else if n =? 92 then "\\"
  else if n =? 8 then "\b" else if n =? 9 then "\t" else if n =? 10 then "\n"
  else if n =? 12 then "\f" else if n =? 13 then "\r"
  else if n <? 32 then "\u00" +:+ String (hex_digit (n / 16)) (String (hex_digit (n mod 16)) EmptyString)
  else String c EmptyString.

Definition quote : string := String (chr 34) EmptyString.

Fixpoint json_escape (s : string) : string :=
  match s with EmptyString => EmptyString | String c s' => json_char c +:+ json_escape s' end.

Definition json_string (s : string) : string := quote +:+ json_escape s +:+ quote.

Fixpoint json_stringify (v : val) : string :=
  match v with
  | VUndef | VNull => "null"
  | VBool b => if b then "true" else "false"
  | VNum n => if is_finite n then num_to_str n else "null"
  | VStr s => json_string s
  | VArr l => "[" +:+ join "," (map json_stringify l) +:+ "]"
  | VObj o =>
      "{" +:+ join "," (omap (λ '(k, x), match x with
                                          | VUndef => None
                                          | _ => Some (json_string k +:+ ":" +:+ json_stringify x)
                                          end) o) +:+ "}"
  end.

(** [JSON.stringify(v, null, 2)], inside a value that is indented by [ind]. *)
Fixpoint json_indented (ind : string) (v : val) : string :=
  let newline := String (chr 10) ind in
  match v with
  | VArr l =>
      match l with
      | [] => "[]"
      | _ => "[" +:+ newline +:+ "  " +:+ join ("," +:+ newline +:+ "  ") (map (json_indented (ind +:+ "  ")) l) +:+ newline +:+ "]"
      end
  | VObj o =>
      match omap (λ '(k, x), match x with
                             | VUndef => None
                             | _ => Some (json_string k +:+ ": " +:+ json_indented (ind +:+ "  ") x)
                             end) o with
      | [] => "{}"
      | l => "{" +:+ newline +:+ "  " +:+ join ("," +:+ newline +:+ "  ") l +:+ newline +:+ "}"
      end
  | _ => json_stringify v
  end.

Definition json_pretty : val → string := json_indented "".

(** [x.toFixed(f)] of a number below [10^21]: the nearest text with [f] decimals, a half rounded away from zero. *)
Definition to_fixed (f : nat) (x : num) : string :=
  match num_ratio x with
  | None => num_to_str x
  | Some (n, d) =>
      let scale := 10 ^ Z.of_nat f in
      let k := (2 * Z.abs n * scale + d) / (2 * d) in
      if 10 ^ 21 * d <=? Z.abs n then num_to_str x
      else (if n <? 0 then "-" else "") +:+
           match f with
           | O => pretty k
           | _ => pretty (k / scale) +:+ "." +:+ pad f (k mod scale)
           end
  end.

Example to_fixed_ex :
  (to_fixed 2 (str_to_num "1.005"), to_fixed 1 (str_to_num "-2.25"), to_fixed 0 (str_to_num "2.5"), to_fixed 2 (num_of_Z 3),
   to_fixed 2 (str_to_num "-0.001"), to_fixed 1 num_nan) = ("1.00", "-2.3", "3", "3.00", "-0.00", "NaN").
Proof. by vm_compute. Qed.

(** ** [JSON.parse] *)

Definition is_json_ws (c : ascii) : bool :=
  let n := nat_of_ascii c in Nat.eqb n 32 || Nat.eqb n 9 || Nat.eqb n 10 || Nat.eqb n 13.

Fixpoint skip_ws (s : string) : string :=
  match s with String c s' => if is_json_ws c then skip_ws s' else s | EmptyString => s end.

(** A code point below 65536 as bytes. *)
Definition utf8 (n : Z) : string :=
  if n <? 128 then String (chr n) EmptyString
  else if n <? 2048 then String (chr (192 + n / 64)) (String (chr (128 + n mod 64)) EmptyString)
  else String (chr (224 + n / 4096)) (String (chr (128 + n / 64 mod 64)) (String (chr (128 + n mod 64)) EmptyString)).

Definition parse_hex4 (a b c d : ascii) : option Z :=
  if is_hex a && is_hex b && is_hex c && is_hex d
  then Some (((hex_val a * 16 + hex_val b) * 16 + hex_val c) * 16 + hex_val d) else None.

(** The characters of a string literal after its opening quote. *)
Fixpoint parse_chars (s : string) : option (string * string) :=
  let emit (x : string) (r : option (string * string)) :=
    match r with Some (t, s') => Some (x +:+ t, s') | None => None end in
  match s with
  | EmptyString => None
  | String c s1 =>
      let n := nat_of_ascii c in
      if Nat.eqb n 34 then Some (EmptyString, s1)
      else if Nat.ltb n 32 then None
      else if Nat.eqb n 92 then
        match s1 with
        | String e s2 =>
            match e with
            | "b"%char => emit (String (chr 8) EmptyString) (parse_chars s2)
            | "f"%char => emit (String (chr 12) EmptyString) (parse_chars s2)
            | "n"%char => emit (String (chr 10) EmptyString) (parse_chars s2)
            | "r"%char => emit (String (chr 13) EmptyString) (parse_chars s2)
            | "t"%char => emit (String (chr 9) EmptyString) (parse_chars s2)
            | "/"%char | "\"%char => emit (String e EmptyString) (parse_chars s2)
            | "u"%char =>
                match s2 with
                | String a (String b (String c' (String d s3))) =>
                    match parse_hex4 a b c' d with
                    | Some n => emit (utf8 n) (parse_chars s3)
                    | None => None
                    end
                | _ => None
                end
            | _ => if Nat.eqb (nat_of_ascii e) 34 then emit quote (parse_chars s2) else None
            end
        | EmptyString => None
        end
      else emit (String c EmptyString) (parse_chars s1)
  end.

Definition is_num_char (c : ascii) : bool :=
  is_digit c || Ascii.eqb c "-" || Ascii.eqb c "+" || Ascii.eqb c "." || Ascii.eqb c "e" || Ascii.eqb c "E".

Fixpoint take_while (p : ascii → bool) (s : string) : string * string :=
  match s with
  | String c s' => if p c then let '(a, b) := take_while p s' in (String c a, b) else (EmptyString, s)
  | EmptyString => (EmptyString, EmptyString)
  end.

(** The number grammar of JSON: no leading zero, digits on both sides of the point. *)
Definition json_number_ok (s : string) : bool :=
  let s1 := match s with String "-" s' => s' | _ => s end in
  let '(int, r) := take_while is_digit s1 in
  let int_ok := str_truthy int && (negb (starts_with "0" int) || Nat.eqb (String.length int) 1) in
  let '(frac_ok, r) :=
    match r with
    | String "." r' => let '(f, r2) := take_while is_digit r' in (str_truthy f, r2)
    | _ => (true, r)
    end in
  let exp_ok :=
    match r with
    | EmptyString => true
    | String e r' =>
        let r2 := match r' with String "+" t | String "-" t => t | _ => r' end in
        (Ascii.eqb e "e" || Ascii.eqb e "E") && str_truthy r2 && str_all is_digit r2
    end in
  int_ok && frac_ok && exp_ok.

Definition expect (w s : string) (v : val) : option (val * string) :=
  if starts_with w s then Some (v, str_drop (String.length w) s) else None.

(** Values, elements and members, with fuel above the number of characters left. *)
Fixpoint parse_value (fuel : nat) (s : string) : option (val * string) :=
  match fuel with
  | O => None
  | S fuel =>
      match skip_ws s with
      | String "{" s1 =>
          match skip_ws s1 with
          | String "}" s2 => Some (VObj [], s2)
          | _ => match parse_members fuel [] s1 with Some (o, s2) => Some (VObj o, s2) | None => None end
          end
      | String "[" s1 =>
          match skip_ws s1 with
          | String "]" s2 => Some (VArr [], s2)
          | _ => match parse_elements fuel s1 with Some (l, s2) => Some (VArr l, s2) | None => None end
          end
      | String c s1 as t =>
          if Nat.eqb (nat_of_ascii c) 34
          then match parse_chars s1 with Some (w, s2) => Some (VStr w, s2) | None => None end
          else if Ascii.eqb c "t" then expect "true" t (VBool true)
          else if Ascii.eqb c "f" then expect "false" t (VBool false)
          else if Ascii.eqb c "n" then expect "null" t VNull
          else let '(w, s2) := take_while is_num_char t in
               if json_number_ok w then Some (VNum (str_to_num w), s2) else None
      | EmptyString => None
      end
  end
with parse_elements (fuel : nat) (s : string) : option (list val * string) :=
  match fuel with
  | O => None
  | S fuel =>
      match parse_value fuel s with
      | Some (v, s1) =>
          match skip_ws s1 with
          | String "," s2 =>
              match parse_elements fuel s2 with Some (l, s3) => Some (v :: l, s3) | None => None end
          | String "]" s2 => Some ([v], s2)
          | _ => None
          end
      | None => None
      end
  end
with parse_members (fuel : nat) (acc : list (string * val)) (s : string) : option (list (string * val) * string) :=
  match fuel with
  | O => None
  | S fuel =>
      match skip_ws s with
      | String q s1 =>
          if negb (Nat.eqb (nat_of_ascii q) 34) then None
          else match parse_chars s1 with
               | Some (k, s2) =>
                   match skip_ws s2 with
                   | String ":" s3 =>
                       match parse_value fuel s3 with
                       | Some (v, s4) =>
                           let acc := jset k v acc in
                           match skip_ws s4 with
                           | String "," s5 => parse_members fuel acc s5
                           | String "}" s5 => Some (acc, s5)
                           | _ => None
                           end
                       | None => None
                       end
                   | _ => None
                   end
               | None => None
               end
      | EmptyString => None
      end
  end.

(** [JSON.parse(s)], [None] where it throws. *)
Definition json_parse (s : string) : option val :=
  match parse_value (3 + 2 * String.length s) s with
  | Some (v, r) => if str_truthy (skip_ws r) then None else Some v
  | None => None
  end.

Example json_ex : json_stringify (mk_obj [("a", VArr [VZ 1; VNull; VStr "x"]); ("b", VUndef); ("c", VBool true)]) =
  "{" +:+ quote +:+ "a" +:+ quote +:+ ":[1,null," +:+ quote +:+ "x" +:+ quote +:+ "]," +:+ quote +:+ "c"
  +:+ quote +:+ ":true}".
Proof. vm_compute. reflexivity. Qed.

Example json_parse_ex :
  json_parse (json_stringify (mk_obj [("a", VArr [VZ (-12); VNull; VStr "x"]); ("c", VObj [])])) =
  Some (mk_obj [("a", VArr [VZ (-12); VNull; VStr "x"]); ("c", VObj [])]) ∧
  json_parse "[1," = None ∧ json_parse " 01" = None.
Proof. vm_compute. done. Qed.
