(* ===== verification/JsonText.v ===== *)
(** * JSON texts

    [written gap v s]: [s] is a JSON text of [v], whose tokens have texts of [gap] between them; with the
    white space of JSON for the gaps, [JSON.parse] of such a text is [v], and both forms of
    [JSON.stringify] write such texts. *)

From S2P Require Export JsLib.

Local Open Scope string_scope.
Local Open Scope Z_scope.
Local Open Scope list_scope.

(** ** The grammar *)

(** A number that its own text reads back as. *)
Definition num_reads (n : num) : bool :=
  let s := num_to_str n in
  match s with String c _ => is_digit c || Ascii.eqb c "-" | EmptyString => false end &&
  str_all is_num_char s && json_number_ok s && is_finite n && bool_decide (str_to_num s = n).

(** [items] and [members] take the closing bracket with them. *)
Inductive written (gap : string → Prop) : val → string → Prop :=
| wr_null : written gap VNull "null"
| wr_true : written gap (VBool true) "true"
| wr_false : written gap (VBool false) "false"
| wr_num n : num_reads n = true → written gap (VNum n) (num_to_str n)
| wr_str s : written gap (VStr s) (json_string s)
| wr_nil w : gap w → written gap (VArr []) ("[" +:+ w +:+ "]")
| wr_arr l w t : gap w → items gap l t → written gap (VArr l) ("[" +:+ w +:+ t)
| wr_empty w : gap w → written gap (VObj []) ("{" +:+ w +:+ "}")
| wr_obj o w t : gap w → NoDup (map fst o) → members gap o t → written gap (VObj o) ("{" +:+ w +:+ t)
with items (gap : string → Prop) : list val → string → Prop :=
| it_last x t w : written gap x t → gap w → items gap [x] (t +:+ w +:+ "]")
| it_more x t w w' l t' : written gap x t → gap w → gap w' → items gap l t' →
    items gap (x :: l) (t +:+ w +:+ "," +:+ w' +:+ t')
with members (gap : string → Prop) : list (string * val) → string → Prop :=
| me_last k x t w w' w'' : gap w → gap w' → written gap x t → gap w'' →
    members gap [(k, x)] (json_string k +:+ w +:+ ":" +:+ w' +:+ t +:+ w'' +:+ "}")
| me_more k x t w w' w'' w3 o t' : gap w → gap w' → written gap x t → gap w'' → gap w3 → members gap o t' →
    members gap ((k, x) :: o) (json_string k +:+ w +:+ ":" +:+ w' +:+ t +:+ w'' +:+ "," +:+ w3 +:+ t').

Scheme written_ind' := Minimality for written Sort Prop
with items_ind' := Minimality for items Sort Prop
with members_ind' := Minimality for members Sort Prop.
Combined Scheme written_mutind from written_ind', items_ind', members_ind'.

Definition blank (w : string) : Prop := str_all is_json_ws w = true.

(** ** Reading *)

Lemma skip_blank w s : blank w → skip_ws (w +:+ s) = skip_ws s.
Proof.
  unfold blank. induction w as [|c w IH]; [done|]. change (String c w +:+ s) with (String c (w +:+ s)).
  cbn [str_all skip_ws]. intros [-> Hw]%andb_prop. auto.
Qed.

Lemma blank_app a b : blank a → blank b → blank (a +:+ b).
Proof.
  unfold blank. induction a as [|c a IH]; [done|]. change (String c a +:+ b) with (String c (a +:+ b)).
  cbn [str_all]. intros [-> Ha]%andb_prop Hb. auto.
Qed.

Lemma skip_solid c s : is_json_ws c = false → skip_ws (String c s) = String c s.
Proof. intros Hc. cbn [skip_ws]. by rewrite Hc. Qed.

Lemma skip_token c s : is_json_ws c = false → skip_ws (String c "" +:+ s) = String c s.
Proof. apply skip_solid. Qed.

(** What [take_while is_num_char] stops at. *)
Definition ends_number (s : string) : Prop := match s with String c _ => is_num_char c = false | EmptyString => True end.

Lemma blank_ends w s : blank w → ends_number s → ends_number (w +:+ s).
Proof.
  unfold blank. destruct w as [|c w]; [done|]. cbn. intros [Hc _]%andb_prop _. revert Hc.
  by destruct c as [[] [] [] [] [] [] [] []].
Qed.

Lemma take_number a s : str_all is_num_char a = true → ends_number s → take_while is_num_char (a +:+ s) = (a, s).
Proof.
  induction a as [|c a IH].
  - intros _ Hs. change ("" +:+ s) with s. destruct s as [|d s]; [done|]. cbn [ends_number] in Hs. cbn [take_while]. by rewrite Hs.
  - change (String c a +:+ s) with (String c (a +:+ s)). cbn [str_all take_while]. intros [-> Ha]%andb_prop Hs.
    by rewrite IH.
Qed.

(** *** String literals *)

Lemma parse_char c t : parse_chars (json_char c +:+ t) =
  match parse_chars t with Some (u, s') => Some (String c u, s') | None => None end.
Proof. destruct c as [[] [] [] [] [] [] [] []]; reflexivity. Qed.

Lemma parse_literal s rest : parse_chars (json_escape s +:+ quote +:+ rest) = Some (s, rest).
Proof.
  induction s as [|c s IH]; [done|]. cbn [json_escape]. rewrite app_assoc_str, parse_char, IH. done.
Qed.

Lemma json_string_app s rest : json_string s +:+ rest = String (chr 34) (json_escape s +:+ quote +:+ rest).
Proof. unfold json_string. rewrite !app_assoc_str. reflexivity. Qed.

(** *** Values *)

Lemma parse_value_blank fuel w s : blank w → parse_value fuel (w +:+ s) = parse_value fuel s.
Proof. intros Hw. destruct fuel; [done|]. cbn [parse_value]. by rewrite skip_blank. Qed.

Lemma parse_elements_blank fuel w s : blank w → parse_elements fuel (w +:+ s) = parse_elements fuel s.
Proof. intros Hw. destruct fuel; [done|]. cbn [parse_elements]. by rewrite parse_value_blank. Qed.

Lemma parse_members_blank fuel acc w s : blank w → parse_members fuel acc (w +:+ s) = parse_members fuel acc s.
Proof. intros Hw. destruct fuel; [done|]. cbn [parse_members]. by rewrite skip_blank. Qed.

(** The characters a number starts with. *)
Lemma number_start c : is_digit c || Ascii.eqb c "-" = true →
  c ∈ ["0"; "1"; "2"; "3"; "4"; "5"; "6"; "7"; "8"; "9"; "-"]%char.
Proof. destruct c as [[] [] [] [] [] [] [] []]; cbn; try done; intros _; set_solver. Qed.

(** Those of a value: no white space, and no bracket that closes. *)
Definition solid (s : string) : Prop :=
  match s with String c _ => is_json_ws c = false ∧ c ≠ "]"%char ∧ c ≠ "}"%char | EmptyString => False end.

Lemma skip_app s rest : solid s → skip_ws (s +:+ rest) = s +:+ rest.
Proof. destruct s as [|c s]; [done|]. intros [Hc _]. by apply (skip_solid c). Qed.

Lemma json_string_solid s : solid (json_string s).
Proof. by rewrite <- (app_empty (json_string s)), json_string_app. Qed.

Lemma solid_app s t : solid s → solid (s +:+ t).
Proof. by destruct s. Qed.

Lemma written_solid gap v s : written gap v s → solid s.
Proof.
  intros []; try done; try apply json_string_solid.
  unfold num_reads in *. destruct (num_to_str n) as [|c s0]; [done|].
  match goal with H : _ = true |- _ => rewrite !andb_true_iff in H; destruct H as ((((Hc%number_start & _) & _) & _) & _) end.
  rewrite !elem_of_cons, elem_of_nil in Hc. naive_solver.
Qed.

Lemma items_solid gap l t : items gap l t → solid t.
Proof. intros []; eauto using solid_app, written_solid. Qed.

Lemma members_solid gap o t : members gap o t → solid t.
Proof. intros []; apply solid_app, json_string_solid. Qed.

Lemma solid_length s : solid s → (1 <= String.length s)%nat.
Proof. destruct s; [done|]. cbn. lia. Qed.

Lemma parse_number fuel n rest : num_reads n = true → ends_number rest →
  parse_value (S fuel) (num_to_str n +:+ rest) = Some (VNum n, rest).
Proof.
  unfold num_reads. destruct (num_to_str n) as [|c s] eqn:Es; [done|]. intros H Hrest.
  rewrite !andb_true_iff, bool_decide_eq_true in H. destruct H as ((((Hc & Ha) & Hok) & _) & Hr).
  pose proof (take_number _ _ Ha Hrest) as Ht. apply number_start in Hc.
  assert (Hpv : parse_value (S fuel) (String c s +:+ rest) =
    let '(w, s2) := take_while is_num_char (String c s +:+ rest) in
    if json_number_ok w then Some (VNum (str_to_num w), s2) else None).
  { clear - Hc. rewrite !elem_of_cons, elem_of_nil in Hc. destruct_or! Hc; try done; subst; reflexivity. }
  by rewrite Hpv, Ht, Hok, Hr.
Qed.

Lemma jset_fresh {V} (k : string) (v : V) o : k ∉ map fst o → jset k v o = o ++ [(k, v)].
Proof.
  induction o as [|[k' v'] o IH]; [done|]. cbn. intros Hk. rewrite decide_False by set_solver. by rewrite IH by set_solver.
Qed.

(** *** What the grammar writes is read *)

Definition reads (v : val) (s : string) : Prop := ∀ fuel rest, (String.length s <= fuel)%nat → ends_number rest →
  parse_value fuel (s +:+ rest) = Some (v, rest).
Definition reads_items (l : list val) (t : string) : Prop := ∀ fuel rest, (String.length t <= fuel)%nat →
  parse_elements fuel (t +:+ rest) = Some (l, rest).
Definition reads_members (o : list (string * val)) (t : string) : Prop :=
  ∀ fuel acc rest, (String.length t <= fuel)%nat → NoDup (map fst (acc ++ o)) →
  parse_members fuel acc (t +:+ rest) = Some (acc ++ o, rest).

Ltac fuel_step fuel := unfold blank in *;
  repeat match goal with H : context [String.length (_ +:+ _)] |- _ => rewrite length_app_str in H end;
  cbn [String.length] in *; destruct fuel as [|fuel]; [exfalso; lia|].

Lemma reads_string s : reads (VStr s) (json_string s).
Proof.
  intros fuel rest Hf _. rewrite json_string_app. unfold json_string in Hf.
  assert (String.length quote = 1%nat) by done. fuel_step fuel.
  cbn [parse_value]. rewrite skip_solid by done. cbn. by rewrite parse_literal.
Qed.

Lemma reads_nil w : blank w → reads (VArr []) ("[" +:+ w +:+ "]").
Proof.
  intros Hw fuel rest Hf _. fuel_step fuel. rewrite !app_assoc_str.
  change ("[" +:+ w +:+ "]" +:+ rest) with (String "[" (w +:+ "]" +:+ rest)). cbn [parse_value].
  by rewrite skip_solid, skip_blank.
Qed.

Lemma reads_empty w : blank w → reads (VObj []) ("{" +:+ w +:+ "}").
Proof.
  intros Hw fuel rest Hf _. fuel_step fuel. rewrite !app_assoc_str.
  change ("{" +:+ w +:+ "}" +:+ rest) with (String "{" (w +:+ "}" +:+ rest)). cbn [parse_value].
  by rewrite skip_solid, skip_blank.
Qed.

Lemma reads_arr l w t : blank w → items blank l t → reads_items l t → reads (VArr l) ("[" +:+ w +:+ t).
Proof.
  intros Hw Hl IH fuel rest Hf _. apply items_solid in Hl. fuel_step fuel. rewrite !app_assoc_str.
  change ("[" +:+ w +:+ t +:+ rest) with (String "[" (w +:+ t +:+ rest)). cbn [parse_value].
  rewrite skip_solid, skip_blank, skip_app, parse_elements_blank, IH by (done || lia).
  destruct t as [|c t]; [done|]. destruct Hl as (_ & Hc & _). by destruct c as [[] [] [] [] [] [] [] []].
Qed.

Lemma reads_obj o w t : blank w → NoDup (map fst o) → members blank o t → reads_members o t → reads (VObj o) ("{" +:+ w +:+ t).
Proof.
  intros Hw Hd Hl IH fuel rest Hf _. apply members_solid in Hl. fuel_step fuel. rewrite !app_assoc_str.
  change ("{" +:+ w +:+ t +:+ rest) with (String "{" (w +:+ t +:+ rest)). cbn [parse_value].
  rewrite skip_solid, skip_blank, skip_app, parse_members_blank, IH by (done || lia).
  destruct t as [|c t]; [done|]. destruct Hl as (_ & _ & Hc). by destruct c as [[] [] [] [] [] [] [] []].
Qed.

Lemma reads_last x t w : reads x t → solid t → blank w → reads_items [x] (t +:+ w +:+ "]").
Proof.
  intros IH Ht%solid_length Hw fuel rest Hf. fuel_step fuel. rewrite !app_assoc_str. cbn [parse_elements].
  rewrite IH by first [lia | by apply blank_ends]. by rewrite skip_blank.
Qed.

Lemma reads_more x t w w' l t' : reads x t → solid t → blank w → blank w' → reads_items l t' →
  reads_items (x :: l) (t +:+ w +:+ "," +:+ w' +:+ t').
Proof.
  intros IH Ht%solid_length Hw Hw' IHl fuel rest Hf. fuel_step fuel. rewrite !app_assoc_str. cbn [parse_elements].
  rewrite IH by first [lia | by apply blank_ends].
  rewrite skip_blank, (skip_token "," (w' +:+ t' +:+ rest)), parse_elements_blank, IHl by (done || lia). done.
Qed.

(** The parts of a member up to its value. *)
Lemma parse_member fuel acc k w w' x t rest : blank w → blank w' → reads x t → (String.length t <= fuel)%nat → ends_number rest →
  parse_members (S fuel) acc (json_string k +:+ w +:+ ":" +:+ w' +:+ t +:+ rest) =
  match skip_ws rest with
  | String "," s5 => parse_members fuel (jset k x acc) s5
  | String "}" s5 => Some (jset k x acc, s5)
  | _ => None
  end.
Proof.
  intros Hw Hw' IH Hf Hrest. rewrite json_string_app. cbn [parse_members]. rewrite skip_solid by done.
  cbn [nat_of_ascii chr ascii_of_nat]. change (negb (Nat.eqb (nat_of_ascii (chr 34)) 34)) with false. cbn iota.
  rewrite parse_literal, skip_blank, (skip_token ":" (w' +:+ t +:+ rest)), parse_value_blank, IH by (done || lia). done.
Qed.

Lemma reads_last_member k x t w w' w'' : blank w → blank w' → reads x t → blank w'' →
  reads_members [(k, x)] (json_string k +:+ w +:+ ":" +:+ w' +:+ t +:+ w'' +:+ "}").
Proof.
  intros Hw Hw' IH Hw'' fuel acc rest Hf Hd. fuel_step fuel. rewrite !app_assoc_str.
  rewrite (parse_member _ _ _ _ _ x t), skip_blank by (done || lia || by apply blank_ends).
  rewrite map_app in Hd. apply NoDup_app in Hd as (_ & Hd & _).
  cbn. rewrite jset_fresh; [done|]. set_solver.
Qed.

Lemma reads_more_members k x t w w' w'' w3 o t' : blank w → blank w' → reads x t → blank w'' → blank w3 → reads_members o t' →
  reads_members ((k, x) :: o) (json_string k +:+ w +:+ ":" +:+ w' +:+ t +:+ w'' +:+ "," +:+ w3 +:+ t').
Proof.
  intros Hw Hw' IH Hw'' Hw3 IHo fuel acc rest Hf Hd. fuel_step fuel. rewrite !app_assoc_str.
  rewrite (parse_member _ _ _ _ _ x t), skip_blank by (done || lia || by apply blank_ends).
  assert (Hk : k ∉ map fst acc). { rewrite map_app in Hd. apply NoDup_app in Hd as (_ & Hd & _). set_solver. }
  rewrite (skip_token "," (w3 +:+ t' +:+ rest)), parse_members_blank, jset_fresh, IHo by (done || lia || by rewrite <- app_assoc).
  by rewrite <- app_assoc.
Qed.

(** [JSON.parse] of a text is its value. *)
Lemma written_reads v s : written blank v s → reads v s.
Proof.
  apply (written_mutind blank reads reads_items reads_members);
    eauto using reads_string, reads_nil, reads_empty, reads_arr, reads_obj, reads_last_member, reads_more_members.
  all: try (intros fuel rest Hf _; fuel_step fuel; done).
  - intros n Hn fuel rest Hf Hr. pose proof (solid_length _ (written_solid blank _ _ (wr_num blank n Hn))). fuel_step fuel.
    by apply parse_number.
  - intros. apply reads_last; eauto using written_solid.
  - intros. apply reads_more; eauto using written_solid.
Qed.

Lemma json_parse_written w v s w' : blank w → written blank v s → blank w' → json_parse (w +:+ s +:+ w') = Some v.
Proof.
  intros Hw Hs%written_reads Hw'. unfold json_parse. rewrite parse_value_blank, Hs; [|rewrite !length_app_str; lia| |done].
  - rewrite <- (app_empty w'), skip_blank by done. done.
  - rewrite <- (app_empty w'). by apply blank_ends.
Qed.

(** ** Writing *)

(** The values a text can be written of: no [undefined], numbers that read back, and every key of a record once. *)
Fixpoint json_ok (v : val) : bool :=
  match v with
  | VUndef => false
  | VNull | VBool _ | VStr _ => true
  | VNum n => num_reads n
  | VArr l => forallb json_ok l
  | VObj o => forallb (λ kv, json_ok (snd kv)) o && bool_decide (NoDup (map fst o))
  end.

Definition member_text (colon : string) (text : val → string) (kv : string * val) : option string :=
  match snd kv with VUndef => None | _ => Some (json_string (fst kv) +:+ colon +:+ text (snd kv)) end.

Lemma join_cons sep x y (l : list string) : join sep (x :: y :: l) = x +:+ sep +:+ join sep (y :: l).
Proof. done. Qed.

Section Writers.
(** The white space after a comma, after a colon, and around the brackets. *)
Context (comma colon close : string) (text : val → string).
Context (Hcomma : blank comma) (Hcolon : blank colon) (Hclose : blank close).

Lemma items_written l : l ≠ [] → Forall (λ x, json_ok x = true → written blank x (text x)) l → forallb json_ok l = true →
  items blank l (join ("," +:+ comma) (map text l) +:+ close +:+ "]").
Proof.
  intros Hne Hl Hok. induction l as [|x l IH]; [done|]. cbn [forallb] in Hok. apply andb_prop in Hok as [Hx Hok].
  apply Forall_cons in Hl as [Hw Hl]. destruct l as [|y l]; cbn [map].
  - cbn [join]. by apply it_last; auto.
  - rewrite join_cons, !app_assoc_str. change (text x +:+ "," +:+ ?a) with (text x +:+ "" +:+ "," +:+ a).
    apply it_more; [auto|done|auto|]. by apply IH.
Qed.

Lemma members_written o : o ≠ [] → Forall (λ kv, json_ok (snd kv) = true → written blank (snd kv) (text (snd kv))) o →
  forallb (λ kv, json_ok (snd kv)) o = true →
  members blank o (join ("," +:+ comma) (omap (member_text (":" +:+ colon) text) o) +:+ close +:+ "}").
Proof.
  intros Hne Hl Hok. induction o as [|[k x] o IH]; [done|]. cbn [forallb] in Hok. apply andb_prop in Hok as [Hx Hok].
  apply Forall_cons in Hl as [Hw Hl]. cbn [snd] in *.
  assert (Ht : member_text (":" +:+ colon) text (k, x) = Some (json_string k +:+ "" +:+ ":" +:+ colon +:+ text x)) by by destruct x.
  destruct o as [|[k' y] o]; cbn [omap list_omap]; rewrite Ht.
  - cbn [join]. rewrite !app_assoc_str. by apply me_last; auto.
  - specialize (IH ltac:(done) Hl Hok). cbn [omap list_omap] in IH.
    cbn [forallb] in Hok. apply andb_prop in Hok as [Hy Hok]. cbn [snd] in Hy.
    assert (member_text (":" +:+ colon) text (k', y) = Some (json_string k' +:+ (":" +:+ colon) +:+ text y)) as Hy' by by destruct y.
    rewrite Hy' in IH |- *. rewrite join_cons, !app_assoc_str. rewrite !app_assoc_str in IH.
    change (text x +:+ "," +:+ ?a) with (text x +:+ "" +:+ "," +:+ a). by apply me_more; auto.
Qed.
End Writers.

Lemma json_ok_obj_text {B} colon text (o : list (string * val)) (a b : B) : forallb (λ kv, json_ok (snd kv)) o = true →
  match omap (member_text colon text) o with [] => a | _ => b end = match o with [] => a | _ => b end.
Proof. destruct o as [|[k x] o]; [done|]. cbn [forallb]. intros [Hx _]%andb_prop. by destruct x. Qed.

Lemma json_ok_obj o : json_ok (VObj o) = true → forallb (λ kv, json_ok (snd kv)) o = true ∧ NoDup (map fst o).
Proof. cbn [json_ok]. rewrite andb_true_iff, bool_decide_eq_true. done. Qed.

Lemma json_stringify_obj o : json_stringify (VObj o) = "{" +:+ join "," (omap (member_text ":" json_stringify) o) +:+ "}".
Proof.
  cbn [json_stringify]. do 3 f_equal. induction o as [|[k x] o IH]; [done|]. cbn [omap list_omap]. rewrite IH. by destruct x.
Qed.

Lemma json_indented_obj ind o : json_indented ind (VObj o) =
  match omap (member_text ": " (json_indented (ind +:+ "  "))) o with
  | [] => "{}"
  | l => "{" +:+ String (chr 10) ind +:+ "  " +:+ join ("," +:+ String (chr 10) ind +:+ "  ") l +:+ String (chr 10) ind +:+ "}"
  end.
Proof.
  cbn [json_indented]. replace (omap _ o) with (omap (member_text ": " (json_indented (ind +:+ "  "))) o); [done|].
  induction o as [|[k x] o IH]; [done|]. cbn [omap list_omap]. rewrite IH. by destruct x.
Qed.

Lemma json_stringify_written v : json_ok v = true → written blank v (json_stringify v).
Proof.
  induction v as [| |b|n|s|l IH|o IH] using val_ind'; intros Hok; try done.
  - constructor.
  - destruct b; constructor.
  - cbn [json_stringify json_ok] in *. assert (is_finite n = true) as ->; [|by constructor].
    unfold num_reads in Hok. rewrite !andb_true_iff in Hok. naive_solver.
  - constructor.
  - cbn [json_ok json_stringify] in *. destruct (decide (l = [])) as [->|Hl]; [by apply (wr_nil _ "")|].
    apply (wr_arr _ _ ""); [done|]. by apply (items_written "" "").
  - apply json_ok_obj in Hok as [Hok Hd]. rewrite json_stringify_obj.
    destruct (decide (o = [])) as [->|Ho]; [by apply (wr_empty _ "")|].
    apply (wr_obj _ _ ""); [done..|]. by apply (members_written "" "" "").
Qed.

Lemma json_indented_written v ind : blank ind → json_ok v = true → written blank v (json_indented ind v).
Proof.
  revert ind. induction v as [| |b|n|s|l IH|o IH] using val_ind'; intros ind Hind Hok;
    try by apply json_stringify_written.
  1,2: assert (Hg : blank (String (chr 10) ind +:+ "  ")) by by apply blank_app.
  - destruct (decide (l = [])) as [->|Hl]; [by apply (wr_nil _ "")|].
    assert (written blank (VArr l) ("[" +:+ (String (chr 10) ind +:+ "  ") +:+
      (join ("," +:+ String (chr 10) ind +:+ "  ") (map (json_indented (ind +:+ "  ")) l) +:+ String (chr 10) ind +:+ "]"))).
    { apply wr_arr; [done|]. apply items_written; [done..| |done]. eapply Forall_impl; [exact IH|]. auto using blank_app. }
    destruct l as [|y l]; [done|]. rewrite !app_assoc_str in H. exact H.
  - apply json_ok_obj in Hok as [Hok Hd]. rewrite json_indented_obj.
    destruct (decide (o = [])) as [->|Ho]; [by apply (wr_empty _ "")|].
    assert (written blank (VObj o) ("{" +:+ (String (chr 10) ind +:+ "  ") +:+
      (join ("," +:+ String (chr 10) ind +:+ "  ") (omap (member_text (":" +:+ " ") (json_indented (ind +:+ "  "))) o) +:+
       String (chr 10) ind +:+ "}"))) as Hw.
    { apply wr_obj; [done..|]. apply members_written; [done..| |done]. eapply Forall_impl; [exact IH|]. cbn. auto using blank_app. }
    rewrite !app_assoc_str in Hw. change (":" +:+ " ") with ": " in Hw.
    assert (omap (member_text ": " (json_indented (ind +:+ "  "))) o ≠ []).
    { destruct o as [|[k x] o]; [done|]. cbn [forallb] in Hok. apply andb_prop in Hok as [Hx _]. by destruct x. }
    by destruct (omap _ o).
Qed.

(** [JSON.parse] undoes both forms of [JSON.stringify]. *)
Lemma json_parse_stringify v : json_ok v = true → json_parse (json_stringify v) = Some v.
Proof. intros H%json_stringify_written. rewrite <- (app_empty (json_stringify v)). by apply (json_parse_written "" v _ ""). Qed.

Lemma json_parse_pretty v w : json_ok v = true → blank w → json_parse (json_pretty v +:+ w) = Some v.
Proof. intros H Hw. by apply (json_parse_written "" v _ w); [|apply json_indented_written|]. Qed.
