(* ===== verification/NodePath.v ===== *)
(** * Paths

    The functions of [node:path] the sources use, on POSIX paths, and what they guarantee about the
    directory a path lies in. *)

From S2P Require Export JsLib.

Local Open Scope string_scope.
Local Open Scope list_scope.

(** ** The functions *)

Definition slash : ascii := "/".

Definition isAbsolute (p : string) : bool := starts_with "/" p.

Fixpoint ends_with_slash (p : string) : bool :=
  match p with
  | EmptyString => false
  | String c EmptyString => Ascii.eqb c slash
  | String _ p' => ends_with_slash p'
  end.

(** One segment of a path, over the segments kept so far, the last one first. *)
Definition seg_step (above : bool) (acc : list string) (s : string) : list string :=
  if String.eqb s "" || String.eqb s "." then acc
  else if String.eqb s ".." then
    match acc with
    | [] => if above then [".."] else []
    | t :: acc' => if String.eqb t ".." then ".." :: acc else acc'
    end
  else s :: acc.

Definition norm_segs (above : bool) (l : list string) : list string := rev (foldl (seg_step above) [] l).

Definition path_normalize (p : string) : string :=
  if negb (str_truthy p) then "."
  else
    let body := join "/" (norm_segs (negb (isAbsolute p)) (split_on slash p)) in
    if negb (str_truthy body) then
      if isAbsolute p then "/" else if ends_with_slash p then "./" else "."
    else (if isAbsolute p then "/" else "") +:+ body +:+ (if ends_with_slash p then "/" else "").

Definition path_join (args : list string) : string :=
  match List.filter str_truthy args with
  | [] => "."
  | l => path_normalize (join "/" l)
  end.

(** The path that [resolve] normalizes: the last absolute argument and what follows it. *)
Definition resolve_from (cwd : string) (args : list string) : string :=
  foldl (λ cur a, if negb (str_truthy a) then cur else if isAbsolute a then a else cur +:+ "/" +:+ a) cwd args.

(** [path.resolve], where the working directory is absolute. *)
Definition path_resolve (cwd : string) (args : list string) : string :=
  "/" +:+ join "/" (norm_segs false (split_on slash (resolve_from cwd args))).

Fixpoint str_rev (s : string) : string :=
  match s with EmptyString => "" | String c s' => str_rev s' +:+ String c "" end.

(** What is left of [s] after the characters of [p] it starts with. *)
Fixpoint drop_while (p : ascii → bool) (s : string) : string :=
  match s with
  | EmptyString => ""
  | String c s' => if p c then drop_while p s' else s
  end.

Definition is_slash (c : ascii) : bool := Ascii.eqb c slash.

Definition path_dirname (p : string) : string :=
  match p with
  | EmptyString => "."
  | String c rest =>
      match drop_while (λ d, negb (is_slash d)) (drop_while is_slash (str_rev rest)) with
      | EmptyString => if is_slash c then "/" else "."
      | String _ dir => if is_slash c && negb (str_truthy dir) then "//" else String c (str_rev dir)
      end
  end.

Definition path_basename (p : string) : string :=
  str_rev (fst (take_while (λ d, negb (is_slash d)) (drop_while is_slash (str_rev p)))).

(** The ancestors of a directory up to the root, itself first: the loop
    [while (dir !== path.dirname(dir)) dir = path.dirname(dir)]. *)
Fixpoint ancestors_fuel (fuel : nat) (dir : string) : list string :=
  match fuel with
  | O => [dir]
  | S fuel => let parent := path_dirname dir in
              if String.eqb parent dir then [dir] else dir :: ancestors_fuel fuel parent
  end.

Definition ancestors (dir : string) : list string := ancestors_fuel (String.length dir) dir.

(** [path.relative(root, dir)] for a directory below the root. *)
Definition relative_below (root dir : string) : option string :=
  let prefix := if ends_with_slash root then root else root +:+ "/" in
  if starts_with prefix dir then Some (str_drop (String.length prefix) dir) else None.

(** [path.relative(from, to)]: up from where the paths part, and down. *)
Fixpoint relative_segs (from to : list string) : list string :=
  match from, to with
  | a :: from', b :: to' => if String.eqb a b then relative_segs from' to' else map (λ _, "..") from ++ to
  | _, _ => map (λ _, "..") from ++ to
  end.

Definition path_relative (cwd from to : string) : string :=
  let segs p := norm_segs false (split_on slash (resolve_from cwd [p])) in
  join "/" (relative_segs (segs from) (segs to)).

(** As node computes them. *)
Example node_paths :
  path_join ["/a/b"; "../c"; ""; "./d/"] = "/a/c/d/" ∧ path_join [""; ""] = "." ∧ path_join ["/a"; ".."] = "/" ∧
  path_normalize "../x/../.." = "../.." ∧ path_normalize "./" = "./" ∧
  path_resolve "/w" ["a"; "../b/"] = "/w/b" ∧ path_resolve "/w" ["a"; "/b"; "c/."] = "/b/c" ∧
  path_dirname "/a/b/" = "/a" ∧ path_dirname "/a" = "/" ∧ path_dirname "/" = "/" ∧ path_dirname "a" = "." ∧
  path_dirname "//a" = "//" ∧ path_dirname "/a//b" = "/a/" ∧ path_basename "/a/b/" = "b" ∧ path_basename "/" = "" ∧
  ancestors "/a/b" = ["/a/b"; "/a"; "/"] ∧ relative_below "/a" "/a/b/c" = Some "b/c" ∧
  path_relative "/w" "/a/b" "/a/c/d" = "../c/d" ∧ path_relative "/w" "x" "/w/x" = "".
Proof. by vm_compute. Qed.

(** ** Segments *)

Definition slash_free (s : string) : Prop := str_all (λ d, negb (Ascii.eqb slash d)) s = true.

(** A segment that names an entry of its directory. *)
Definition plain_seg (s : string) : Prop := slash_free s ∧ s ≠ "" ∧ s ≠ "." ∧ s ≠ "..".

Lemma split_on_append c a b : split_on c (a +:+ String c b) = split_on c a ++ split_on c b.
Proof.
  induction a as [|d a IH].
  - change ("" +:+ String c b) with (String c b). cbn [split_on]. by rewrite Ascii.eqb_refl.
  - change (String d a +:+ String c b) with (String d (a +:+ String c b)). cbn [split_on]. rewrite IH.
    destruct (Ascii.eqb c d); [done|]. pose proof (split_on_nonempty c a). by destruct (split_on c a).
Qed.

Lemma split_on_segs s : Forall slash_free (split_on slash s).
Proof.
  induction s as [|d s IH]; [by repeat constructor|]. cbn [split_on]. destruct (Ascii.eqb slash d) eqn:E; [by constructor|].
  pose proof (split_on_nonempty slash s) as Hn. destruct (split_on slash s) as [|w ws]; [done|].
  apply Forall_cons in IH as [Hw Hws]. constructor; [|done]. unfold slash_free in *. cbn [str_all]. by rewrite E.
Qed.

Lemma split_on_join l : l ≠ [] → Forall slash_free l → split_on slash (join "/" l) = l.
Proof.
  intros Hl Hf. induction Hf as [|w l Hw Hf IH]; [done|]. destruct l as [|w' l]; [by apply split_on_free|].
  change (join "/" (w :: w' :: l)) with (w +:+ "/" +:+ join "/" (w' :: l)). rewrite (split_on_sep slash) by done. by rewrite IH.
Qed.

Lemma join_split s : join "/" (split_on slash s) = s.
Proof.
  induction s as [|d s IH]; [done|]. cbn [split_on]. pose proof (split_on_nonempty slash s) as Hn.
  destruct (Ascii.eqb slash d) eqn:E.
  - apply Ascii.eqb_eq in E as <-. destruct (split_on slash s); [done|]. by rewrite <- IH.
  - destruct (split_on slash s) as [|w [|w' ws]]; [done|..]; by rewrite <- IH.
Qed.

Lemma str_eqb_neq a b : a ≠ b → String.eqb a b = false.
Proof. apply String.eqb_neq. Qed.

(** A step on a segment that is not [..] keeps it, or drops an empty one or a dot. *)
Lemma seg_step_keep above acc s : s ≠ ".." →
  seg_step above acc s = (if String.eqb s "" || String.eqb s "." then [] else [s]) ++ acc.
Proof. intros Hs. unfold seg_step. rewrite (str_eqb_neq s "..") by done. by destruct (_ || _). Qed.

Lemma seg_step_plain acc s : Forall plain_seg acc → slash_free s → Forall plain_seg (seg_step false acc s).
Proof.
  intros Ha Hs. unfold seg_step. destruct (String.eqb_spec s "") as [->|]; [done|].
  destruct (String.eqb_spec s ".") as [->|]; [done|]. cbn [orb]. destruct (String.eqb_spec s "..") as [->|].
  - destruct acc as [|t acc]; [done|]. apply Forall_cons in Ha as [Ht Ha].
    destruct (String.eqb_spec t "..") as [->|]; [|done]. by destruct Ht as (_ & _ & _ & []).
  - constructor; [|done]. by split_and!.
Qed.

Lemma norm_segs_plain l : Forall slash_free l → Forall plain_seg (norm_segs false l).
Proof.
  intros Hl. apply Forall_rev. assert (Hacc : Forall plain_seg ([] : list string)) by constructor. revert Hacc.
  generalize (@nil string). induction Hl as [|s l Hs Hl IH]; intros acc Hacc; [done|]. cbn. by apply IH, seg_step_plain.
Qed.

Lemma norm_segs_app above l1 l2 : norm_segs above (l1 ++ l2) = rev (foldl (seg_step above) (rev (norm_segs above l1)) l2).
Proof. unfold norm_segs. by rewrite foldl_app, rev_involutive. Qed.

(** Without [..], normalizing only drops the empty segments and the dots. *)
Definition kept_seg (s : string) : bool := negb (String.eqb s "" || String.eqb s ".").

Lemma foldl_seg_step above l acc : Forall (λ s, s ≠ "..") l → foldl (seg_step above) acc l = rev (List.filter kept_seg l) ++ acc.
Proof.
  intros Hl. revert acc. induction Hl as [|s l Hs Hl IH]; intros acc; [done|]. cbn [foldl List.filter].
  rewrite IH, seg_step_keep by done. unfold kept_seg at 2. destruct (_ || _); [done|]. cbn. by rewrite <- app_assoc.
Qed.

Lemma filter_plain l : Forall plain_seg l → List.filter kept_seg l = l.
Proof.
  induction 1 as [|s l (_ & Hs1 & Hs2 & _) _ IH]; [done|]. cbn [List.filter].
  assert (kept_seg s = true) as -> by (unfold kept_seg; by rewrite !str_eqb_neq). by rewrite IH.
Qed.

Lemma norm_segs_plain_id above l : Forall plain_seg l → norm_segs above l = l.
Proof.
  intros Hl. unfold norm_segs. rewrite foldl_seg_step, app_nil_r, filter_plain; [apply rev_involutive|done|].
  eapply Forall_impl; [exact Hl|]. by intros s (_ & _ & _ & ?).
Qed.

Lemma norm_segs_below above l1 l2 : Forall (λ s, s ≠ "..") l2 →
  norm_segs above (l1 ++ l2) = norm_segs above l1 ++ List.filter kept_seg l2.
Proof. intros H2. rewrite norm_segs_app, foldl_seg_step by done. by rewrite rev_app_distr, !rev_involutive. Qed.

(** ** Absolute paths *)

Definition abs_path (l : list string) : string := "/" +:+ join "/" l.

Lemma split_abs l : Forall plain_seg l → split_on slash (abs_path l) = "" :: match l with [] => [""] | _ => l end.
Proof.
  intros Hl. destruct l as [|s l]; [done|].
  change (split_on slash (abs_path (s :: l))) with ("" :: split_on slash (join "/" (s :: l))).
  f_equal. apply split_on_join; [done|].
  eapply Forall_impl; [exact Hl|]. by intros ? [? _].
Qed.

Lemma norm_segs_nil above l : norm_segs above ("" :: l) = norm_segs above l.
Proof. done. Qed.

Lemma norm_split_abs above l : Forall plain_seg l → norm_segs above (split_on slash (abs_path l)) = l.
Proof.
  intros Hl. rewrite split_abs, norm_segs_nil by done. destruct l as [|s l]; [done|]. by apply norm_segs_plain_id.
Qed.

(** [path.resolve] gives a normal absolute path. *)
Lemma path_resolve_abs cwd args : ∃ l, Forall plain_seg l ∧ path_resolve cwd args = abs_path l.
Proof. eexists. split; [apply norm_segs_plain, split_on_segs|done]. Qed.

Lemma join_cons_nonempty l : Forall plain_seg l → str_truthy (join "/" l) = match l with [] => false | _ => true end.
Proof.
  destruct l as [|s l]; [done|]. intros [(_ & Hs & _) _]%Forall_cons. destruct s; [done|]. by destruct l.
Qed.

(** An absolute path normalizes to one, up to a final slash. *)
Lemma path_normalize_abs p : isAbsolute p = true →
  let l := norm_segs false (split_on slash p) in
  Forall plain_seg l ∧
  path_normalize p = abs_path l +:+ (match l with [] => "" | _ => if ends_with_slash p then "/" else "" end).
Proof.
  intros Hp l. assert (Hl : Forall plain_seg l) by apply norm_segs_plain, split_on_segs. split; [done|].
  unfold path_normalize. destruct p as [|c p]; [done|]. cbn [str_truthy negb]. rewrite Hp. cbn [negb]. fold l.
  rewrite join_cons_nonempty by done. unfold abs_path. by destruct l.
Qed.

(** ** Staying inside a directory *)

(** [p] names an entry at some depth below the directory [root]. *)
Definition lies_below (root p : string) : Prop :=
  ∃ l, l ≠ [] ∧ Forall plain_seg l ∧ (p = root +:+ "/" +:+ join "/" l ∨ p = root +:+ "/" +:+ join "/" l +:+ "/").

Lemma join_app l1 l2 : l1 ≠ [] → l2 ≠ [] → join "/" (l1 ++ l2) = join "/" l1 +:+ "/" +:+ join "/" l2.
Proof.
  intros H1 H2. induction l1 as [|w l1 IH]; [done|]. destruct l1 as [|w' l1]; [by destruct l2|].
  change (join "/" ((w :: w' :: l1) ++ l2)) with (w +:+ "/" +:+ join "/" ((w' :: l1) ++ l2)). rewrite IH by done.
  change (join "/" (w :: w' :: l1)) with (w +:+ "/" +:+ join "/" (w' :: l1)). by rewrite !app_assoc_str.
Qed.

Lemma norm_joined root s : Forall plain_seg root → root ≠ [] → Forall (λ t, t ≠ "..") (split_on slash s) →
  norm_segs false (split_on slash (abs_path root +:+ "/" +:+ s)) = root ++ List.filter kept_seg (split_on slash s).
Proof.
  intros Hr Hne Hs. change (abs_path root +:+ "/" +:+ s) with (abs_path root +:+ String slash s).
  rewrite split_on_append, split_abs by done. destruct root as [|r root]; [done|].
  change (("" :: r :: root) ++ split_on slash s) with ("" :: ((r :: root) ++ split_on slash s)).
  by rewrite norm_segs_nil, norm_segs_below, norm_segs_plain_id.
Qed.

(** Joining a directory with a path that names an entry and does not climb stays below the directory. *)
Lemma path_join_below root s t : Forall plain_seg root → root ≠ [] → Forall (λ t, t ≠ "..") (split_on slash s) →
  t ∈ split_on slash s → kept_seg t = true → lies_below (abs_path root) (path_join [abs_path root; s]).
Proof.
  intros Hr Hne Hs Ht Hk. assert (Hlt : t ∈ List.filter kept_seg (split_on slash s)).
  { apply list_elem_of_In, filter_In. split; [by apply list_elem_of_In|done]. }
  assert (Es : str_truthy s = true) by (destruct s; [by apply list_elem_of_singleton in Ht as ->|done]).
  unfold path_join. cbn [List.filter]. change (str_truthy (abs_path root)) with true. rewrite Es. cbn [join].
  destruct (path_normalize_abs (abs_path root +:+ "/" +:+ s)) as [Hl ->]; [done|]. revert Hl.
  rewrite norm_joined by done. set (slashed := ends_with_slash _). clearbody slashed. intros [_ Hl]%Forall_app.
  exists (List.filter kept_seg (split_on slash s)).
  assert (Hf : List.filter kept_seg (split_on slash s) ≠ []) by (intros E; rewrite E in Hlt; by apply not_elem_of_nil in Hlt).
  split_and!; [done..|]. destruct root as [|r root]; [done|]. unfold abs_path.
  rewrite join_app by done. cbn [app]. destruct slashed; [right|left]; by rewrite ?app_empty, !app_assoc_str.
Qed.

Lemma starts_with_app p s : starts_with p s = true → ∃ u, s = p +:+ u.
Proof.
  revert s. induction p as [|c p IH]; intros s; [by exists s|]. destruct s as [|d s]; [done|]. cbn.
  intros [->%Ascii.eqb_eq Hs]%andb_prop. destruct (IH s Hs) as [u ->]. by exists u.
Qed.

(** A normal absolute path that starts with a normal directory and a slash lies below it. *)
Lemma starts_with_below root l : Forall plain_seg root → Forall plain_seg l → root ≠ [] →
  starts_with (abs_path root +:+ "/") (abs_path l) = true → ∃ t, t ≠ [] ∧ l = root ++ t ∧ lies_below (abs_path root) (abs_path l).
Proof.
  intros Hr Hl Hne [u Hu]%starts_with_app.
  assert (E : split_on slash (abs_path l) = split_on slash (abs_path root) ++ split_on slash u).
  { rewrite Hu, app_assoc_str. apply split_on_append. }
  rewrite !split_abs in E by done. destruct root as [|r root]; [done|].
  destruct l as [|s l]; [exfalso; injection E as E1 E2; by rewrite <- E1 in Hr; apply Forall_cons in Hr as [(_ & ? & _) _]|].
  injection E as -> ->. exists (split_on slash u). split; [apply split_on_nonempty|]. split; [done|].
  apply (proj1 (Forall_app _ (r :: root) _)) in Hl as [_ Hl]. exists (split_on slash u).
  split_and!; [apply split_on_nonempty|done|]. left. change (r :: root ++ ?k) with ((r :: root) ++ k). unfold abs_path.
  rewrite join_app by (done || apply split_on_nonempty). by rewrite app_assoc_str.
Qed.

(** *** The files of a directory *)

Lemma ends_with_slash_app a b : b ≠ "" → ends_with_slash (a +:+ b) = ends_with_slash b.
Proof.
  intros Hb. induction a as [|c a IH]; [done|]. change (String c a +:+ b) with (String c (a +:+ b)).
  assert (Hab : a +:+ b ≠ "") by by destruct a. rewrite <- IH. cbn [ends_with_slash]. by destruct (a +:+ b).
Qed.

Lemma ends_with_slash_free s : slash_free s → ends_with_slash s = false.
Proof.
  unfold slash_free. induction s as [|c s IH]; [done|]. cbn [str_all]. intros [Hc%negb_true_iff Hs]%andb_prop. cbn [ends_with_slash].
  destruct s; [by rewrite Ascii.eqb_sym|auto].
Qed.

Lemma path_join_name dir n : isAbsolute dir = true → plain_seg n →
  path_join [dir; n] = abs_path (norm_segs false (split_on slash dir) ++ [n]).
Proof.
  intros Hd Hn. assert (Hn' := Hn). destruct Hn' as (Hfree & Hne & _ & Hup).
  unfold path_join. cbn [List.filter]. assert (str_truthy dir = true) as -> by by destruct dir.
  assert (str_truthy n = true) as -> by by destruct n. cbn [join].
  destruct (path_normalize_abs (dir +:+ "/" +:+ n)) as [_ ->]; [by destruct dir|].
  rewrite <- app_assoc_str, ends_with_slash_app, ends_with_slash_free, app_assoc_str by done.
  change (dir +:+ "/" +:+ n) with (dir +:+ String slash n). rewrite split_on_append, (split_on_free slash n) by done.
  rewrite norm_segs_below by (by constructor). cbn [List.filter].
  assert (kept_seg n = true) as ->. { unfold kept_seg. by rewrite !str_eqb_neq by (by destruct Hn as (_ & ? & ? & _)). }
  destruct (norm_segs _ _ ++ [n]) eqn:E; by rewrite app_empty.
Qed.

Lemma abs_path_inj l1 l2 : Forall plain_seg l1 → Forall plain_seg l2 → abs_path l1 = abs_path l2 → l1 = l2.
Proof. intros H1 H2 E. by rewrite <- (norm_split_abs false l1), E, norm_split_abs. Qed.

(** Two names are two files. *)
Lemma path_join_inj dir m n : isAbsolute dir = true → plain_seg m → plain_seg n → path_join [dir; m] = path_join [dir; n] → m = n.
Proof.
  intros Hd Hm Hn. rewrite !path_join_name by done.
  assert (Hp : Forall plain_seg (norm_segs false (split_on slash dir))) by apply norm_segs_plain, split_on_segs.
  intros E%abs_path_inj; [|by apply Forall_app; auto..]. by simplify_list_eq.
Qed.
