(* ===== verification/Ipv4.v ===== *)
(** * IPv4 addresses and CIDR blocks

    packages/core/src/meross/lan/ping-sweep.ts ([ipToInt], [intToIp], [parseCidr],
    [listHostsInCidr]) and the address part of lan/discovery.ts ([netmaskToPrefix],
    [isPrivateIpv4], [suggestCidrs]). Addresses are 32-bit integers; the bitwise operators of the
    source convert to signed 32-bit integers and back, which is written out. *)

From S2P Require Export Exn.

Local Open Scope string_scope.
Local Open Scope Z_scope.

(** ** 32-bit operators *)

(** The conversion of the operands and the result of [&], [|], [<<] and [~]. *)
Definition int32 (x : Z) : Z := let u := uint32 x in if u <? 2 ^ 31 then u else u - 2 ^ 32.

Definition bit_or (x y : Z) : Z := int32 (Z.lor (int32 x) (int32 y)).
Definition bit_and (x y : Z) : Z := int32 (Z.land (int32 x) (int32 y)).
Definition bit_not (x : Z) : Z := int32 (Z.lnot (int32 x)).
Definition shl (x n : Z) : Z := int32 (Z.shiftl (int32 x) n).
Definition ushr (x n : Z) : Z := Z.shiftr (uint32 x) n.

(** ** Addresses *)

Definition byte_of_part (p : string) : option Z :=
  match parseInt10 p with
  | Some z => if (z <? 0) || (255 <? z) then None else Some z
  | None => None
  end.

Definition ipToInt (ip : string) : result Z :=
  match mapM byte_of_part (split_on "." ip) with
  | Some [a; b; c; d] => Ok (ushr (bit_or (bit_or (bit_or (shl a 24) (shl b 16)) (shl c 8)) d) 0)
  | _ => Err (JsError ("Invalid IPv4: " +:+ ip))
  end.

Definition intToIp (n : Z) : string :=
  pretty (bit_and (ushr n 24) 255) +:+ "." +:+ pretty (bit_and (ushr n 16) 255) +:+ "." +:+
  pretty (bit_and (ushr n 8) 255) +:+ "." +:+ pretty (bit_and n 255).

(** ** CIDR blocks *)

Record cidr_block := { network : Z; broadcast : Z; prefix : Z }.

Definition prefix_mask (prefix : Z) : Z :=
  if prefix =? 0 then 0 else ushr (shl 4294967295 (32 - prefix)) 0.

Definition parseCidr (cidr : string) : result cidr_block :=
  let parts := split_on "/" cidr in
  let ip := nth 0 parts "" in
  let invalid := Err (JsError ("Invalid CIDR: " +:+ cidr)) in
  match parseInt10 (nth 1 parts "") with
  | None => invalid
  | Some prefix =>
      if negb (str_truthy ip) || (prefix <? 0) || (32 <? prefix) then invalid
      else let? base := ipToInt ip in
           let mask := prefix_mask prefix in
           let network := bit_and base mask in
           let broadcast := bit_or network (ushr (bit_not mask) 0) in
           Ok {| network := network; broadcast := broadcast; prefix := prefix |}
  end.

(** [for (let n = lo; n < hi; n++)], as the list of the values of [n]. *)
Fixpoint count_up (lo : Z) (k : nat) : list Z :=
  match k with O => [] | S k' => lo :: count_up (lo + 1) k' end.

Definition range (lo hi : Z) : list Z := count_up lo (Z.to_nat (hi - lo)).

Definition block_hosts (c : cidr_block) : list Z :=
  if 31 <=? prefix c then [] else range (network c + 1) (broadcast c).

Definition listHostsInCidr (cidr : string) : result (list string) :=
  let? c := parseCidr cidr in Ok (map (λ n, intToIp (ushr n 0)) (block_hosts c)).

(** ** Netmasks *)

(** The loop of [netmaskToPrefix] from bit [i - 1] down: [None] is the non-contiguous mask. *)
Fixpoint mask_bits (n : Z) (i : nat) (seenZero : bool) (bits : Z) : option Z :=
  match i with
  | O => Some bits
  | S i' =>
      if bit_and (ushr n (Z.of_nat i')) 1 =? 1
      then if seenZero then None else mask_bits n i' seenZero (bits + 1)
      else mask_bits n i' true bits
  end.

Definition netmaskToPrefix (mask : string) : result Z :=
  let? n := ipToInt mask in
  match mask_bits n 32 false 0 with
  | Some bits => Ok bits
  | None => Err (JsError ("Non-contiguous netmask: " +:+ mask))
  end.

Definition isPrivateIpv4 (ip : string) : bool :=
  match ipToInt ip with
  | Ok n =>
      let a := bit_and (ushr n 24) 255 in
      let b := bit_and (ushr n 16) 255 in
      (a =? 10) || ((a =? 172) && (16 <=? b) && (b <=? 31)) || ((a =? 192) && (b =? 168))
  | Err _ => false
  end.

(** ** Suggestions *)

(** An entry of [os.networkInterfaces()]. *)
Record iface_addr := {
  ia_family : string; ia_internal : bool; ia_address : string; ia_netmask : string }.

Record suggestion := {
  sg_iface : string; sg_address : string; sg_netmask : string; sg_cidr : string }.

Definition suggest_one (iface : string) (a : iface_addr) : option suggestion :=
  if negb (String.eqb (ia_family a) "IPv4") || ia_internal a
     || negb (str_truthy (ia_address a)) || negb (str_truthy (ia_netmask a))
  then None
  else result_opt
    (let? prefix := netmaskToPrefix (ia_netmask a) in
     let? ip := ipToInt (ia_address a) in
     let network := bit_and ip (prefix_mask prefix) in
     Ok {| sg_iface := iface; sg_address := ia_address a; sg_netmask := ia_netmask a;
           sg_cidr := intToIp network +:+ "/" +:+ pretty prefix |}).

Section Suggest.
(** [String.prototype.localeCompare], the collation of the host. *)
Variable localeCompare : string → string → Z.

Definition suggestion_cmp (a b : suggestion) : Z :=
  let priv s := if isPrivateIpv4 (sg_address s) then 0 else 1 in
  let en s := if String.eqb (sg_iface s) "en0" then 0 else 1 in
  if negb (priv a =? priv b) then priv a - priv b
  else if negb (en a =? en b) then en a - en b
  else localeCompare (sg_iface a) (sg_iface b).

Definition suggestCidrs (ifs : list (string * list iface_addr)) : list suggestion :=
  js_sort suggestion_cmp
    (flat_map (λ '(iface, addrs), omap (suggest_one iface) addrs) ifs).

Definition defaultSuggestedCidr (ifs : list (string * list iface_addr)) : option string :=
  sg_cidr <$> head (suggestCidrs ifs).
End Suggest.

(** ** Ranges *)

Lemma elem_of_count_up lo k x : x ∈ count_up lo k ↔ lo <= x < lo + Z.of_nat k.
Proof.
  revert lo; induction k as [|k IH]; intros lo; cbn [count_up].
  - rewrite elem_of_nil. lia.
  - rewrite elem_of_cons, IH. lia.
Qed.

Lemma count_up_length lo k : length (count_up lo k) = k.
Proof. revert lo; induction k as [|k IH]; intros lo; simpl; [done|]. by rewrite IH. Qed.

Lemma count_up_NoDup lo k : NoDup (count_up lo k).
Proof.
  revert lo; induction k as [|k IH]; intros lo; simpl; constructor; [|done].
  rewrite elem_of_count_up. lia.
Qed.

Lemma elem_of_range lo hi x : x ∈ range lo hi ↔ lo <= x < hi.
Proof. unfold range. rewrite elem_of_count_up. lia. Qed.

Lemma count_up_shift d lo k : map (λ n, n + d) (count_up lo k) = count_up (lo + d) k.
Proof.
  revert lo; induction k as [|k IH]; intros lo; simpl; [done|]. rewrite IH. do 2 f_equal. lia.
Qed.

(** ** Arithmetic of the 32-bit operators *)

Lemma uint32_land x y : uint32 (Z.land x y) = Z.land (uint32 x) (uint32 y).
Proof.
  unfold uint32. rewrite <- !Z.land_ones by lia.
  apply Z.bits_inj'. intros n _. rewrite !Z.land_spec. by destruct (Z.testbit x n), (Z.testbit y n), (Z.testbit _ n).
Qed.

Lemma uint32_lor x y : uint32 (Z.lor x y) = Z.lor (uint32 x) (uint32 y).
Proof. unfold uint32. rewrite <- !Z.land_ones by lia. by rewrite Z.land_lor_distr_l. Qed.

Lemma uint32_int32 x : uint32 (int32 x) = uint32 x.
Proof.
  unfold int32. case_match; [apply uint32_id, uint32_range|].
  unfold uint32. rewrite Zminus_mod, Z.mod_same, Z.sub_0_r, !Z.mod_mod by lia. done.
Qed.

Lemma int32_id x : - 2 ^ 31 <= x < 2 ^ 31 → int32 x = x.
Proof.
  intros Hx. unfold int32. destruct (Z.lt_ge_cases x 0).
  - assert (uint32 x = x + 2 ^ 32) as ->.
    { unfold uint32. rewrite <- (Z.mod_small (x + 2 ^ 32) (2 ^ 32)) by lia.
      by rewrite <- (Z.mod_add x 1 (2 ^ 32)). }
    assert ((x + 2 ^ 32 <? 2 ^ 31) = false) as -> by lia. lia.
  - rewrite uint32_id by lia. assert ((x <? 2 ^ 31) = true) as -> by lia. done.
Qed.

Lemma uint32_bit_and x y : uint32 (bit_and x y) = Z.land (uint32 x) (uint32 y).
Proof. unfold bit_and. by rewrite uint32_int32, uint32_land, !uint32_int32. Qed.

Lemma uint32_bit_or x y : uint32 (bit_or x y) = Z.lor (uint32 x) (uint32 y).
Proof. unfold bit_or. by rewrite uint32_int32, uint32_lor, !uint32_int32. Qed.

Lemma uint32_bit_not x : uint32 (bit_not x) = 2 ^ 32 - 1 - uint32 x.
Proof.
  unfold bit_not. rewrite uint32_int32. set (y := int32 x).
  assert (uint32 x = uint32 y) as -> by (by unfold y; rewrite uint32_int32).
  pose proof (uint32_range y). unfold uint32 in *. unfold Z.lnot.
  replace (Z.pred (- y)) with ((2 ^ 32 - 1 - y mod 2 ^ 32) + (- (y / 2 ^ 32) - 1) * 2 ^ 32).
  - rewrite Z.mod_add by lia. apply Z.mod_small. lia.
  - pose proof (Z.div_mod y (2 ^ 32)). lia.
Qed.

Lemma uint32_shl x n : 0 <= n → uint32 (shl x n) = (uint32 x * 2 ^ n) mod 2 ^ 32.
Proof.
  intros Hn. unfold shl. rewrite uint32_int32, Z.shiftl_mul_pow2 by done.
  unfold uint32. rewrite <- Z.mul_mod_idemp_l by lia.
  fold (uint32 (int32 x)). by rewrite uint32_int32.
Qed.

Lemma ushr_0 x : ushr x 0 = uint32 x.
Proof. unfold ushr. by rewrite Z.shiftr_0_r. Qed.

Lemma bit_and_255 x : bit_and x 255 = x mod 256.
Proof.
  unfold bit_and. rewrite (int32_id 255) by lia.
  change 255 with (Z.ones 8). rewrite Z.land_ones by lia.
  change (2 ^ 8) with 256. pose proof (Z.mod_pos_bound (int32 x) 256).
  rewrite int32_id by lia.
  assert (∀ z, uint32 z mod 256 = z mod 256) as Hu.
  { intros z. unfold uint32. apply Z.mod_mod_divide. by exists (2 ^ 24). }
  by rewrite <- (Hu (int32 x)), uint32_int32, Hu.
Qed.

Lemma lor_disjoint x y k : 0 <= k → 0 <= y < 2 ^ k → Z.lor (x * 2 ^ k) y = x * 2 ^ k + y.
Proof.
  intros Hk Hy.
  assert (Z.land (x * 2 ^ k) y = 0) as Hl.
  { apply Z.bits_inj'. intros n Hn. rewrite Z.land_spec, Z.bits_0.
    destruct (Z.lt_ge_cases n k); [by rewrite Z.mul_pow2_bits_low|].
    destruct (Z.eq_dec y 0) as [->|]; [by rewrite Z.bits_0, andb_false_r|].
    rewrite (Z.bits_above_log2 y n), andb_false_r; [done|lia|].
    apply Z.log2_lt_pow2; [lia|]. eapply Z.lt_le_trans; [apply Hy|]. apply Z.pow_le_mono_r; lia. }
  rewrite <- Z.lxor_lor, <- Z.add_nocarry_lxor by done. done.
Qed.

(** ** Addresses *)

(** The value of an address is its four bytes in base 256. *)
Lemma ipToInt_bytes a b c d :
  0 <= a <= 255 → 0 <= b <= 255 → 0 <= c <= 255 → 0 <= d <= 255 →
  ushr (bit_or (bit_or (bit_or (shl a 24) (shl b 16)) (shl c 8)) d) 0 =
  ((a * 256 + b) * 256 + c) * 256 + d.
Proof.
  intros Ha Hb Hc Hd. rewrite ushr_0, !uint32_bit_or, !uint32_shl by lia.
  rewrite !uint32_id by lia. rewrite !Z.mod_small by lia.
  replace (a * 2 ^ 24) with (a * 256 * 2 ^ 16) by lia.
  rewrite <- !Z.shiftl_mul_pow2, <- Z.shiftl_lor, !Z.shiftl_mul_pow2 by lia.
  change 256 with (2 ^ 8). rewrite (lor_disjoint a b 8) by lia.
  replace ((a * 2 ^ 8 + b) * 2 ^ 16) with ((a * 2 ^ 8 + b) * 2 ^ 8 * 2 ^ 8) by lia.
  rewrite <- !(Z.shiftl_mul_pow2 _ 8), <- Z.shiftl_lor, !Z.shiftl_mul_pow2 by lia.
  rewrite (lor_disjoint _ c 8) by lia. by rewrite (lor_disjoint _ d 8) by lia.
Qed.

Lemma byte_of_part_range p z : byte_of_part p = Some z → 0 <= z <= 255.
Proof. unfold byte_of_part. intros H. split_matches H. bool_hyps. lia. Qed.

Lemma mapM_bytes_range ps bs :
  mapM byte_of_part ps = Some bs → Forall (λ z, 0 <= z <= 255) bs.
Proof.
  intros H%mapM_Some. induction H; constructor; [by eapply byte_of_part_range|done].
Qed.

Lemma ipToInt_Ok ip n : ipToInt ip = Ok n →
  ∃ a b c d, mapM byte_of_part (split_on "." ip) = Some [a; b; c; d] ∧
    0 <= a <= 255 ∧ 0 <= b <= 255 ∧ 0 <= c <= 255 ∧ 0 <= d <= 255 ∧
    n = ((a * 256 + b) * 256 + c) * 256 + d.
Proof.
  unfold ipToInt. intros H.
  destruct (mapM byte_of_part (split_on "." ip)) as [[|a [|b [|c [|d [|]]]]]|] eqn:E; try done.
  injection H as <-. exists a, b, c, d. split; [done|].
  pose proof (mapM_bytes_range _ _ E) as Hr. rewrite !Forall_cons in Hr.
  destruct Hr as (Ha & Hb & Hc & Hd & _).
  rewrite ipToInt_bytes by lia. split_and!; lia || done.
Qed.

Lemma ipToInt_range ip n : ipToInt ip = Ok n → 0 <= n < 2 ^ 32.
Proof. intros (a & b & c & d & _ & H)%ipToInt_Ok. lia. Qed.

(** The decimal text of a byte holds no separator and reads back. *)
Definition byte_text_ok (b : Z) : bool :=
  match byte_of_part (pretty b) with Some b' => b' =? b | None => false end &&
  str_all (λ d, negb (Ascii.eqb "." d)) (pretty b) && str_all (λ d, negb (Ascii.eqb "/" d)) (pretty b) &&
  str_truthy (pretty b) && match parseInt10 (pretty b) with Some b' => b' =? b | None => false end.

Lemma byte_text b : 0 <= b <= 255 → byte_text_ok b = true.
Proof.
  intros Hb. assert (forallb byte_text_ok (count_up 0 256) = true) as H by (vm_compute; reflexivity).
  rewrite forallb_forall in H. apply H. clear H.
  apply list_elem_of_In, elem_of_count_up. lia.
Qed.

Lemma intToIp_bytes n : intToIp n =
  let u := uint32 n in
  pretty (u / 2 ^ 24 mod 256) +:+ "." +:+ pretty (u / 2 ^ 16 mod 256) +:+ "." +:+
  pretty (u / 2 ^ 8 mod 256) +:+ "." +:+ pretty (n mod 256).
Proof. unfold intToIp, ushr. by rewrite !bit_and_255, !Z.shiftr_div_pow2 by lia. Qed.

Lemma bytes_of_uint32 u : 0 <= u < 2 ^ 32 →
  ((u / 2 ^ 24 mod 256 * 256 + u / 2 ^ 16 mod 256) * 256 + u / 2 ^ 8 mod 256) * 256 + u mod 256 = u.
Proof.
  intros Hu. change (2 ^ 24) with (256 * 256 * 256). change (2 ^ 16) with (256 * 256).
  change (2 ^ 8) with 256. rewrite <- !Z.div_div by lia.
  rewrite (Z.mod_small (u / 256 / 256 / 256)); Z.div_mod_to_equations; lia.
Qed.

Lemma byte_text_parts b : 0 <= b <= 255 →
  byte_of_part (pretty b) = Some b ∧ str_all (λ d, negb (Ascii.eqb "." d)) (pretty b) = true ∧
  str_all (λ d, negb (Ascii.eqb "/" d)) (pretty b) = true ∧ parseInt10 (pretty b) = Some b.
Proof.
  intros H%byte_text. unfold byte_text_ok in H. bool_hyps. repeat case_match; bool_hyps; naive_solver.
Qed.

Lemma byte_text_noslash b : 0 <= b <= 255 → str_all (λ d, negb (Ascii.eqb "/" d)) (pretty b) = true.
Proof. intros H. apply (byte_text_parts b H). Qed.

Lemma uint32_bytes_range n k : 0 <= uint32 n / 2 ^ k mod 256 <= 255.
Proof. pose proof (Z.mod_pos_bound (uint32 n / 2 ^ k) 256). lia. Qed.

Lemma mod_256_range n : 0 <= n mod 256 <= 255.
Proof. pose proof (Z.mod_pos_bound n 256). lia. Qed.

#[local] Hint Resolve uint32_bytes_range mod_256_range : js.

(** The text of an address holds no [/] and is not empty. *)
Lemma intToIp_text n :
  str_all (λ d, negb (Ascii.eqb "/" d)) (intToIp n) = true ∧ str_truthy (intToIp n) = true.
Proof.
  rewrite intToIp_bytes. cbv zeta.
  assert (∀ p s t, str_all p (s +:+ t) = str_all p s && str_all p t) as Happ.
  { intros p s t. induction s as [|c s IH]; [done|]. simpl. unfold String.append in IH |- *.
    by rewrite IH, andb_assoc. }
  rewrite !Happ. rewrite !byte_text_noslash by auto with js.
  split; [done|].
  pose proof (byte_text _ (uint32_bytes_range n 24)) as H. unfold byte_text_ok in H. bool_hyps.
  match goal with H : str_truthy ?s = true |- str_truthy (?s +:+ _) = true => by destruct s end.
Qed.

(** [parseCidr] seen through the unsigned reading of its addresses. *)
Lemma prefix_mask_shift p : 0 <= p <= 32 → prefix_mask p = Z.shiftl (Z.ones p) (32 - p).
Proof.
  intros Hp.
  assert (forallb (λ p, prefix_mask p =? Z.shiftl (Z.ones p) (32 - p)) (count_up 0 33) = true) as H
    by (vm_compute; reflexivity).
  rewrite forallb_forall in H. apply Z.eqb_eq, H. clear H.
  apply list_elem_of_In, elem_of_count_up. lia.
Qed.

Lemma land_mask base p : 0 <= base < 2 ^ 32 → 0 <= p <= 32 →
  Z.land base (prefix_mask p) = base - base mod 2 ^ (32 - p).
Proof.
  intros Hb Hp. rewrite prefix_mask_shift by done.
  assert (Z.land base (Z.shiftl (Z.ones p) (32 - p)) = Z.shiftl (Z.shiftr base (32 - p)) (32 - p)) as ->.
  { apply Z.bits_inj'. intros n Hn. rewrite Z.land_spec.
    destruct (Z.lt_ge_cases n (32 - p)).
    - by rewrite !Z.shiftl_spec_low, andb_false_r.
    - rewrite !Z.shiftl_spec, Z.shiftr_spec by lia.
      replace (n - (32 - p) + (32 - p)) with n by lia.
      destruct (Z.lt_ge_cases n 32) as [Hn32|Hn32].
      + by rewrite Z.ones_spec_low, andb_true_r by lia.
      + rewrite Z.ones_spec_high, andb_false_r by lia. symmetry.
        destruct (Z.eq_dec base 0) as [->|]; [apply Z.bits_0|].
        apply Z.bits_above_log2; [lia|]. apply Z.log2_lt_pow2; [lia|].
        eapply Z.lt_le_trans; [apply Hb|]. apply Z.pow_le_mono_r; lia. }
  rewrite Z.shiftl_mul_pow2, Z.shiftr_div_pow2 by lia.
  pose proof (Z.div_mod base (2 ^ (32 - p))). lia.
Qed.

Lemma prefix_mask_value p : 0 <= p <= 32 → prefix_mask p = 2 ^ 32 - 2 ^ (32 - p).
Proof.
  intros Hp. rewrite prefix_mask_shift, Z.shiftl_mul_pow2, Z.ones_equiv by lia.
  replace (2 ^ 32) with (2 ^ p * 2 ^ (32 - p)) by (rewrite <- Z.pow_add_r by lia; f_equal; lia). lia.
Qed.

Lemma prefix_mask_range p : 0 <= p <= 32 → 0 <= prefix_mask p < 2 ^ 32.
Proof.
  intros Hp. rewrite prefix_mask_value by done.
  assert (0 < 2 ^ (32 - p) <= 2 ^ 32); [|lia].
  split; [apply Z.pow_pos_nonneg; lia|apply Z.pow_le_mono_r; lia].
Qed.


(** What [parseCidr] computes, stated on unsigned addresses: the block of [2 ^ (32 - prefix)]
    addresses that holds the base address. *)
Lemma parseCidr_block cidr c : parseCidr cidr = Ok c →
  0 <= prefix c <= 32 ∧ ∃ base, 0 <= base < 2 ^ 32 ∧
    ipToInt (nth 0 (split_on "/" cidr) "") = Ok base ∧
    parseInt10 (nth 1 (split_on "/" cidr) "") = Some (prefix c) ∧
    network c = int32 (network c) ∧ broadcast c = int32 (broadcast c) ∧
    uint32 (network c) = base - base mod 2 ^ (32 - prefix c) ∧
    uint32 (broadcast c) = uint32 (network c) + 2 ^ (32 - prefix c) - 1.
Proof.
  unfold parseCidr. intros H. destruct (parseInt10 _) as [p|] eqn:Ep; [|done].
  destruct (_ || _ || _) eqn:Eg in H; [done|]. bool_hyps.
  apply rbind_Ok in H as (base & Hip & [= <-]). cbn [prefix network broadcast].
  pose proof (ipToInt_range _ _ Hip) as Hb. pose proof (prefix_mask_range p ltac:(lia)) as Hm.
  assert (Hnet : uint32 (bit_and base (prefix_mask p)) = base - base mod 2 ^ (32 - p)).
  { rewrite uint32_bit_and, !uint32_id by done. by apply land_mask; lia. }
  pose proof (Z.pow_pos_nonneg 2 (32 - p) ltac:(lia) ltac:(lia)).
  split; [lia|]. exists base. split_and!; [lia..|done|done| | |done|].
  - unfold bit_and. unfold int32 at 4. rewrite uint32_int32. done.
  - unfold bit_or. unfold int32 at 4. rewrite uint32_int32. done.
  - rewrite uint32_bit_or, ushr_0, (uint32_id (uint32 _)), uint32_bit_not by apply uint32_range.
    rewrite Hnet, (uint32_id (prefix_mask p)), (prefix_mask_value p) by lia.
    replace (2 ^ 32 - 1 - (2 ^ 32 - 2 ^ (32 - p))) with (2 ^ (32 - p) - 1) by lia.
    replace (base - base mod 2 ^ (32 - p)) with (base / 2 ^ (32 - p) * 2 ^ (32 - p))
      by (pose proof (Z.div_mod base (2 ^ (32 - p))); lia).
    rewrite lor_disjoint by lia. lia.
Qed.

(** The signed loop bounds of [listHostsInCidr] enumerate the same addresses as unsigned ones:
    only the block of all addresses crosses the sign, and it lists nothing. *)
Lemma block_hosts_spec cidr c : parseCidr cidr = Ok c →
  map uint32 (block_hosts c) =
  if (1 <=? prefix c) && (prefix c <=? 30)
  then range (uint32 (network c) + 1) (uint32 (broadcast c)) else [].
Proof.
  intros (Hp & base & Hb & _ & _ & Hns & Hbs & Hn & Hbc)%parseCidr_block.
  unfold block_hosts. destruct (31 <=? prefix c) eqn:E31; bool_hyps.
  { by assert ((prefix c <=? 30) = false) as -> by lia; rewrite andb_false_r. }
  assert ((prefix c <=? 30) = true) as -> by lia. rewrite andb_true_r.
  destruct (1 <=? prefix c) eqn:E1; bool_hyps.
  - (* both bounds are below, or both from, 2^31 *)
    assert (Hsz : 2 ^ (32 - prefix c) * 2 ^ (prefix c - 1) = 2 ^ 31).
    { rewrite <- Z.pow_add_r by lia. f_equal. lia. }
    assert (Hq : uint32 (network c) = base / 2 ^ (32 - prefix c) * 2 ^ (32 - prefix c)).
    { rewrite Hn. pose proof (Z.div_mod base (2 ^ (32 - prefix c))). lia. }
    set (sz := 2 ^ (32 - prefix c)) in *. set (h := 2 ^ (prefix c - 1)) in *.
    set (q := base / sz) in *.
    assert (0 < sz) by (apply Z.pow_pos_nonneg; lia).
    assert (0 < h) by (apply Z.pow_pos_nonneg; lia).
    pose proof (uint32_range (network c)). pose proof (uint32_range (broadcast c)).
    set (N := uint32 (network c)) in *. set (B := uint32 (broadcast c)) in *.
    assert (Hside : network c = N ∧ broadcast c = B ∨ network c = N - 2 ^ 32 ∧ broadcast c = B - 2 ^ 32).
    { rewrite Hns, Hbs. unfold int32. fold N B.
      destruct (Z.lt_ge_cases q h).
      - left. assert ((N <? 2 ^ 31) = true) as -> by nia. assert ((B <? 2 ^ 31) = true) as -> by nia. done.
      - right. assert ((N <? 2 ^ 31) = false) as -> by nia. assert ((B <? 2 ^ 31) = false) as -> by nia. done. }
    unfold range. assert (∀ d k lo, 0 <= lo + d → lo + d + Z.of_nat k <= 2 ^ 32 → (d = 0 ∨ d = 2 ^ 32) →
      map uint32 (count_up lo k) = count_up (lo + d) k) as Hmap.
    { intros d k. induction k as [|k IH]; intros lo Hlo Hhi Hd; [done|]. cbn [count_up map].
      rewrite IH by lia. f_equal; [|f_equal; lia]. destruct Hd as [->| ->]; [rewrite uint32_id; lia|].
      unfold uint32. rewrite <- (Z.mod_add lo 1 (2 ^ 32)) by lia. apply Z.mod_small. lia. }
    destruct Hside as [[-> ->]|[-> ->]].
    + rewrite (Hmap 0) by lia. f_equal; lia.
    + rewrite (Hmap (2 ^ 32)) by lia. f_equal; lia.
  - (* prefix 0: the block is [0, -1] *)
    assert (prefix c = 0) as Hp0 by lia. rewrite Hp0 in *.
    rewrite (Z.mod_small base) in Hn by lia.
    assert (uint32 (network c) = 0) as HN by lia. assert (uint32 (broadcast c) = 2 ^ 32 - 1) as HB by lia.
    rewrite Hns, Hbs. unfold int32. by rewrite HN, HB.
Qed.

(** The bits of a contiguous mask. *)
Lemma bit_test n i : 0 <= n < 2 ^ 32 → (i < 32)%nat →
  (bit_and (ushr n (Z.of_nat i)) 1 =? 1) = Z.testbit n (Z.of_nat i).
Proof.
  intros Hn Hi. unfold ushr, bit_and. rewrite (uint32_id n), (int32_id 1) by lia.
  change 1 with (Z.ones 1) at 1. rewrite Z.land_ones by lia. change (2 ^ 1) with 2.
  assert (int32 (Z.shiftr n (Z.of_nat i)) mod 2 = Z.shiftr n (Z.of_nat i) mod 2) as ->.
  { assert (∀ z, uint32 z mod 2 = z mod 2) as Hu.
    { intros z. unfold uint32. apply Z.mod_mod_divide. by exists (2 ^ 31). }
    by rewrite <- Hu, uint32_int32, Hu. }
  rewrite int32_id by (pose proof (Z.mod_pos_bound (Z.shiftr n (Z.of_nat i)) 2); lia).
  rewrite Z.shiftr_div_pow2, <- Z.testbit_spec' by lia. by destruct (Z.testbit n _).
Qed.

Lemma mask_bits_zero n i bits b : 0 <= n < 2 ^ 32 → (i <= 32)%nat →
  mask_bits n i true bits = Some b ↔ b = bits ∧ ∀ j, 0 <= j < Z.of_nat i → Z.testbit n j = false.
Proof.
  intros Hn. induction i as [|i IH]; intros Hi; cbn [mask_bits].
  - split; [intros [= ->]; split; [done|lia]|by intros [-> _]].
  - rewrite bit_test by (done || lia). destruct (Z.testbit n (Z.of_nat i)) eqn:E.
    + split; [done|]. intros [_ H]. rewrite H in E; [done|lia].
    + rewrite IH by lia. split; intros [-> H]; (split; [done|]); intros j Hj; [|apply H; lia].
      destruct (Z.eq_dec j (Z.of_nat i)) as [->|]; [done|apply H; lia].
Qed.

Lemma mask_bits_spec n i bits b : 0 <= n < 2 ^ 32 → (i <= 32)%nat →
  mask_bits n i false bits = Some b ↔
  ∃ k, 0 <= k <= Z.of_nat i ∧ b = bits + k ∧
       ∀ j, 0 <= j < Z.of_nat i → Z.testbit n j = (Z.of_nat i - k <=? j).
Proof.
  intros Hn. revert bits. induction i as [|i IH]; intros bits Hi; cbn [mask_bits].
  - split; [intros [= ->]; exists 0; split_and!; lia|]. intros (k & ? & -> & _). f_equal. lia.
  - rewrite bit_test by (done || lia). destruct (Z.testbit n (Z.of_nat i)) eqn:E.
    + rewrite IH by lia. split; intros (k & Hk & -> & H).
      * exists (k + 1). split_and!; [lia..|]. intros j Hj.
        destruct (Z.eq_dec j (Z.of_nat i)) as [->|]; [rewrite E; symmetry; apply Z.leb_le; lia|].
        rewrite H by lia. f_equal. lia.
      * assert (0 < k).
        { destruct (Z.eq_dec k 0) as [->|]; [|lia]. rewrite H in E by lia. bool_hyps. lia. }
        exists (k - 1). split_and!; [lia..|]. intros j Hj. rewrite H by lia. f_equal. lia.
    + rewrite mask_bits_zero by lia. split.
      * intros [-> H]. exists 0. split_and!; [lia..|]. intros j Hj.
        rewrite (proj2 (Z.leb_gt (Z.of_nat (S i) - 0) j)) by lia.
        destruct (Z.eq_dec j (Z.of_nat i)) as [->|]; [done|apply H; lia].
      * intros (k & Hk & -> & H). assert (k = 0) as ->.
        { rewrite H in E by lia. bool_hyps. lia. }
        split; [lia|]. intros j Hj. rewrite H by lia. apply Z.leb_gt. lia.
Qed.

Lemma mask_eq_bits n p : 0 <= n < 2 ^ 32 → 0 <= p <= 32 →
  n = prefix_mask p ↔ ∀ j, 0 <= j < 32 → Z.testbit n j = (32 - p <=? j).
Proof.
  intros Hn Hp.
  assert (Hm : ∀ j, 0 <= j < 32 → Z.testbit (prefix_mask p) j = (32 - p <=? j)).
  { intros j Hj. rewrite prefix_mask_shift by done.
    destruct (32 - p <=? j) eqn:E; bool_hyps; [|by apply Z.shiftl_spec_low].
    rewrite Z.shiftl_spec by lia. apply Z.ones_spec_low. lia. }
  split; [by intros ->|]. intros H. apply Z.bits_inj'. intros j Hj.
  destruct (Z.lt_ge_cases j 32); [by rewrite H, Hm|].
  assert (∀ m, 0 <= m < 2 ^ 32 → Z.testbit m j = false) as Hh.
  { intros m Hm'. destruct (Z.eq_dec m 0) as [->|]; [apply Z.bits_0|].
    apply Z.bits_above_log2; [lia|]. apply Z.log2_lt_pow2; [lia|].
    eapply Z.lt_le_trans; [apply Hm'|]. apply Z.pow_le_mono_r; lia. }
  by rewrite !Hh by (done || by apply prefix_mask_range).
Qed.

Lemma netmaskToPrefix_mask mask n p : ipToInt mask = Ok n →
  netmaskToPrefix mask = Ok p ↔ 0 <= p <= 32 ∧ n = prefix_mask p.
Proof.
  intros Hip. pose proof (ipToInt_range _ _ Hip) as Hn. unfold netmaskToPrefix. rewrite Hip. cbn [rbind].
  assert (mask_bits n 32 false 0 = Some p ↔ 0 <= p <= 32 ∧ n = prefix_mask p) as Hiff.
  { rewrite mask_bits_spec by (done || lia). split.
    - intros (k & Hk & -> & H). split; [lia|]. apply mask_eq_bits; [done|lia|]. exact H.
    - intros [Hp Hm]. exists p. split_and!; [lia..|]. by apply mask_eq_bits. }
  rewrite <- Hiff. destruct (mask_bits n 32 false 0); naive_solver.
Qed.

Lemma intToIp_uint32 n : intToIp (uint32 n) = intToIp n.
Proof.
  rewrite !intToIp_bytes. cbv zeta. rewrite (uint32_id (uint32 n)) by apply uint32_range.
  assert (uint32 n mod 256 = n mod 256) as ->; [|done].
  unfold uint32. apply Z.mod_mod_divide. by exists (2 ^ 24).
Qed.

(** Reading back a printed address. *)
Lemma ipToInt_of_intToIp n : 0 <= n < 2 ^ 32 → ipToInt (intToIp n) = Ok n.
Proof.
  intros Hn. assert (Hs : mapM byte_of_part (split_on "." (intToIp n)) =
    Some [n / 2 ^ 24 mod 256; n / 2 ^ 16 mod 256; n / 2 ^ 8 mod 256; n mod 256]).
  { rewrite intToIp_bytes. cbv zeta. rewrite !uint32_id by done.
    pose proof (uint32_bytes_range n) as Hr. rewrite uint32_id in Hr by done.
    rewrite !split_on_sep by (apply byte_text_parts; auto with js).
    rewrite split_on_free by (apply byte_text_parts; auto with js).
    cbn [mapM]. by rewrite !(λ b H, proj1 (byte_text_parts b H)) by auto with js. }
  unfold ipToInt. rewrite Hs. f_equal.
  pose proof (uint32_bytes_range n) as Hr. rewrite uint32_id in Hr by done.
  rewrite ipToInt_bytes by auto using mod_256_range. by apply bytes_of_uint32.
Qed.

(** ** Properties *)

(** An accepted CIDR denotes the aligned block of [2 ^ (32 - prefix)] addresses that holds the
    address written before the slash: network and broadcast are its ends. *)
Theorem parseCidr_aligned cidr c : parseCidr cidr = Ok c →
  0 <= prefix c <= 32 ∧ ∃ base,
    ipToInt (nth 0 (split_on "/" cidr) "") = Ok base ∧
    (2 ^ (32 - prefix c) | uint32 (network c)) ∧
    uint32 (network c) <= base <= uint32 (broadcast c) ∧
    uint32 (broadcast c) - uint32 (network c) + 1 = 2 ^ (32 - prefix c).
Proof.
  intros (Hp & base & Hb & Hip & _ & _ & _ & Hn & Hbc)%parseCidr_block. split; [done|].
  exists base. pose proof (Z.pow_pos_nonneg 2 (32 - prefix c) ltac:(lia) ltac:(lia)).
  pose proof (Z.mod_pos_bound base (2 ^ (32 - prefix c))).
  split_and!; [done| |lia..]. exists (base / 2 ^ (32 - prefix c)).
  pose proof (Z.div_mod base (2 ^ (32 - prefix c))). lia.
Qed.

Lemma parseCidr_aligned_witness : ∃ c, parseCidr "192.168.68.10/22" = Ok c ∧ 0 <= prefix c <= 32.
Proof.
  eexists. split; [vm_compute; reflexivity|].
  exact (proj1 (parseCidr_aligned "192.168.68.10/22" _ ltac:(vm_compute; reflexivity))).
Defined.

(** [listHostsInCidr] lists every address strictly between network and broadcast, each once
    and in order, for prefixes 1 to 30; prefixes 31 and 32, and the block of all addresses, list
    nothing. *)
Theorem listHostsInCidr_spec cidr c : parseCidr cidr = Ok c →
  ∃ hosts, listHostsInCidr cidr = Ok hosts ∧
    hosts = map intToIp (if (1 <=? prefix c) && (prefix c <=? 30)
                         then range (uint32 (network c) + 1) (uint32 (broadcast c)) else []) ∧
    NoDup hosts ∧
    (1 <= prefix c <= 30 → Z.of_nat (length hosts) = 2 ^ (32 - prefix c) - 2).
Proof.
  intros Hc. unfold listHostsInCidr. rewrite Hc. cbn [rbind].
  assert (Hm : map (λ n, intToIp (ushr n 0)) (block_hosts c) = map intToIp (map uint32 (block_hosts c))).
  { rewrite map_map. apply map_ext. intros n. by rewrite ushr_0. }
  rewrite Hm, (block_hosts_spec _ _ Hc). eexists. split; [done|]. split; [done|].
  destruct (parseCidr_block _ _ Hc) as (Hp & base & _ & _ & _ & _ & _ & _ & Hbc).
  pose proof (uint32_range (network c)). pose proof (uint32_range (broadcast c)).
  destruct ((1 <=? prefix c) && (prefix c <=? 30)) eqn:E; cbn [map length].
  - split.
    + apply (NoDup_fmap_2_strong intToIp); [|apply count_up_NoDup].
      intros x y Hx Hy Heq. apply elem_of_range in Hx, Hy.
      assert (Ok x = Ok y) as [=]; [|done].
      rewrite <- (ipToInt_of_intToIp x), <- (ipToInt_of_intToIp y) by lia. by rewrite Heq.
    + intros Hp'. rewrite length_map. unfold range. rewrite count_up_length.
      assert (2 ^ 2 <= 2 ^ (32 - prefix c)) by (apply Z.pow_le_mono_r; lia). lia.
  - split; [constructor|]. intros. apply andb_false_iff in E as [|]; bool_hyps; lia.
Qed.

Lemma listHostsInCidr_spec_witness : ∃ hosts,
  listHostsInCidr "192.168.68.10/22" = Ok hosts ∧ Z.of_nat (length hosts) = 1022.
Proof.
  destruct (listHostsInCidr_spec "192.168.68.10/22"
    {| network := -1062714368; broadcast := -1062713345; prefix := 22 |}
    ltac:(vm_compute; reflexivity)) as (hosts & H1 & _ & _ & H4).
  exists hosts. split; [exact H1|]. rewrite H4; simpl; lia.
Defined.

(** [netmaskToPrefix] accepts exactly the contiguous masks: it answers [p] precisely on the
    mask of [p] ones followed by zeros, and throws on the others. *)
Theorem netmaskToPrefix_iff mask n p : ipToInt mask = Ok n →
  netmaskToPrefix mask = Ok p ↔ 0 <= p <= 32 ∧ n = 2 ^ 32 - 2 ^ (32 - p).
Proof.
  intros H. rewrite (netmaskToPrefix_mask _ _ _ H).
  split; intros [Hp ->]; (split; [done|]); by rewrite prefix_mask_value.
Qed.

Lemma netmaskToPrefix_iff_witness : netmaskToPrefix "255.255.252.0" = Ok 22.
Proof.
  apply (netmaskToPrefix_iff "255.255.252.0" 4294966272 22); [vm_compute; reflexivity|].
  split; [lia|reflexivity].
Defined.

(** A block written by the program is read back. *)
Lemma parseCidr_intToIp n p : 0 <= p <= 32 → ∃ c,
  parseCidr (intToIp n +:+ "/" +:+ pretty p) = Ok c ∧ prefix c = p ∧
  uint32 (network c) = uint32 n - uint32 n mod 2 ^ (32 - p) ∧
  uint32 (broadcast c) = uint32 (network c) + 2 ^ (32 - p) - 1.
Proof.
  intros Hp. destruct (intToIp_text n) as [Hns Hnt].
  destruct (byte_text_parts p ltac:(lia)) as (_ & _ & Hslash & Hparse).
  assert (Hsplit : split_on "/" (intToIp n +:+ "/" +:+ pretty p) = [intToIp n; pretty p]).
  { by rewrite split_on_sep, split_on_free. }
  destruct (parseCidr _) as [c|] eqn:Ec.
  - destruct (parseCidr_block _ _ Ec) as (_ & base & Hb & Hbase & Hpre & _ & _ & Hn & Hbc).
    rewrite Hsplit in Hbase, Hpre. cbn [nth] in Hbase, Hpre. rewrite Hparse in Hpre.
    rewrite <- intToIp_uint32, ipToInt_of_intToIp in Hbase by apply uint32_range. simplify_eq.
    by exists c.
  - exfalso. unfold parseCidr in Ec. rewrite Hsplit in Ec. cbn [nth] in Ec.
    assert (((p <? 0) || (32 <? p)) = false) as Hr by lia.
    rewrite Hparse, Hnt in Ec. cbn [negb orb] in Ec.
    by rewrite Hr, <- intToIp_uint32, ipToInt_of_intToIp in Ec by apply uint32_range.
Qed.

(** What a suggestion promises: [parseCidr] accepts its CIDR with the prefix of the netmask, and the
    block holds the address of the interface. *)
Definition suggestion_ok (s : suggestion) : Prop :=
  ∃ c ip, parseCidr (sg_cidr s) = Ok c ∧ ipToInt (sg_address s) = Ok ip ∧
    netmaskToPrefix (sg_netmask s) = Ok (prefix c) ∧
    uint32 (network c) <= ip <= uint32 (broadcast c).

Lemma suggest_one_ok iface a s : suggest_one iface a = Some s → suggestion_ok s.
Proof.
  unfold suggest_one. destruct (_ || _ || _ || _); [done|]. intros H.
  destruct (netmaskToPrefix _) as [p|] eqn:Ep; [|done].
  destruct (ipToInt (ia_address a)) as [ip|] eqn:Eip; [|done].
  cbn [rbind result_opt] in H. injection H as <-.
  assert (0 <= p <= 32) as Hp.
  { pose proof Ep as E. unfold netmaskToPrefix in E. apply rbind_Ok in E as (n & Hn & _).
    by apply (netmaskToPrefix_mask _ _ _ Hn) in Ep as []. }
  pose proof (ipToInt_range _ _ Eip) as Hip. pose proof (prefix_mask_range p Hp) as Hm.
  destruct (parseCidr_intToIp (bit_and ip (prefix_mask p)) p Hp) as (c & Hc & Hpc & Hn & Hb).
  exists c, ip. rewrite Hpc. split_and!; [done..| |];
  rewrite ?Hb, Hn, uint32_bit_and, !uint32_id, land_mask by done;
  pose proof (Z.pow_pos_nonneg 2 (32 - p) ltac:(lia) ltac:(lia)) as Hsz;
  pose proof (Z.mod_pos_bound ip (2 ^ (32 - p)) Hsz);
  (replace ((ip - ip mod 2 ^ (32 - p)) mod 2 ^ (32 - p)) with 0; [lia|]);
  (replace (ip - ip mod 2 ^ (32 - p)) with (ip / 2 ^ (32 - p) * 2 ^ (32 - p))
    by (pose proof (Z.div_mod ip (2 ^ (32 - p))); lia)); by rewrite Z.mod_mul by lia.
Qed.

(** ** The order of the suggestions *)

Section Order.
Context (localeCompare : string → string → Z) `{!Collation localeCompare}.

Let rank_private (s : suggestion) : Z := if isPrivateIpv4 (sg_address s) then 0 else 1.
Let rank_en0 (s : suggestion) : Z := if String.eqb (sg_iface s) "en0" then 0 else 1.

Lemma suggestion_cmp_lex a b : suggestion_cmp localeCompare a b =
  lex_cmp (λ a b, rank_private a - rank_private b)
    (lex_cmp (λ a b, rank_en0 a - rank_en0 b) (λ a b, localeCompare (sg_iface a) (sg_iface b))) a b.
Proof.
  unfold suggestion_cmp, lex_cmp, rank_private, rank_en0.
  by destruct (isPrivateIpv4 _), (isPrivateIpv4 _), (String.eqb _ _), (String.eqb _ _).
Qed.

Lemma suggestion_cmp_total a b :
  cmp_le (suggestion_cmp localeCompare) a b ∨ cmp_le (suggestion_cmp localeCompare) b a.
Proof.
  unfold cmp_le. rewrite !suggestion_cmp_lex. apply lex_total, lex_total.
  intros x y. unfold cmp_le. apply (@coll_total localeCompare _).
Qed.

Lemma suggestion_cmp_trans a b c :
  cmp_le (suggestion_cmp localeCompare) a b → cmp_le (suggestion_cmp localeCompare) b c →
  cmp_le (suggestion_cmp localeCompare) a c.
Proof.
  unfold cmp_le. rewrite !suggestion_cmp_lex. apply lex_trans, lex_trans.
  intros x y z. unfold cmp_le. apply (@coll_trans localeCompare _).
Qed.

Lemma suggestion_le_private a b : cmp_le (suggestion_cmp localeCompare) a b →
  isPrivateIpv4 (sg_address b) = true → isPrivateIpv4 (sg_address a) = true.
Proof.
  unfold cmp_le, suggestion_cmp. intros H Hb. rewrite Hb in H.
  by destruct (isPrivateIpv4 (sg_address a)).
Qed.

(** Every suggested CIDR is accepted by [parseCidr] with the prefix of the interface's netmask
    and covers the interface's address; the suggestions are in the order of the comparator, so the
    private networks come first. *)
Theorem suggestCidrs_ok ifs :
  Forall suggestion_ok (suggestCidrs localeCompare ifs) ∧
  StronglySorted (cmp_le (suggestion_cmp localeCompare)) (suggestCidrs localeCompare ifs) ∧
  ∀ i j a b, (i < j)%nat → suggestCidrs localeCompare ifs !! i = Some a →
    suggestCidrs localeCompare ifs !! j = Some b →
    isPrivateIpv4 (sg_address b) = true → isPrivateIpv4 (sg_address a) = true.
Proof.
  assert (Hs : StronglySorted (cmp_le (suggestion_cmp localeCompare)) (suggestCidrs localeCompare ifs)).
  { apply js_sort_sorted; [apply suggestion_cmp_total|apply suggestion_cmp_trans]. }
  split_and!; [|done|].
  - apply Forall_js_sort, Forall_forall. intros s Hin%list_elem_of_In%in_flat_map.
    destruct Hin as ([iface addrs] & _ & Hin).
    apply list_elem_of_In, list_elem_of_omap in Hin as (a & _ & Ha). by eapply suggest_one_ok.
  - intros i j a b Hij Ha Hb. apply suggestion_le_private.
    by eapply StronglySorted_lookup.
Qed.
End Order.

Lemma suggestCidrs_ok_witness : ∃ s,
  suggestCidrs byte_compare
    [("eth1", [{| ia_family := "IPv4"; ia_internal := false; ia_address := "8.8.4.4"; ia_netmask := "255.255.255.0" |}]);
     ("en0", [{| ia_family := "IPv4"; ia_internal := false; ia_address := "192.168.1.20"; ia_netmask := "255.255.255.0" |}])]
    !! 0%nat = Some s ∧ sg_cidr s = "192.168.1.0/24" ∧ suggestion_ok s.
Proof.
  pose proof (suggestCidrs_ok byte_compare
    [("eth1", [{| ia_family := "IPv4"; ia_internal := false; ia_address := "8.8.4.4"; ia_netmask := "255.255.255.0" |}]);
     ("en0", [{| ia_family := "IPv4"; ia_internal := false; ia_address := "192.168.1.20"; ia_netmask := "255.255.255.0" |}])])
    as [H _].
  eexists. split; [vm_compute; reflexivity|]. split; [reflexivity|].
  rewrite Forall_forall in H. apply H, (list_elem_of_lookup_2 _ 0). vm_compute. reflexivity.
Defined.

(** ** Examples *)

Example parseCidr_ex :
  parseCidr "192.168.68.10/22" =
  Ok {| network := -1062714368; broadcast := -1062713345; prefix := 22 |}.
Proof. vm_compute. reflexivity. Qed.

Example listHosts_ex :
  listHostsInCidr "10.0.0.8/30" = Ok ["10.0.0.9"; "10.0.0.10"] ∧ listHostsInCidr "0.0.0.0/0" = Ok [].
Proof. split; vm_compute; reflexivity. Qed.

Example netmask_ex :
  netmaskToPrefix "255.255.252.0" = Ok 22 ∧ is_ok (netmaskToPrefix "255.0.255.0") = false.
Proof. split; vm_compute; reflexivity. Qed.
