(* ===== verification/Mac.v ===== *)
(** * MAC addresses

    packages/core/src/meross/lan/mac.ts ([normalizeMac]), the identity fields of a [System.All] reply
    (lan/discovery.ts: [extractLanUuid], [extractLanMac]) and the parsing of the [arp -a] and
    [ip neigh] output (lan/resolve-ip.ts). The regular expressions of the source are the matchers
    below; strings are ASCII. *)

From S2P Require Export Exn.

Local Open Scope string_scope.

(** ** Normalisation *)

Definition is_mac_sep (c : ascii) : bool := Ascii.eqb c ":" || Ascii.eqb c "-".

(** [/^([0-9a-f]{2}[:-]){n}([0-9a-f]{2})$/i] *)
Fixpoint mac_groups (n : nat) (s : string) : bool :=
  match n, s with
  | O, String a (String b EmptyString) => is_hex a && is_hex b
  | S n', String a (String b (String c s')) => is_hex a && is_hex b && is_mac_sep c && mac_groups n' s'
  | _, _ => false
  end.

Definition MAC_RE : string → bool := mac_groups 5.

(** [/^[0-9a-f]{12}$/i] *)
Definition HEX12_RE (s : string) : bool := Nat.eqb (String.length s) 12 && str_all is_hex s.

(** [s.match(/.{2}/g)] *)
Fixpoint pairs (s : string) : list string :=
  match s with
  | String a (String b s') => String a (String b EmptyString) :: pairs s'
  | _ => []
  end.

Definition normalizeMac (mac : string) : result string :=
  let normalized := replace_char "-" ":" (to_lower (trim mac)) in
  if MAC_RE normalized then Ok normalized
  else
    let compact := remove_char ":" normalized in
    if HEX12_RE compact then Ok (join ":" (pairs compact))
    else Err (JsError ("Invalid MAC address: " +:+ mac)).

(** ** Identity fields of a reply *)

(** [a ?? b ?? ... ?? undefined] *)
Definition first_present (l : list val) : val := foldr coalesce VUndef l.

Definition extractLanUuid (resp : val) : option string :=
  let hw := path ["payload"; "all"; "system"; "hardware"] resp in
  match first_present [prop "uuid" hw; prop "UUID" hw; prop "deviceUuid" hw; prop "deviceUUID" hw] with
  | VStr uuid => nonempty (trim uuid)
  | _ => None
  end.

Definition extractLanMac (resp : val) : option string :=
  let sys := path ["payload"; "all"; "system"] resp in
  match first_present
    [path ["hardware"; "macAddress"] sys; path ["hardware"; "mac"] sys; path ["hardware"; "macaddr"] sys;
     path ["hardware"; "MAC"] sys; path ["network"; "macAddress"] sys; path ["network"; "mac"] sys;
     path ["wifi"; "macAddress"] sys; path ["wifi"; "mac"] sys] with
  | VStr raw => if str_truthy (trim raw) then result_opt (normalizeMac raw) else None
  | _ => None
  end.

(** ** Neighbour tables *)

Fixpoint span (p : ascii → bool) (s : string) : string * string :=
  match s with
  | String c s' => if p c then let '(a, b) := span p s' in (String c a, b) else (EmptyString, s)
  | EmptyString => (EmptyString, EmptyString)
  end.

(** [\d+(\.\d+){n}] at the start of [s], with the rest. *)
Fixpoint match_dotted (n : nat) (s : string) : option (string * string) :=
  let '(d, r) := span is_digit s in
  if negb (str_truthy d) then None
  else match n with
       | O => Some (d, r)
       | S n' =>
           match r with
           | String c r' =>
               if Ascii.eqb c "." then
                 match match_dotted n' r' with
                 | Some (ip, r2) => Some (d +:+ "." +:+ ip, r2)
                 | None => None
                 end
               else None
           | EmptyString => None
           end
       end.

(** [line.match(/\((\d+\.\d+\.\d+\.\d+)\)/)?.[1]], the leftmost match. *)
Fixpoint paren_ip (line : string) : option string :=
  match line with
  | EmptyString => None
  | String c s' =>
      match (if Ascii.eqb c "(" then match_dotted 3 s' else None) with
      | Some (ip, String d _) => if Ascii.eqb d ")" then Some ip else paren_ip s'
      | _ => paren_ip s'
      end
  end.

Definition arp_line (target line : string) : option string :=
  if negb (includes target (to_lower line)) then None else paren_ip line.

Definition is_word (c : ascii) : bool :=
  is_digit c || is_lower c || is_upper c || Ascii.eqb c "_".

(** [\b] between two characters, absent at an end. *)
Definition word_boundary (a b : option ascii) : bool :=
  let w o := match o with Some c => is_word c | None => false end in xorb (w a) (w b).

Definition str_head (s : string) : option ascii := match s with String c _ => Some c | _ => None end.

(** [line.match(/\blladdr\s+([0-9a-f:]{17})\b/)?.[1]]; [prev] is the character before [line]. *)
Fixpoint lladdr (prev : option ascii) (line : string) : option string :=
  match line with
  | EmptyString => None
  | String c s' =>
      let here :=
        if word_boundary prev (Some c) && starts_with "lladdr" line then
          let '(ws, r) := span is_ws (str_drop 6 line) in
          let mac := str_take 17 r in
          if str_truthy ws && Nat.eqb (String.length mac) 17
             && str_all (λ d, is_hex_lower d || Ascii.eqb d ":") mac
             && word_boundary (str_head (str_last 1 mac)) (str_head (str_drop 17 r))
          then Some mac else None
        else None in
      match here with Some m => Some m | None => lladdr (Some c) s' end
  end.

(** [lower.match(/^(\d+\.\d+\.\d+\.\d+)\s/)?.[1]] *)
Definition leading_ip (line : string) : option string :=
  match match_dotted 3 line with
  | Some (ip, String c _) => if is_ws c then Some ip else None
  | _ => None
  end.

Definition neigh_line (target line : string) : option string :=
  let lower := to_lower line in
  match lladdr None lower with
  | Some m => if String.eqb m target then leading_ip lower else None
  | None => None
  end.

Fixpoint first_some {A B} (f : A → option B) (l : list A) : option B :=
  match l with
  | [] => None
  | x :: l' => match f x with Some y => Some y | None => first_some f l' end
  end.

Definition newline : ascii := ascii_of_nat 10.

(** The two tables in order; an empty output is skipped (and has no line that matches). *)
Definition arp_lookup (target out : string) : option string :=
  if str_truthy out then first_some (arp_line target) (split_on newline out) else None.

Definition neigh_lookup (target out : string) : option string :=
  if str_truthy out then first_some (neigh_line target) (split_on newline out) else None.

(** ** Lemmas *)

Lemma first_some_Some {A B} (f : A → option B) l y :
  first_some f l = Some y → ∃ x, x ∈ l ∧ f x = Some y.
Proof.
  induction l as [|x l IH]; simpl; [done|]. destruct (f x) eqn:E; intros H.
  - exists x. simplify_eq. split; [left|done].
  - destruct (IH H) as (z & Hz & ?). exists z. split; [by right|done].
Qed.

Lemma is_hex_not_sep c : is_hex c = true → Ascii.eqb c ":" = false.
Proof.
  intros H. apply Ascii.eqb_neq. intros ->. vm_compute in H. done.
Qed.

Lemma mac_groups_compact n s : mac_groups n s = true → str_all (λ c, negb (Ascii.eqb c "-")) s = true →
  str_all is_hex (remove_char ":" s) = true ∧
  String.length (remove_char ":" s) = (2 * n + 2)%nat ∧ join ":" (pairs (remove_char ":" s)) = s.
Proof.
  revert s. induction n as [|n IH]; intros [|a [|b s]] H Hd; try done.
  - destruct s; [|done]. cbn [mac_groups] in H. bool_hyps. unfold remove_char. simpl.
    rewrite !is_hex_not_sep by done. simpl. by repeat match goal with E : is_hex _ = true |- _ => rewrite E; clear E end.
  - destruct s as [|c s]; [done|]. cbn [mac_groups] in H. bool_hyps. simpl in Hd. bool_hyps.
    destruct (IH s) as (Hx & Hl & Hj); [done..|].
    assert (Ascii.eqb c ":" = true) as Hc.
    { unfold is_mac_sep in *. destruct (Ascii.eqb c "-"); [done|]. by destruct (Ascii.eqb c ":"). }
    unfold remove_char in *. simpl. rewrite !is_hex_not_sep, Hc by done. simpl.
    apply Ascii.eqb_eq in Hc as ->. split_and!; [by repeat match goal with E : is_hex _ = true |- _ => rewrite E; clear E end|lia|].
    destruct (pairs _) as [|p ps] eqn:Ep; [|by rewrite <- Hj].
    exfalso. destruct (str_filter _ s) as [|? [|??]] eqn:Es; simpl in *; try done; lia.
Qed.

(** The hexadecimal digits of a written MAC, and the canonical text of twelve digits. *)
Definition mac_digits (mac : string) : string :=
  remove_char ":" (replace_char "-" ":" (to_lower (trim mac))).

Definition mac_format (digits : string) : string := join ":" (pairs digits).

Lemma replace_char_free a b s : a ≠ b → str_all (λ c, negb (Ascii.eqb c a)) (replace_char a b s) = true.
Proof.
  intros Hab. unfold replace_char. induction s as [|c s IH]; [done|]. simpl. rewrite IH, andb_true_r.
  destruct (Ascii.eqb c a) eqn:E; [|by rewrite E].
  apply negb_true_iff, Ascii.eqb_neq. congruence.
Qed.

(** The separated form is recognised for speed only: both branches print the digits. *)
Lemma normalizeMac_digits mac : normalizeMac mac =
  if HEX12_RE (mac_digits mac) then Ok (mac_format (mac_digits mac))
  else Err (JsError ("Invalid MAC address: " +:+ mac)).
Proof.
  unfold normalizeMac, mac_digits, MAC_RE. set (n := replace_char "-" ":" _).
  destruct (mac_groups 5 n) eqn:E; [|done].
  destruct (mac_groups_compact 5 n E) as (H1 & H2 & H3); [by apply replace_char_free|].
  unfold HEX12_RE, mac_format. by rewrite H1, H2, H3.
Qed.

Definition is_lower_hex_text (s : string) : bool :=
  Nat.eqb (String.length s) 12 && str_all is_hex_lower s.

Lemma hex_lower_facts c : is_hex_lower c = true →
  is_hex c = true ∧ char_lower c = c ∧ is_ws c = false ∧ Ascii.eqb c "-" = false ∧ Ascii.eqb c ":" = false.
Proof. destruct c as [[] [] [] [] [] [] [] []]; vm_compute; intuition congruence. Qed.

Lemma is_hex_lower_of c : is_hex c = true → char_lower c = c → is_hex_lower c = true.
Proof. unfold is_hex. by intros H ->%eq_sym. Qed.

Lemma str_map_id f s : str_all (λ c, Ascii.eqb (f c) c) s = true → str_map f s = s.
Proof.
  induction s as [|c s IH]; simpl; [done|]. intros H. bool_hyps.
  rewrite IH by done. f_equal. by apply Ascii.eqb_eq.
Qed.

Lemma str_all_filter (p q : ascii → bool) s : str_all q s = true → str_all q (str_filter p s) = true.
Proof.
  induction s as [|c s IH]; simpl; [done|]. intros H. bool_hyps. destruct (p c); simpl; rewrite IH by done;
  by rewrite ?H.
Qed.

Lemma str_all_and (p q : ascii → bool) s :
  str_all p s = true → str_all q s = true → str_all (λ c, p c && q c) s = true.
Proof.
  induction s as [|c s IH]; simpl; [done|]. intros Hp Hq. bool_hyps. rewrite IH by done.
  by repeat match goal with E : ?p c = true |- _ => rewrite E; clear E end.
Qed.

Lemma trim_no_ws s : str_all (λ c, negb (is_ws c)) s = true → trim s = s.
Proof.
  assert (∀ s, str_all (λ c, negb (is_ws c)) s = true → trim_end s = s) as He.
  { clear s. intros s. induction s as [|c s IH]; simpl; [done|]. intros H. bool_hyps.
    rewrite IH by done. destruct s; [|done]. by rewrite H. }
  intros H. unfold trim. destruct s as [|c s]; [done|]. pose proof H as H'. simpl in H. bool_hyps.
  rewrite trim_start_head by done. by apply He.
Qed.

(** The digits of a written MAC are lower case once they are hexadecimal. *)
Lemma mac_digits_lower mac : HEX12_RE (mac_digits mac) = true → is_lower_hex_text (mac_digits mac) = true.
Proof.
  unfold HEX12_RE, is_lower_hex_text. intros H. bool_hyps. rewrite H. simpl.
  assert (Hl : str_all (λ c, Ascii.eqb (char_lower c) c) (mac_digits mac) = true).
  { apply str_all_filter. generalize (trim mac) as t. intros t. unfold replace_char, to_lower.
    induction t as [|c t IH]; simpl; [done|]. rewrite IH, andb_true_r. apply Ascii.eqb_eq.
    case_match; [done|apply char_lower_idemp]. }
  eapply str_all_impl, (str_all_and _ is_hex _ Hl); [|done].
  intros c Hc. simpl in Hc. bool_hyps. apply is_hex_lower_of; [done|by apply Ascii.eqb_eq].
Qed.

Lemma str_all_app p s t : str_all p (s +:+ t) = str_all p s && str_all p t.
Proof. induction s as [|c s IH]; simpl; [done|]. unfold String.append in IH |- *. by rewrite IH, andb_assoc. Qed.

Lemma str_filter_app p s t : str_filter p (s +:+ t) = str_filter p s +:+ str_filter p t.
Proof. induction s as [|c s IH]; simpl; [done|]. unfold String.append in IH |- *. rewrite IH. by case_match. Qed.

(** Formatting inserts colons only. *)
Lemma mac_format_pairs n d : String.length d = (2 * n)%nat → str_all is_hex_lower d = true →
  str_all (λ c, is_hex_lower c || Ascii.eqb c ":") (mac_format d) = true ∧ remove_char ":" (mac_format d) = d.
Proof.
  unfold mac_format, remove_char. revert d. induction n as [|n IH]; intros d Hl Ha.
  { by destruct d. }
  destruct d as [|a [|b d]]; simpl in Hl; [lia..|]. simpl in Ha. bool_hyps.
  destruct (IH d) as [Hfa Hfd]; [lia|done|].
  destruct (hex_lower_facts a) as (_ & _ & _ & _ & Hca); [done|].
  destruct (hex_lower_facts b) as (_ & _ & _ & _ & Hcb); [done|].
  cbn [pairs join]. destruct (pairs d) as [|p ps] eqn:Ep.
  - destruct d as [|? [|? ?]]; simpl in *; [|lia|done]. rewrite Hca, Hcb. simpl.
    by repeat match goal with E : is_hex_lower _ = true |- _ => rewrite E; clear E end.
  - rewrite !str_all_app, !str_filter_app, Hfa, Hfd. simpl. rewrite Hca, Hcb. simpl.
    by repeat match goal with E : is_hex_lower _ = true |- _ => rewrite E; clear E end.
Qed.

(** Formatting keeps the digits: the canonical text reads back as itself. *)
Lemma mac_digits_format d : is_lower_hex_text d = true → mac_digits (mac_format d) = d.
Proof.
  unfold is_lower_hex_text. intros [Hl Ha]%andb_true_iff. apply Nat.eqb_eq in Hl.
  destruct (mac_format_pairs 6 d Hl Ha) as [H1 H2]. unfold mac_digits.
  assert (Hc : ∀ c, is_hex_lower c || Ascii.eqb c ":" = true →
    is_ws c = false ∧ char_lower c = c ∧ Ascii.eqb c "-" = false).
  { intros c [Hc|Hc%Ascii.eqb_eq]%orb_true_iff; [|by subst]. apply hex_lower_facts in Hc. naive_solver. }
  rewrite trim_no_ws by (eapply str_all_impl, H1; intros c [-> _]%Hc; done).
  unfold to_lower. rewrite str_map_id
    by (eapply str_all_impl, H1; intros c (_ & -> & _)%Hc; apply Ascii.eqb_refl).
  unfold replace_char. rewrite str_map_id; [done|].
  eapply str_all_impl, H1. intros c (_ & _ & ->)%Hc. apply Ascii.eqb_refl.
Qed.

(** ** Properties *)

(** [normalizeMac] accepts exactly the texts that hold twelve hexadecimal digits once trimmed,
    lower-cased and stripped of separators; the result is the canonical text of those digits, six
    lower-case pairs, which normalises to itself and identifies the digits. *)
Theorem normalizeMac_canonical mac n : normalizeMac mac = Ok n →
  is_lower_hex_text (mac_digits mac) = true ∧ n = mac_format (mac_digits mac) ∧
  mac_digits n = mac_digits mac ∧ normalizeMac n = Ok n ∧ MAC_RE n = true.
Proof.
  rewrite normalizeMac_digits. destruct (HEX12_RE (mac_digits mac)) eqn:E; [|done]. intros [= <-].
  pose proof (mac_digits_lower _ E) as Hl. split_and!; [done..|by apply mac_digits_format| |].
  - rewrite normalizeMac_digits, mac_digits_format by done. by rewrite E.
  - unfold is_lower_hex_text in Hl. bool_hyps. revert H H0. generalize (mac_digits mac) as d. intros d Hl Ha.
    apply Nat.eqb_eq in Hl. do 12 (destruct d as [|? d]; [done|]). destruct d; [|done]. simpl in Ha. bool_hyps.
    repeat match goal with H : is_hex_lower _ = true |- _ => apply hex_lower_facts in H as (? & _) end.
    unfold mac_format, MAC_RE. simpl.
    by repeat match goal with H : is_hex _ = true |- _ => rewrite H; clear H end.
Qed.

Lemma normalizeMac_canonical_witness : normalizeMac "c4:e7:ae:1a:c4:74" = Ok "c4:e7:ae:1a:c4:74".
Proof.
  destruct (normalizeMac_canonical "C4E7AE1AC474" "c4:e7:ae:1a:c4:74") as (_ & _ & _ & H & _).
  - vm_compute. reflexivity.
  - exact H.
Defined.

(** ** Examples *)

Example normalizeMac_ex :
  (normalizeMac " C4-E7-AE-1A-C4-74 ", normalizeMac "c4e7:ae1ac474", is_ok (normalizeMac "c4:e7:ae:1a:c4")) =
  (Ok "c4:e7:ae:1a:c4:74", Ok "c4:e7:ae:1a:c4:74", false).
Proof. vm_compute. reflexivity. Qed.

Example arp_ex :
  arp_lookup "c4:e7:ae:1a:c4:74" "? (192.168.1.50) at c4:e7:ae:1a:c4:74 on en0 ifscope [ethernet]" =
  Some "192.168.1.50".
Proof. vm_compute. reflexivity. Qed.

Example neigh_ex :
  neigh_lookup "c4:e7:ae:1a:c4:74" "192.168.1.50 dev wlan0 lladdr c4:e7:ae:1a:c4:74 REACHABLE" =
  Some "192.168.1.50".
Proof. vm_compute. reflexivity. Qed.
