(* ===== verification/Eff.v ===== *)
(** * Effectful code

    The asynchronous functions of the source are trees of effects. [Sys] asks the runtime (clock,
    network, files, ...), [Atom] is a synchronous read or write of the shared objects of the server,
    [Await] waits for a promise kept in them, [Fork] starts a call whose promise is dropped
    ([void f()]) and continues. A tree is well founded, so a function terminates once its effects
    are answered.

    [runs p tr r] says that [p] can end with [r] after the runtime calls of [tr], whatever the
    answers and whatever other code does to the shared objects meanwhile; Threads.v gives the
    interleaving semantics over one shared state. *)

From S2P Require Export Exn.

Section Prog.
(** [St] is the shared state, [R] what a promise settles with, [E] the calls to the runtime. *)
Context {St R : Type} {E : Type → Type}.

Inductive prog (A : Type) : Type :=
| Ret (a : A)
| Throw (e : exn)
| Sys {X : Type} (e : E X) (k : X → prog A)
| Atom {X : Type} (f : St → St * X) (k : X → prog A)
| Await (pid : nat) (k : result R → prog A)
| Fork (q : prog unit) (k : prog A).

Fixpoint bind {A B} (p : prog A) (f : A → prog B) : prog B :=
  match p with
  | Ret _ a => f a
  | Throw _ e => Throw _ e
  | Sys _ e k => Sys _ e (λ x, bind (k x) f)
  | Atom _ g k => Atom _ g (λ x, bind (k x) f)
  | Await _ pid k => Await _ pid (λ x, bind (k x) f)
  | Fork _ q k => Fork _ q (bind k f)
  end.

(** [try { return p } catch (e) { return h(e) }]: an exception of [h] is not caught. *)
Fixpoint catch {A} (p : prog A) (h : exn → prog A) : prog A :=
  match p with
  | Ret _ a => Ret _ a
  | Throw _ e => h e
  | Sys _ e k => Sys _ e (λ x, catch (k x) h)
  | Atom _ g k => Atom _ g (λ x, catch (k x) h)
  | Await _ pid k => Await _ pid (λ x, catch (k x) h)
  | Fork _ q k => Fork _ q (catch k h)
  end.

(** [try { p } finally { c }] *)
Definition finally {A} (p : prog A) (c : prog unit) : prog A :=
  bind (catch (bind p (λ a, Ret _ (Ok a))) (λ e, Ret _ (Err e)))
       (λ r, bind c (λ _, match r with Ok a => Ret _ a | Err e => Throw _ e end)).

Definition of_result {A} (r : result A) : prog A :=
  match r with Ok a => Ret _ a | Err e => Throw _ e end.

(** A call to the runtime, one that may fail, and the reads and writes of the shared state. *)
Definition sys {X} (e : E X) : prog X := Sys _ e (Ret _).

Definition sys_try {X} (e : E (result X)) : prog X := Sys _ e of_result.

Definition gets {X} (f : St → X) : prog X := Atom _ (λ s, (s, f s)) (Ret _).

Definition modify (f : St → St) : prog unit := Atom _ (λ s, (f s, tt)) (Ret _).

Definition atom {X} (f : St → St * X) : prog X := Atom _ f (Ret _).

(** [for (const x of l) await f(x)] and its collecting form. *)
Fixpoint for_each {A} (l : list A) (f : A → prog unit) : prog unit :=
  match l with
  | [] => Ret _ tt
  | x :: l' => bind (f x) (λ _, for_each l' f)
  end.

Fixpoint for_fold {A B} (l : list A) (acc : B) (f : B → A → prog B) : prog B :=
  match l with
  | [] => Ret _ acc
  | x :: l' => bind (f acc x) (λ acc', for_fold l' acc' f)
  end.

(** ** Runs *)

(** A call to the runtime and its answer. *)
Inductive event : Type :=
| Ev {X : Type} (e : E X) (x : X).

Fixpoint runs {A} (p : prog A) (tr : list event) (r : result A) : Prop :=
  match p with
  | Ret _ a => tr = [] ∧ r = Ok a
  | Throw _ e => tr = [] ∧ r = Err e
  | Sys _ e k => ∃ x tr', tr = Ev e x :: tr' ∧ runs (k x) tr' r
  | Atom _ f k => ∃ s, runs (k (snd (f s))) tr r
  | Await _ pid k => ∃ v, runs (k v) tr r
  | Fork _ q k => runs k tr r
  end.

(** A runtime that answers by position, for executing a function on a concrete input. *)
Record oracle := { o_sys : ∀ X, nat → E X → X; o_state : St; o_await : nat → result R }.

Fixpoint exec {A} (o : oracle) (n : nat) (p : prog A) : list event * result A :=
  match p with
  | Ret _ a => ([], Ok a)
  | Throw _ e => ([], Err e)
  | Sys _ e k => let x := o_sys o _ n e in
                 let '(tr, r) := exec o (S n) (k x) in (Ev e x :: tr, r)
  | Atom _ f k => exec o n (k (snd (f (o_state o))))
  | Await _ pid k => exec o n (k (o_await o pid))
  | Fork _ q k => exec o n k
  end.

Lemma exec_runs {A} o n (p : prog A) : runs p (fst (exec o n p)) (snd (exec o n p)).
Proof.
  revert n. induction p as [| |A X e k IH|A X f k IH|A pid k IH|A q IHq k IH]; intros n; simpl; try done.
  - specialize (IH (o_sys o X n e) (S n)). destruct (exec o _ _). simpl in *. eauto.
  - eauto.
  - eauto.
Qed.

(** Every function ends, whatever the answers. *)
Lemma runs_total {A} (o : oracle) (p : prog A) : ∃ tr r, runs p tr r.
Proof. eexists _, _. apply (exec_runs o 0). Qed.

Lemma runs_bind {A B} (p : prog A) (f : A → prog B) tr r :
  runs (bind p f) tr r ↔
  (∃ tr1 tr2 a, tr = tr1 ++ tr2 ∧ runs p tr1 (Ok a) ∧ runs (f a) tr2 r) ∨
  (∃ e, runs p tr (Err e) ∧ r = Err e).
Proof.
  revert f tr. induction p as [A a|A e|A X e k IH|A X g k IH|A pid k IH|A q IHq k IH];
    intros f tr; cbn [bind runs].
  - split; [intros H; left; by exists [], tr, a|].
    intros [(tr1 & tr2 & b & -> & [-> E1] & Hf)|(e & [_ E1] & _)]; by simplify_eq.
  - split; [intros [-> ->]; right; eauto|]. intros [(? & ? & ? & _ & [_ E1] & _)|(e' & [-> E1] & ->)]; by simplify_eq.
  - setoid_rewrite IH. split.
    + intros (x & tr' & -> & [(tr1 & tr2 & a & -> & H1 & H2)|(e' & H & ->)]).
      * left. exists (Ev e x :: tr1), tr2, a. naive_solver.
      * right. eauto 8.
    + intros [(tr1 & tr2 & a & -> & (x & tr' & -> & H1) & H2)|(e' & (x & tr' & -> & H) & ->)].
      * exists x, (tr' ++ tr2). split; [done|]. left. eauto 8.
      * eauto 10.
  - setoid_rewrite IH. naive_solver.
  - setoid_rewrite IH. naive_solver.
  - apply IH.
Qed.

Lemma runs_catch {A} (p : prog A) h tr r :
  runs (catch p h) tr r ↔
  (∃ a, runs p tr (Ok a) ∧ r = Ok a) ∨
  (∃ tr1 tr2 e, tr = tr1 ++ tr2 ∧ runs p tr1 (Err e) ∧ runs (h e) tr2 r).
Proof.
  revert h tr. induction p as [A a|A e|A X e k IH|A X g k IH|A pid k IH|A q IHq k IH];
    intros h tr; cbn [catch runs].
  - split; [intros [-> ->]; eauto|]. intros [(b & [-> E1] & ->)|(?&?&?&_&[_ E1]&_)]; by simplify_eq.
  - split; [intros H; right; by exists [], tr, e|].
    intros [(b & [_ E1] & _)|(tr1 & tr2 & e' & -> & [-> E1] & Hf)]; by simplify_eq.
  - setoid_rewrite IH. split.
    + intros (x & tr' & -> & [(a & H & ->)|(tr1 & tr2 & e' & -> & H1 & H2)]).
      * left. eauto 8.
      * right. exists (Ev e x :: tr1), tr2, e'. naive_solver.
    + intros [(a & (x & tr' & -> & H) & ->)|(tr1 & tr2 & e' & -> & (x & tr' & -> & H1) & H2)].
      * eauto 10.
      * exists x, (tr' ++ tr2). split; [done|]. right. eauto 8.
  - setoid_rewrite IH. naive_solver.
  - setoid_rewrite IH. naive_solver.
  - apply IH.
Qed.

(** ** Weakest preconditions: what every run does *)

Fixpoint wp {A} (p : prog A) (Q : list event → result A → Prop) : Prop :=
  match p with
  | Ret _ a => Q [] (Ok a)
  | Throw _ e => Q [] (Err e)
  | Sys _ e k => ∀ x, wp (k x) (λ tr r, Q (Ev e x :: tr) r)
  | Atom _ f k => ∀ s, wp (k (snd (f s))) Q
  | Await _ pid k => ∀ v, wp (k v) Q
  | Fork _ q k => wp k Q
  end.

Lemma wp_runs {A} (p : prog A) Q : wp p Q ↔ ∀ tr r, runs p tr r → Q tr r.
Proof.
  revert Q. induction p as [A a|A e|A X e k IH|A X g k IH|A pid k IH|A q IHq k IH]; intros Q; cbn [wp runs].
  - naive_solver.
  - naive_solver.
  - setoid_rewrite IH. naive_solver.
  - setoid_rewrite IH. naive_solver.
  - setoid_rewrite IH. naive_solver.
  - apply IH.
Qed.

Lemma wp_mono {A} (p : prog A) Q1 Q2 : (∀ tr r, Q1 tr r → Q2 tr r) → wp p Q1 → wp p Q2.
Proof. rewrite !wp_runs. naive_solver. Qed.

Lemma wp_bind {A B} (p : prog A) (f : A → prog B) Q :
  wp (bind p f) Q ↔
  wp p (λ tr r, match r with
                | Ok a => wp (f a) (λ tr' r', Q (tr ++ tr') r')
                | Err e => Q tr (Err e)
                end).
Proof.
  rewrite !wp_runs. setoid_rewrite runs_bind. split.
  - intros H tr [a|e] Hp; [|eauto 6]. apply wp_runs. intros tr' r' Hf. apply H. left. eauto 8.
  - intros H tr r [(tr1 & tr2 & a & -> & H1 & H2)|(e & H1 & ->)].
    + specialize (H _ _ H1). simpl in H. rewrite wp_runs in H. auto.
    + exact (H _ _ H1).
Qed.

Lemma wp_catch {A} (p : prog A) h Q :
  wp (catch p h) Q ↔
  wp p (λ tr r, match r with
                | Ok a => Q tr (Ok a)
                | Err e => wp (h e) (λ tr' r', Q (tr ++ tr') r')
                end).
Proof.
  rewrite !wp_runs. setoid_rewrite runs_catch. split.
  - intros H tr [a|e] Hp; [eauto 6|]. apply wp_runs. intros tr' r' Hf. apply H. right. eauto 8.
  - intros H tr r [(a & H1 & ->)|(tr1 & tr2 & e & -> & H1 & H2)].
    + exact (H _ _ H1).
    + specialize (H _ _ H1). simpl in H. rewrite wp_runs in H. auto.
Qed.

(** A property of all calls of a function and of its result, the shape of most safety claims. *)
Definition calls (P : event → Prop) {A} (p : prog A) : Prop := wp p (λ tr _, Forall P tr).

Lemma wp_and {A} (p : prog A) Q1 Q2 : wp p Q1 → wp p Q2 → wp p (λ tr r, Q1 tr r ∧ Q2 tr r).
Proof. rewrite !wp_runs. naive_solver. Qed.

Lemma calls_bind P {A B} (p : prog A) (f : A → prog B) :
  calls P p → (∀ a, calls P (f a)) → calls P (bind p f).
Proof.
  unfold calls. rewrite wp_bind. intros Hp Hf. eapply wp_mono, Hp. intros tr [a|e] Htr; [|done].
  eapply wp_mono, Hf. intros tr' r' Htr'. by apply Forall_app.
Qed.

Lemma calls_catch P {A} (p : prog A) h : calls P p → (∀ e, calls P (h e)) → calls P (catch p h).
Proof.
  unfold calls. rewrite wp_catch. intros Hp Hf. eapply wp_mono, Hp. intros tr [a|e] Htr; [done|].
  eapply wp_mono, Hf. intros tr' r' Htr'. by apply Forall_app.
Qed.

Lemma calls_finally P {A} (p : prog A) c : calls P p → calls P c → calls P (finally p c).
Proof.
  intros Hp Hc. unfold finally. apply calls_bind.
  - apply calls_catch; [|intros; constructor]. apply calls_bind; [done|]. intros. constructor.
  - intros r. apply calls_bind; [done|]. intros _. destruct r; constructor.
Qed.

Lemma calls_for_fold P {A B} (l : list A) (acc : B) f :
  (∀ acc x, calls P (f acc x)) → calls P (for_fold l acc f).
Proof.
  intros H. revert acc. induction l as [|x l IH]; intros acc; simpl; [constructor|].
  apply calls_bind; auto.
Qed.

Lemma calls_mono (P1 P2 : event → Prop) {A} (p : prog A) :
  (∀ e, P1 e → P2 e) → calls P1 p → calls P2 p.
Proof. intros H. apply wp_mono. intros tr r Htr. eapply Forall_impl; eauto. Qed.
End Prog.

Arguments Ret {St R E A} _.
Arguments Throw {St R E A} _.
Arguments Sys {St R E A X} _ _.
Arguments Atom {St R E A X} _ _.
Arguments Await {St R E A} _ _.
Arguments Fork {St R E A} _ _.
Arguments prog : clear implicits.
Arguments event : clear implicits.
Arguments oracle : clear implicits.

(** [let x = await p; k], [try p catch h]. *)
Notation "'let!' x ':=' p 'in' k" := (bind p (λ x, k))
  (at level 100, x name, p at level 100, k at level 200, right associativity) : js_scope.
Notation "'let!' ' x ':=' p 'in' k" := (bind p (λ y, match y with x => k end))
  (at level 100, x pattern, p at level 100, k at level 200, right associativity) : js_scope.
Notation "p ';;!' k" := (bind p (λ _, k)) (at level 100, k at level 200, right associativity) : js_scope.

Section Await.
Context {St R : Type} {E : Type → Type}.

Definition await (pid : nat) : prog St R E R := Await pid of_result.

Definition fork (q : prog St R E unit) : prog St R E unit := Fork q (Ret tt).
End Await.

Create HintDb calls discriminated.
#[export] Hint Resolve @calls_bind @calls_catch @calls_finally @calls_for_fold : calls.
