(* ===== verification/Files.v ===== *)
(** * Files and commands of the tools

    What the scripts of packages/qa and packages/new ask of the operating system, as effects, and a file
    system in memory that answers them: a map of the files and the set of the directories, by path. *)

From S2P Require Export NodePath Eff JsonText.
From stdpp Require Export gmap.
From coqutil Require Export Datatypes.RecordSettersUsingExistingGetters.

#[global] Arguments RecordSettersUsingExistingGetters.const {E} newValue _ /.

Local Open Scope string_scope.
Local Open Scope Z_scope.
Local Open Scope list_scope.

(** ** Effects *)

(** An entry of a directory: [isDirectory()], [isFile()], or neither. *)
Inductive entry_type : Type := EntryDir | EntryFile | EntryOther.

(** [FLog] and [FError] are [console.log] and [console.error]; [FSpawn] is [Bun.spawn] of a command in a directory
    and its exit code. *)
Inductive fileE : Type → Type :=
| FCwd : fileE string
| FEnv (name : string) : fileE (option string)
| FExists (path : string) : fileE bool
| FRead (path : string) : fileE (result string)
| FWrite (path text : string) : fileE (result unit)
| FMkdir (path : string) : fileE (result unit)
(** [rm(path, { force: true })] *)
| FRemove (path : string) : fileE (result unit)
| FReaddir (path : string) : fileE (result (list (string * entry_type)))
| FCopy (source target : string) : fileE (result unit)
| FSpawn (command : string) (args : list string) (cwd : string) : fileE (result Z)
| FLog (line : string) : fileE unit
| FError (line : string) : fileE unit.

Abbreviation F := (prog unit unit fileE).

Definition readFile (path : string) : F string := sys_try (FRead path).

Definition writeFile (path text : string) : F unit := sys_try (FWrite path text).

(** [mkdir(path, { recursive: true })] *)
Definition mkdir (path : string) : F unit := sys_try (FMkdir path).

(** ** A file system *)

Record store := { files : gmap string string; dirs : gset string; cwd : string; env : gmap string string; out : list string }.

Definition path_exists (s : store) (p : string) : bool := bool_decide (is_Some (files s !! p)) || bool_decide (p ∈ dirs s).

Section Run.
(** The error of a system call on a path, the entries of a directory, and what a command does to the files. *)
Variable io_error : string → exn.
Variable readdir : store → string → list (string * entry_type).
Variable spawn : string → list string → string → store → store * result Z.

Definition write (p text : string) (s : store) : store := s <| files := <[p := text]> (files s) |>.

Definition print_line (line : string) (s : store) : store := s <| out := out s ++ [line] |>.

Definition answer {X : Type} (e : fileE X) (s : store) : store * X :=
  match e in fileE X return store * X with
  | FCwd => (s, cwd s)
  | FEnv name => (s, env s !! name)
  | FExists p => (s, path_exists s p)
  | FRead p => (s, match files s !! p with Some text => Ok text | None => Err (io_error p) end)
  | FWrite p text => if decide (p ∈ dirs s) then (s, Err (io_error p)) else (write p text s, Ok tt)
  | FMkdir p => if decide (is_Some (files s !! p)) then (s, Err (io_error p)) else (s <| dirs := {[p]} ∪ dirs s |>, Ok tt)
  | FRemove p => if decide (p ∈ dirs s) then (s, Err (io_error p)) else (s <| files := delete p (files s) |>, Ok tt)
  | FReaddir p => (s, if decide (p ∈ dirs s) then Ok (readdir s p) else Err (io_error p))
  | FCopy a b => match files s !! a with
                 | Some text => if decide (b ∈ dirs s) then (s, Err (io_error b)) else (write b text s, Ok tt)
                 | None => (s, Err (io_error a))
                 end
  | FSpawn command args dir => spawn command args dir s
  | FLog line | FError line => (print_line line s, tt)
  end.

(** The run of a program on a file system. *)
Fixpoint run {A : Type} (p : F A) (s : store) : store * result A :=
  match p with
  | Ret a => (s, Ok a)
  | Throw e => (s, Err e)
  | Sys e k => run (k (snd (answer e s))) (fst (answer e s))
  | Atom f k => run (k (snd (f tt))) s
  | Await _ k => run (k (Ok tt)) s
  | Fork q k => run k (fst (run q s))
  end.

Lemma run_bind {A B : Type} (p : F A) (f : A → F B) s :
  run (bind p f) s = match run p s with (s', Ok a) => run (f a) s' | (s', Err e) => (s', Err e) end.
Proof. revert s. induction p as [| |A X e k IH|A X g k IH|A pid k IH|A q IHq k IH]; intros s; cbn [bind run]; auto. Qed.

Lemma run_catch {A : Type} (p : F A) h s :
  run (catch p h) s = match run p s with (s', Ok a) => (s', Ok a) | (s', Err e) => run (h e) s' end.
Proof. revert s. induction p as [| |A X e k IH|A X g k IH|A pid k IH|A q IHq k IH]; intros s; cbn [catch run]; auto. Qed.

Lemma run_sys {X} (e : fileE X) s : run (sys e) s = (fst (answer e s), Ok (snd (answer e s))).
Proof. done. Qed.

Lemma run_of_result {A} (r : result A) s : run (of_result r) s = (s, r).
Proof. by destruct r. Qed.

Lemma run_sys_try {X} (e : fileE (result X)) s : run (sys_try e) s = answer e s.
Proof. unfold sys_try. cbn [run]. rewrite run_of_result. by destruct (answer e s). Qed.

Lemma run_read p s : run (readFile p) s = (s, match files s !! p with Some text => Ok text | None => Err (io_error p) end).
Proof. apply run_sys_try. Qed.

Lemma run_write p text s : p ∉ dirs s → run (writeFile p text) s = (write p text s, Ok tt).
Proof. intros Hp. unfold writeFile. rewrite run_sys_try. cbn [answer]. by rewrite decide_False. Qed.

Lemma path_exists_file s p text : files s !! p = Some text → path_exists s p = true.
Proof. unfold path_exists. intros ->. done. Qed.

Lemma path_exists_none s p : p ∉ dirs s → files s !! p = None → path_exists s p = false.
Proof. unfold path_exists. intros Hd ->. by rewrite (bool_decide_eq_false_2 (p ∈ dirs s)). Qed.
End Run.
