(* ===== verification/QaInit.v ===== *)
(** * Wiring the QA configuration

    packages/qa/scripts/qa-init.ts: its arguments, JSON with comments, and the files it writes to a package. *)

From S2P Require Export Files.

Local Open Scope string_scope.
Local Open Scope Z_scope.
Local Open Scope list_scope.

Definition newline : string := String (chr 10) "".

Definition quoted (s : string) : string := quote +:+ s +:+ quote.

Definition USAGE : string :=
"Usage:
  bun run --cwd packages/qa qa:init --dir <path> [--kind web|cli|lib|auto] [--tailwind] [--force]
  bun run --cwd packages/qa qa:init <path> [--kind web|cli|lib|auto] [--tailwind] [--force]

Examples:
  bun run --cwd packages/qa qa:init --dir apps/web --kind auto
  bun run --cwd packages/qa qa:init apps/web --kind auto
  bun run --cwd packages/qa qa:init --dir packages/cli --kind cli
  bun run --cwd packages/qa qa:init --dir packages/lib --kind lib".

(** ** Arguments *)

(** [Kind] without ['auto'], which is [None] of an option. *)
Inductive app_kind : Type := KindWeb | KindCli | KindLib.

#[export] Instance app_kind_eq_dec : EqDecision app_kind. Proof. solve_decision. Defined.

Definition kind_name (k : app_kind) : string := match k with KindWeb => "web" | KindCli => "cli" | KindLib => "lib" end.

Definition parse_kind (s : string) : option (option app_kind) :=
  if String.eqb s "web" then Some (Some KindWeb)
  else if String.eqb s "cli" then Some (Some KindCli)
  else if String.eqb s "lib" then Some (Some KindLib)
  else if String.eqb s "auto" then Some None
  else None.

Record qa_options := { qo_dir : option string; qo_kind : option app_kind; qo_tailwind : option bool; qo_force : bool }.

Section Engine.
(** What the engine throws for a property of a value that has none, and for a text that is no JSON. *)
Variable type_error : exn.
Variable syntax_error : exn.

(** What comes of one argument: the arguments left and the options, the end of the process after the usage, or an
    error. *)
Inductive arg_step : Type :=
| NextArg (rest : list string) (o : qa_options)
| ExitHelp
| FailArg (e : exn).

Definition isBareDirArg (arg : string) (o : qa_options) : bool :=
  negb (starts_with "--" arg) && match qo_dir o with Some d => negb (str_truthy d) | None => true end.

(** The handlers take the arguments after their flag. *)
Definition handleDirFlag (rest : list string) (o : qa_options) : arg_step := NextArg (tail rest) (o <| qo_dir := head rest |>).

Definition handleKindFlag (rest : list string) (o : qa_options) : arg_step :=
  match head rest ≫= parse_kind with
  | Some kind => NextArg (tail rest) (o <| qo_kind := kind |>)
  | None => FailArg (JsError ("Invalid --kind: " +:+ (head rest ?: "(missing)")))
  end.

Definition handleTailwindFlag (rest : list string) (o : qa_options) : arg_step := NextArg rest (o <| qo_tailwind := Some true |>).

Definition handleForceFlag (rest : list string) (o : qa_options) : arg_step := NextArg rest (o <| qo_force := true |>).

Definition handleHelpFlag (rest : list string) (o : qa_options) : arg_step := ExitHelp.

(** [argHandlers[arg]] of an object literal: the names of [Object.prototype] have handlers too. Called with the
    arguments, [constructor] and [toString] give an index that ends the loop, and the others throw. *)
Definition inherited_end : list string := ["constructor"; "toString"].

Definition inherited_fail : list string :=
  ["__proto__"; "hasOwnProperty"; "isPrototypeOf"; "propertyIsEnumerable"; "toLocaleString"; "valueOf";
   "__defineGetter__"; "__defineSetter__"; "__lookupGetter__"; "__lookupSetter__"].

Definition argHandlers (arg : string) : option (list string → qa_options → arg_step) :=
  if String.eqb arg "--dir" then Some handleDirFlag
  else if String.eqb arg "--force" then Some handleForceFlag
  else if String.eqb arg "--help" then Some handleHelpFlag
  else if String.eqb arg "--kind" then Some handleKindFlag
  else if String.eqb arg "--tailwind" then Some handleTailwindFlag
  else if String.eqb arg "-h" then Some handleHelpFlag
  else if existsb (String.eqb arg) inherited_end then Some (λ _ o, NextArg [] o)
  else if existsb (String.eqb arg) inherited_fail then Some (λ _ _, FailArg type_error)
  else None.

Definition consumeArg (arg : string) (rest : list string) (o : qa_options) : arg_step :=
  if negb (str_truthy arg) then NextArg rest o
  else if isBareDirArg arg o then NextArg rest (o <| qo_dir := Some arg |>)
  else match argHandlers arg with
       | Some handler => handler rest o
       | None => NextArg rest o
       end.

Inductive parsed_args : Type :=
| ParsedArgs (o : qa_options)
| HelpShown
| ParseFailed (e : exn).

(** The loop of [parseArgsList], with a turn for each argument. *)
Fixpoint parse_loop (turns : nat) (args : list string) (o : qa_options) : parsed_args :=
  match args, turns with
  | arg :: rest, S turns =>
      match consumeArg arg rest o with
      | NextArg rest o => parse_loop turns rest o
      | ExitHelp => HelpShown
      | FailArg e => ParseFailed e
      end
  | _, _ => ParsedArgs o
  end.

Definition no_options : qa_options := {| qo_dir := None; qo_kind := None; qo_tailwind := None; qo_force := false |}.

Definition parseArgsList (args : list string) : parsed_args := parse_loop (length args) args no_options.

(** ** JSON with comments *)

Inductive strip_state : Type := Outside | InString (quoteChar : ascii) | LineComment | BlockComment.

Definition is_quote (c : ascii) : bool := Nat.eqb (nat_of_ascii c) 34 || Nat.eqb (nat_of_ascii c) 39.

(** The loops of [stripJsonComments] as the states of one; [LineComment] ends before the newline. *)
Fixpoint strip (st : strip_state) (s : string) : string :=
  match s with
  | EmptyString => ""
  | String c s1 =>
      match st with
      | InString q =>
          if Ascii.eqb c "\" then
            match s1 with
            | String d s2 => String c (String d (strip st s2))
            | EmptyString => String c ""
            end
          else String c (strip (if Ascii.eqb c q then Outside else st) s1)
      | Outside =>
          if is_quote c then String c (strip (InString c) s1)
          else if Ascii.eqb c "/" then
            match s1 with
            | String d s2 =>
                if Ascii.eqb d "/" then strip LineComment s2
                else if Ascii.eqb d "*" then strip BlockComment s2
                else String c (strip Outside s1)
            | EmptyString => String c ""
            end
          else String c (strip Outside s1)
      | LineComment => if Ascii.eqb c (chr 10) then String c (strip Outside s1) else strip LineComment s1
      | BlockComment =>
          match s1 with
          | String d s2 => if Ascii.eqb c "*" && Ascii.eqb d "/" then strip Outside s2 else strip BlockComment s1
          | EmptyString => ""
          end
      end
  end.

Definition stripJsonComments (input : string) : string := strip Outside input.

Definition readJson (path : string) : F val :=
  let! contents := readFile path in
  match json_parse (stripJsonComments contents) with
  | Some v => Ret v
  | None => Throw syntax_error
  end.

Definition json_file (data : val) : string := json_pretty data +:+ newline.

Definition writeJson (path : string) (data : val) : F unit := writeFile path (json_file data).

Definition writeIfMissing (path contents : string) (force : bool) : F bool :=
  let! here := sys (FExists path) in
  if here && negb force then Ret false
  else writeFile path contents ;;! Ret true.

(** [v.k] and [v.k = w], which throw on what has no properties; the properties of an array that are no indices
    do not reach [JSON.stringify]. *)
Definition read_prop (k : string) (v : val) : result val := if nullish v then Err type_error else Ok (prop k v).

Definition assign (k : string) (w : val) (v : val) : result val := if is_object v then Ok (set_prop k w v) else Err type_error.

(** ** The package *)

Definition getPackageJson (dir : string) : F (val * string) :=
  let packagePath := path_join [dir; "package.json"] in
  let! here := sys (FExists packagePath) in
  if negb here then Throw (JsError ("Missing package.json at " +:+ packagePath))
  else let! data := readJson packagePath in Ret (data, packagePath).

Definition coerceDeps (pkg : val) : result (val * val) :=
  let? deps := read_prop "dependencies" pkg in
  let? devDeps := read_prop "devDependencies" pkg in
  Ok (coalesce deps (VObj []), coalesce devDeps (VObj [])).

(** [Object.keys], of which only names that are no indices matter. *)
Definition keys_of (v : val) : list string := match v with VObj o => jkeys o | _ => [] end.

Definition has_key (k : string) (l : list string) : bool := existsb (String.eqb k) l.

Definition detectKind (pkg : val) : result app_kind :=
  let? '(deps, devDeps) := coerceDeps pkg in
  let allDeps := keys_of deps ++ keys_of devDeps in
  Ok (if has_key "react" allDeps || has_key "react-dom" allDeps || has_key "next" allDeps || has_key "vite" allDeps then KindWeb
      else if is_string (prop "bin" pkg) || typeof_object (prop "bin" pkg) then KindCli
      else if match prop "name" pkg with VStr name => includes "cli" (to_lower name) | _ => false end then KindCli
      else KindLib).

Definition uses (dep : string) (pkg : val) : result bool :=
  let? '(deps, devDeps) := coerceDeps pkg in
  Ok (truthy (prop dep deps) || truthy (prop dep devDeps)).

Definition detectTailwind : val → result bool := uses "tailwindcss".

Definition detectReact : val → result bool := uses "react".

Definition resolveKind (kind : option app_kind) (pkg : val) : result app_kind :=
  match kind with None => detectKind pkg | Some k => Ok k end.

Definition resolveTailwind (tailwind : option bool) (pkg : val) (kind : app_kind) : result bool :=
  match tailwind with
  | Some t => Ok t
  | None => let? t := detectTailwind pkg in Ok (t || bool_decide (kind = KindWeb))
  end.

(** Assignments in a row. *)
Fixpoint assign_all (l : list (string * string)) (v : val) : result val :=
  match l with
  | [] => Ok v
  | (k, w) :: l => let? v := assign k (VStr w) v in assign_all l v
  end.

Definition qa_scripts (kind : app_kind) : list (string * string) :=
  [("lint", "oxlint --config oxlint.json --fix ."); ("format", "prettier --config prettier.config.cjs --write .");
   ("typecheck", "tsc -p tsconfig.json --noEmit")] ++ (if decide (kind = KindWeb) then [] else [("build", "bunup")]).

Definition applyQaScripts (scripts : val) (kind : app_kind) : result val := assign_all (qa_scripts kind) scripts.

Definition qa_dev_dependencies (kind : app_kind) : list (string * string) :=
  ("@merossity/qa", "workspace:*") :: (if decide (kind = KindWeb) then [] else [("bunup", "latest")]).

Definition applyQaDevDependencies (devDependencies : val) (kind : app_kind) : result val :=
  assign_all (qa_dev_dependencies kind) devDependencies.

(** The package after [ensurePackageJson] and [writePackageJson], which change the object the caller holds. *)
Definition updated_package (pkg : val) (kind : app_kind) : result val :=
  let? scripts := read_prop "scripts" pkg in
  let? devDependencies := read_prop "devDependencies" pkg in
  let? scripts := applyQaScripts (coalesce scripts (VObj [])) kind in
  let? devDependencies := applyQaDevDependencies (coalesce devDependencies (VObj [])) kind in
  let? pkg := assign "scripts" scripts pkg in
  assign "devDependencies" devDependencies pkg.

Definition ensurePackageJson (dir : string) (pkg : val) (kind : app_kind) : F val :=
  let! pkg := of_result (updated_package pkg kind) in
  writeJson (path_join [dir; "package.json"]) pkg ;;!
  Ret pkg.

(** ** The configuration files *)

Definition resolvePrettierTarget (tailwind : bool) : string :=
  if tailwind then "@merossity/qa/prettier-tailwind" else "@merossity/qa/prettier".

Definition prettier_config (tailwind : bool) : string :=
  "module.exports = require('" +:+ resolvePrettierTarget tailwind +:+ "')" +:+ newline.

Definition ensurePrettierConfig (dir : string) (tailwind force : bool) : F unit :=
  writeIfMissing (path_join [dir; "prettier.config.cjs"]) (prettier_config tailwind) force ;;! Ret tt.

Definition oxlint_schema : string := "../../node_modules/oxlint/configuration_schema.json".

Definition qa_oxlint : string := "@merossity/qa/oxlint".

Definition oxlint_config : string :=
  "{" +:+ newline +:+ "  " +:+ quoted "$schema" +:+ ": " +:+ quoted oxlint_schema +:+ "," +:+ newline +:+
  "  " +:+ quoted "extends" +:+ ": [" +:+ quoted qa_oxlint +:+ "]" +:+ newline +:+ "}" +:+ newline.

Definition coerceExtendsField (v : val) : list val := match v with VArr l => l | VStr s => [VStr s] | _ => [] end.

Definition is_text (s : string) (v : val) : bool := match v with VStr t => String.eqb s t | _ => false end.

Definition updated_oxlint (config : val) : result val :=
  let? field := read_prop "extends" config in
  let field := coerceExtendsField field in
  let field := if existsb (is_text qa_oxlint) field then field else field ++ [VStr qa_oxlint] in
  let? config := assign "$schema" (VStr oxlint_schema) config in
  assign "extends" (VArr field) config.

Definition updateOxlintConfig (configPath : string) : F unit :=
  let! config := readJson configPath in
  let! config := of_result (updated_oxlint config) in
  writeJson configPath config.

Definition ensureOxlintConfig (dir : string) (force : bool) : F unit :=
  let configPath := path_join [dir; "oxlint.json"] in
  let! here := sys (FExists configPath) in
  if negb here || force then writeFile configPath oxlint_config else updateOxlintConfig configPath.

Definition resolveTsconfigPreset (kind : app_kind) (pkg : val) : result string :=
  match kind with
  | KindWeb => Ok "@merossity/qa/tsconfig/web"
  | KindCli => Ok "@merossity/qa/tsconfig/node"
  | KindLib =>
      let? isReact := detectReact pkg in
      Ok (if isReact then "@merossity/qa/tsconfig/react-lib" else "@merossity/qa/tsconfig/node")
  end.

Definition updated_tsconfig (force : bool) (preset : string) (existing : val) : result val :=
  if force then assign "extends" (VStr preset) existing
  else let? field := read_prop "extends" existing in
       if truthy field then Ok existing else assign "extends" (VStr preset) existing.

Definition ensureTsconfig (dir : string) (kind : app_kind) (pkg : val) (force : bool) : F unit :=
  let! preset := of_result (resolveTsconfigPreset kind pkg) in
  let configPath := path_join [dir; "tsconfig.json"] in
  let! here := sys (FExists configPath) in
  if negb here then writeJson configPath (VObj [("extends", VStr preset)])
  else
    let! existing := readJson configPath in
    let! existing := of_result (updated_tsconfig force preset existing) in
    writeJson configPath existing.

Definition buildBunupFormat (isLib : bool) : string :=
  if isLib then quoted "esm" +:+ ", " +:+ quoted "cjs" else quoted "esm".

Definition buildBunupExtraFields (isLib : bool) : string := if isLib then "," +:+ newline +:+ "  dts: true" else "".

Definition bunup_config (isLib : bool) : string :=
  "import { defineConfig } from " +:+ quoted "bunup" +:+ ";" +:+ newline +:+ newline +:+
  "export default defineConfig({" +:+ newline +:+
  "  entry: [" +:+ quoted "src/index.ts" +:+ "]," +:+ newline +:+
  "  outDir: " +:+ quoted "dist" +:+ "," +:+ newline +:+
  "  format: [" +:+ buildBunupFormat isLib +:+ "]," +:+ newline +:+
  "  target: " +:+ quoted "node" +:+ "," +:+ newline +:+
  "  sourcemap: true" +:+ buildBunupExtraFields isLib +:+ newline +:+ "});" +:+ newline.

Definition ensureBunupConfig (dir : string) (kind : app_kind) (force : bool) : F unit :=
  if decide (kind = KindWeb) then Ret tt
  else
    let configPath := path_join [dir; "bunup.config.ts"] in
    let! here := sys (FExists configPath) in
    if here && negb force then Ret tt
    else writeFile configPath (bunup_config (bool_decide (kind = KindLib))).

(** ** The run *)

Section Main.
(** [import.meta.dir] of the script. *)
Variable script_dir : string.

Definition REPO_ROOT : string := path_resolve script_dir ["../../.."].

Definition QA_CWD : string := path_join [REPO_ROOT; "packages"; "qa"].

(** [None] where the process ends with [EXIT_FAILURE]. *)
Definition resolveDir (o : qa_options) : F (option string) :=
  match qo_dir o ≫= nonempty with
  | None => sys (FError "Missing --dir") ;;! sys (FLog USAGE) ;;! Ret None
  | Some dir =>
      if isAbsolute dir then Ret (Some dir)
      else
        let! cwd := sys FCwd in
        Ret (Some (if String.eqb cwd QA_CWD || starts_with (QA_CWD +:+ "/") cwd then path_resolve REPO_ROOT [dir]
                   else path_resolve cwd [dir]))
  end.

Definition ensureDirExists (dir : string) : F unit :=
  let! here := sys (FExists dir) in
  if negb here then mkdir dir else Ret tt.

Record run_options := { ro_dir : string; ro_kind : app_kind; ro_tailwind : bool; ro_pkg : val }.

Definition resolveRunOptions (o : qa_options) : F (option run_options) :=
  let! dir := resolveDir o in
  match dir with
  | None => Ret None
  | Some dir =>
      ensureDirExists dir ;;!
      let! '(pkg, _) := getPackageJson dir in
      let! kind := of_result (resolveKind (qo_kind o) pkg) in
      let! tailwind := of_result (resolveTailwind (qo_tailwind o) pkg kind) in
      Ret (Some {| ro_dir := dir; ro_kind := kind; ro_tailwind := tailwind; ro_pkg := pkg |})
  end.

(** What [main] does for one package. *)
Definition apply_config (r : run_options) (force : bool) : F unit :=
  let! pkg := ensurePackageJson (ro_dir r) (ro_pkg r) (ro_kind r) in
  ensurePrettierConfig (ro_dir r) (ro_tailwind r) force ;;!
  ensureOxlintConfig (ro_dir r) force ;;!
  ensureTsconfig (ro_dir r) (ro_kind r) pkg force ;;!
  ensureBunupConfig (ro_dir r) (ro_kind r) force.

(** [main], and the exit code of the process. *)
Definition main (args : list string) : F Z :=
  match parseArgsList args with
  | HelpShown => sys (FLog USAGE) ;;! Ret 0
  | ParseFailed e => Throw e
  | ParsedArgs o =>
      let! r := resolveRunOptions o in
      match r with
      | None => Ret 1
      | Some r =>
          apply_config r (qo_force o) ;;!
          sys (FLog ("QA config applied to " +:+ ro_dir r +:+ " (kind: " +:+ kind_name (ro_kind r) +:+ ", tailwind: " +:+
                     (if ro_tailwind r then "true" else "false") +:+ ")")) ;;!
          Ret 0
      end
  end.

Definition qa_init (args : list string) : F Z :=
  catch (main args) (λ e, sys (FError (exn_message e)) ;;! Ret 1).
End Main.
End Engine.
