(* ===== verification/QaInitSpec.v ===== *)
(** * What qa-init does

    Comments in a JSON file do not change what is read of it; what is written is read back; the files of a package
    after a run, and that another run leaves them as they are. *)

From S2P Require Export QaInit.

Local Open Scope string_scope.
Local Open Scope Z_scope.
Local Open Scope list_scope.

(** ** Comments *)

(** White space with comments in it. *)
Inductive comment_gap : string → Prop :=
| cg_nil : comment_gap ""
| cg_blank c w : is_json_ws c = true → comment_gap w → comment_gap (String c w)
| cg_line t w : str_all (λ c, negb (Ascii.eqb c (chr 10))) t = true → comment_gap w →
    comment_gap ("//" +:+ t +:+ newline +:+ w)
| cg_block t w : includes "*/" t = false → comment_gap w → comment_gap ("/*" +:+ t +:+ "*/" +:+ w).

(** The states in which the loop finds [s], up to a text it leaves as it is. *)
Definition passes (s s' : string) : Prop := ∀ r, strip Outside (s +:+ r) = s' +:+ strip Outside r.

Lemma passes_app a a' b b' : passes a a' → passes b b' → passes (a +:+ b) (a' +:+ b').
Proof. intros Ha Hb r. by rewrite !app_assoc_str, Ha, Hb. Qed.

Lemma passes_nil : passes "" "".
Proof. done. Qed.

Definition plain_char (c : ascii) : bool := negb (is_quote c || Ascii.eqb c "/").

Lemma passes_char c s s' : plain_char c = true → passes s s' → passes (String c s) (String c s').
Proof.
  unfold plain_char. intros Hc Hs r. change (String c s +:+ r) with (String c (s +:+ r)). cbn [strip].
  apply negb_true_iff, orb_false_iff in Hc as [-> ->]. by rewrite Hs.
Qed.

Lemma passes_plain s : str_all plain_char s = true → passes s s.
Proof. induction s as [|c s IH]; [intros; apply passes_nil|]. intros [Hc Hs]%andb_prop. by apply passes_char; [|apply IH]. Qed.

Lemma strip_line t r : str_all (λ c, negb (Ascii.eqb c (chr 10))) t = true →
  strip LineComment (t +:+ newline +:+ r) = newline +:+ strip Outside r.
Proof.
  induction t as [|c t IH]; [done|]. change (String c t +:+ ?a) with (String c (t +:+ a)). cbn [str_all strip].
  intros [Hc%negb_true_iff Ht]%andb_prop. rewrite Hc. auto.
Qed.

Lemma strip_block t r : includes "*/" t = false → strip BlockComment (t +:+ "*/" +:+ r) = strip Outside r.
Proof.
  induction t as [|c t IH]; [done|]. cbn [includes starts_with]. intros [Hc Ht]%orb_false_iff.
  change (String c t +:+ ?a) with (String c (t +:+ a)). cbn [strip]. rewrite IH by done.
  destruct t as [|d t]; cbn [String.append] in *.
  - by destruct (Ascii.eqb c "*").
  - rewrite (Ascii.eqb_sym "*" c), (Ascii.eqb_sym "/" d), andb_true_r in Hc. change (String d t +:+ ?a) with (String d (t +:+ a)). cbn match. by rewrite Hc.
Qed.

Lemma ws_plain c : is_json_ws c = true → plain_char c = true.
Proof. by destruct c as [[] [] [] [] [] [] [] []]. Qed.

(** Of the comments the newlines stay. *)
Lemma gap_passes w : comment_gap w → ∃ w', blank w' ∧ passes w w'.
Proof.
  induction 1 as [|c w Hc _ (w' & Hw & IH)|t w Ht _ (w' & Hw & IH)|t w Ht _ (w' & Hw & IH)].
  - by exists "".
  - exists (String c w'). split; [unfold blank; cbn [str_all]; by rewrite Hc|]. apply passes_char; [by apply ws_plain|done].
  - exists (newline +:+ w'). split; [by apply blank_app|]. intros r.
    rewrite !app_assoc_str. change (strip Outside ("//" +:+ ?a)) with (strip LineComment a).
    by rewrite strip_line, IH.
  - exists w'. split; [done|]. intros r. rewrite !app_assoc_str.
    change (strip Outside ("/*" +:+ ?a)) with (strip BlockComment a). by rewrite strip_block, IH.
Qed.

(** *** Tokens *)

Lemma passes_number s : str_all is_num_char s = true → passes s s.
Proof.
  intros Hs. apply passes_plain. revert Hs. induction s as [|c s IH]; [done|]. cbn [str_all]. intros [Hc Hs]%andb_prop.
  rewrite IH by done. revert Hc. by destruct c as [[] [] [] [] [] [] [] []].
Qed.

Lemma strip_json_char c r : strip (InString (chr 34)) (json_char c +:+ r) = json_char c +:+ strip (InString (chr 34)) r.
Proof. destruct c as [[] [] [] [] [] [] [] []]; reflexivity. Qed.

Lemma strip_escaped s r :
  strip (InString (chr 34)) (json_escape s +:+ quote +:+ r) = json_escape s +:+ quote +:+ strip Outside r.
Proof. induction s as [|c s IH]; [done|]. cbn [json_escape]. by rewrite !app_assoc_str, strip_json_char, IH. Qed.

Lemma passes_string s : passes (json_string s) (json_string s).
Proof. intros r. rewrite !json_string_app. change (strip Outside (String (chr 34) ?a)) with (String (chr 34) (strip (InString (chr 34)) a)). by rewrite strip_escaped. Qed.

Lemma passes_num n : num_reads n = true → passes (num_to_str n) (num_to_str n).
Proof. unfold num_reads. rewrite !andb_true_iff. intros ((((_ & H) & _) & _) & _). by apply passes_number. Qed.

(** A text with comments, less its comments, is a text of the same value. *)
Definition uncommented {A} (W : A → string → Prop) (v : A) (s : string) : Prop := ∃ s', W v s' ∧ passes s s'.

Ltac passes_tac := repeat lazymatch goal with
  | |- passes (_ +:+ _) _ => apply passes_app
  | |- passes (json_string _) _ => apply passes_string
  | |- passes (num_to_str _) _ => by apply passes_num
  | |- passes (String _ _) _ => by apply passes_plain
  | |- passes _ _ => eassumption
  end.

Ltac strip_gaps := repeat match goal with
  | H : comment_gap _ |- _ => apply gap_passes in H; destruct H as (? & ? & ?)
  | H : uncommented _ _ _ |- _ => destruct H as (? & ? & ?)
  end.

Lemma written_uncommented v s : written comment_gap v s → uncommented (written blank) v s.
Proof.
  apply (written_mutind comment_gap (uncommented (written blank)) (uncommented (items blank)) (uncommented (members blank)));
    intros; strip_gaps.
  1-3: by eexists; split; [constructor|apply passes_plain].
  all: eexists; split; [|solve [passes_tac]]; by constructor.
Qed.

(** What a file may end with: its last line need not end. *)
Inductive comment_end : string → Prop :=
| ce_gap w : comment_gap w → comment_end w
| ce_line w t : comment_gap w → str_all (λ c, negb (Ascii.eqb c (chr 10))) t = true → comment_end (w +:+ "//" +:+ t).

Lemma strip_last_line t : str_all (λ c, negb (Ascii.eqb c (chr 10))) t = true → strip LineComment t = "".
Proof. induction t as [|c t IH]; [done|]. cbn [str_all strip]. intros [Hc%negb_true_iff Ht]%andb_prop. rewrite Hc. auto. Qed.

Lemma end_stripped w : comment_end w → ∃ w', blank w' ∧ strip Outside w = w'.
Proof.
  intros [w0 (w' & Hw & H)%gap_passes|w0 t (w' & Hw & H)%gap_passes Ht]; exists w'; split; try done.
  - rewrite <- (app_empty w0), H. apply app_empty.
  - rewrite H. change (strip Outside ("//" +:+ t)) with (strip LineComment t). by rewrite strip_last_line, app_empty.
Qed.

Lemma parse_commented w v t w' : comment_gap w → written comment_gap v t → comment_end w' →
  json_parse (stripJsonComments (w +:+ t +:+ w')) = Some v.
Proof.
  intros (u & Hu & H)%gap_passes (t' & Ht & H')%written_uncommented (u' & Hu' & H'')%end_stripped.
  unfold stripJsonComments. rewrite H, H', H''. by apply json_parse_written.
Qed.

(** ** Reading and writing files *)

Lemma blank_comment_gap w : blank w → comment_gap w.
Proof.
  unfold blank. induction w as [|c w IH]; [constructor|]. cbn [str_all]. intros [Hc Hw]%andb_prop. by constructor; [|apply IH].
Qed.

Lemma written_comment_gap v s : written blank v s → written comment_gap v s.
Proof.
  apply (written_mutind blank (written comment_gap) (items comment_gap) (members comment_gap)); intros; constructor;
    auto using blank_comment_gap.
Qed.

(** ** Values *)

Lemma json_ok_jset (k : string) w o : forallb (λ kv, json_ok (snd kv)) o = true → json_ok w = true →
  forallb (λ kv, json_ok (snd kv)) (jset k w o) = true.
Proof.
  induction o as [|[k' v'] o IH]; cbn [jset forallb snd]; [by intros _ ->|]. intros [Hv Ho]%andb_prop Hw.
  destruct (decide (k = k')); cbn [forallb snd]; by rewrite ?Hw, ?Hv, ?Ho, ?IH.
Qed.

Lemma json_ok_set k w v : json_ok v = true → json_ok w = true → json_ok (set_prop k w v) = true.
Proof.
  destruct v as [| | | | | |o]; try done. intros [Ho Hd]%json_ok_obj Hw. cbn [set_prop json_ok].
  rewrite json_ok_jset by done. cbn [andb]. apply bool_decide_eq_true. by apply (jwf_set k w o).
Qed.

Lemma json_ok_prop k v : json_ok v = true → json_ok (coalesce (prop k v) (VObj [])) = true.
Proof.
  destruct v as [| | | | | |o]; try done. intros [Ho _]%json_ok_obj. cbn [prop].
  destruct (jget k o) as [x|] eqn:E; [|done]. cbn [default option_map from_option id].
  unfold coalesce. destruct (nullish x); [done|].
  apply jget_elem, list_elem_of_In in E. rewrite forallb_forall in Ho. exact (Ho _ E).
Qed.

(** The value at [k] is [w] already, or would not be kept. *)
Definition settled (k : string) (w v : val) : Prop :=
  match v with VArr _ => True | VObj o => jget k o = Some w | _ => False end.

Section Values.
Variable type_error : exn.

Abbreviation assign := (assign type_error).
Abbreviation assign_all := (assign_all type_error).

Lemma assign_Ok k w v v' : assign k w v = Ok v' ↔ is_object v = true ∧ v' = set_prop k w v.
Proof. unfold assign. destruct (is_object v); naive_solver. Qed.

Lemma set_settled k w v : is_object v = true → settled k w (set_prop k w v).
Proof. destruct v; try done. intros _. cbn. apply jget_set_eq. Qed.

Lemma assign_settled k w v : settled k w v → assign k w v = Ok v.
Proof. destruct v as [| | | | | |o]; try done. cbn [settled]. intros H. unfold assign. cbn. by rewrite jset_id. Qed.

Lemma settled_set k k' w w' v : k' ≠ k → settled k w v → settled k w (set_prop k' w' v).
Proof. destruct v; try done. cbn. intros ? <-. by apply jget_set_ne. Qed.

Lemma is_object_set k w v : is_object (set_prop k w v) = is_object v.
Proof. by destruct v. Qed.

Lemma assign_all_object l v v' : assign_all l v = Ok v' → l ≠ [] → is_object v' = true.
Proof.
  assert (Hp : ∀ l v v', is_object v = true → assign_all l v = Ok v' → is_object v' = true).
  { clear. intros l. induction l as [|[k w] l IH]; cbn [QaInit.assign_all]; [naive_solver|]. intros v v' Hv.
    rewrite rbind_Ok. intros (u & [_ ->]%assign_Ok & H). eapply IH; [|exact H]. by rewrite is_object_set. }
  destruct l as [|[k w] l]; [done|]. cbn [QaInit.assign_all]. rewrite rbind_Ok. intros (u & [Hv ->]%assign_Ok & H) _.
  eapply Hp; [|exact H]. by rewrite is_object_set.
Qed.

Lemma assign_all_keeps l k w v v' : k ∉ map fst l → settled k w v → assign_all l v = Ok v' → settled k w v'.
Proof.
  revert v. induction l as [|[k' w'] l IH]; intros v; cbn [QaInit.assign_all map fst]; [naive_solver|].
  intros Hk Hs. rewrite rbind_Ok. intros (u & [_ ->]%assign_Ok & H). eapply IH; [set_solver| |exact H].
  apply settled_set; [set_solver|done].
Qed.

(** Doing the assignments again changes nothing. *)
Lemma assign_all_again l v v' : NoDup (map fst l) → assign_all l v = Ok v' → assign_all l v' = Ok v'.
Proof.
  intros Hd H. assert (Hall : ∀ k w, (k, w) ∈ l → settled k (VStr w) v').
  { revert v H. induction l as [|[k' w'] l IH]; intros v; [set_solver|]. cbn [QaInit.assign_all map fst] in *.
    apply NoDup_cons in Hd as [Hk Hd]. rewrite rbind_Ok. intros (u & [Hv ->]%assign_Ok & H) k w [E|Hin]%elem_of_cons; [|eauto].
    simplify_eq. eapply assign_all_keeps; [exact Hk| |exact H]. by apply set_settled. }
  clear Hd H v. induction l as [|[k w] l IH]; [done|]. cbn [QaInit.assign_all]. rewrite assign_settled by set_solver. cbn. apply IH. set_solver.
Qed.

Lemma assign_all_json l v v' : json_ok v = true → assign_all l v = Ok v' → json_ok v' = true.
Proof.
  revert v. induction l as [|[k w] l IH]; intros v Hv; cbn [QaInit.assign_all]; [naive_solver|]. rewrite rbind_Ok.
  intros (u & [_ ->]%assign_Ok & H). eapply IH; [|exact H]. by apply json_ok_set.
Qed.

(** A property of no assigned name is as before. *)
Lemma assign_all_prop l k v v' : k ∉ map fst l → assign_all l v = Ok v' → prop k v' = prop k v.
Proof.
  revert v. induction l as [|[k' w] l IH]; intros v; cbn [QaInit.assign_all map fst]; [naive_solver|]. intros Hk. rewrite rbind_Ok.
  intros (u & [_ ->]%assign_Ok & H). rewrite (IH _ ltac:(set_solver) H). apply prop_set_ne. set_solver.
Qed.

Lemma has_key_keys k v : has_key k (keys_of v) = true ↔ k ∈ keys_of v.
Proof. unfold has_key. rewrite existsb_exists. setoid_rewrite String.eqb_eq. setoid_rewrite <- list_elem_of_In. naive_solver. Qed.

Lemma has_key_set k k' w v : k ≠ k' → has_key k' (keys_of (set_prop k w v)) = has_key k' (keys_of v).
Proof. intros Hk. apply eq_bool_prop_intro. rewrite !Is_true_true, !has_key_keys. destruct v; try done. cbn. rewrite elem_of_jkeys_set. naive_solver. Qed.

Lemma assign_all_keys l k v v' : k ∉ map fst l → assign_all l v = Ok v' → has_key k (keys_of v') = has_key k (keys_of v).
Proof.
  revert v. induction l as [|[k' w] l IH]; intros v; cbn [QaInit.assign_all map fst]; [naive_solver|]. intros Hk. rewrite rbind_Ok.
  intros (u & [_ ->]%assign_Ok & H). rewrite (IH _ ltac:(set_solver) H). apply has_key_set. set_solver.
Qed.
(** *** The package *)

Abbreviation updated_package := (updated_package type_error).

Definition or_object (v : val) : val := coalesce v (VObj []).

Lemma qa_scripts_nodup kind : NoDup (map fst (qa_scripts kind)).
Proof. destruct kind; vm_compute; repeat constructor; set_solver. Qed.

Lemma qa_dev_nodup kind : NoDup (map fst (qa_dev_dependencies kind)).
Proof. destruct kind; vm_compute; repeat constructor; set_solver. Qed.

Lemma updated_package_cases pkg kind pkg' : updated_package pkg kind = Ok pkg' → ∃ scripts devs,
  assign_all (qa_scripts kind) (or_object (prop "scripts" pkg)) = Ok scripts ∧
  assign_all (qa_dev_dependencies kind) (or_object (prop "devDependencies" pkg)) = Ok devs ∧
  is_object pkg = true ∧ pkg' = set_prop "devDependencies" devs (set_prop "scripts" scripts pkg).
Proof.
  unfold updated_package. rewrite !rbind_Ok. intros (s0 & Hs0 & H). rewrite rbind_Ok in H. destruct H as (d0 & Hd0 & H).
  rewrite rbind_Ok in H. destruct H as (scripts & Hs & H). rewrite rbind_Ok in H. destruct H as (devs & Hd & H).
  rewrite rbind_Ok in H. destruct H as (u & [Hu ->]%assign_Ok & [_ ->]%assign_Ok).
  unfold read_prop in *. destruct (nullish pkg); [done|]. simplify_eq. eauto 8.
Qed.

(** The values the package has under the two names it is given, where it keeps any. *)
Lemma package_props pkg scripts devs : let pkg' := set_prop "devDependencies" devs (set_prop "scripts" scripts pkg) in
  is_object pkg = true → is_object scripts = true → is_object devs = true →
  (is_array pkg = true ∧ pkg' = pkg) ∨
  (or_object (prop "scripts" pkg') = scripts ∧ or_object (prop "devDependencies" pkg') = devs ∧
   settled "scripts" scripts pkg' ∧ settled "devDependencies" devs pkg').
Proof.
  intros pkg' Hp Hs Hd. destruct pkg as [| | | | |l|o]; try done; [by left|right]. subst pkg'. unfold or_object.
  cbn [set_prop prop settled]. rewrite !jget_set_eq, (jget_set_ne "devDependencies" "scripts"), jget_set_eq by done. cbn.
  unfold coalesce. destruct scripts, devs; done.
Qed.

Lemma updated_package_again pkg kind pkg' : updated_package pkg kind = Ok pkg' → updated_package pkg' kind = Ok pkg'.
Proof.
  intros H. pose proof H as (scripts & devs & Hs & Hd & Hp & ->)%updated_package_cases.
  assert (Os : is_object scripts = true) by by eapply assign_all_object; [exact Hs|destruct kind].
  assert (Od : is_object devs = true) by by eapply assign_all_object; [exact Hd|destruct kind].
  destruct (package_props pkg scripts devs Hp Os Od) as [[_ E]|(E1 & E2 & Ss & Sd)]; [by rewrite E in *|].
  revert E1 E2 Ss Sd. set (pkg' := set_prop _ _ _). intros E1 E2 Ss Sd.
  unfold updated_package, read_prop, applyQaScripts, applyQaDevDependencies. assert (nullish pkg' = false) as -> by by destruct pkg.
  cbn [rbind]. fold (or_object (prop "scripts" pkg')) (or_object (prop "devDependencies" pkg')). rewrite E1, E2.
  rewrite (assign_all_again _ _ _ (qa_scripts_nodup kind) Hs), (assign_all_again _ _ _ (qa_dev_nodup kind) Hd). cbn [rbind].
  rewrite (assign_settled "scripts" scripts) by done. cbn [rbind]. by apply assign_settled.
Qed.

Lemma updated_package_json pkg kind pkg' : json_ok pkg = true → updated_package pkg kind = Ok pkg' → json_ok pkg' = true.
Proof.
  intros Hok (scripts & devs & Hs%assign_all_json & Hd%assign_all_json & _ & ->)%updated_package_cases; try by apply json_ok_prop.
  by repeat apply json_ok_set.
Qed.

(** The dependencies it does not add are as before. *)
Lemma updated_package_deps pkg kind pkg' : updated_package pkg kind = Ok pkg' →
  ∃ d dd dd', coerceDeps type_error pkg = Ok (d, dd) ∧ coerceDeps type_error pkg' = Ok (d, dd') ∧
    prop "name" pkg' = prop "name" pkg ∧ prop "bin" pkg' = prop "bin" pkg ∧
    ∀ k, k ∉ map fst (qa_dev_dependencies kind) → prop k dd' = prop k dd ∧ has_key k (keys_of dd') = has_key k (keys_of dd).
Proof.
  intros (scripts & devs & Hs & Hd & Hp & ->)%updated_package_cases.
  exists (or_object (prop "dependencies" pkg)), (or_object (prop "devDependencies" pkg)).
  assert (Os : is_object scripts = true) by by eapply assign_all_object; [exact Hs|destruct kind].
  assert (Od : is_object devs = true) by by eapply assign_all_object; [exact Hd|destruct kind].
  exists (or_object (prop "devDependencies" (set_prop "devDependencies" devs (set_prop "scripts" scripts pkg)))).
  unfold coerceDeps, read_prop. assert (nullish pkg = false) as -> by by destruct pkg.
  assert (nullish (set_prop "devDependencies" devs (set_prop "scripts" scripts pkg)) = false) as -> by by destruct pkg.
  cbn [rbind]. split_and!; try done; try by rewrite (prop_set_ne "devDependencies"), (prop_set_ne "scripts").
  intros k Hk. destruct (package_props pkg scripts devs Hp Os Od) as [[_ ->]|(_ & -> & _)]; [done|].
  split; [eapply assign_all_prop|eapply assign_all_keys]; eauto.
Qed.

Lemma updated_package_detects pkg kind pkg' : updated_package pkg kind = Ok pkg' →
  detectKind type_error pkg' = detectKind type_error pkg ∧
  ∀ dep, dep ∉ map fst (qa_dev_dependencies kind) → uses type_error dep pkg' = uses type_error dep pkg.
Proof.
  intros (d & dd & dd' & E & E' & Hn & Hb & Hk)%updated_package_deps. unfold detectKind, uses. rewrite E, E', Hn, Hb. cbn [rbind].
  assert (Hin : ∀ k, k ∉ map fst (qa_dev_dependencies kind) → has_key k (keys_of d ++ keys_of dd') = has_key k (keys_of d ++ keys_of dd)).
  { intros k Hnew. unfold has_key in *. rewrite !existsb_app. f_equal. by apply Hk. }
  split; [|intros dep Hdep; by rewrite (proj1 (Hk dep Hdep))].
  by rewrite !Hin by (destruct kind; vm_compute; set_solver).
Qed.
(** *** The configuration files *)

Lemma json_ok_extends config : json_ok config = true → forallb json_ok (coerceExtendsField (prop "extends" config)) = true.
Proof.
  destruct config as [| | | | | |o]; try done. intros [Ho _]%json_ok_obj. cbn [prop].
  destruct (jget "extends" o) as [x|] eqn:E; [|done]. apply jget_elem, list_elem_of_In in E. rewrite forallb_forall in Ho.
  specialize (Ho _ E). by destruct x.
Qed.

Lemma updated_oxlint_cases config config' : updated_oxlint type_error config = Ok config' → ∃ field,
  existsb (is_text qa_oxlint) field = true ∧ (json_ok config = true → forallb json_ok field = true) ∧
  is_object config = true ∧ config' = set_prop "extends" (VArr field) (set_prop "$schema" (VStr oxlint_schema) config).
Proof.
  unfold updated_oxlint, read_prop. destruct (nullish config); [done|]. cbn [rbind].
  destruct (existsb _ _) eqn:E; rewrite rbind_Ok; intros (u & [Hu ->]%assign_Ok & [_ ->]%assign_Ok); eexists; split_and!; try done.
  - apply json_ok_extends.
  - rewrite existsb_app, E. done.
  - intros H. by rewrite forallb_app, json_ok_extends.
Qed.

Lemma updated_oxlint_again config config' : updated_oxlint type_error config = Ok config' → updated_oxlint type_error config' = Ok config'.
Proof.
  intros H. pose proof H as (field & Hf & _ & Hc & ->)%updated_oxlint_cases. destruct config as [| | | | | |o]; try done.
  unfold updated_oxlint, read_prop. cbn [set_prop nullish rbind prop]. rewrite jget_set_eq.
  cbn [default option_map from_option id coerceExtendsField]. rewrite Hf, (assign_settled "$schema").
  - cbn [rbind]. apply assign_settled, jget_set_eq.
  - cbn [settled]. rewrite jget_set_ne by done. apply jget_set_eq.
Qed.

Lemma updated_oxlint_json config config' : json_ok config = true → updated_oxlint type_error config = Ok config' → json_ok config' = true.
Proof. intros Hok (field & _ & Hf & _ & ->)%updated_oxlint_cases. apply json_ok_set; [by apply json_ok_set|]. by apply Hf. Qed.

Lemma updated_tsconfig_again force preset v v' : preset ≠ "" → updated_tsconfig type_error force preset v = Ok v' →
  updated_tsconfig type_error force preset v' = Ok v'.
Proof.
  intros Hp. unfold updated_tsconfig, read_prop. destruct force.
  - intros [Hv ->]%assign_Ok. apply assign_settled. by apply set_settled.
  - destruct (nullish v) eqn:Hn; [done|]. cbn [rbind]. destruct (truthy (prop "extends" v)) eqn:E.
    + intros [= <-]. by rewrite Hn; cbn [rbind]; rewrite E.
    + intros [Hv ->]%assign_Ok. assert (nullish (set_prop "extends" (VStr preset) v) = false) as -> by by destruct v.
      cbn [rbind]. destruct v; try done. cbn [set_prop prop]. rewrite jget_set_eq. cbn. by destruct preset.
Qed.

Lemma updated_tsconfig_json force preset v v' : json_ok v = true → updated_tsconfig type_error force preset v = Ok v' → json_ok v' = true.
Proof.
  intros Hv. unfold updated_tsconfig, read_prop. destruct force; [|destruct (nullish v); [done|]; cbn [rbind]; destruct (truthy _)];
    [| |]; [intros [_ ->]%assign_Ok|by intros [= <-]|intros [_ ->]%assign_Ok]; by apply json_ok_set.
Qed.

Lemma preset_nonempty kind pkg preset : resolveTsconfigPreset type_error kind pkg = Ok preset → preset ≠ "".
Proof. destruct kind; cbn; [naive_solver..|]. rewrite rbind_Ok. intros ([] & _ & H); by injection H as <-. Qed.
End Values.

Section Run.
Variable io_error : string → exn.
Variable readdir : store → string → list (string * entry_type).
Variable spawn : string → list string → string → store → store * result Z.
Variable type_error syntax_error : exn.

Abbreviation run := (run io_error readdir spawn).
Abbreviation read_json := (readJson syntax_error).

(** What the program reads of a text. *)
Definition read_text (text : string) : result val :=
  match json_parse (stripJsonComments text) with Some v => Ok v | None => Err syntax_error end.

Lemma run_readJson p s : run (read_json p) s =
  (s, match files s !! p with Some text => read_text text | None => Err (io_error p) end).
Proof. unfold readJson, read_text. rewrite run_bind, run_read. destruct (files s !! p); [|done]. by destruct (json_parse _). Qed.

Lemma read_json_file v : json_ok v = true → read_text (json_file v) = Ok v.
Proof.
  intros Hv. unfold read_text, json_file. change (json_pretty v +:+ newline) with ("" +:+ json_pretty v +:+ newline).
  rewrite (parse_commented "" v); [done|constructor| |].
  - by apply written_comment_gap, json_indented_written.
  - apply ce_gap. by apply blank_comment_gap.
Qed.

(** [p] is a pure function of what the file at [path] has before: it writes the result there. *)
Definition updates (p : F unit) (path : string) (f : option string → result string) : Prop :=
  ∀ s, path ∉ dirs s → run p s = match f (files s !! path) with Ok t => (write path t s, Ok tt) | Err e => (s, Err e) end.

Lemma write_same p t s : files s !! p = Some t → write p t s = s.
Proof. intros H. unfold write. destruct s as [fs ds c e o]. cbn in *. by rewrite insert_id. Qed.

Lemma run_exists p s : p ∉ dirs s → run (sys (FExists p)) s = (s, Ok (bool_decide (is_Some (files s !! p)))).
Proof. intros Hp. cbn. unfold path_exists. by rewrite (bool_decide_eq_false_2 (p ∈ dirs s)), orb_false_r. Qed.

(** *** The files of a package *)

Definition kept (force : bool) (new : string) (old : option string) : result string :=
  Ok (match old with Some t => if force then new else t | None => new end).

Definition oxlint_update (force : bool) (old : option string) : result string :=
  match old with
  | Some t => if force then Ok oxlint_config
              else let? config := read_text t in let? config := updated_oxlint type_error config in Ok (json_file config)
  | None => Ok oxlint_config
  end.

Definition tsconfig_update (force : bool) (preset : string) (old : option string) : result string :=
  match old with
  | Some t => let? existing := read_text t in
              let? existing := updated_tsconfig type_error force preset existing in Ok (json_file existing)
  | None => Ok (json_file (VObj [("extends", VStr preset)]))
  end.

Ltac run_steps := repeat first [rewrite run_bind | rewrite run_exists by done | rewrite run_readJson | rewrite run_write by done
  | rewrite run_of_result | progress cbn [Datatypes.andb negb]].

(** Whether the file is there. *)
Ltac case_file t E := destruct (files _ !! _) as [t|] eqn:E;
  [rewrite bool_decide_eq_true_2 by done|rewrite bool_decide_eq_false_2 by (by intros [? ?])]; cbn [negb orb andb]; run_steps.

Lemma prettier_updates dir tailwind force :
  updates (ensurePrettierConfig dir tailwind force) (path_join [dir; "prettier.config.cjs"]) (kept force (prettier_config tailwind)).
Proof.
  intros s Hs. unfold ensurePrettierConfig, writeIfMissing, kept. run_steps. case_file t E; [|done].
  destruct force; cbn [negb]; run_steps; [done|]. cbn [Files.run]. by rewrite write_same.
Qed.

Lemma bunup_updates dir kind force : kind ≠ KindWeb →
  updates (ensureBunupConfig dir kind force) (path_join [dir; "bunup.config.ts"])
    (kept force (bunup_config (bool_decide (kind = KindLib)))).
Proof.
  intros Hk s Hs. unfold ensureBunupConfig, kept. rewrite decide_False by done. run_steps. case_file t E; [|done].
  destruct force; cbn [negb]; run_steps; [done|]. cbn [Files.run]. by rewrite write_same.
Qed.

Lemma oxlint_updates dir force :
  updates (ensureOxlintConfig type_error syntax_error dir force) (path_join [dir; "oxlint.json"]) (oxlint_update force).
Proof.
  intros s Hs. unfold ensureOxlintConfig, updateOxlintConfig, oxlint_update. run_steps. case_file t E; [|done].
  destruct force; run_steps; [done|]. rewrite E. destruct (read_text t) as [config|]; [|done]. run_steps. cbn [rbind].
  destruct (updated_oxlint _ config); [|done]. unfold writeJson. by run_steps.
Qed.

Lemma tsconfig_updates dir kind pkg force preset : resolveTsconfigPreset type_error kind pkg = Ok preset →
  updates (ensureTsconfig type_error syntax_error dir kind pkg force) (path_join [dir; "tsconfig.json"]) (tsconfig_update force preset).
Proof.
  intros Hp s Hs. unfold ensureTsconfig, tsconfig_update, writeJson. rewrite Hp. run_steps. case_file t E; [|done].
  rewrite E. destruct (read_text t) as [existing|]; [|done]. run_steps. cbn [rbind].
  destruct (updated_tsconfig _ _ _ existing); [|done]. by run_steps.
Qed.
(** *** Updating again *)

Lemma kept_again force new old t : kept force new old = Ok t → kept force new (Some t) = Ok t.
Proof. unfold kept. intros [= <-]. by destruct force, old. Qed.

Definition reads_ok (old : option string) : Prop := ∀ t v, old = Some t → read_text t = Ok v → json_ok v = true.

Lemma tsconfig_again force preset old t : preset ≠ "" → reads_ok old →
  tsconfig_update force preset old = Ok t → tsconfig_update force preset (Some t) = Ok t.
Proof.
  intros Hp Hok H. assert (∃ v v', json_ok v = true ∧ updated_tsconfig type_error force preset v = Ok v' ∧ t = json_file v')
    as (v & v' & Hv & Hu & ->).
  { unfold tsconfig_update in H. destruct old as [t0|].
    - rewrite rbind_Ok in H. destruct H as (v & Hr & H). rewrite rbind_Ok in H. destruct H as (v' & Hu & [= <-]).
      exists v, v'. eauto.
    - injection H as <-. exists (VObj [("extends", VStr preset)]), (VObj [("extends", VStr preset)]). split_and!; [done| |done].
      unfold updated_tsconfig, read_prop. destruct force; [done|]. cbn. by destruct preset. }
  cbn [tsconfig_update]. rewrite read_json_file by (eapply updated_tsconfig_json; eauto). cbn [rbind].
  by rewrite (updated_tsconfig_again _ _ _ _ _ Hp Hu).
Qed.

Definition oxlint_value : val := VObj [("$schema", VStr oxlint_schema); ("extends", VArr [VStr qa_oxlint])].

Lemma read_oxlint_config : read_text oxlint_config = Ok oxlint_value.
Proof. by vm_compute. Qed.

(** The text it starts with is laid out otherwise than [JSON.stringify] does. *)
Lemma oxlint_again force old t : reads_ok old → oxlint_update force old = Ok t → ∃ t',
  oxlint_update force (Some t) = Ok t' ∧ read_text t' = read_text t ∧ (force = true ∨ is_Some old → t' = t).
Proof.
  intros Hok. destruct force; [destruct old; intros [= <-]; eauto|]. destruct old as [t0|]; cbn [oxlint_update].
  - rewrite rbind_Ok. intros (v & Hr & H). rewrite rbind_Ok in H. destruct H as (v' & Hu & [= <-]). exists (json_file v').
    rewrite read_json_file by (eapply updated_oxlint_json; eauto). cbn [rbind]. by rewrite (updated_oxlint_again _ _ _ Hu).
  - intros [= <-]. exists (json_file oxlint_value). rewrite read_oxlint_config, (read_json_file oxlint_value) by done.
    split_and!; [done..|]. intros [[=]|[? [=]]].
Qed.
(** *** A whole run *)

(** The files of [l], by name, written to the directory. *)
Definition writes (dir : string) (l : list (string * string)) (s : store) : store :=
  foldl (λ s nt, write (path_join [dir; nt.1]) nt.2 s) s l.

Lemma writes_dirs dir l s : dirs (writes dir l s) = dirs s.
Proof. revert s. induction l as [|[n t] l IH]; intros s; [done|]. exact (IH _). Qed.

Lemma writes_lookup_ne dir l s p : p ∉ map (λ nt, path_join [dir; nt.1]) l → files (writes dir l s) !! p = files s !! p.
Proof.
  revert s. induction l as [|[n t] l IH]; intros s; [done|]. cbn [map fst]. intros [Hne Hp]%not_elem_of_cons.
  etrans; [exact (IH (write _ t s) Hp)|]. cbn. by rewrite lookup_insert_ne.
Qed.

Lemma writes_same dir l s : Forall (λ nt, files s !! path_join [dir; nt.1] = Some nt.2) l → writes dir l s = s.
Proof.
  revert s. induction l as [|[n t] l IH]; intros s; [done|]. intros [Hn Hl]%Forall_cons. cbn in Hn.
  etrans; [apply IH|]; cbn [fst snd]; by rewrite write_same.
Qed.

Section Config.
Variable script_dir dir : string.
Hypothesis dir_absolute : isAbsolute dir = true.

Abbreviation P n := (path_join [dir; n]).

Definition qa_files : list string := ["package.json"; "prettier.config.cjs"; "oxlint.json"; "tsconfig.json"; "bunup.config.ts"].

Ltac in_files := by repeat constructor.

Lemma qa_files_plain : Forall plain_seg qa_files.
Proof. repeat constructor; by vm_compute. Qed.

Lemma qa_files_inj m n : m ∈ qa_files → n ∈ qa_files → P m = P n → m = n.
Proof. intros Hm Hn. apply path_join_inj; [done|..]; eapply Forall_forall; (apply qa_files_plain || done). Qed.

Lemma writes_lookup l s n t : NoDup (map fst l) → map fst l ⊆ qa_files → (n, t) ∈ l → files (writes dir l s) !! P n = Some t.
Proof.
  revert s. induction l as [|[m u] l IH]; intros s Hd Hsub Hin; [set_solver|]. cbn [map fst] in *.
  apply NoDup_cons in Hd as [Hm Hd]. change (writes dir ((m, u) :: l) s) with (writes dir l (write (P m) u s)).
  apply elem_of_cons in Hin as [[= -> ->]|Hin]; [|by apply IH; [|set_solver|]].
  rewrite writes_lookup_ne; [apply lookup_insert_eq|]. intros ([k v] & E & Hk)%list_elem_of_fmap. cbn in E. apply Hm.
  assert (m ∈ qa_files) by set_solver. assert (k ∈ map fst l) by (apply list_elem_of_fmap; by exists (k, v)).
  apply qa_files_inj in E as ->; [done|done|set_solver].
Qed.

(** No directory is in the place of the files. *)
Definition no_dirs (s : store) : Prop := ∀ n, n ∈ qa_files → P n ∉ dirs s.

Lemma run_updates {A} (p : F unit) n f (k : F A) s s1 a : n ∈ qa_files → no_dirs s → updates p (P n) f →
  run (bind p (λ _, k)) s = (s1, Ok a) ↔ ∃ t, f (files s !! P n) = Ok t ∧ run k (write (P n) t s) = (s1, Ok a).
Proof.
  intros Hn Hd Hp. rewrite run_bind, Hp by auto. destruct (f _) as [t|e]; [naive_solver|].
  split; [done|]. intros (? & [=] & _).
Qed.

(** The texts a run writes, in order. *)
Definition config_texts (kind : app_kind) (pkg : val) (prettier oxlint tsconfig bunup : string) : list (string * string) :=
  [("package.json", json_file pkg); ("prettier.config.cjs", prettier); ("oxlint.json", oxlint); ("tsconfig.json", tsconfig)] ++
  (if decide (kind = KindWeb) then [] else [("bunup.config.ts", bunup)]).

(** The last step writes a file except for a web application. *)
Lemma run_bunup kind force s s1 : no_dirs s →
  run (ensureBunupConfig dir kind force) s = (s1, Ok tt) ↔ ∃ t,
    kept force (bunup_config (bool_decide (kind = KindLib))) (files s !! P "bunup.config.ts") = Ok t ∧
    s1 = writes dir (if decide (kind = KindWeb) then [] else [("bunup.config.ts", t)]) s.
Proof.
  intros Hd. destruct (decide (kind = KindWeb)) as [->|Hk]; [cbn; unfold kept; naive_solver|].
  rewrite bunup_updates by (done || apply Hd; in_files). unfold kept. naive_solver.
Qed.

Lemma write_other m n t s : m ≠ n → m ∈ qa_files → n ∈ qa_files → files (write (P m) t s) !! P n = files s !! P n.
Proof. intros Hmn Hm Hn. cbn. rewrite lookup_insert_ne; [done|]. by intros E%qa_files_inj. Qed.

Lemma ensureTsconfig_preset kind pkg force s s1 a : run (ensureTsconfig type_error syntax_error dir kind pkg force) s = (s1, Ok a) →
  ∃ preset, resolveTsconfigPreset type_error kind pkg = Ok preset.
Proof. unfold ensureTsconfig. rewrite run_bind, run_of_result. destruct (resolveTsconfigPreset _ _ _); [eauto|done]. Qed.

Lemma apply_config_run r force s s1 : ro_dir r = dir → no_dirs s →
  run (apply_config type_error syntax_error r force) s = (s1, Ok tt) ↔
  ∃ pkg preset prettier oxlint tsconfig bunup, let l := config_texts (ro_kind r) pkg prettier oxlint tsconfig bunup in
    updated_package type_error (ro_pkg r) (ro_kind r) = Ok pkg ∧ resolveTsconfigPreset type_error (ro_kind r) pkg = Ok preset ∧
    kept force (prettier_config (ro_tailwind r)) (files s !! P "prettier.config.cjs") = Ok prettier ∧
    oxlint_update force (files s !! P "oxlint.json") = Ok oxlint ∧
    tsconfig_update force preset (files s !! P "tsconfig.json") = Ok tsconfig ∧
    kept force (bunup_config (bool_decide (ro_kind r = KindLib))) (files s !! P "bunup.config.ts") = Ok bunup ∧
    s1 = writes dir l s.
Proof.
  intros Hr Hs. unfold apply_config, ensurePackageJson, writeJson. rewrite Hr, run_bind, run_bind, run_of_result.
  destruct (updated_package _ _ _) as [pkg|e]; [|naive_solver].
  rewrite run_bind, run_write by (apply Hs; in_files). cbn [Files.run].
  rewrite (run_updates _ "prettier.config.cjs"); [|in_files|done|apply prettier_updates]. split.
  - intros (tp & Hp & H). rewrite (run_updates _ "oxlint.json") in H; [|in_files|done|apply oxlint_updates].
    destruct H as (to & Ho & H).
    assert (H' := H). rewrite run_bind in H'. destruct (run (ensureTsconfig _ _ _ _ _ _) _) as [s2 [[]|e]] eqn:E; [|done].
    apply ensureTsconfig_preset in E as [preset Hpre]. clear H' s2.
    rewrite (run_updates _ "tsconfig.json") in H; [|in_files|done|by apply tsconfig_updates]. destruct H as (tt' & Ht & H).
    apply run_bunup in H as (tb & Hb & ->); [|done]. rewrite !write_other in Ho by (done || in_files). rewrite write_other in Hp by (done || in_files).
    rewrite !write_other in Ht by (done || in_files). rewrite !write_other in Hb by (done || in_files).
    exists pkg, preset, tp, to, tt', tb. split_and!; try done.
  - intros (? & preset & tp & to & tt' & tb & [= <-] & Hpre & Hp & Ho & Ht & Hb & ->).
    exists tp. rewrite write_other by (done || in_files). split; [done|].
    rewrite (run_updates _ "oxlint.json"); [|in_files|done|apply oxlint_updates]. exists to. rewrite !write_other by (done || in_files).
    split; [done|]. rewrite (run_updates _ "tsconfig.json"); [|in_files|done|by apply tsconfig_updates].
    exists tt'. rewrite !write_other by (done || in_files). split; [done|]. apply run_bunup; [done|].
    exists tb. rewrite !write_other by (done || in_files). done.
Qed.
(** *** The process *)

Definition done_line (r : run_options) : string :=
  "QA config applied to " +:+ ro_dir r +:+ " (kind: " +:+ kind_name (ro_kind r) +:+ ", tailwind: " +:+
  (if ro_tailwind r then "true" else "false") +:+ ")".

(** What a run that ends well reads and does. *)
Definition ran (o : qa_options) (s s1 : store) : Prop :=
  ∃ text pkg kind tailwind s', let r := {| ro_dir := dir; ro_kind := kind; ro_tailwind := tailwind; ro_pkg := pkg |} in
    files s !! P "package.json" = Some text ∧ read_text text = Ok pkg ∧
    resolveKind type_error (qo_kind o) pkg = Ok kind ∧ resolveTailwind type_error (qo_tailwind o) pkg kind = Ok tailwind ∧
    run (apply_config type_error syntax_error r (qo_force o)) s = (s', Ok tt) ∧ s1 = print_line (done_line r) s'.

Lemma run_getPackageJson s : no_dirs s → run (getPackageJson syntax_error dir) s =
  (s, match files s !! P "package.json" with
      | Some text => let? v := read_text text in Ok (v, P "package.json")
      | None => Err (JsError ("Missing package.json at " +:+ P "package.json"))
      end).
Proof.
  intros Hs. assert (P "package.json" ∉ dirs s) by (apply Hs; in_files). unfold getPackageJson. run_steps.
  case_file t E; [|done]. rewrite E. by destruct (read_text t).
Qed.

(** Neither side holds of what fails. *)
Ltac refuted := split; [done|]; intros (? & ? & ? & ? & ? & [= <-] & ? & ? & ? & ? & ->); simplify_eq; congruence.

Lemma main_ran args o s s1 : parseArgsList type_error args = ParsedArgs o → run (resolveDir script_dir o) s = (s, Ok (Some dir)) →
  path_exists s dir = true → no_dirs s →
  run (main type_error syntax_error script_dir args) s = (s1, Ok 0) ↔ ran o s s1.
Proof.
  intros Ha Hr Hd Hs. unfold main, resolveRunOptions, ensureDirExists, ran. rewrite Ha, !run_bind, Hr, !run_bind, run_sys.
  cbn [answer fst snd]. rewrite Hd. cbn [negb Files.run]. rewrite run_bind, run_getPackageJson by done.
  destruct (files s !! _) as [text|]; [|refuted]. destruct (read_text text) as [pkg|] eqn:Er; [|refuted]. cbn [rbind].
  rewrite run_bind, run_of_result. destruct (resolveKind _ _ pkg) as [kind|] eqn:Ek; [|refuted].
  rewrite run_bind, run_of_result. destruct (resolveTailwind _ _ pkg kind) as [tailwind|] eqn:Et; [|refuted].
  cbn [Files.run]. rewrite run_bind. destruct (run (apply_config _ _ _ _) s) as [s' [[]|]] eqn:E; [|refuted].
  rewrite run_bind, run_sys. cbn [answer fst snd Files.run].
  split; [intros [= <-]; eauto 12|]. intros (? & ? & ? & ? & ? & [= <-] & E1 & E2 & E3 & E4 & ->).
  rewrite Er in E1. injection E1 as <-. rewrite Ek in E2. injection E2 as <-. rewrite Et in E3. injection E3 as <-.
  rewrite E in E4. by injection E4 as <-.
Qed.

Lemma resolveDir_same o s s' : run (resolveDir script_dir o) s = (s, Ok (Some dir)) → cwd s' = cwd s →
  run (resolveDir script_dir o) s' = (s', Ok (Some dir)).
Proof.
  unfold resolveDir. destruct (qo_dir o ≫= nonempty) as [d|]; [|rewrite !run_bind; done].
  destruct (isAbsolute d); cbn [Files.run]; [by intros [= ->]|]. rewrite !run_bind, !run_sys. cbn [answer fst snd Files.run].
  intros H ->. by injection H as ->.
Qed.

Lemma qa_init_main args s s1 : run (qa_init type_error syntax_error script_dir args) s = (s1, Ok 0) ↔
  run (main type_error syntax_error script_dir args) s = (s1, Ok 0).
Proof.
  unfold qa_init. rewrite run_catch. destruct (run (main _ _ _ _) s) as [s' [a|e]]; [done|].
  rewrite run_bind. cbn. split; [intros [=]|done].
Qed.
Lemma writes_keeps l s : cwd (writes dir l s) = cwd s ∧ ∀ p, path_exists s p = true → path_exists (writes dir l s) p = true.
Proof.
  revert s. induction l as [|[n t] l IH]; intros s; [done|]. destruct (IH (write (P n) t s)) as [E Hp].
  split; [exact E|]. intros p H. apply Hp. unfold path_exists in *. cbn. apply orb_true_iff. apply orb_true_iff in H as [H|]; [left|by right].
  rewrite bool_decide_eq_true in H |- *. destruct (decide (P n = p)) as [<-|]; [by rewrite lookup_insert_eq|by rewrite lookup_insert_ne].
Qed.

Lemma ran_keeps o s s1 : path_exists s dir = true → no_dirs s → ran o s s1 → path_exists s1 dir = true ∧ cwd s1 = cwd s.
Proof.
  intros Hd Hs (text & pkg & kind & tailwind & s' & _ & _ & _ & _ & Hrun & ->).
  apply apply_config_run in Hrun as (? & ? & ? & ? & ? & ? & _ & _ & _ & _ & _ & _ & ->); [|done..].
  split; [by apply writes_keeps|apply writes_keeps].
Qed.

(** *** A second run *)

(** The JSON files of the package are values [JSON.stringify] can write again. *)
Definition json_files_ok (s : store) : Prop := ∀ n, n ∈ ["package.json"; "oxlint.json"; "tsconfig.json"] → reads_ok (files s !! P n).

Lemma config_texts_names kind pkg tp to tt' tb : let l := config_texts kind pkg tp to tt' tb in
  NoDup (map fst l) ∧ map fst l ⊆ qa_files.
Proof.
  split; [destruct kind; apply (bool_decide_unpack _); by vm_compute|].
  intros n Hn. destruct kind; vm_compute in Hn |- *; set_solver.
Qed.

Lemma resolve_again o pkg kind tailwind pkg' : updated_package type_error pkg kind = Ok pkg' →
  resolveKind type_error (qo_kind o) pkg = Ok kind → resolveTailwind type_error (qo_tailwind o) pkg kind = Ok tailwind →
  resolveKind type_error (qo_kind o) pkg' = Ok kind ∧ resolveTailwind type_error (qo_tailwind o) pkg' kind = Ok tailwind.
Proof.
  intros [Hk Hu]%updated_package_detects. unfold resolveKind, resolveTailwind, detectTailwind. rewrite Hk, Hu; [done|].
  by destruct kind; vm_compute; set_solver.
Qed.

Lemma config_texts_in kind pkg tp to tt' tb : let l := config_texts kind pkg tp to tt' tb in
  ("package.json", json_file pkg) ∈ l ∧ ("prettier.config.cjs", tp) ∈ l ∧ ("oxlint.json", to) ∈ l ∧ ("tsconfig.json", tt') ∈ l ∧
  (kind ≠ KindWeb → ("bunup.config.ts", tb) ∈ l) ∧ (kind = KindWeb → P "bunup.config.ts" ∉ map (λ nt, P nt.1) l).
Proof.
  split_and!; [by repeat constructor..| |].
  - intros Hk. unfold config_texts. rewrite decide_False by done. by repeat constructor.
  - intros ->. cbn. intros Hin. repeat (apply elem_of_cons in Hin as [E%qa_files_inj|Hin]; [done|in_files..|]).
    by apply not_elem_of_nil in Hin.
Qed.

(** The files after the texts are written again: [oxlint.json] apart, as before. *)
Lemma writes_again kind pkg tp to to' tt' tb s p : p ≠ P "oxlint.json" →
  (∀ n t, (n, t) ∈ config_texts kind pkg tp to tt' tb → files s !! P n = Some t) →
  files (writes dir (config_texts kind pkg tp to' tt' tb) s) !! p = files s !! p.
Proof.
  intros Hp Hl. destruct (decide (p ∈ map (λ nt, P nt.1) (config_texts kind pkg tp to' tt' tb))) as [Hin|]; [|by apply writes_lookup_ne].
  apply list_elem_of_fmap in Hin as ([n t] & -> & Hin). cbn [fst] in *.
  destruct (config_texts_names kind pkg tp to' tt' tb) as [Hd' Hs'].
  rewrite (writes_lookup _ _ _ _ Hd' Hs' Hin). symmetry. apply Hl.
  unfold config_texts in *. rewrite elem_of_app, !elem_of_cons, elem_of_nil in Hin |- *. naive_solver.
Qed.

(** What the second run reads is what the first wrote. *)
Lemma ran_again o s s1 : no_dirs s → json_files_ok s → ran o s s1 → ∃ s2, ran o s1 s2 ∧ no_dirs s1 ∧
  (∀ p, p ≠ P "oxlint.json" → files s2 !! p = files s1 !! p) ∧
  ∃ t t', files s1 !! P "oxlint.json" = Some t ∧ files s2 !! P "oxlint.json" = Some t' ∧ read_text t' = read_text t ∧
    (qo_force o = true ∨ is_Some (files s !! P "oxlint.json") → t' = t).
Proof.
  intros Hs Hok (text & pkg & kind & tailwind & s' & Htext & Hread & Hk & Ht & Hrun & ->).
  apply apply_config_run in Hrun as (pkg' & preset & tp & to & tt' & tb & Hu & Hpre & Hp & Ho & Hts & Hb & ->); [|done..].
  cbn [ro_kind ro_tailwind ro_pkg] in *.
  destruct (oxlint_again _ _ _ (Hok "oxlint.json" ltac:(in_files)) Ho) as (to' & Ho' & Hsame & Heq).
  set (r := {| ro_dir := dir; ro_kind := kind; ro_tailwind := tailwind; ro_pkg := pkg' |}).
  set (l := config_texts kind pkg' tp to tt' tb). set (s1 := print_line _ (writes dir l s)).
  destruct (config_texts_names kind pkg' tp to tt' tb) as [Hd Hsub]. destruct (config_texts_names kind pkg' tp to' tt' tb) as [Hd' Hsub'].
  assert (Hn1 : no_dirs s1) by (intros n Hn; change (P n ∉ dirs (writes dir l s)); rewrite writes_dirs; auto).
  assert (Hl : ∀ n t, (n, t) ∈ l → files s1 !! P n = Some t) by (intros; by apply writes_lookup).
  destruct (config_texts_in kind pkg' tp to tt' tb) as (I1 & I2 & I3 & I4 & I5 & I6).
  destruct (config_texts_in kind pkg' tp to' tt' tb) as (_ & _ & I3' & _).
  assert (Hpkg : json_ok pkg' = true).
  { eapply updated_package_json; [|exact Hu]. by eapply (Hok "package.json" ltac:(in_files)). }
  destruct (resolve_again _ _ _ _ _ Hu Hk Ht) as [Hk' Ht'].
  exists (print_line (done_line r) (writes dir (config_texts kind pkg' tp to' tt' tb) s1)).
  split_and!; [|done|intros p Hne; by apply (writes_again kind pkg' tp to)|].
  - exists (json_file pkg'), pkg', kind, tailwind, (writes dir (config_texts kind pkg' tp to' tt' tb) s1). rewrite read_json_file by done.
    split_and!; [by apply Hl|done..| |done]. apply apply_config_run; [done..|].
    exists pkg', preset, tp, to', tt', tb. cbn [ro_kind ro_tailwind ro_pkg]. rewrite !(Hl _ _ I2), (Hl _ _ I3), (Hl _ _ I4).
    split_and!; [by eapply updated_package_again|done|by eapply kept_again|done| | |done].
    + eapply tsconfig_again; [by eapply preset_nonempty|by apply (Hok "tsconfig.json" ltac:(in_files))|done].
    + destruct (decide (kind = KindWeb)) as [E|Hw]; [rewrite <- Hb; f_equal; by apply writes_lookup_ne, I6|].
      rewrite (Hl _ _ (I5 Hw)). by eapply kept_again.
  - exists to, to'. split_and!; [by apply Hl| |done..]. by apply (writes_lookup _ s1).
Qed.
(** C36: Running qa-init twice is running it once: after a run that ended well, the same command ends well again, every
    file but oxlint.json is byte for byte as the first run left it, and oxlint.json reads as the same value — it is the
    same text too, unless the first run created it without [--force], since what it starts with is laid out otherwise
    than [JSON.stringify] does. *)
Theorem qa_init_twice args o s s1 :
  parseArgsList type_error args = ParsedArgs o → run (resolveDir script_dir o) s = (s, Ok (Some dir)) →
  path_exists s dir = true → no_dirs s → json_files_ok s →
  run (qa_init type_error syntax_error script_dir args) s = (s1, Ok 0) →
  ∃ s2 t t', run (qa_init type_error syntax_error script_dir args) s1 = (s2, Ok 0) ∧
    (∀ p, p ≠ P "oxlint.json" → files s2 !! p = files s1 !! p) ∧
    files s1 !! P "oxlint.json" = Some t ∧ files s2 !! P "oxlint.json" = Some t' ∧ read_text t' = read_text t ∧
    (qo_force o = true ∨ is_Some (files s !! P "oxlint.json") → t' = t).
Proof.
  intros Ha Hr Hd Hs Hok Hrun%qa_init_main. apply (main_ran _ o) in Hrun; [|done..].
  assert (Hd1 : path_exists s1 dir = true ∧ cwd s1 = cwd s) by by eapply ran_keeps.
  destruct (ran_again o s s1 Hs Hok Hrun) as (s2 & Hrun2 & Hn1 & Hf & t & t' & H). exists s2, t, t'. split; [|tauto].
  apply qa_init_main, (main_ran _ o); [done| |tauto|done|done]. eapply resolveDir_same; [exact Hr|tauto].
Qed.
End Config.

(** A JSON file with comments — lines after [//] and blocks between [/*] and [*/], wherever white space may be, with
    the last line perhaps unfinished — reads as the value of the text without them; what looks like a comment inside
    a string is left in it. *)
Theorem readJson_comments p w v t w' s : files s !! p = Some (w +:+ t +:+ w') → comment_gap w → written comment_gap v t →
  comment_end w' → run (read_json p) s = (s, Ok v).
Proof. intros Hf Hw Ht Hw'. rewrite run_readJson, Hf. unfold read_text. by rewrite (parse_commented _ v). Qed.

(** What [writeJson] writes, [readJson] reads. *)
Lemma writeJson_readJson p v s : json_ok v = true → p ∉ dirs s →
  run (writeJson p v ;;! read_json p) s = (write p (json_file v) s, Ok v).
Proof.
  intros Hv Hp. unfold writeJson. rewrite run_bind, run_write, run_readJson by done. cbn [files write].
  change (files (write p (json_file v) s)) with (<[p := json_file v]> (files s)). by rewrite lookup_insert_eq, read_json_file.
Qed.
End Run.

(** ** On concrete packages *)

Definition ex_error (p : string) : exn := JsError ("ENOENT: no such file or directory, open '" +:+ p +:+ "'").

Definition ex_spawn (command : string) (args : list string) (dir : string) (s : store) : store * result Z := (s, Ok 0).

Abbreviation ex_run := (run ex_error (λ _ _, []) ex_spawn).

Abbreviation ex_qa_init := (qa_init (JsError "TypeError") (JsError "SyntaxError") "/repo/packages/qa/scripts").

Definition ex_store (l : list (string * string)) : store :=
  {| files := list_to_map l; dirs := {["/repo"; "/repo/lib"]}; cwd := "/repo"; env := ∅; out := [] |}.

(** A package with comments in its tsconfig.json. *)
Definition ex_package : store := ex_store
  [("/repo/lib/package.json", json_stringify (mk_obj [("name", VStr "lib"); ("devDependencies", mk_obj [("react", VStr "^18")])]));
   ("/repo/lib/tsconfig.json", "{ // options" +:+ newline +:+ quoted "compilerOptions" +:+ ": /* none */ {} } // end")].

Lemma readJson_comments_witness : ex_run (readJson (JsError "SyntaxError") "/repo/lib/tsconfig.json") ex_package =
  (ex_package, Ok (VObj [("compilerOptions", VObj [])])).
Proof.
  apply (readJson_comments ex_error _ ex_spawn _ _ "" _
    ("{ // options" +:+ newline +:+ quoted "compilerOptions" +:+ ": /* none */ {} }") " // end"); [by vm_compute|constructor| |].
  - apply (wr_obj _ _ (" // options" +:+ newline) (json_string "compilerOptions" +:+ "" +:+ ":" +:+ " /* none */ " +:+ "{}" +:+ " " +:+ "}")).
    + apply cg_blank; [done|]. apply (cg_line " options" ""); [done|constructor].
    + repeat constructor; set_solver.
    + apply (me_last _ _ _ "{}" "" " /* none */ " " "); [constructor| |apply (wr_empty _ ""); constructor|by repeat constructor].
      apply cg_blank; [done|]. apply (cg_block " none " " "); [done|]. by repeat constructor.
  - apply (ce_line " " " end"); [by repeat constructor|done].
Defined.

Lemma qa_init_twice_witness : ∃ s2 t t', ex_run (ex_qa_init ["lib"]) (fst (ex_run (ex_qa_init ["lib"]) ex_package)) = (s2, Ok 0) ∧
  (∀ p, p ≠ "/repo/lib/oxlint.json" → files s2 !! p = files (fst (ex_run (ex_qa_init ["lib"]) ex_package)) !! p) ∧
  files (fst (ex_run (ex_qa_init ["lib"]) ex_package)) !! "/repo/lib/oxlint.json" = Some t ∧
  files s2 !! "/repo/lib/oxlint.json" = Some t' ∧ read_text (JsError "SyntaxError") t' = read_text (JsError "SyntaxError") t ∧
  (false = true ∨ is_Some (files ex_package !! "/repo/lib/oxlint.json") → t' = t).
Proof.
  apply (qa_init_twice ex_error (λ _ _, []) ex_spawn (JsError "TypeError") (JsError "SyntaxError") "/repo/packages/qa/scripts"
    "/repo/lib" eq_refl ["lib"] {| qo_dir := Some "lib"; qo_kind := None; qo_tailwind := None; qo_force := false |} ex_package).
  1-3: by vm_compute.
  - intros n Hn. apply (bool_decide_eq_false_1 (path_join ["/repo/lib"; n] ∈ dirs ex_package)). revert n Hn. apply Forall_forall.
    repeat constructor; by vm_compute.
  - intros n Hn. revert n Hn. apply Forall_forall. repeat constructor; intros t v E; vm_compute in E; try done;
      injection E as <-; intros E; vm_compute in E; by injection E as <-.
  - by vm_compute.
Defined.

(** Help is shown for [--help]; a first argument [-h] is the directory instead. *)
Example help_flag :
  parseArgsList (JsError "TypeError") ["--help"] = HelpShown ∧
  parseArgsList (JsError "TypeError") ["-h"] = ParsedArgs {| qo_dir := Some "-h"; qo_kind := None; qo_tailwind := None; qo_force := false |}.
Proof. by vm_compute. Qed.

(** A tsconfig.json with a trailing comma, which the compiler accepts, ends the run after the other files are written. *)
Example trailing_comma :
  let s := ex_store [("/repo/lib/package.json", "{}"); ("/repo/lib/tsconfig.json", "{" +:+ quoted "extends" +:+ ": " +:+ quoted "x" +:+ ",}")] in
  let '(s1, code) := ex_run (ex_qa_init ["--dir"; "/repo/lib"; "--kind"; "web"]) s in
  code = Ok 1 ∧ out s1 = ["SyntaxError"] ∧ files s1 !! "/repo/lib/oxlint.json" = Some oxlint_config ∧
  files s1 !! "/repo/lib/package.json" ≠ files s !! "/repo/lib/package.json".
Proof. by vm_compute. Qed.

(** A name of [Object.prototype] after the directory ends the arguments: the [--force] that follows is not seen. *)
Example inherited_name :
  parseArgsList (JsError "TypeError") ["lib"; "constructor"; "--force"] =
    ParsedArgs {| qo_dir := Some "lib"; qo_kind := None; qo_tailwind := None; qo_force := false |} ∧
  parseArgsList (JsError "TypeError") ["lib"; "web"; "--force"] =
    ParsedArgs {| qo_dir := Some "lib"; qo_kind := None; qo_tailwind := None; qo_force := true |}.
Proof. by vm_compute. Qed.
