(* ===== verification/Scaffold.v ===== *)
(** * New packages

    packages/new: the command line of index.ts, the scaffolders, and scripts/web-postinstall.ts. What the commands they
    start do to the files is the file system's. *)

From S2P Require Export Files.

Local Open Scope string_scope.
Local Open Scope Z_scope.
Local Open Scope list_scope.

Definition eol : string := String (chr 10) "".

(** Texts with double quotes, written as tildes. *)
Definition dq (s : string) : string := replace_char "~" (chr 34) s.

(** ** The command line *)

Definition new_usage : string := dq "Usage:
  bun new <type> [name] [--no-install] [options]

Types:
  web   Creates a Bun React + Tailwind app in apps/<name>
  api   Creates a Bun + Hono API app in apps/<name>
  cli   Creates a CLI package in packages/<name>
  lib   Creates a library package in packages/<name>
  ui    Creates a Tailwind UI library in packages/<name> (via bun create)

CLI options:
  --tui                 Scaffold an Ink-based TUI CLI
  --tui=fullscreen      Scaffold a full-screen Ink TUI CLI (via fullscreen-ink)".

Inductive app_type : Type := AppWeb | AppApi | AppCli | AppLib | AppUi.

#[export] Instance app_type_eq_dec : EqDecision app_type. Proof. solve_decision. Defined.

Definition type_name (t : app_type) : string :=
  match t with AppWeb => "web" | AppApi => "api" | AppCli => "cli" | AppLib => "lib" | AppUi => "ui" end.

Definition app_types : list app_type := [AppWeb; AppApi; AppCli; AppLib; AppUi].

Definition parse_type (s : string) : option app_type := List.find (λ t, String.eqb (type_name t) s) app_types.

Inductive tui_option : Type := TuiInk | TuiFullscreen.

(** An absent or empty value is the default. *)
Definition parseCliTui (raw : option string) : result tui_option :=
  match raw ≫= nonempty with
  | None => Ok TuiInk
  | Some raw => if String.eqb raw "fullscreen" then Ok TuiFullscreen
                else if String.eqb raw "ink" then Ok TuiInk
                else Err (JsError ("Invalid --tui value: " +:+ raw))
  end.

Record new_args := { na_install : bool; na_tui : option tui_option; na_positional : list string }.

Definition no_args : new_args := {| na_install := true; na_tui := None; na_positional := [] |}.

(** The loop over the arguments after the type. *)
Fixpoint parse_rest (rest : list string) (a : new_args) : result new_args :=
  match rest with
  | [] => Ok a
  | arg :: rest =>
      if negb (str_truthy arg) then parse_rest rest a
      else if String.eqb arg "--no-install" then parse_rest rest (a <| na_install := false |>)
      else if String.eqb arg "--tui" then
        match rest with
        | next :: rest' =>
            if str_truthy next && negb (starts_with "-" next)
            then let? tui := parseCliTui (Some next) in parse_rest rest' (a <| na_tui := Some tui |>)
            else let? tui := parseCliTui None in parse_rest rest (a <| na_tui := Some tui |>)
        | [] => let? tui := parseCliTui None in Ok (a <| na_tui := Some tui |>)
        end
      else if starts_with "--tui=" arg then
        let? tui := parseCliTui (Some (str_drop 6 arg)) in parse_rest rest (a <| na_tui := Some tui |>)
      else if negb (starts_with "-" arg) then parse_rest rest (a <| na_positional := na_positional a ++ [arg] |>)
      else parse_rest rest a
  end.

Section Scaffold.
(** The errors of the engine, the directory [import.meta.dir] of the scaffolders, and the working directory. *)
Variable type_error syntax_error : exn.
Variable scaffolders_dir : string.
Variable cwd : string.

Definition ROOT_DIR : string := path_resolve scaffolders_dir ["../../.."].

Definition BUN_CREATE_DIR : string := path_join [ROOT_DIR; ".bun-create"].

Definition WEB_TEMPLATE_DIR : string := path_join [ROOT_DIR; "packages"; "new"; "templates"; "web"].

(** ** Utilities *)

Definition run_command (command : string) (args : list string) (dir : string) : F unit :=
  let! exitCode := sys_try (FSpawn command args dir) in
  if Z.eqb exitCode 0 then Ret tt
  else Throw (JsError ("Command failed: " +:+ command +:+ " " +:+ JsStr.join " " args)).

Definition ensureEmptyDir (dir : string) : F unit :=
  let! here := sys (FExists dir) in
  if negb here then Ret tt
  else
    let! entries := sys_try (FReaddir dir) in
    match entries with
    | [] => Ret tt
    | _ => Throw (JsError ("Target directory is not empty: " +:+ dir))
    end.

Definition is_path (name : string) : bool :=
  includes "/" name || includes "\" name || starts_with "apps/" name || starts_with "packages/" name.

Definition resolveTarget (name defaultRoot : string) : result string :=
  let resolved := if is_path name then path_resolve ROOT_DIR [name] else path_join [ROOT_DIR; defaultRoot; name] in
  let rootWithSep := if ends_with_slash ROOT_DIR then ROOT_DIR else ROOT_DIR +:+ "/" in
  if starts_with rootWithSep resolved then Ok resolved
  else Err (JsError ("Target path must be inside repo root: " +:+ ROOT_DIR)).

(** The first of the paths that exists. *)
Fixpoint find_existing (l : list string) : F (option string) :=
  match l with
  | [] => Ret None
  | p :: l => let! here := sys (FExists p) in if here : bool then Ret (Some p) else find_existing l
  end.

Definition app_candidates (targetDir : string) : list string :=
  [path_join [targetDir; "src"; "App.tsx"]; path_join [targetDir; "src"; "App.jsx"];
   path_join [targetDir; "src"; "app.tsx"]; path_join [targetDir; "src"; "app.jsx"]].

Definition app_contents : string := dq "export default function App() {
  return (
    <main className=~min-h-screen bg-white text-slate-900~>
      <div className=~mx-auto max-w-3xl px-6 py-20~>
        <h1 className=~text-3xl font-semibold~>Welcome</h1>
        <p className=~mt-4 text-base text-slate-600~>
          This is a fresh Bun + React + Tailwind app. Build something great.
        </p>
      </div>
    </main>
  );
}
".

Definition updateWebAppContent (targetDir : string) : F unit :=
  let! appFile := find_existing (app_candidates targetDir) in
  match appFile with
  | None => Throw (JsError "Unable to locate App component to update.")
  | Some appFile => writeFile appFile app_contents
  end.

(** [fuel] is the depth of the directories. *)
Fixpoint copyTemplateDir (fuel : nat) (sourceDir targetDir : string) : F unit :=
  match fuel with
  | O => Ret tt
  | S fuel =>
      mkdir targetDir ;;!
      let! entries := sys_try (FReaddir sourceDir) in
      for_each entries (λ '(name, kind),
        let sourcePath := path_join [sourceDir; name] in
        let targetPath := path_join [targetDir; name] in
        match kind with
        | EntryDir => copyTemplateDir fuel sourcePath targetPath
        | EntryFile => sys_try (FCopy sourcePath targetPath)
        | EntryOther => Ret tt
        end)
  end.

Definition applyWebTemplateTests (fuel : nat) (targetDir : string) : F unit :=
  let sourceTests := path_join [WEB_TEMPLATE_DIR; "tests"] in
  let! here := sys (FExists sourceTests) in
  if negb here then Ret tt else copyTemplateDir fuel sourceTests (path_join [targetDir; "tests"]).

Definition runQaInit (targetDir kind : string) (tailwind : bool) : F unit :=
  run_command "bun"
    (["run"; "--cwd"; path_join [ROOT_DIR; "packages"; "qa"]; "qa:init"; "--dir"; targetDir; "--kind"; kind] ++
     (if tailwind then ["--tailwind"] else [])) ROOT_DIR.

Definition runWorkspaceInstall : F unit := run_command "bun" ["install"] ROOT_DIR.

Definition ensureTargetDir (targetDir : string) : F unit :=
  ensureEmptyDir targetDir ;;!
  let! here := sys (FExists targetDir) in
  if negb here then mkdir targetDir else Ret tt.

Definition ensureTemplates : F unit :=
  let! here := sys (FExists BUN_CREATE_DIR) in
  if negb here then
    Throw (JsError "Missing .bun-create directory at repo root. Run bun install or bun run -w @merossity/new postinstall.")
  else Ret tt.

Definition readJson (path : string) : F val :=
  let! contents := readFile path in
  match json_parse contents with Some v => Ret v | None => Throw syntax_error end.

Definition writeJson (path : string) (data : val) : F unit := writeFile path (json_pretty data +:+ eol).

Definition read_prop (k : string) (v : val) : result val := if nullish v then Err type_error else Ok (prop k v).

(** Properties of an array that are no indices do not reach [JSON.stringify]. *)
Definition assign (k : string) (w : val) (v : val) : result val := if is_object v then Ok (set_prop k w v) else Err type_error.

Definition resolveProjectName : F string :=
  let pkgPath := path_join [ROOT_DIR; "package.json"] in
  let! here := sys (FExists pkgPath) in
  if negb here then Ret "project"
  else
    let! pkg := readJson pkgPath in
    let! name := of_result (read_prop "name" pkg) in
    match coalesce name (VStr "project") with
    | VStr raw => Ret (if starts_with "@" raw then List.last (split_on slash raw) raw else raw)
    | _ => Throw type_error
    end.

(** [s.replace(/^(apps|packages)\//, '')] *)
Definition strip_root (s : string) : string :=
  if starts_with "apps/" s then str_drop 5 s else if starts_with "packages/" s then str_drop 9 s else s.

Definition resolvePackageName (targetDir : string) : string :=
  JsStr.join "-" (List.filter str_truthy (split_on slash (strip_root (replace_char "\" "/" (path_relative cwd ROOT_DIR targetDir))))).

Definition updatePackageName (targetDir : string) : F unit :=
  let pkgPath := path_join [targetDir; "package.json"] in
  let! here := sys (FExists pkgPath) in
  if negb here then Ret tt
  else
    let! pkg := readJson pkgPath in
    let! projectName := resolveProjectName in
    let! pkg := of_result (assign "name" (VStr ("@" +:+ projectName +:+ "/" +:+ resolvePackageName targetDir)) pkg) in
    writeJson pkgPath pkg.

(** ** The terminal interface of a new command line *)

Definition ensureTsconfigForInk (targetDir : string) : F unit :=
  let tsconfigPath := path_join [targetDir; "tsconfig.json"] in
  let! here := sys (FExists tsconfigPath) in
  if negb here then Ret tt
  else
    let! tsconfig := readJson tsconfigPath in
    let! options := of_result (read_prop "compilerOptions" tsconfig) in
    let options := coalesce options (VObj []) in
    let! options := of_result (if truthy (prop "jsx" options) then Ok options else assign "jsx" (VStr "react-jsx") options) in
    let! tsconfig := of_result (assign "compilerOptions" options tsconfig) in
    writeJson tsconfigPath tsconfig.

(** [deps.k = deps.k ?? version] *)
Definition default_dep (k version : string) (deps : val) : result val := assign k (coalesce (prop k deps) (VStr version)) deps.

Definition ink_deps (tui : tui_option) (pkg : val) : result val :=
  let? deps := read_prop "dependencies" pkg in
  let? devDeps := read_prop "devDependencies" pkg in
  let? deps := default_dep "ink" "5.2.1" (coalesce deps (VObj [])) in
  let? deps := default_dep "react" "^18.2.0" deps in
  let? deps := match tui with TuiFullscreen => default_dep "fullscreen-ink" "0.1.0" deps | TuiInk => Ok deps end in
  let? devDeps := default_dep "@types/react" "^18.2.0" (coalesce devDeps (VObj [])) in
  let? pkg := assign "dependencies" deps pkg in
  assign "devDependencies" devDeps pkg.

Definition ensureInkDeps (targetDir : string) (tui : tui_option) : F unit :=
  let pkgPath := path_join [targetDir; "package.json"] in
  let! here := sys (FExists pkgPath) in
  if negb here then Ret tt
  else
    let! pkg := readJson pkgPath in
    let! pkg := of_result (ink_deps tui pkg) in
    writeJson pkgPath pkg.

Definition ink_contents (tui : tui_option) : string :=
  match tui with
  | TuiFullscreen => dq "import { Box, Text, useApp, useInput } from ~ink~;
import { withFullScreen } from ~fullscreen-ink~;
"
  | TuiInk => dq "import { Box, Text, render, useApp, useInput } from ~ink~;
"
  end +:+ eol +:+ eol +:+ dq "function App() {
  const app = useApp();
  useInput((input, key) => {
    if (input === ~q~ || key.escape) {
      app.exit();
    }
  });

  return (
    <Box flexDirection=~column~ padding={1}>
      <Text>Ink TUI is running.</Text>
      <Text dimColor>Press ~q~ (or Esc) to exit.</Text>
    </Box>
  );
}

export const runTui = async () => {
  " +:+
  match tui with
  | TuiFullscreen => "const ink = withFullScreen(<App />);
  await ink.start();
  await ink.waitUntilExit();"
  | TuiInk => "const { waitUntilExit } = render(<App />);
  await waitUntilExit();"
  end +:+ eol +:+ "};" +:+ eol.

Definition writeInkFiles (targetDir : string) (tui : tui_option) : F unit :=
  writeFile (path_join [targetDir; "src"; "tui.tsx"]) (ink_contents tui).

Definition ink_entrypoint : string := dq "#!/usr/bin/env node

import { createRequire } from ~node:module~;
import {
  Clerc,
  NoCommandSpecifiedError,
  completionsPlugin,
  friendlyErrorPlugin,
  helpPlugin,
  notFoundPlugin,
  strictFlagsPlugin,
  updateNotifierPlugin,
  defineCommand,
  versionPlugin,
} from ~clerc~;

import { runTui } from ~./tui~;

const require = createRequire(import.meta.url);
const pkg = require(~../package.json~) as {
  name?: string;
  version?: string;
  description?: string;
};

const cli = Clerc.create({
  scriptName: ~cli~,
  name: pkg.name ?? ~cli~,
  version: pkg.version ?? ~0.0.0~,
  description: pkg.description ?? ~A TUI CLI built with Ink + Clerc.~,
})
  .use(versionPlugin())
  .use(helpPlugin({ showHelpWhenNoCommandSpecified: false }))
  .use(completionsPlugin())
  .use(strictFlagsPlugin())
  .use(notFoundPlugin())
  .use(friendlyErrorPlugin());

if (process.env.CLI_UPDATE_NOTIFIER === ~1~) {
  cli.use(updateNotifierPlugin({ pkg: { name: pkg.name ?? ~cli~, version: pkg.version ?? ~0.0.0~ } }));
}

// Default to the TUI when no command is provided (but keep '--help' / '--version' working).
cli.interceptor(async (_ctx, next) => {
  try {
    await next();
  } catch (error) {
    if (error instanceof NoCommandSpecifiedError) {
      await runTui();
      return;
    }
    throw error;
  }
});

cli.command(
  defineCommand(
    {
      name: ~tui~,
      description: ~Start the TUI~,
    },
    async () => {
      await runTui();
    },
  ),
);

cli.command(
  defineCommand(
    {
      name: ~greet~,
      description: ~Print a greeting~,
      parameters: [~[name]~],
    },
    ({ parameters }) => {
      console.log(`Hello, ${parameters.name ?? ~world~}!`);
    },
  ),
);

await cli.parse();
".

Definition write_if_there (path contents : string) : F unit :=
  let! here := sys (FExists path) in
  if negb here then Ret tt else writeFile path contents.

Definition writeInkEntrypoint (targetDir : string) : F unit := write_if_there (path_join [targetDir; "src"; "index.ts"]) ink_entrypoint.

Definition ink_tests : string := dq "import path from ~node:path~;
import { describe, expect, it } from ~bun:test~;

const CLI_PATH = path.join(import.meta.dir, ~..~, ~src~, ~index.ts~);

const runCli = async (args: string[]) => {
  const proc = Bun.spawn([~bun~, CLI_PATH, ...args], {
    stdin: ~ignore~,
    stdout: ~pipe~,
    stderr: ~pipe~,
  });

  const exitCode = await proc.exited;
  const stdout = proc.stdout ? await new Response(proc.stdout).text() : ~~;
  const stderr = proc.stderr ? await new Response(proc.stderr).text() : ~~;

  return { exitCode, stdout, stderr };
};

describe(~cli (ink)~, () => {
  it(~prints help with --help (does not start the TUI)~, async () => {
    const { exitCode, stdout, stderr } = await runCli([~--help~]);
    expect(exitCode).toBe(0);
    expect(stderr).toBe(~~);
    expect(stdout).toContain(~Usage~);
    expect(stdout).toContain(~cli~);
  });

  it(~runs greet~, async () => {
    const { exitCode, stdout, stderr } = await runCli([~greet~, ~bun~]);
    expect(exitCode).toBe(0);
    expect(stderr).toBe(~~);
    expect(stdout).toContain(~Hello, bun!~);
  });
});
".

Definition writeInkTests (targetDir : string) : F unit := write_if_there (path_join [targetDir; "tests"; "cli.test.ts"]) ink_tests.

Definition applyInkTui (targetDir : string) (tui : tui_option) : F unit :=
  ensureInkDeps targetDir tui ;;!
  ensureTsconfigForInk targetDir ;;!
  writeInkFiles targetDir tui ;;!
  writeInkEntrypoint targetDir ;;!
  writeInkTests targetDir.

(** ** The scaffolders *)

Definition bun_create (type targetDir : string) : F unit :=
  run_command "bun" ["create"; type; path_relative cwd ROOT_DIR targetDir; "--no-install"; "--no-git"] ROOT_DIR.

(** [scaffoldApi], [scaffoldLib] and [scaffoldUi] differ in the template and the wiring. *)
Definition scaffold_template (type kind : string) (tailwind : bool) (targetDir : string) (install : bool) : F unit :=
  ensureTargetDir targetDir ;;!
  ensureTemplates ;;!
  bun_create type targetDir ;;!
  runQaInit targetDir kind tailwind ;;!
  updatePackageName targetDir ;;!
  if install then runWorkspaceInstall else Ret tt.

Definition scaffoldApi : string → bool → F unit := scaffold_template "api" "lib" false.

Definition scaffoldLib : string → bool → F unit := scaffold_template "lib" "lib" false.

Definition scaffoldUi : string → bool → F unit := scaffold_template "ui" "lib" true.

Definition scaffoldCli (tui : option tui_option) (targetDir : string) (install : bool) : F unit :=
  ensureTargetDir targetDir ;;!
  ensureTemplates ;;!
  bun_create "cli" targetDir ;;!
  runQaInit targetDir "cli" false ;;!
  updatePackageName targetDir ;;!
  (match tui with Some tui => applyInkTui targetDir tui | None => Ret tt end) ;;!
  if install then runWorkspaceInstall else Ret tt.

Definition scaffoldWeb (fuel : nat) (targetDir : string) (install : bool) : F unit :=
  ensureTargetDir targetDir ;;!
  let! template := sys (FEnv "BUN_NEW_WEB_TEMPLATE") in
  (if bool_decide (template = Some "1") then ensureTemplates ;;! bun_create "web" targetDir
   else run_command "bun" ["init"; "--react=tailwind"] targetDir) ;;!
  updateWebAppContent targetDir ;;!
  applyWebTemplateTests fuel targetDir ;;!
  runQaInit targetDir "web" true ;;!
  updatePackageName targetDir ;;!
  run_command "bun" ["run"; "packages/new/scripts/web-postinstall.ts"; "--dir"; path_relative cwd ROOT_DIR targetDir] ROOT_DIR ;;!
  if install then runWorkspaceInstall else Ret tt.

(** [metadata.defaultRoot] *)
Definition default_root (t : app_type) : string :=
  match t with AppWeb | AppApi => "apps" | AppCli | AppLib | AppUi => "packages" end.

Definition scaffold (fuel : nat) (t : app_type) (tui : option tui_option) : string → bool → F unit :=
  match t with
  | AppWeb => scaffoldWeb fuel
  | AppApi => scaffoldApi
  | AppCli => scaffoldCli tui
  | AppLib => scaffoldLib
  | AppUi => scaffoldUi
  end.

(** [main], and the exit code of the process. *)
Definition main (fuel : nat) (args : list string) : F Z :=
  match args with
  | [] | "" :: _ => sys (FLog new_usage) ;;! Ret 1
  | typeArg :: rest =>
      match parse_type typeArg with
      | None => Throw (JsError ("Unsupported type: " +:+ typeArg))
      | Some type =>
          let! a := of_result (parse_rest rest no_args) in
          let nameArg := default (type_name type) (head (na_positional a)) in
          let! targetDir := of_result (resolveTarget nameArg (default_root type)) in
          if negb (bool_decide (type = AppCli)) && bool_decide (is_Some (na_tui a)) then
            Throw (JsError "--tui is only supported for `bun new cli`")
          else
            scaffold fuel type (na_tui a) targetDir (na_install a) ;;!
            sys (FLog ("Created " +:+ type_name type +:+ " app at " +:+ targetDir)) ;;!
            Ret 0
      end
  end.

Definition new_package (fuel : nat) (args : list string) : F Z :=
  catch (main fuel args) (λ e, sys (FError (exn_message e)) ;;! Ret 1).
End Scaffold.
