(* ===== verification/ScaffoldSpec.v ===== *)
(** * What the scaffolders touch

    A target lies inside the repository; whatever the answers of the system, every file that is written lies below the
    target; a directory with entries is left as it is. *)

From S2P Require Export Scaffold.

Local Open Scope string_scope.
Local Open Scope Z_scope.
Local Open Scope list_scope.

(** ** Paths *)

Lemma below_segs root l : Forall plain_seg (root ++ l) → root ≠ [] → l ≠ [] → lies_below (abs_path root) (abs_path (root ++ l)).
Proof.
  intros [Hr Hl]%Forall_app Hroot Hne. exists l. unfold abs_path. rewrite NodePath.join_app, !app_assoc_str by done. auto.
Qed.

Lemma join_solid l : Forall plain_seg l → l ≠ [] → ends_with_slash (JsStr.join "/" l) = false ∧ JsStr.join "/" l ≠ "".
Proof.
  induction l as [|s l IH]; [done|]. intros [(Hs & Hne & _) Hl]%Forall_cons _. destruct l as [|t l].
  - cbn [JsStr.join]. by rewrite ends_with_slash_free.
  - destruct IH as [Hj Hn]; [done..|]. change (JsStr.join "/" (s :: t :: l)) with (s +:+ "/" +:+ JsStr.join "/" (t :: l)).
    rewrite <- app_assoc_str, ends_with_slash_app by done. split; [done|]. by destruct s.
Qed.

(** [root/s] for plain segments [s]. *)
Lemma path_join_segs root l : Forall plain_seg root → Forall plain_seg l → root ≠ [] → l ≠ [] →
  path_join [abs_path root; JsStr.join "/" l] = abs_path (root ++ l).
Proof.
  intros Hr Hl Hroot Hne. assert (Hu : Forall (λ t, t ≠ "..") l) by (eapply Forall_impl; [exact Hl|]; by intros ? (_ & _ & _ & ?)).
  assert (Hf : Forall slash_free l) by (eapply Forall_impl; [exact Hl|]; by intros ? [? _]).
  unfold path_join. cbn [List.filter]. change (str_truthy (abs_path root)) with true. rewrite join_cons_nonempty by done.
  destruct l as [|s l]; [done|]. set (k := s :: l) in *. cbn [JsStr.join].
  destruct (path_normalize_abs (abs_path root +:+ "/" +:+ JsStr.join "/" k)) as [_ ->]; [done|].
  rewrite norm_joined by (rewrite ?split_on_join; done). rewrite split_on_join, filter_plain by done.
  assert (ends_with_slash (abs_path root +:+ "/" +:+ JsStr.join "/" k) = false) as ->; [|by destruct root; rewrite ?app_empty].
  rewrite <- app_assoc_str. destruct (join_solid k) as [Hs Hn]; [done..|]. by rewrite ends_with_slash_app.
Qed.

Lemma path_join_three a b c : a ≠ "" → b ≠ "" → c ≠ "" → path_join [a; b; c] = path_join [a; b +:+ "/" +:+ c].
Proof. intros Ha Hb Hc. by destruct a, b, c. Qed.

(** ** The target *)

Section Target.
Variable scaffolders_dir : string.

Abbreviation ROOT_DIR := (ROOT_DIR scaffolders_dir).

Definition root_segs : list string := norm_segs false (split_on slash (resolve_from scaffolders_dir ["../../.."])).

(** The repository is not the root of the file system. *)
Hypothesis root_somewhere : root_segs ≠ [].

Lemma root_plain : Forall plain_seg root_segs.
Proof. apply norm_segs_plain, split_on_segs. Qed.

Lemma root_abs : ROOT_DIR = abs_path root_segs.
Proof. done. Qed.

Lemma root_no_slash : ends_with_slash ROOT_DIR = false.
Proof.
  rewrite root_abs. unfold abs_path. destruct (join_solid root_segs root_plain root_somewhere) as [Hs Hn].
  by rewrite ends_with_slash_app.
Qed.

Lemma includes_slash_free s : includes "/" s = false → slash_free s.
Proof.
  unfold slash_free. induction s as [|c s IH]; [done|]. cbn [includes starts_with str_all]. intros [Hc Hs]%orb_false_iff.
  rewrite andb_true_r in Hc. apply andb_true_iff. split; [by unfold slash; rewrite Hc|by apply IH].
Qed.

(** What a name is resolved to before it is looked at: an absolute path without a final slash. *)
Lemma resolved_abs name defaultRoot : plain_seg defaultRoot →
  ∃ l, Forall plain_seg l ∧
    (if is_path name then path_resolve ROOT_DIR [name] else path_join [ROOT_DIR; defaultRoot; name]) = abs_path l.
Proof.
  intros Hd. destruct (is_path name) eqn:E; [apply path_resolve_abs|]. unfold is_path in E.
  rewrite !orb_false_iff in E. destruct E as (((E & _) & _) & _). apply includes_slash_free in E.
  destruct (String.eqb_spec name "") as [->|Hne].
  - exists (root_segs ++ [defaultRoot]). split; [apply Forall_app; split; [apply root_plain|by constructor]|].
    rewrite <- (path_join_segs root_segs [defaultRoot]); [|apply root_plain|by constructor|done|done]. by destruct Hd as (_ & ? & _), defaultRoot.
  - rewrite path_join_three; [|by rewrite root_abs|apply Hd|done]. unfold path_join. cbn [List.filter].
    rewrite root_abs. assert (str_truthy (defaultRoot +:+ "/" +:+ name) = true) as ->.
    { destruct Hd as (_ & ? & _). by destruct defaultRoot. }
    change (str_truthy (abs_path root_segs)) with true. cbn [JsStr.join].
    destruct (path_normalize_abs (abs_path root_segs +:+ "/" +:+ defaultRoot +:+ "/" +:+ name)) as [Hl ->]; [done|].
    eexists. split; [exact Hl|]. rewrite <- !app_assoc_str, ends_with_slash_app, ends_with_slash_free by done.
    match goal with |- abs_path ?k +:+ _ = _ => by destruct k; rewrite ?app_empty end.
Qed.

(** A target is named by segments below the repository. *)
Lemma resolveTarget_segs name defaultRoot d : plain_seg defaultRoot → resolveTarget scaffolders_dir name defaultRoot = Ok d →
  ∃ t, t ≠ [] ∧ Forall plain_seg (root_segs ++ t) ∧ d = abs_path (root_segs ++ t).
Proof.
  intros Hd. unfold resolveTarget. destruct (resolved_abs name defaultRoot Hd) as (l & Hl & ->). rewrite root_no_slash.
  destruct (starts_with _ _) eqn:E; [|done]. intros [= <-].
  apply starts_with_below in E as (t & Hne & -> & _); [by exists t|apply root_plain|done|done].
Qed.
End Target.

(** ** Every call of a program, given what the answers may be *)

Section CallsIf.
Context {St R : Type} {E : Type → Type} (G P : event E → Prop).

Definition calls_if {A} (p : prog St R E A) : Prop := wp p (λ tr _, Forall G tr → Forall P tr).

Lemma calls_if_ret {A} (a : A) : calls_if (Ret a).
Proof. by intros _. Qed.

Lemma calls_if_throw {A} e : calls_if (Throw e : prog St R E A).
Proof. by intros _. Qed.

Lemma calls_if_bind {A B} (p : prog St R E A) (f : A → prog St R E B) :
  calls_if p → (∀ a, calls_if (f a)) → calls_if (bind p f).
Proof.
  unfold calls_if. rewrite wp_bind. intros Hp Hf. eapply wp_mono, Hp. intros tr [a|e] Htr; [|done].
  eapply wp_mono, Hf. intros tr' r' Htr'. rewrite !Forall_app. naive_solver.
Qed.

Lemma calls_if_call {A X} (e : E X) (k : X → prog St R E A) : (∀ x, G (Ev e x) → P (Ev e x) ∧ calls_if (k x)) → calls_if (Sys e k).
Proof.
  unfold calls_if. cbn [wp]. intros H x. apply wp_runs. intros tr r Hr [Hg Htr]%Forall_cons.
  destruct (H x Hg) as [Hp Hk]. rewrite wp_runs in Hk. constructor; eauto.
Qed.

Lemma calls_if_sys {X} (e : E X) : (∀ x, G (Ev e x) → P (Ev e x)) → calls_if (sys e).
Proof. intros H. apply calls_if_call. eauto using calls_if_ret. Qed.

Lemma calls_if_of_result {A} (r : result A) : calls_if (of_result r).
Proof. destruct r; [apply calls_if_ret|apply calls_if_throw]. Qed.

Lemma calls_if_try {X} (e : E (result X)) : (∀ x, G (Ev e x) → P (Ev e x)) → calls_if (sys_try e).
Proof. intros H. apply calls_if_call. eauto using calls_if_of_result. Qed.

Lemma calls_if_each {A} (l : list A) f : Forall (λ x, calls_if (f x)) l → calls_if (for_each l f).
Proof. induction 1; cbn; [by intros _|]. by apply calls_if_bind. Qed.

Lemma calls_if_catch {A} (p : prog St R E A) h : calls_if p → (∀ e, calls_if (h e)) → calls_if (catch p h).
Proof.
  unfold calls_if. rewrite wp_catch. intros Hp Hf. eapply wp_mono, Hp. intros tr [a|e] Htr; [done|].
  eapply wp_mono, Hf. intros tr' r' Htr'. rewrite !Forall_app. naive_solver.
Qed.
End CallsIf.

Create HintDb calls_if discriminated.
#[export] Hint Resolve @calls_if_ret @calls_if_throw @calls_if_bind @calls_if_of_result : calls_if.

(** ** Writing below a directory only *)

(** [readdir] gives names of entries. *)
Definition lists_names (ev : event fileE) : Prop :=
  match ev with
  | @Ev _ X e x => match e in fileE X return X → Prop with
                   | FReaddir _ => λ r, match r with Ok l => Forall (λ nk, plain_seg nk.1) l | Err _ => True end
                   | _ => λ _, True
                   end x
  end.

(** What is written or made is the directory [d] or lies below it; commands run there or in [root]. *)
Definition stays_in (root d : string) (ev : event fileE) : Prop :=
  match ev with
  | @Ev _ X e x => match e with
                   | FWrite p _ | FMkdir p | FCopy _ p | FRemove p => p = d ∨ lies_below d p
                   | FSpawn _ _ c => c = d ∨ c = root
                   | _ => True
                   end
  end.

Section Stays.
Variable type_error syntax_error : exn.
Variable scaffolders_dir cwd : string.
Variable d : list string.
Hypothesis d_plain : Forall plain_seg d.
Hypothesis d_somewhere : d ≠ [].

Abbreviation ROOT_DIR := (ROOT_DIR scaffolders_dir).
Abbreviation target := (abs_path d).
Abbreviation stays := (calls_if (St := unit) (R := unit) lists_names (stays_in ROOT_DIR target)).

(** The paths of a target. *)
Lemma join_below l p : Forall plain_seg l → l ≠ [] → p = path_join [target; JsStr.join "/" l] → lies_below target p.
Proof. intros Hl Hne ->. rewrite path_join_segs by done. apply below_segs; [by apply Forall_app|done..]. Qed.

Lemma join_below_one n : plain_seg n → lies_below target (path_join [target; n]).
Proof. intros Hn. by apply (join_below [n]); [by constructor|..]. Qed.

Lemma join_below_two a b : plain_seg a → plain_seg b → lies_below target (path_join [target; a; b]).
Proof.
  intros Ha Hb. apply (join_below [a; b]); [by repeat apply List.Forall_cons|done|]. rewrite path_join_three; [done|done|apply Ha|apply Hb].
Qed.

Lemma stays_exists p : stays (sys (FExists p)).
Proof. by apply calls_if_sys. Qed.

Lemma stays_read p : stays (readFile p).
Proof. by apply calls_if_try. Qed.

Lemma stays_write p t : p = target ∨ lies_below target p → stays (writeFile p t).
Proof. intros Hp. by apply calls_if_try. Qed.

Lemma stays_mkdir p : p = target ∨ lies_below target p → stays (mkdir p).
Proof. intros Hp. by apply calls_if_try. Qed.

Lemma stays_command c args dir : dir = target ∨ dir = ROOT_DIR → stays (run_command c args dir).
Proof. intros Hd. apply calls_if_bind; [by apply calls_if_try|]. intros x. destruct (Z.eqb x 0); auto with calls_if. Qed.

#[local] Hint Resolve stays_exists stays_read stays_write stays_mkdir stays_command : calls_if.
#[local] Hint Extern 1 (_ = _ ∨ _) => first [by left|by right] : calls_if.

(** Follows the branches of a program. *)
Ltac stays_tac := repeat first
  [ solve [auto with calls_if]
  | apply calls_if_bind; [|intros ?]
  | match goal with |- calls_if _ _ (if ?b then _ else _) => destruct b end
  | match goal with |- calls_if _ _ (match ?x with _ => _ end) => destruct x end ].

Lemma stays_ensureTargetDir : stays (ensureTargetDir target).
Proof. unfold ensureTargetDir, ensureEmptyDir. stays_tac. by apply calls_if_try. Qed.

Lemma stays_ensureTemplates : stays (ensureTemplates scaffolders_dir).
Proof. unfold ensureTemplates. stays_tac. Qed.

Lemma stays_readJson p : stays (readJson syntax_error p).
Proof. unfold readJson. stays_tac. Qed.

#[local] Hint Resolve stays_ensureTargetDir stays_ensureTemplates stays_readJson : calls_if.

Lemma stays_runQaInit dir kind tailwind : stays (runQaInit scaffolders_dir dir kind tailwind).
Proof. unfold runQaInit. stays_tac. Qed.

Lemma stays_install : stays (runWorkspaceInstall scaffolders_dir).
Proof. unfold runWorkspaceInstall. stays_tac. Qed.

Lemma stays_bun_create type dir : stays (bun_create scaffolders_dir cwd type dir).
Proof. unfold bun_create. stays_tac. Qed.

Lemma stays_updatePackageName : stays (updatePackageName type_error syntax_error scaffolders_dir cwd target).
Proof.
  unfold updatePackageName, resolveProjectName, writeJson. stays_tac. apply stays_write. right. by apply join_below_one.
Qed.

#[local] Hint Resolve stays_runQaInit stays_install stays_bun_create stays_updatePackageName : calls_if.

Lemma stays_template type kind tailwind install :
  stays (scaffold_template type_error syntax_error scaffolders_dir cwd type kind tailwind target install).
Proof. unfold scaffold_template. stays_tac. Qed.

Lemma stays_ink tui : stays (applyInkTui type_error syntax_error target tui).
Proof.
  unfold applyInkTui, ensureInkDeps, ensureTsconfigForInk, writeInkFiles, writeInkEntrypoint, writeInkTests, write_if_there, writeJson.
  stays_tac; apply stays_write; right; first [by apply join_below_one|by apply join_below_two].
Qed.

#[local] Hint Resolve stays_ink : calls_if.

Lemma stays_cli tui install : stays (scaffoldCli type_error syntax_error scaffolders_dir cwd tui target install).
Proof. unfold scaffoldCli. stays_tac. Qed.

Lemma find_existing_calls {A} l (f : option string → F A) : (∀ p, p ∈ l → stays (f (Some p))) → stays (f None) →
  stays (bind (find_existing l) f).
Proof.
  induction l as [|p l IH]; intros Hf Hn; [done|]. cbn [find_existing]. apply calls_if_call. intros x _. split; [done|].
  destruct x; [apply (Hf p); set_solver|]. apply IH; [|done]. intros q Hq. apply Hf. set_solver.
Qed.

Lemma app_candidates_below p : p ∈ app_candidates target → lies_below target p.
Proof.
  unfold app_candidates. rewrite !elem_of_cons, elem_of_nil.
  intros H. destruct_or! H; subst p; rewrite path_join_three by done.
  - by apply (join_below ["src"; "App.tsx"]); [repeat constructor; by vm_compute|..].
  - by apply (join_below ["src"; "App.jsx"]); [repeat constructor; by vm_compute|..].
  - by apply (join_below ["src"; "app.tsx"]); [repeat constructor; by vm_compute|..].
  - by apply (join_below ["src"; "app.jsx"]); [repeat constructor; by vm_compute|..].
Qed.

Lemma stays_app_content : stays (updateWebAppContent target).
Proof.
  apply find_existing_calls; [|apply calls_if_throw]. intros p Hp. apply stays_write. right. by apply app_candidates_below.
Qed.

(** A copy goes below the directory it starts at. *)
Lemma stays_copy fuel source l : Forall plain_seg l → l ≠ [] → stays (copyTemplateDir fuel source (abs_path (d ++ l))).
Proof.
  revert source l. induction fuel as [|fuel IH]; intros source l Hl Hne; cbn [copyTemplateDir]; [apply calls_if_ret|].
  apply calls_if_bind; [apply stays_mkdir; right; apply below_segs; [by apply Forall_app|done..]|]. intros _.
  apply calls_if_call. intros x Hx. split; [done|]. destruct x as [entries|e]; [|apply calls_if_throw]. cbn in Hx |- *.
  apply calls_if_each. eapply Forall_impl; [exact Hx|]. intros [name kind] Hn. cbn in Hn.
  assert (E : path_join [abs_path (d ++ l); name] = abs_path (d ++ l ++ [name])).
  { rewrite app_assoc. by apply (path_join_segs (d ++ l) [name]); [by apply Forall_app|by constructor|destruct d|]. }
  destruct kind; [| |apply calls_if_ret]; rewrite E.
  - apply IH; [by apply Forall_app; split; [|constructor]|by destruct l].
  - apply calls_if_try. intros r _. right. apply below_segs; [|done|by destruct l].
    apply Forall_app. split; [done|]. by apply Forall_app; split; [|constructor].
Qed.

Lemma stays_tests fuel : stays (applyWebTemplateTests scaffolders_dir fuel target).
Proof.
  unfold applyWebTemplateTests. stays_tac. change (path_join [target; "tests"]) with (path_join [target; JsStr.join "/" ["tests"]]).
  assert (Ht : Forall plain_seg ["tests"]) by (repeat constructor; by vm_compute).
  rewrite path_join_segs by done. by apply stays_copy.
Qed.

#[local] Hint Resolve stays_app_content stays_tests : calls_if.

Lemma stays_web fuel install : stays (scaffoldWeb type_error syntax_error scaffolders_dir cwd fuel target install).
Proof. unfold scaffoldWeb. stays_tac. by apply calls_if_sys. Qed.

Lemma stays_scaffold fuel type tui install : stays (scaffold type_error syntax_error scaffolders_dir cwd fuel type tui target install).
Proof.
  destruct type; cbn [scaffold]; [apply stays_web|apply stays_template|apply stays_cli|apply stays_template|apply stays_template].
Qed.
End Stays.

Section Main.
Variable type_error syntax_error : exn.
Variable scaffolders_dir cwd : string.
Hypothesis root_somewhere : root_segs scaffolders_dir ≠ [].

Abbreviation ROOT_DIR := (ROOT_DIR scaffolders_dir).

Lemma default_root_plain t : plain_seg (default_root t).
Proof. destruct t; by vm_compute. Qed.

(** C38: Creating a package touches nothing else: whatever the arguments and the answers of the system, there is one
    directory strictly inside the repository such that every file written or copied and every directory made is it or
    lies below it, and every command starts in it or in the repository. A name like [../x], an absolute path or a
    name with [..] in the middle cannot lead out. *)
Theorem new_package_stays fuel args tr r :
  runs (new_package type_error syntax_error scaffolders_dir cwd fuel args) tr r → Forall lists_names tr →
  ∃ d, lies_below ROOT_DIR d ∧ Forall (stays_in ROOT_DIR d) tr.
Proof.
  intros Hr Hn. assert (∃ d, lies_below ROOT_DIR d ∧
    calls_if lists_names (stays_in ROOT_DIR d) (new_package type_error syntax_error scaffolders_dir cwd fuel args)) as (d & Hd & H);
    [|exists d; split; [done|]; unfold calls_if in H; rewrite wp_runs in H; by eapply H].
  clear Hr Hn. assert (Hp := root_plain scaffolders_dir).
  assert (Hany : ∃ d, lies_below ROOT_DIR d) by (exists (abs_path (root_segs scaffolders_dir ++ ["x"])); apply below_segs;
    [apply Forall_app; split; [done|]; by repeat constructor|done..]).
  assert (Hlog : ∀ d e, calls_if lists_names (stays_in ROOT_DIR d) (sys (FError (exn_message e)) ;;! Ret 1 : F Z)).
  { intros d e. apply calls_if_bind; [by apply calls_if_sys|]. intros _. apply calls_if_ret. }
  assert (Hmain : ∃ d, lies_below ROOT_DIR d ∧
    calls_if lists_names (stays_in ROOT_DIR d) (main type_error syntax_error scaffolders_dir cwd fuel args)).
  { destruct Hany as [x Hx]. assert (Hquit : calls_if lists_names (stays_in ROOT_DIR x) (sys (FLog new_usage) ;;! Ret 1 : F Z)).
    { apply calls_if_bind; [by apply calls_if_sys|]. intros _. apply calls_if_ret. }
    destruct args as [|[|c typeArg] rest]; [by exists x..|]. cbn [main].
    destruct (parse_type _) as [type|]; [|exists x; split; [done|apply calls_if_throw]]. destruct (parse_rest rest no_args) as [a|e]; [|exists x; split; [done|apply calls_if_throw]].
    cbn [of_result bind]. destruct (resolveTarget _ _ _) as [d|e] eqn:E; [|exists x; split; [done|apply calls_if_throw]].
    apply resolveTarget_segs in E as (t & Hne & Ht & ->); [|done|apply default_root_plain].
    exists (abs_path (root_segs scaffolders_dir ++ t)). split; [by apply below_segs|]. cbn [of_result bind].
    destruct (negb _ && _); [apply calls_if_throw|]. apply calls_if_bind; [apply stays_scaffold; [done|by destruct (root_segs _)]|].
    intros _. apply calls_if_bind; [by apply calls_if_sys|]. intros _. apply calls_if_ret. }
  destruct Hmain as (d & Hd & Hm). exists d. split; [done|]. by apply calls_if_catch.
Qed.
End Main.

(** ** Runs *)

Section Refuses.
Variable io_error : string → exn.
Variable readdir : store → string → list (string * entry_type).
Variable spawn : string → list string → string → store → store * result Z.
Variable type_error syntax_error : exn.
Variable scaffolders_dir cwd : string.

Abbreviation run := (run io_error readdir spawn).
Abbreviation ROOT_DIR := (ROOT_DIR scaffolders_dir).

(** What the arguments ask for. *)
Definition asked (type : app_type) (rest : list string) : result (string * new_args) :=
  let? a := parse_rest rest no_args in
  let? d := resolveTarget scaffolders_dir (default (type_name type) (head (na_positional a))) (default_root type) in
  if negb (bool_decide (type = AppCli)) && bool_decide (is_Some (na_tui a))
  then Err (JsError "--tui is only supported for `bun new cli`") else Ok (d, a).

Lemma run_main fuel typeArg rest type s : typeArg ≠ "" → parse_type typeArg = Some type →
  run (main type_error syntax_error scaffolders_dir cwd fuel (typeArg :: rest)) s =
  match asked type rest with
  | Ok (d, a) => run (scaffold type_error syntax_error scaffolders_dir cwd fuel type (na_tui a) d (na_install a) ;;!
                      sys (FLog ("Created " +:+ type_name type +:+ " app at " +:+ d)) ;;! Ret 0) s
  | Err e => (s, Err e)
  end.
Proof.
  intros Hne Ht. unfold main, asked. destruct typeArg as [|c t]; [done|]. rewrite Ht, run_bind, run_of_result.
  destruct (parse_rest rest no_args) as [a|e]; [|done]. rewrite run_bind, run_of_result. cbn [rbind].
  destruct (resolveTarget _ _ _) as [d|e]; [|done]. cbn [rbind]. by destruct (negb _ && _).
Qed.

Lemma ensureEmptyDir_full d s : path_exists s d = true → d ∈ dirs s → readdir s d ≠ [] →
  run (ensureEmptyDir d) s = (s, Err (JsError ("Target directory is not empty: " +:+ d))).
Proof.
  intros He Hd Hne. unfold ensureEmptyDir. rewrite run_bind, run_sys. cbn [answer fst snd]. rewrite He. cbn [negb].
  rewrite run_bind, run_sys_try. cbn [answer]. rewrite decide_True by done. by destruct (readdir s d).
Qed.

(** A directory with entries is left as it is: the run says so and ends before anything else. *)
Lemma new_package_refuses fuel typeArg rest type d a s : typeArg ≠ "" → parse_type typeArg = Some type → asked type rest = Ok (d, a) →
  d ∈ dirs s → readdir s d ≠ [] →
  run (new_package type_error syntax_error scaffolders_dir cwd fuel (typeArg :: rest)) s =
  (print_line ("Target directory is not empty: " +:+ d) s, Ok 1).
Proof.
  intros Hne Ht Ha Hd Hr. unfold new_package. rewrite run_catch, (run_main _ _ _ type), Ha, run_bind by done.
  assert (path_exists s d = true) as He by (unfold path_exists; apply orb_true_iff; right; by apply bool_decide_eq_true).
  assert (∃ k, scaffold type_error syntax_error scaffolders_dir cwd fuel type (na_tui a) d (na_install a) = bind (ensureTargetDir d) k)
    as (k & ->) by (destruct type; eexists; reflexivity).
  unfold ensureTargetDir. rewrite !run_bind, ensureEmptyDir_full by done. done.
Qed.
End Refuses.

(** ** Copies *)

Section Copy.
Variable io_error : string → exn.
Variable listing : string → list (string * entry_type).
Variable spawn : string → list string → string → store → store * result Z.

Abbreviation run := (run io_error (λ _, listing) spawn).

(** The tree below the directory [src] has at most [n] levels, and its files are there. *)
Fixpoint tree_ok (n : nat) (s : store) (src : list string) : Prop :=
  match n with
  | O => False
  | S n => abs_path src ∈ dirs s ∧ NoDup (map fst (listing (abs_path src))) ∧
           Forall (λ nk, plain_seg nk.1 ∧ match nk.2 with
                                         | EntryDir => tree_ok n s (src ++ [nk.1])
                                         | EntryFile => is_Some (files s !! abs_path (src ++ [nk.1]))
                                         | EntryOther => True
                                         end) (listing (abs_path src))
  end.

(** Its files, by the names that lead to them. *)
Fixpoint files_below (n : nat) (src : list string) : list (list string) :=
  match n with
  | O => []
  | S n => flat_map (λ nk, match nk.2 with
                           | EntryDir => map (cons nk.1) (files_below n (src ++ [nk.1]))
                           | EntryFile => [[nk.1]]
                           | EntryOther => []
                           end) (listing (abs_path src))
  end.

Definition region (d : list string) (p : string) : Prop := ∃ l, Forall plain_seg l ∧ p = abs_path (d ++ l).

Definition free (s : store) (d : list string) : Prop := ∀ p, region d p → p ∉ dirs s ∧ files s !! p = None.

Definition same_at (s s' : store) (p : string) : Prop := files s' !! p = files s !! p ∧ (p ∈ dirs s' ↔ p ∈ dirs s).

Definition apart (a b : list string) : Prop := ∀ l l', a ++ l ≠ b ++ l'.

Lemma region_apart a b p : Forall plain_seg a → Forall plain_seg b → apart a b → region a p → ¬ region b p.
Proof.
  intros Ha Hb Hab (l & Hl & ->) (l' & Hl' & E%abs_path_inj); [|by apply Forall_app..]. by apply (Hab l l').
Qed.

Lemma apart_names d a b : a ≠ b → apart (d ++ [a]) (d ++ [b]).
Proof. intros Hab l l' E. rewrite <- !app_assoc in E. simplify_list_eq. Qed.

Lemma apart_app a b x y : apart a b → apart (a ++ x) (b ++ y).
Proof. intros H l l' E. rewrite <- !app_assoc in E. by apply H in E. Qed.

Lemma region_app d x p : Forall plain_seg x → region (d ++ x) p → region d p.
Proof. intros Hx (l & Hl & ->). exists (x ++ l). rewrite app_assoc. split; [by apply Forall_app|done]. Qed.

Lemma tree_ok_same n s s' src : Forall plain_seg src → (∀ p, region src p → same_at s s' p) → tree_ok n s src → tree_ok n s' src.
Proof.
  revert src. induction n as [|n IH]; intros src Hs Hsame; [done|]. cbn [tree_ok]. intros (Hd & Hnd & Hl).
  split_and!; [apply Hsame; [exists []; by rewrite app_nil_r|done]|done|]. eapply Forall_impl; [exact Hl|].
  intros [name kind] [Hn H]; cbn in *. split; [done|]. destruct kind; [|..|done].
  - apply IH; [by apply Forall_app; split; [|constructor]| |done]. intros p Hp. apply Hsame.
    eapply region_app; [|exact Hp]. by constructor.
  - assert (same_at s s' (abs_path (src ++ [name]))) as [-> _]; [|done]. apply Hsame. exists [name]. by split; [constructor|].
Qed.

(** What a copy of the tree [src] to the free place [tgt] does. *)
Definition copied (n : nat) (src tgt : list string) (s s' : store) : Prop :=
  (∀ l, l ∈ files_below n src → files s' !! abs_path (tgt ++ l) = files s !! abs_path (src ++ l)) ∧
  (∀ p, ¬ region tgt p → same_at s s' p).

(** One entry. *)
Definition entry_copied (n : nat) (src tgt : list string) (nk : string * entry_type) (s s' : store) : Prop :=
  match nk.2 with
  | EntryDir => ∀ l, l ∈ files_below n (src ++ [nk.1]) → files s' !! abs_path (tgt ++ nk.1 :: l) = files s !! abs_path (src ++ nk.1 :: l)
  | EntryFile => files s' !! abs_path (tgt ++ [nk.1]) = files s !! abs_path (src ++ [nk.1])
  | EntryOther => True
  end.

Lemma same_trans s1 s2 s3 p : same_at s1 s2 p → same_at s2 s3 p → same_at s1 s3 p.
Proof. unfold same_at. intros [-> H1] [-> H2]. naive_solver. Qed.

(** The body of the loop. *)
Definition entry_body (n : nat) (src tgt : list string) (nk : string * entry_type) : F unit :=
  let '(name, kind) := nk in
  let sourcePath := path_join [abs_path src; name] in
  let targetPath := path_join [abs_path tgt; name] in
  match kind with
  | EntryDir => copyTemplateDir n sourcePath targetPath
  | EntryFile => sys_try (FCopy sourcePath targetPath)
  | EntryOther => Ret tt
  end.

Definition copies_at (n : nat) : Prop := ∀ src tgt s, Forall plain_seg src → Forall plain_seg tgt → src ≠ [] → tgt ≠ [] → apart src tgt →
  tree_ok n s src → free s tgt → ∃ s', run (copyTemplateDir n (abs_path src) (abs_path tgt)) s = (s', Ok tt) ∧ copied n src tgt s s'.

Definition entry_ok (n : nat) (s : store) (src : list string) (nk : string * entry_type) : Prop :=
  plain_seg nk.1 ∧ match nk.2 with
                   | EntryDir => tree_ok n s (src ++ [nk.1])
                   | EntryFile => is_Some (files s !! abs_path (src ++ [nk.1]))
                   | EntryOther => True
                   end.

Lemma files_below_plain n s src l : tree_ok n s src → l ∈ files_below n src → Forall plain_seg l.
Proof.
  revert src l. induction n as [|n IH]; intros src l; [done|]. cbn [tree_ok files_below]. intros (_ & _ & Hl).
  rewrite list_elem_of_In, in_flat_map. intros ([name kind] & Hin%list_elem_of_In & Hk). rewrite Forall_forall in Hl.
  destruct (Hl _ Hin) as [Hn H]. cbn in *. destruct kind; cbn in Hk.
  - apply in_map_iff in Hk as (l' & <- & Hl'%list_elem_of_In). constructor; [done|]. by eapply IH.
  - destruct Hk as [<-|[]]. by constructor.
  - done.
Qed.
Section Entries.
Context (n : nat) (src tgt : list string).
Context (Hsrc : Forall plain_seg src) (Htgt : Forall plain_seg tgt) (Hsne : src ≠ []) (Htne : tgt ≠ []) (Hapart : apart src tgt).
Hypothesis IH : copies_at n.

Lemma copy_entry nk s : entry_ok n s src nk → free s (tgt ++ [nk.1]) →
  ∃ s', run (entry_body n src tgt nk) s = (s', Ok tt) ∧ entry_copied n src tgt nk s s' ∧
    (∀ p, ¬ region (tgt ++ [nk.1]) p → same_at s s' p).
Proof.
  destruct nk as [name kind]. intros [Hn H] Hfree. cbn [fst snd] in *.
  assert (Hn' : Forall plain_seg [name]) by by constructor. unfold entry_body.
  change [abs_path src; name] with [abs_path src; JsStr.join "/" [name]]. change [abs_path tgt; name] with [abs_path tgt; JsStr.join "/" [name]].
  rewrite !path_join_segs by done. destruct kind.
  - destruct (IH (src ++ [name]) (tgt ++ [name]) s) as (s' & Hrun & Hf & Hs); try done; try by apply Forall_app.
    + by destruct src.
    + by destruct tgt.
    + by apply apart_app.
    + exists s'. split_and!; [done| |done]. intros l Hl. specialize (Hf l Hl). by rewrite <- !app_assoc in Hf.
  - destruct H as [text Ht]. rewrite run_sys_try. cbn [answer]. rewrite Ht.
    destruct (Hfree (abs_path (tgt ++ [name]))) as [Hd _]; [exists []; by rewrite app_nil_r|]. rewrite decide_False by done.
    eexists. split_and!; [done|cbn; by rewrite lookup_insert_eq|]. intros p Hp. split; [|done]. cbn. apply lookup_insert_ne.
    intros <-. apply Hp. exists []. by rewrite app_nil_r.
  - exists s. split_and!; done.
Qed.

Lemma entry_ok_same s s' nk : entry_ok n s src nk → (∀ p, region src p → same_at s s' p) → entry_ok n s' src nk.
Proof.
  destruct nk as [name kind]. intros [Hn H] Hsame. cbn in *. split; [done|]. destruct kind; [|..|done]; cbn in *.
  - eapply tree_ok_same; [by apply Forall_app; split; [|constructor]| |exact H]. intros p Hp. apply Hsame. eapply region_app; [|exact Hp]. by constructor.
  - destruct (Hsame (abs_path (src ++ [name]))) as [-> _]; [|done]. exists [name]. by split; [constructor|].
Qed.

(** What was copied of one entry stays while the others are. *)
Lemma entry_copied_keeps nk s0 s s' : entry_ok n s0 src nk → (∀ p, region (tgt ++ [nk.1]) p → same_at s s' p) →
  entry_copied n src tgt nk s0 s → entry_copied n src tgt nk s0 s'.
Proof.
  destruct nk as [name kind]. intros [Hn H] Hsame. destruct kind; [| |done]; cbn in *; unfold entry_copied; cbn.
  - intros Hc l Hl. rewrite <- Hc by done. apply Hsame. exists l. rewrite <- app_assoc.
    split; [by eapply files_below_plain|done].
  - intros <-. apply Hsame. exists []. by rewrite app_nil_r.
Qed.
(** The sources may be those of a later moment. *)
Lemma entry_copied_from nk s0 s s' : entry_ok n s0 src nk → (∀ p, region src p → same_at s0 s p) →
  entry_copied n src tgt nk s s' → entry_copied n src tgt nk s0 s'.
Proof.
  destruct nk as [name kind]. intros [Hn H] Hsame. destruct kind; [| |done]; cbn in *; unfold entry_copied; cbn.
  - intros Hc l Hl. rewrite Hc by done. apply Hsame. exists (name :: l). split; [|done].
    constructor; [done|]. by eapply files_below_plain.
  - intros ->. apply Hsame. exists [name]. by split; [constructor|].
Qed.

Lemma copy_entries es s : Forall (entry_ok n s src) es → NoDup (map fst es) → Forall (λ nk, free s (tgt ++ [nk.1])) es →
  ∃ s', run (for_each es (entry_body n src tgt)) s = (s', Ok tt) ∧ Forall (λ nk, entry_copied n src tgt nk s s') es ∧
    (∀ p, Forall (λ nk, ¬ region (tgt ++ [nk.1]) p) es → same_at s s' p).
Proof.
  revert s. induction es as [|nk es IHes]; intros s; [by exists s|]. intros [Hok Hoks]%Forall_cons.
  cbn [map]. intros [Hnin Hnd]%NoDup_cons [Hf Hfs]%Forall_cons.
  destruct (copy_entry nk s Hok Hf) as (s1 & Hrun & Hc & Hs1).
  assert (Hplain : Forall plain_seg (tgt ++ [nk.1])) by (apply Forall_app; split; [done|constructor; [apply Hok|done]]).
  assert (Hsrc1 : ∀ p, region src p → same_at s s1 p).
  { intros p Hp. apply Hs1. eapply region_apart; [exact Hsrc|done| |exact Hp]. rewrite <- (app_nil_r src). by apply apart_app. }
  assert (Hother : ∀ nk', nk' ∈ es → plain_seg nk'.1 → ∀ p, region (tgt ++ [nk'.1]) p → ¬ region (tgt ++ [nk.1]) p).
  { intros nk' Hin Hn' p. apply region_apart; [by apply Forall_app; split; [|constructor]|done|]. apply apart_names.
    intros E. apply Hnin. rewrite <- E. by apply list_elem_of_fmap_2. }
  rewrite Forall_forall in Hoks, Hfs.
  destruct (IHes s1) as (s' & Hrun' & Hcs & Hs').
  - apply Forall_forall. intros nk' Hin. eapply entry_ok_same; eauto.
  - done.
  - apply Forall_forall. intros nk' Hin p Hp. destruct (Hs1 p) as [-> Hd]; [eapply Hother; eauto; by apply Hoks|]. rewrite Hd. by apply (Hfs nk').
  - exists s'. cbn [for_each]. rewrite run_bind, Hrun. split_and!; [done| |].
    + constructor.
      * eapply (entry_copied_keeps _ _ s1); [done| |done]. intros p Hp. apply Hs'. apply Forall_forall. intros nk' Hin Hp'.
        by eapply Hother; [|apply Hoks| |].
      * rewrite Forall_forall in Hcs. apply Forall_forall. intros nk' Hin. eapply entry_copied_from; eauto.
    + intros p [Hp Hps]%Forall_cons. eapply same_trans; eauto.
Qed.
End Entries.

(** With fuel for its levels the copy ends well, and every file of the tree is in the other one. *)
Lemma copyTemplateDir_copies n : copies_at n.
Proof.
  induction n as [|n IH]; intros src tgt s Hsrc Htgt Hsne Htne Hapart; [done|]. cbn [tree_ok]. intros (Hd & Hnd & Hoks) Hfree.
  cbn [copyTemplateDir]. destruct (Hfree (abs_path tgt)) as [Htd Htf]; [exists []; by rewrite app_nil_r|].
  unfold mkdir. rewrite run_bind, run_sys_try. cbn [answer]. rewrite decide_False by (rewrite Htf; by intros [? ?]).
  set (s1 := s <| dirs := {[abs_path tgt]} ∪ dirs s |>). rewrite run_bind, run_sys_try. cbn [answer].
  rewrite decide_True by (cbn; set_solver).
  assert (Hs1 : ∀ p, p ≠ abs_path tgt → same_at s s1 p) by (intros p Hp; split; [done|]; cbn; set_solver).
  assert (Hne : ∀ name, plain_seg name → ∀ p, region (tgt ++ [name]) p → p ≠ abs_path tgt).
  { intros name Hn p (l & Hl & ->) E. rewrite <- (app_nil_r tgt) in E at 2. rewrite <- app_assoc in E.
    apply abs_path_inj in E; [|by repeat (apply Forall_app; split; [done|]); try constructor..]. by apply app_inv_head in E. }
  assert (Hsrc1 : ∀ p, region src p → same_at s s1 p).
  { intros p Hp. apply Hs1. intros ->. eapply (region_apart src tgt); [done..| |exists []; by rewrite app_nil_r]; done. }
  destruct (copy_entries n src tgt Hsrc Htgt Hsne Htne Hapart IH (listing (abs_path src)) s1) as (s' & Hrun & Hc & Hs').
  - eapply Forall_impl; [exact Hoks|]. intros nk Hok. eapply entry_ok_same; [exact Hsrc|exact Hok|done].
  - done.
  - eapply Forall_impl; [exact Hoks|]. intros [name kind] [Hn _] p Hp. cbn in Hn. destruct (Hs1 p) as [-> Hdd]; [by eapply Hne|].
    rewrite Hdd. apply Hfree. eapply region_app; [|exact Hp]. by constructor.
  - exists s'. split; [exact Hrun|]. split.
    + intros l. cbn [files_below]. rewrite list_elem_of_In, in_flat_map. intros (nk & Hin%list_elem_of_In & Hk).
      rewrite Forall_forall in Hc, Hoks. specialize (Hc nk Hin). destruct (Hoks nk Hin) as [Hn Hnk]. unfold entry_copied in Hc.
      destruct nk as [name []]; cbn in *; [| |done].
      * apply in_map_iff in Hk as (l' & <- & Hl'%list_elem_of_In). rewrite Hc by done. apply Hsrc1.
        exists (name :: l'). split; [|done]. constructor; [done|]. by eapply files_below_plain.
      * destruct Hk as [<-|[]]. by rewrite Hc.
    + intros p Hp. eapply same_trans; [apply Hs1|apply Hs'].
      * intros ->. apply Hp. exists []. by rewrite app_nil_r.
      * eapply Forall_impl; [exact Hoks|]. intros [name kind] [Hn _] Hr. apply Hp. eapply region_app; [|exact Hr]. by constructor.
Qed.

End Copy.

(** ** On concrete arguments *)

Abbreviation ex_new := (new_package (JsError "TypeError") (JsError "SyntaxError") "/repo/packages/new/scaffolders" "/repo" 9).

(** A system where only the templates exist and every command succeeds. *)
Definition ex_system : oracle unit unit fileE :=
  {| o_sys := λ X n e, match e in fileE X return X with
                       | FCwd => "/repo" | FEnv _ => None
                       | FExists p => String.eqb p "/repo/.bun-create"
                       | FRead p => Err (JsError p)
                       | FWrite _ _ | FMkdir _ | FRemove _ | FCopy _ _ => Ok tt
                       | FReaddir _ => Ok []
                       | FSpawn _ _ _ => Ok 0
                       | FLog _ | FError _ => tt
                       end;
     o_state := tt; o_await := λ _, Ok tt |}.

Lemma new_package_stays_witness : ∃ d, lies_below "/repo" d ∧ Forall (stays_in "/repo" d) (fst (exec ex_system 0 (ex_new ["cli"; "x/../tool"; "--tui"]))).
Proof.
  apply (new_package_stays (JsError "TypeError") (JsError "SyntaxError") "/repo/packages/new/scaffolders" "/repo" ltac:(by vm_compute) 9
    ["cli"; "x/../tool"; "--tui"] _ (snd (exec ex_system 0 (ex_new ["cli"; "x/../tool"; "--tui"])))).
  - apply (exec_runs ex_system 0 (ex_new ["cli"; "x/../tool"; "--tui"])).
  - vm_compute. repeat constructor.
Defined.

Example resolve_targets : let root := "/repo/packages/new/scaffolders" in
  resolveTarget root "tool" "packages" = Ok "/repo/packages/tool" ∧ resolveTarget root "apps/site" "packages" = Ok "/repo/apps/site" ∧
  is_ok (resolveTarget root "../tool" "packages") = false ∧ is_ok (resolveTarget root ".." "apps") = false ∧
  is_ok (resolveTarget root "/etc/tool" "apps") = false ∧ is_ok (resolveTarget root "apps/../.." "apps") = false.
Proof. by vm_compute. Qed.

(** A name after [--tui] is taken for its value. *)
Example tui_takes_name :
  parse_rest ["--tui"; "tool"] no_args = Err (JsError "Invalid --tui value: tool") ∧
  parse_rest ["tool"; "--tui"] no_args = Ok {| na_install := true; na_tui := Some TuiInk; na_positional := ["tool"] |} ∧
  parse_rest ["--tui"; "fullscreen"; "tool"] no_args = Ok {| na_install := true; na_tui := Some TuiFullscreen; na_positional := ["tool"] |}.
Proof. by vm_compute. Qed.

Example package_names : let root := "/repo/packages/new/scaffolders" in
  resolvePackageName root "/repo" "/repo/packages/ui/neon" = "ui-neon" ∧ resolvePackageName root "/repo" "/repo/tools/x" = "tools-x".
Proof. by vm_compute. Qed.
