(* ===== verification/Install.v ===== *)
(** * The scripts of the installation

    scripts/postinstall.ts (the names of the packages follow the directory), packages/cli/scripts/postinstall.ts,
    packages/new/scripts/web-postinstall.ts and the script of the template for web applications
    (packages/new/templates/web/scripts/postinstall.ts). Calls that a script starts together are made one after the
    other. *)

From S2P Require Export Scaffold.

Local Open Scope string_scope.
Local Open Scope Z_scope.
Local Open Scope list_scope.

(** ** Texts *)

(** [s.split(from).join(to)] of a text [from] that is not empty: what is left of an occurrence is skipped. *)
Fixpoint replace_from (from to : string) (skip : nat) (s : string) : string :=
  match s with
  | EmptyString => ""
  | String c s' =>
      match skip with
      | S skip => replace_from from to skip s'
      | O => if starts_with from s then to +:+ replace_from from to (String.length from - 1) s'
             else String c (replace_from from to 0 s')
      end
  end.

Definition replace_all (from to s : string) : string := replace_from from to 0 s.

(** Patterns: a text, [\s*], [\s+], one of some characters, and a character or none. *)
Inductive pat : Type := PText (s : string) | PSpace | PSpace1 | POne (l : list ascii) | POpt (c : ascii).

(** What follows a match at the start of the text. No space or optional character can be given back to what follows it in
    the patterns used. *)
Fixpoint match_here (ps : list pat) (s : string) : option string :=
  match ps with
  | [] => Some s
  | PText t :: ps => if starts_with t s then match_here ps (str_drop (String.length t) s) else None
  | PSpace :: ps => match_here ps (drop_while is_ws s)
  | PSpace1 :: ps => match s with String c s' => if is_ws c then match_here ps (drop_while is_ws s') else None | _ => None end
  | POne l :: ps => match s with String c s' => if existsb (Ascii.eqb c) l then match_here ps s' else None | _ => None end
  | POpt c :: ps => match s with String d s' => match_here ps (if Ascii.eqb c d then s' else s) | _ => match_here ps s end
  end.

(** The text before the first match and after it. *)
Fixpoint first_match (ps : list pat) (s : string) : option (string * string) :=
  match match_here ps s with
  | Some rest => Some ("", rest)
  | None => match s with
            | EmptyString => None
            | String c s' => '(before, rest) ← first_match ps s'; Some (String c before, rest)
            end
  end.

Definition pat_test (ps : list pat) (s : string) : bool := match first_match ps s with Some _ => true | None => false end.

(** [s.replace(regex, by)] *)
Definition pat_replace (ps : list pat) (by_ s : string) : string :=
  match first_match ps s with Some (before, rest) => before +:+ by_ +:+ rest | None => s end.

Section Install.
(** The errors of the engine, and [import.meta.dir] of the script. *)
Variable type_error syntax_error : exn.
Variable script_dir : string.

Abbreviation read_json := (readJson syntax_error).

(** ** scripts/postinstall.ts *)

Definition repo_dir : string := path_resolve script_dir [".."].

(** [s.replace(/c+/g, c)] *)
Fixpoint squeeze (c : ascii) (s : string) : string :=
  match s with
  | String a ((String b _) as s') => if Ascii.eqb a c && Ascii.eqb b c then squeeze c s' else String a (squeeze c s')
  | _ => s
  end.

Definition name_char (c : ascii) : bool :=
  is_lower c || is_digit c || Ascii.eqb c "-" || Ascii.eqb c "." || Ascii.eqb c "_".

Definition name_lead (c : ascii) : bool := Ascii.eqb c "." || Ascii.eqb c "_" || Ascii.eqb c "-".

Definition sanitizeName (input : string) : string :=
  let lowered := str_map (λ c, if name_char c then c else "-"%char) (to_lower input) in
  let trimmed := squeeze "_" (squeeze "." (squeeze "-" (drop_while name_lead lowered))) in
  if str_truthy trimmed then trimmed else "project".

Definition rename_package (filePath newName : string) : F unit :=
  let! here := sys (FExists filePath) in
  if negb here then Ret tt
  else
    let! pkg := read_json filePath in
    let! name := of_result (read_prop type_error "name" pkg) in
    match name with
    | VStr n => if String.eqb n newName then Ret tt
                else let! pkg := of_result (assign type_error "name" (VStr newName) pkg) in writeJson filePath pkg
    | _ => let! pkg := of_result (assign type_error "name" (VStr newName) pkg) in writeJson filePath pkg
    end.

Definition apply_replacements (replacements : list (string * string)) (contents : string) : string :=
  foldl (λ next '(from, to), if str_truthy from && negb (String.eqb from to) then replace_all from to next else next)
    contents replacements.

Definition replaceInFile (filePath : string) (replacements : list (string * string)) : F unit :=
  let! contents := readFile filePath in
  let next := apply_replacements replacements contents in
  if negb (String.eqb next contents) then writeFile filePath next else Ret tt.

Definition shouldIgnoreDir (name : string) : bool :=
  existsb (String.eqb name) ["node_modules"; ".git"; ".dev"; ".bun-create"; "dist"].

(** [fuel] is the depth of the directories. *)
Fixpoint walk (fuel : nat) (dir : string) (replacements : list (string * string)) : F unit :=
  match fuel with
  | O => Ret tt
  | S fuel =>
      let! entries := sys_try (FReaddir dir) in
      for_each entries (λ '(name, kind),
        let fullPath := path_join [dir; name] in
        match kind with
        | EntryDir => if shouldIgnoreDir name then Ret tt else walk fuel fullPath replacements
        | EntryFile => replaceInFile fullPath replacements
        | EntryOther => Ret tt
        end)
  end.

Definition resolveScopedName (value : val) (fallback : string) : string :=
  match value with
  | VStr s => if starts_with "@" s && includes "/" s then s else fallback
  | _ => fallback
  end.

Definition json_or_empty (filePath : string) : F val :=
  let! here := sys (FExists filePath) in if here : bool then read_json filePath else Ret (VObj []).

Definition install_replacements (oldQa newQa oldCore newCore oldNew newNew : string) : list (string * string) :=
  [(oldQa, newQa)] ++ (if String.eqb oldCore newCore then [] else [(oldCore, newCore)]) ++
  (if String.eqb oldNew newNew then [] else [(oldNew, newNew)]).

Definition install_main (fuel : nat) : F unit :=
  let! cwd := sys FCwd in
  let projectName := sanitizeName (path_basename cwd) in
  let rootPkgPath := path_join [repo_dir; "package.json"] in
  let pkg_path p := path_join [repo_dir; "packages"; p; "package.json"] in
  let! _ := json_or_empty rootPkgPath in
  let! qaPkg := json_or_empty (pkg_path "qa") in
  let! corePkg := json_or_empty (pkg_path "core") in
  let! newPkg := json_or_empty (pkg_path "new") in
  let! qaName := of_result (read_prop type_error "name" qaPkg) in
  let oldQaName := resolveScopedName qaName "@merossity/qa" in
  let newQaName := "@" +:+ projectName +:+ "/qa" in
  let! coreName := of_result (read_prop type_error "name" corePkg) in
  let oldCoreName := resolveScopedName coreName "@merossity/core" in
  let newCoreName := "@" +:+ projectName +:+ "/core" in
  let! newName := of_result (read_prop type_error "name" newPkg) in
  let oldNewName := resolveScopedName newName "@merossity/new" in
  let newNewName := "@" +:+ projectName +:+ "/new" in
  rename_package rootPkgPath projectName ;;!
  rename_package (pkg_path "qa") newQaName ;;!
  rename_package (pkg_path "core") newCoreName ;;!
  rename_package (pkg_path "new") newNewName ;;!
  walk fuel repo_dir (install_replacements oldQaName newQaName oldCoreName newCoreName oldNewName newNewName).

(** The exit code of a script whose errors are printed. *)
Definition script (main : F unit) : F Z :=
  catch (main ;;! Ret 0) (λ e, sys (FError (exn_message e)) ;;! Ret 1).

(** ** The dependency on the core (packages/cli, templates/web) *)

(** [{ ...pkg.dependencies }] *)
Definition dependencies_of (pkg : val) : list (string * val) :=
  match prop "dependencies" pkg with VObj o => o | _ => [] end.

Definition add_dependency (name : val) (packageJsonPath : string) : F unit :=
  let! pkg := read_json packageJsonPath in
  let! _ := of_result (read_prop type_error "dependencies" pkg) in
  let dependencies := dependencies_of pkg in
  let key := to_str name in
  if truthy (jget key dependencies ?: VUndef) then Ret tt
  else
    let! pkg := of_result (assign type_error "dependencies" (VObj (jset key (VStr "workspace:*") dependencies)) pkg) in
    writeJson packageJsonPath pkg.

Definition ensureCoreDependency (corePkgPath packageJsonPath : string) : F unit :=
  let! core := sys (FExists corePkgPath) in
  if negb core then Ret tt
  else
    let! here := sys (FExists packageJsonPath) in
    if negb here then Ret tt
    else
      let! corePkg := read_json corePkgPath in
      let! name := of_result (read_prop type_error "name" corePkg) in
      if negb (truthy name) then Ret tt else add_dependency name packageJsonPath.

Definition cli_main : F unit :=
  let PACKAGE_DIR := path_resolve script_dir [".."] in
  let REPO_ROOT := path_resolve PACKAGE_DIR ["../.."] in
  let QA_DIR := path_join [REPO_ROOT; "packages"; "qa"] in
  ensureCoreDependency (path_join [REPO_ROOT; "packages"; "core"; "package.json"]) (path_join [PACKAGE_DIR; "package.json"]) ;;!
  let! here := sys (FExists QA_DIR) in
  if negb here then Ret tt
  else run_command "bun" ["run"; "--cwd"; QA_DIR; "qa:init"; "--dir"; PACKAGE_DIR; "--kind"; "cli"] REPO_ROOT.

(** ** A fresh web application *)

Definition isModuleProject (targetDir : string) : F bool :=
  let pkgPath := path_join [targetDir; "package.json"] in
  let! here := sys (FExists pkgPath) in
  if negb here then Ret false
  else
    catch (let! pkg := read_json pkgPath in
           let! type := of_result (read_prop type_error "type" pkg) in
           Ret (match type with VStr t => String.eqb t "module" | _ => false end))
          (λ _, Ret false).

(** The lines up to the last that starts an import, and the others. *)
Fixpoint split_imports (lines : list string) : list string * list string :=
  match lines with
  | [] => ([], [])
  | line :: lines =>
      let '(head, body) := split_imports lines in
      match head with
      | [] => if starts_with "import " (trim line) then ([line], body) else ([], line :: body)
      | _ => (line :: head, body)
      end
  end.

Definition wrapInAsyncIife (contents : string) : string :=
  let '(head, bodyLines) := split_imports (split_on (chr 10) contents) in
  JsStr.join eol head +:+ eol +:+ eol +:+ "(async () => {" +:+ eol +:+
  JsStr.join eol (map (λ line, "  " +:+ line) bodyLines) +:+ eol +:+
  "})().catch((error) => {" +:+ eol +:+ "  console.error(error instanceof Error ? error.message : error)" +:+ eol +:+
  "  process.exit(1)" +:+ eol +:+ "})" +:+ eol.

Definition updateAppContent (targetDir : string) : F unit :=
  let! appFile := find_existing (app_candidates targetDir) in
  match appFile with None => Ret tt | Some appFile => writeFile appFile app_contents end.

Definition removeExtras (targetDir : string) : F unit :=
  for_each ["APITester.tsx"; "logo.svg"; "react.svg"] (λ n, sys_try (FRemove (path_join [targetDir; "src"; n]))).

(** [/serve\s*\(\s*\{/] *)
Definition serve_call : list pat := [PText "serve"; PSpace; PText "("; PSpace; PText "{"].

(** [/import\s+\{\s*serve\s*\}\s+from\s+['"]bun['"]\s*;?\n?/] *)
Definition serve_import : list pat :=
  [PText "import"; PSpace1; PText "{"; PSpace; PText "serve"; PSpace; PText "}"; PSpace1; PText "from"; PSpace1;
   POne ["'"%char; chr 34]; PText "bun"; POne ["'"%char; chr 34]; PSpace; POpt ";"; POpt (chr 10)].

(** [/const\s+server\s*=\s*serve\s*\(\s*\{/] *)
Definition server_binding : list pat :=
  [PText "const"; PSpace1; PText "server"; PSpace; PText "="; PSpace] ++ serve_call.

Definition control_import : string := "import { serveWithControl } from './dev/serve-with-control'" +:+ eol.

(** The source with the server under control, and whether it awaits at its top. *)
Definition control_source (contents : string) : string :=
  let updated :=
    if pat_test serve_import contents then pat_replace serve_import control_import contents
    else if includes "from './dev/serve-with-control'" contents then contents else control_import +:+ contents in
  if pat_test serve_call contents then pat_replace server_binding "const server = await serveWithControl({" updated else updated.

Definition rewrite_index (targetDir indexPath contents : string) : F unit :=
  let hasServeCall := pat_test serve_call contents in
  if negb (includes "serveWithControl" contents) && negb hasServeCall then Ret tt
  else
    let updated := control_source contents in
    if hasServeCall then
      let! allowsTopLevelAwait := isModuleProject targetDir in
      writeFile indexPath (if negb allowsTopLevelAwait && negb (includes "(async () =>" updated) then wrapInAsyncIife updated else updated)
    else writeFile indexPath updated.

(** *** templates/web/scripts/postinstall.ts *)

Definition template_updateIndex (rootDir : string) : F unit :=
  let indexPath := path_join [rootDir; "src"; "index.ts"] in
  let! here := sys (FExists indexPath) in
  if negb here then Ret tt else let! contents := readFile indexPath in rewrite_index rootDir indexPath contents.

(** The first of the directories whose package.json has workspaces; one that cannot be read has none. *)
Fixpoint findWorkspaceRoot (dirs : list string) : F (option string) :=
  match dirs with
  | [] => Ret None
  | current :: dirs =>
      let pkgPath := path_join [current; "package.json"] in
      let! here := sys (FExists pkgPath) in
      let! found := if here : bool then
                      catch (let! pkg := read_json pkgPath in
                             let! workspaces := of_result (read_prop type_error "workspaces" pkg) in Ret (truthy workspaces))
                            (λ _, Ret false)
                    else Ret false in
      if found : bool then Ret (Some current) else findWorkspaceRoot dirs
  end.

(** This copy looks for the package of the application after it has read that of the core. *)
Definition template_core_dependency (rootDir workspaceRoot : string) : F unit :=
  let corePkgPath := path_join [workspaceRoot; "packages"; "core"; "package.json"] in
  let! core := sys (FExists corePkgPath) in
  if negb core then Ret tt
  else
    let! corePkg := read_json corePkgPath in
    let! name := of_result (read_prop type_error "name" corePkg) in
    if negb (truthy name) then Ret tt
    else
      let packageJsonPath := path_join [rootDir; "package.json"] in
      let! here := sys (FExists packageJsonPath) in
      if negb here then Ret tt else add_dependency name packageJsonPath.

Definition template_main : F unit :=
  let rootDir := path_resolve script_dir [".."] in
  updateAppContent rootDir ;;!
  removeExtras rootDir ;;!
  template_updateIndex rootDir ;;!
  let! workspaceRoot := findWorkspaceRoot (ancestors rootDir) in
  match workspaceRoot with None => Ret tt | Some w => template_core_dependency rootDir w end.

(** *** packages/new/scripts/web-postinstall.ts *)

Definition new_root : string := path_resolve script_dir ["../../.."].

(** The directory of the arguments: that of the last [--dir], which also clears it, or the first name. *)
Fixpoint target_arg (args : list string) (dir : option string) : option string :=
  match args with
  | [] => dir
  | arg :: rest =>
      if String.eqb arg "--dir" then
        match rest with [] => None | d :: rest => target_arg rest (Some d) end
      else if str_truthy arg && negb (starts_with "-" arg) && negb (match dir with Some d => str_truthy d | None => false end)
           then target_arg rest (Some arg)
           else target_arg rest dir
  end.

Definition needsTemplate (contents : string) : bool :=
  let has s := includes s contents in
  (negb (has "applySecurityHeaders") && has "/api/hello" && (has "serve(" || has "serveWithControl(")) ||
  has "new Response(index" ||
  (has "const html = (" && negb (has "const html = async")) ||
  has "import index from './index.html'" ||
  has (dq "import index from ~./index.html~").

Definition template_path (l : list string) : string := path_resolve new_root (["packages"; "new"; "templates"; "web"; "src"] ++ l).

Definition updateIndex (targetDir : string) : F unit :=
  let indexPath := path_join [targetDir; "src"; "index.ts"] in
  let! here := sys (FExists indexPath) in
  if negb here then Ret tt
  else
    let! contents := readFile indexPath in
    if needsTemplate contents then
      let! templateContents := readFile (template_path ["index.ts"]) in writeFile indexPath templateContents
    else rewrite_index targetDir indexPath contents.

Definition ensureHelper (targetDir : string) : F unit :=
  let helperPath := path_join [targetDir; "src"; "dev"; "serve-with-control.ts"] in
  let! here := sys (FExists helperPath) in
  if here : bool then Ret tt
  else
    mkdir (path_dirname helperPath) ;;!
    let! contents := readFile (template_path ["dev"; "serve-with-control.ts"]) in
    writeFile helperPath contents.

Definition web_usage : string := "Usage:
  bun run web-postinstall --dir <path>
  bun run web-postinstall <path>".

(** The exit code; a missing directory ends the process. *)
Definition web_postinstall (args : list string) : F Z :=
  match target_arg args None ≫= nonempty with
  | None => sys (FError "Missing --dir") ;;! sys (FLog web_usage) ;;! Ret 1
  | Some dir =>
      let dir := path_resolve new_root [dir] in
      script (updateAppContent dir ;;! removeExtras dir ;;! ensureHelper dir ;;! updateIndex dir)
  end.
End Install.
