(* ===== verification/InstallSpec.v ===== *)
(** * What the scripts of the installation do to the files

    The names of a repository are settled after one run ([install_settled]); replacing goes over the occurrences of a
    text from the left ([replace_all_first], [replace_all_none]); every file the walk writes is one it read, outside the
    ignored directories, with the names replaced ([walk_writes]). The template's script, which runs at every
    installation, puts the first page back ([template_overwrites]). *)

From S2P Require Export Install.

Local Open Scope string_scope.
Local Open Scope Z_scope.
Local Open Scope list_scope.

(** ** Replacing *)

Lemma replace_from_skip from to a s : replace_from from to (String.length a) (a +:+ s) = replace_all from to s.
Proof. induction a as [|c a IH]; [done|]. exact IH. Qed.

Lemma starts_with_self p s : starts_with p (p +:+ s) = true.
Proof. induction p as [|c p IH]; [done|]. change (String c p +:+ s) with (String c (p +:+ s)). cbn. by rewrite Ascii.eqb_refl. Qed.

Lemma replace_all_here from to s : from ≠ "" → replace_all from to (from +:+ s) = to +:+ replace_all from to s.
Proof.
  destruct from as [|c from]; [done|]. intros _. unfold replace_all. change (String c from +:+ s) with (String c (from +:+ s)).
  cbn [replace_from]. change (String c (from +:+ s)) with (String c from +:+ s). rewrite starts_with_self. f_equal. cbn [String.length].
  rewrite Nat.sub_succ, Nat.sub_0_r. apply replace_from_skip.
Qed.

(** No occurrence starts in the first part. *)
Fixpoint free_before (from a s : string) : bool :=
  match a with EmptyString => true | String c a' => negb (starts_with from (a +:+ s)) && free_before from a' s end.

Lemma replace_all_before from to a s : free_before from a s = true → replace_all from to (a +:+ s) = a +:+ replace_all from to s.
Proof.
  induction a as [|c a IH]; [done|]. cbn [free_before]. intros [Hc%negb_true_iff Ha]%andb_prop. unfold replace_all in *.
  change (String c a +:+ s) with (String c (a +:+ s)) in *. cbn [replace_from]. rewrite Hc, IH by done. done.
Qed.

(** The first occurrence is replaced, and then those after it. *)
Lemma replace_all_first from to a s : from ≠ "" → free_before from a (from +:+ s) = true →
  replace_all from to (a +:+ from +:+ s) = a +:+ to +:+ replace_all from to s.
Proof. intros Hf Ha. rewrite replace_all_before by done. by rewrite replace_all_here. Qed.

Lemma replace_all_none from to s : includes from s = false → replace_all from to s = s.
Proof.
  unfold replace_all. induction s as [|c s IH]; [done|]. cbn [includes]. intros [Hc Hs]%orb_false_iff. cbn [replace_from].
  rewrite Hc. by rewrite IH.
Qed.

(** The same name, or none, is not replaced. *)
Lemma apply_same rs s : Forall (λ r, r.1 = r.2) rs → apply_replacements rs s = s.
Proof.
  unfold apply_replacements. induction rs as [|[a b] rs IH]; [done|]. intros [E Hr]%Forall_cons. cbn in E. subst b. cbn [foldl].
  rewrite String.eqb_refl, andb_false_r. by apply IH.
Qed.

(** ** The walk *)

(** The files the walk may change: below the directory, with no ignored name between. *)
Inductive walk_file : string → string → Prop :=
| wf_here dir name : walk_file dir (path_join [dir; name])
| wf_below dir name p : shouldIgnoreDir name = false → walk_file (path_join [dir; name]) p → walk_file dir p.

Definition is_write (ev : event fileE) : option (string * string) :=
  match ev with @Ev _ X e x => match e with FWrite p text => Some (p, text) | _ => None end end.

(** The text a file was read with. *)
Definition was_read (p contents : string) (ev : event fileE) : Prop := ev = Ev (FRead p) (Ok contents).

Definition rewrites (rs : list (string * string)) (dir : string) (tr : list (event fileE)) : Prop :=
  Forall (λ w, walk_file dir w.1 ∧ ∃ contents, Exists (was_read w.1 contents) tr ∧ w.2 = apply_replacements rs contents ∧ w.2 ≠ contents)
    (omap is_write tr).

Lemma rewrites_app rs dir tr1 tr2 : rewrites rs dir tr1 → rewrites rs dir tr2 → rewrites rs dir (tr1 ++ tr2).
Proof.
  unfold rewrites. rewrite omap_app, Forall_app. intros H1 H2.
  split; [eapply Forall_impl; [exact H1|]|eapply Forall_impl; [exact H2|]]; cbn; intros w (Hw & c & Hc & E);
    (split; [done|]); exists c; (split; [apply Exists_app; tauto|done]).
Qed.

Lemma rewrites_below rs dir name tr : shouldIgnoreDir name = false → rewrites rs (path_join [dir; name]) tr → rewrites rs dir tr.
Proof. intros Hn. unfold rewrites. intros H. eapply Forall_impl; [exact H|]. cbn. intros w (Hw & Hc). split; [by eapply wf_below|done]. Qed.

Lemma rewrites_bind {A B} rs dir (p : F A) (f : A → F B) : wp p (λ tr _, rewrites rs dir tr) → (∀ a, wp (f a) (λ tr _, rewrites rs dir tr)) →
  wp (bind p f) (λ tr _, rewrites rs dir tr).
Proof.
  intros Hp Hf. rewrite wp_bind. eapply wp_mono, Hp. intros tr [a|e] Htr; [|done].
  eapply wp_mono, Hf. intros tr' r' Htr'. by apply rewrites_app.
Qed.

Lemma replaceInFile_rewrites rs dir name : wp (replaceInFile (path_join [dir; name]) rs) (λ tr _, rewrites rs dir tr).
Proof.
  unfold replaceInFile, readFile, writeFile. cbn. intros [contents|e]; cbn; [|constructor].
  destruct (String.eqb_spec (apply_replacements rs contents) contents) as [E|E]; cbn; [constructor|].
  intros x. assert (H : rewrites rs dir [Ev (FRead (path_join [dir; name])) (Ok contents); Ev (FWrite (path_join [dir; name]) (apply_replacements rs contents)) x]).
  { unfold rewrites. cbn. constructor; [|constructor]. split; [constructor|]. exists contents. split; [|done]. by constructor. }
  destruct x; cbn; exact H.
Qed.

(** The walk over a directory writes a file only after it has read it, below the directory and outside the ignored
    ones, and only when replacing the names changes the text; what it writes is that text with the names replaced. *)
Theorem walk_writes fuel dir rs tr r : runs (walk fuel dir rs) tr r → rewrites rs dir tr.
Proof.
  revert tr r. apply wp_runs. revert dir. induction fuel as [|fuel IH]; intros dir; cbn [walk]; [constructor|].
  apply rewrites_bind; [intros [l|e]; constructor|]. intros entries. induction entries as [|[name kind] entries IHe]; cbn [for_each]; [constructor|].
  apply rewrites_bind; [|intros _; apply IHe]. destruct kind; [|apply replaceInFile_rewrites|constructor].
  destruct (shouldIgnoreDir name) eqn:E; [constructor|]. eapply wp_mono, IH. intros tr r. by apply rewrites_below.
Qed.

(** ** Runs on a file system *)

Section Run.
Variables (io_error : string → exn) (readdir : store → string → list (string * entry_type))
          (spawn : string → list string → string → store → store * result Z).
Variables (type_error syntax_error : exn) (script_dir : string).

Abbreviation run := (Files.run io_error readdir spawn).

(** A run that leaves the files as they are. *)
Definition stays {A} (s : store) (p : F A) : Prop := fst (run p s) = s.

Lemma stays_bind {A B} s (p : F A) (f : A → F B) : stays s p → (∀ a, snd (run p s) = Ok a → stays s (f a)) → stays s (bind p f).
Proof.
  unfold stays. rewrite run_bind. intros Hp Hf. destruct (run p s) as [s' [a|e]]; cbn in *; subst s'; [by apply Hf|done].
Qed.

Lemma stays_result {A} s (r : result A) : stays s (of_result r).
Proof. unfold stays. by rewrite run_of_result. Qed.

Lemma stays_file s p : stays s (readFile p).
Proof. unfold stays. by rewrite run_read. Qed.

Lemma stays_json s p : stays s (readJson syntax_error p).
Proof. apply stays_bind; [apply stays_file|]. intros t _. by destruct (json_parse t). Qed.

Lemma stays_json_or_empty s p : stays s (json_or_empty syntax_error p).
Proof. apply stays_bind; [done|]. intros [] _; [apply stays_json|done]. Qed.

Lemma walk_stays rs fuel dir s : Forall (λ r, r.1 = r.2) rs → stays s (walk fuel dir rs).
Proof.
  intros Hrs. revert dir. induction fuel as [|fuel IH]; intros dir; cbn [walk]; [done|].
  apply stays_bind; [unfold stays; by rewrite run_sys_try|]. intros entries _. induction entries as [|[name kind] entries IHe]; [done|].
  cbn [for_each]. apply stays_bind; [|intros _ _; apply IHe]. destruct kind; [by destruct (shouldIgnoreDir name)| |done].
  apply stays_bind; [apply stays_file|]. intros t _. cbv zeta. rewrite apply_same by done.
  by rewrite String.eqb_refl.
Qed.

(** A package file with a name. *)
Definition has_name (s : store) (path name : string) : Prop :=
  ∃ t o, files s !! path = Some t ∧ json_parse t = Some (VObj o) ∧ jget "name" o = Some (VStr name).

Lemma read_has_name s path name : has_name s path name → ∃ o, run (readJson syntax_error path) s = (s, Ok (VObj o)) ∧ prop "name" (VObj o) = VStr name.
Proof.
  intros (t & o & Ht & Hp & Hn). exists o. unfold readJson. rewrite run_bind, run_read, Ht, Hp. split; [done|]. cbn. by rewrite Hn.
Qed.

Lemma json_has_name s path name : has_name s path name →
  ∃ o, run (json_or_empty syntax_error path) s = (s, Ok (VObj o)) ∧ prop "name" (VObj o) = VStr name.
Proof.
  intros Hn. destruct (read_has_name _ _ _ Hn) as (o & Hr & Ho). exists o. split; [|done]. destruct Hn as (t & o' & Ht & _).
  unfold json_or_empty. rewrite run_bind, run_sys. cbn [answer fst snd]. by rewrite (path_exists_file _ _ _ Ht).
Qed.

Lemma rename_stays s path name : (path_exists s path = true → has_name s path name) → stays s (rename_package type_error syntax_error path name).
Proof.
  intros Hn. unfold rename_package. apply stays_bind; [done|]. intros here Hh. destruct here; [|done]. cbn in Hh. injection Hh as Hh.
  destruct (read_has_name _ _ _ (Hn Hh)) as (o & Hr & Ho). unfold stays. cbn [negb]. rewrite run_bind, Hr, run_bind, run_of_result.
  unfold read_prop. cbn [nullish]. rewrite Ho. by rewrite String.eqb_refl.
Qed.

Lemma includes_slash a b : includes "/" (a +:+ "/" +:+ b) = true.
Proof. induction a as [|c a IH]; [done|]. change (String c a +:+ ?t) with (String c (a +:+ t)). cbn [includes]. by rewrite IH, orb_true_r. Qed.

Lemma resolve_scoped project n fallback : resolveScopedName (VStr ("@" +:+ project +:+ "/" +:+ n)) fallback = "@" +:+ project +:+ "/" +:+ n.
Proof.
  unfold resolveScopedName. change ("@" +:+ project +:+ "/" +:+ n) with (String "@" project +:+ "/" +:+ n).
  by rewrite includes_slash, andb_true_r.
Qed.

(** Once the packages have the names of the directory, installing again leaves every file as it is. *)
Theorem install_settled fuel s : let project := sanitizeName (path_basename (cwd s)) in
  let pkg_path p := path_join [repo_dir script_dir; "packages"; p; "package.json"] in
  (path_exists s (path_join [repo_dir script_dir; "package.json"]) = true → has_name s (path_join [repo_dir script_dir; "package.json"]) project) →
  (∀ p, p ∈ ["qa"; "core"; "new"] → has_name s (pkg_path p) ("@" +:+ project +:+ "/" +:+ p)) →
  fst (run (install_main type_error syntax_error script_dir fuel) s) = s.
Proof.
  intros project pkg_path Hroot Hp. unfold install_main. apply stays_bind; [done|]. intros dir [= <-]. fold project.
  apply stays_bind; [apply stays_json_or_empty|]. intros root _.
  destruct (json_has_name _ _ _ (Hp "qa" ltac:(set_solver))) as (qa & Hqa & Eqa).
  destruct (json_has_name _ _ _ (Hp "core" ltac:(set_solver))) as (core & Hcore & Ecore).
  destruct (json_has_name _ _ _ (Hp "new" ltac:(set_solver))) as (new & Hnew & Enew). fold (pkg_path "qa") (pkg_path "core") (pkg_path "new").
  unfold stays. rewrite run_bind, Hqa, run_bind, Hcore, run_bind, Hnew. unfold read_prop. cbn [nullish]. rewrite Eqa, Ecore, Enew.
  rewrite !run_bind, !run_of_result, !resolve_scoped. fold project.
  match goal with |- fst (run ?q s) = s => change (stays s q) end.
  apply stays_bind; [done|]. intros n1 [= <-]. apply stays_bind; [done|]. intros n2 [= <-].
  apply stays_bind; [by apply rename_stays|]. intros _ _.
  apply stays_bind; [apply rename_stays; intros _; apply (Hp "qa"); set_solver|]. intros _ _.
  apply stays_bind; [apply rename_stays; intros _; apply (Hp "core"); set_solver|]. intros _ _.
  apply stays_bind; [apply rename_stays; intros _; apply (Hp "new"); set_solver|]. intros _ _.
  apply walk_stays. rewrite !resolve_scoped. unfold install_replacements.
  change ("@" +:+ project +:+ "/" +:+ ?n) with ("@" +:+ project +:+ ("/" +:+ n)).
  rewrite !String.eqb_refl. by repeat constructor.
Qed.

(** ** The template *)

(** The script of the template, which its package.json runs after every installation, writes the page of a fresh
    application over the first App file there is. *)
Lemma template_overwrites s p : let rootDir := path_resolve script_dir [".."] in
  List.find (path_exists s) (app_candidates rootDir) = Some p → p ∉ dirs s →
  files (fst (run (updateAppContent rootDir) s)) !! p = Some app_contents.
Proof.
  intros rootDir Hf Hd. unfold updateAppContent. rewrite run_bind.
  assert (H : run (find_existing (app_candidates rootDir)) s = (s, Ok (Some p))).
  { revert Hf. generalize (app_candidates rootDir). intros l. induction l as [|q l IH]; [done|]. cbn [List.find find_existing].
    rewrite run_bind, run_sys. cbn [answer fst snd]. destruct (path_exists s q); [by intros [= ->]|exact IH]. }
  rewrite H. rewrite run_write by done. cbn. by rewrite lookup_insert_eq.
Qed.
End Run.

(** ** On concrete files *)

Example replaced : replace_all "aa" "b" "aaaxaa" = "baxb" ∧ replace_all "@m/qa" "@x/qa" "import '@m/qa'; // @m/qa" = "import '@x/qa'; // @x/qa".
Proof. by vm_compute. Qed.

Example sanitized : map sanitizeName ["My App"; "__x--y"; "..."; "a..b"; "Café"] = ["my-app"; "x-y"; "project"; "a.b"; "caf-"].
Proof. by vm_compute. Qed.

Example controlled : control_source
  ("import { serve } from 'bun';" +:+ eol +:+ "const server = serve ({ port })" +:+ eol) =
  "import { serveWithControl } from './dev/serve-with-control'" +:+ eol +:+ "const server = await serveWithControl({ port })" +:+ eol.
Proof. by vm_compute. Qed.

(** An import over several lines ends before its names: the function that is wrapped around the rest starts inside it. *)
Example import_cut : wrapInAsyncIife ("import {" +:+ eol +:+ "  a," +:+ eol +:+ "} from 'a'" +:+ eol +:+ "run(a)") =
  "import {" +:+ eol +:+ eol +:+ "(async () => {" +:+ eol +:+ "    a," +:+ eol +:+ "  } from 'a'" +:+ eol +:+ "  run(a)" +:+ eol +:+
  "})().catch((error) => {" +:+ eol +:+ "  console.error(error instanceof Error ? error.message : error)" +:+ eol +:+
  "  process.exit(1)" +:+ eol +:+ "})" +:+ eol.
Proof. by vm_compute. Qed.
