(* ===== verification/Host.v ===== *)
(** * The host of the web server

    What apps/web/src/index.ts and dev/serve-with-control.ts ask of Bun and of the operating system, as
    effects: files, the bundler, listening sockets, the control sockets of other servers, and the log. *)

From S2P Require Export NodePath Eff.

Local Open Scope string_scope.
Local Open Scope Z_scope.
Local Open Scope list_scope.

(** A directory as [readdir] and [stat] see it; times are integers that are only compared, and an unreadable
    directory or file has nothing in the place of its entries or its time. *)
Inductive fs_entry : Type :=
| FsFile (name : string) (mtime : option Z)
| FsDir (name : string) (entries : option (list fs_entry)).

(** A listening HTTP server; the handle tells apart the servers one process starts. *)
Record served := { sd_handle : nat; sd_port : option Z; sd_url : string }.

(** What [serve] throws. *)
Record serve_error := { se_code : option string; se_message : option string }.

(** What comes first of the three ends of [sendControlCommand]: data, the timeout, or an error. *)
Inductive control_event : Type := ControlData (s : string) | ControlTimeout | ControlError.

(** How a health check ends: a response, an error with its name and message, or the timeout. *)
Inductive health : Type :=
| HealthResponse (ok : bool) (status : Z)
| HealthError (name message : string)
| HealthTimeout.

Inductive hostE : Type → Type :=
| HEnv (name : string) : hostE (option string)
| HCwd : hostE string
| HNow : hostE Z
| HIsTTY : hostE bool
| HLog (line : string) : hostE unit
(** [existsSync], and the existence of a regular file. *)
| HExists (path : string) : hostE bool
| HFileExists (path : string) : hostE bool
| HStat (path : string) : hostE (result Z)
| HTree (dir : string) : hostE (option (list fs_entry))
| HReadText (path : string) : hostE (result string)
| HWriteText (path text : string) : hostE (result unit)
| HMkdir (path : string) : hostE (result unit)
| HRemove (path : string) : hostE (result unit)
(** [Bun.build], and whether its result is a success. *)
| HBuild (entry outdir : string) : hostE (result bool)
(** [serve] on a port, [server.stop(true)], the control socket of this process and those of others. *)
| HServe (port : Z) : hostE (served + serve_error)
| HStop (server : served) : hostE unit
| HListen (socket : string) : hostE (result unit)
| HCloseControl : hostE unit
| HControl (socket message : string) : hostE control_event
| HHealth (url : string) (timeoutMs : Z) : hostE health
| HExit : hostE unit.

(** What answers at once; the others are awaited. *)
Definition host_sync (X : Type) (e : hostE X) : bool :=
  match e with
  | HEnv _ | HCwd | HNow | HIsTTY | HLog _ | HExists _ | HServe _ | HStop _ | HExit => true
  | _ => false
  end.

Lemma runs_sys {St R A X} (e : hostE X) (k : X → prog St R hostE A) tr r :
  runs (bind (sys e) k) tr r → ∃ x tr', tr = Ev e x :: tr' ∧ runs (k x) tr' r.
Proof. done. Qed.
