(* ===== verification/Digest.v ===== *)
(** * Reading the replies of the devices

    packages/core/src/api/shared.ts: the extractors that turn a [System.All] or electricity reply
    into typed states ([extractLanToggleX], [extractLanLight], [extractLanElectricity],
    [extractLanTimerXDigest], [extractLanTriggerXDigest]). [0 | 1] is [bool]; a channel is the integer
    that [Number.isInteger] accepted. *)

From S2P Require Export Ipv4 Mac.

Local Open Scope string_scope.
Local Open Scope Z_scope.

(** ** States *)

Record LanToggleXState := { tx_channel : Z; tx_onoff : bool }.

Record LanLightState := {
  li_channel : Z; li_onoff : bool;
  li_luminance : option num; li_temperature : option num; li_rgb : option Z }.

Record LanScheduleDigestEntry := { sd_channel : Z; sd_id : string; sd_count : Z }.

Record electricity_config := { ec_voltageRatio : option num; ec_electricityRatio : option num }.

Record LanElectricityState := {
  el_channel : Z;
  el_voltageDv : option Z; el_currentMa : option Z; el_powerMw : option Z;
  el_config : option electricity_config;
  el_voltageV : option num; el_currentA : option num; el_powerW : option num }.

#[export] Instance LanToggleXState_eq_dec : EqDecision LanToggleXState.
Proof. solve_decision. Defined.
#[export] Instance LanLightState_eq_dec : EqDecision LanLightState.
Proof. solve_decision. Defined.
#[export] Instance LanScheduleDigestEntry_eq_dec : EqDecision LanScheduleDigestEntry.
Proof. solve_decision. Defined.

(** ** Conversions *)

Definition coerceFiniteNumber (v : val) : option num :=
  let n := match v with
           | VStr s => if str_truthy (trim s) then str_to_num s else num_nan
           | VNum n => n
           | _ => num_nan
           end in
  if is_finite n then Some n else None.

(** [Math.round] of a finite number. *)
Definition round_finite (n : num) : Z := num_round n ?: 0.

(** [Number.isInteger(n) && n >= 0] *)
Definition nonneg_integer (n : num) : option Z :=
  match num_Z n with Some z => if z <? 0 then None else Some z | None => None end.

(** [Number(v) === 1 ? 1 : 0] *)
Definition is_one (v : val) : bool := num_eqb (to_num v) (num_of_Z 1).

Definition items_of (c : val) : list val := match c with VArr l => l | _ => [c] end.

Definition digest (resp : val) : val := path ["payload"; "all"; "digest"] resp.

(** ** Switches *)

Definition toggle_item (item : val) : option LanToggleXState :=
  match nonneg_integer (to_num (prop "channel" item)) with
  | Some channel => Some {| tx_channel := channel; tx_onoff := is_one (prop "onoff" item) |}
  | None => None
  end.

(** One candidate: skipped when falsy or when no item is valid. *)
Definition toggle_candidate (c : val) : option (list LanToggleXState) :=
  if negb (truthy c) then None
  else match omap toggle_item (items_of c) with
       | [] => None
       | out => Some (js_sort (λ a b, tx_channel a - tx_channel b) out)
       end.

Definition extractLanToggleX (resp : val) : option (list LanToggleXState) :=
  first_some toggle_candidate
    [prop "togglex" (digest resp); prop "toggleX" (digest resp); prop "toggle" (digest resp);
     path ["togglex"; "togglex"] (digest resp)].

(** ** Electricity *)

Definition electricity_config_of (raw : val) : option electricity_config :=
  if is_object raw then
    let ratio k := match coerceFiniteNumber (prop k raw) with
                   | Some _ => Some (to_num (prop k raw))
                   | None => None
                   end in
    Some {| ec_voltageRatio := ratio "voltageRatio"; ec_electricityRatio := ratio "electricityRatio" |}
  else None.

Definition electricity_candidate (e : val) : option LanElectricityState :=
  if negb (is_object e) then None
  else
    match nonneg_integer (coerceFiniteNumber (prop "channel" e) ?: num_of_Z 0) with
    | None => None
    | Some channel =>
        let voltageDv := coerceFiniteNumber (prop "voltage" e) in
        let currentMa := coerceFiniteNumber (prop "current" e) in
        let powerMw := coerceFiniteNumber (prop "power" e) in
        let config := electricity_config_of (prop "config" e) in
        match voltageDv, currentMa, powerMw with
        | None, None, None => None
        | _, _, _ =>
            Some {| el_channel := channel;
                    el_voltageDv := round_finite <$> voltageDv;
                    el_currentMa := round_finite <$> currentMa;
                    el_powerMw := round_finite <$> powerMw;
                    el_config := match config with
                                 | Some {| ec_voltageRatio := None; ec_electricityRatio := None |} => None
                                 | c => c
                                 end;
                    el_voltageV := (λ v, num_div v (num_of_Z 10)) <$> voltageDv;
                    el_currentA := (λ v, num_div v (num_of_Z 1000)) <$> currentMa;
                    el_powerW := (λ v, num_div v (num_of_Z 1000)) <$> powerMw |}
        end
    end.

Definition extractLanElectricity (resp : val) : option LanElectricityState :=
  first_some electricity_candidate
    [path ["payload"; "electricity"] resp; path ["payload"; "electricity"; "electricity"] resp;
     prop "electricity" (digest resp); path ["electricity"; "electricity"] (digest resp)].

(** ** Lights *)

Definition color_byte (n : num) : option Z :=
  match num_Z n with Some z => if (0 <=? z) && (z <=? 255) then Some z else None | None => None end.

(** [((r & 0xff) << 16) | ((g & 0xff) << 8) | (b & 0xff)] *)
Definition pack_rgb (r g b : Z) : Z :=
  bit_or (bit_or (shl (bit_and r 255) 16) (shl (bit_and g 255) 8)) (bit_and b 255).

Definition rgb_of (r g b : option num) : option Z :=
  match r, g, b with
  | Some r, Some g, Some b =>
      match color_byte r, color_byte g, color_byte b with
      | Some r, Some g, Some b => Some (pack_rgb r g b)
      | _, _, _ => None
      end
  | _, _, _ => None
  end.

Definition coerceRgb (v : val) : option Z :=
  match coerceFiniteNumber v with
  | Some n => Some (round_finite n)
  | None =>
      match v with
      | VArr (r :: g :: b :: _) =>
          rgb_of (coerceFiniteNumber r) (coerceFiniteNumber g) (coerceFiniteNumber b)
      | VObj _ =>
          rgb_of (coerceFiniteNumber (coalesce (prop "r" v) (prop "red" v)))
                 (coerceFiniteNumber (coalesce (prop "g" v) (prop "green" v)))
                 (coerceFiniteNumber (coalesce (prop "b" v) (prop "blue" v)))
      | _ => None
      end
  end.

Definition light_item (item : val) : option LanLightState :=
  match nonneg_integer (to_num (prop "channel" item)) with
  | Some channel =>
      Some {| li_channel := channel;
              li_onoff := is_one (coalesce (prop "onoff" item) (prop "state" item));
              li_luminance := coerceFiniteNumber
                (first_present [prop "luminance" item; prop "brightness" item; prop "luma" item; prop "lum" item]);
              li_temperature := coerceFiniteNumber
                (first_present [prop "temperature" item; prop "temp" item; prop "colorTemp" item; prop "colortemp" item]);
              li_rgb := coerceRgb (prop "rgb" item) |}
  | None => None
  end.

Definition light_candidate (c : val) : option (list LanLightState) :=
  if negb (truthy c) then None
  else match omap light_item (items_of c) with
       | [] => None
       | out => Some (js_sort (λ a b, li_channel a - li_channel b) out)
       end.

Definition extractLanLight (resp : val) : option (list LanLightState) :=
  first_some light_candidate
    [prop "light" (digest resp); path ["light"; "light"] (digest resp);
     prop "lamp" (digest resp); path ["lamp"; "lamp"] (digest resp)].

(** ** Schedules *)

Definition schedule_item (item : val) : option LanScheduleDigestEntry :=
  let id := trim (str_or_empty (prop "id" item)) in
  match nonneg_integer (to_num (prop "channel" item)) with
  | Some channel =>
      if str_truthy id then
        Some {| sd_channel := channel; sd_id := id;
                sd_count := match coerceFiniteNumber (prop "count" item) with
                            | None => 0
                            | Some n => Z.max 0 (round_finite n)
                            end |}
      else None
  | None => None
  end.

Section Schedules.
Variable localeCompare : string → string → Z.

Definition schedule_cmp (a b : LanScheduleDigestEntry) : Z :=
  let d := sd_channel a - sd_channel b in
  if negb (d =? 0) then d else localeCompare (sd_id a) (sd_id b).

(** The first candidate that is truthy is returned, even when no item of it is valid. *)
Definition schedule_candidate (c : val) : option (list LanScheduleDigestEntry) :=
  if negb (truthy c) then None else Some (js_sort schedule_cmp (omap schedule_item (items_of c))).

Definition extractLanScheduleDigest (resp : val) (kind : string) : list LanScheduleDigestEntry :=
  first_some schedule_candidate [prop kind (digest resp); path [kind; kind] (digest resp)] ?: [].

Definition extractLanTimerXDigest (resp : val) := extractLanScheduleDigest resp "timerx".
Definition extractLanTriggerXDigest (resp : val) := extractLanScheduleDigest resp "triggerx".
End Schedules.

(** ** Lemmas *)

Lemma nonneg_integer_range n z : nonneg_integer n = Some z → 0 <= z.
Proof. unfold nonneg_integer. intros H. split_matches H. bool_hyps. lia. Qed.

Lemma toggle_item_nonneg item t : toggle_item item = Some t → 0 <= tx_channel t.
Proof. unfold toggle_item. intros H. split_matches H. by eapply nonneg_integer_range. Qed.

Lemma light_item_nonneg item t : light_item item = Some t → 0 <= li_channel t.
Proof. unfold light_item. intros H. split_matches H. by eapply nonneg_integer_range. Qed.

(** A non-empty list sorted by a non-negative channel, every element read from an item. *)
Definition channels_ok {A} (chan : A → Z) (l : list A) : Prop :=
  l ≠ [] ∧ StronglySorted (λ a b, chan a <= chan b) l ∧ Forall (λ a, 0 <= chan a) l.

Lemma sorted_candidate {A} (chan : A → Z) (item : val → option A) (c : val) (l : list A) :
  (∀ i a, item i = Some a → 0 <= chan a) →
  match omap item (items_of c) with
  | [] => None
  | out => Some (js_sort (λ a b, chan a - chan b) out)
  end = Some l → channels_ok chan l ∧ ∀ a, a ∈ l → ∃ i, i ∈ items_of c ∧ item i = Some a.
Proof.
  intros Hi H. assert (l = js_sort (λ a b, chan a - chan b) (omap item (items_of c)) ∧
    omap item (items_of c) ≠ []) as [-> Hne].
  { destruct (omap item (items_of c)) eqn:E; [done|]. split; congruence. }
  assert (Hin : ∀ a, a ∈ js_sort (λ a b, chan a - chan b) (omap item (items_of c)) →
                ∃ i, i ∈ items_of c ∧ item i = Some a).
  { intros a. rewrite elem_of_js_sort. apply list_elem_of_omap. }
  split; [|done]. split_and!.
  - by rewrite js_sort_nil.
  - eapply StronglySorted_impl; [|apply js_sort_sorted].
    + unfold cmp_le. intros; lia.
    + apply key_cmp_total.
    + apply key_cmp_trans.
  - apply Forall_forall. intros a (i & _ & Ha)%Hin. by eapply Hi.
Qed.

(** ** Properties *)

(** The values a reply may hold for the switches and for the lights. *)
Definition toggle_candidates (resp : val) : list val :=
  [prop "togglex" (digest resp); prop "toggleX" (digest resp); prop "toggle" (digest resp);
   path ["togglex"; "togglex"] (digest resp)].

Definition light_candidates (resp : val) : list val :=
  [prop "light" (digest resp); path ["light"; "light"] (digest resp);
   prop "lamp" (digest resp); path ["lamp"; "lamp"] (digest resp)].

Lemma extractLanToggleX_ok resp l : extractLanToggleX resp = Some l →
  channels_ok tx_channel l ∧
  ∃ c, c ∈ toggle_candidates resp ∧ ∀ a, a ∈ l → ∃ i, i ∈ items_of c ∧ toggle_item i = Some a.
Proof.
  intros (c & Hc & H)%first_some_Some. unfold toggle_candidate in H. destruct (truthy c); [|done].
  apply (sorted_candidate tx_channel toggle_item) in H as [? ?]; [|apply toggle_item_nonneg]. eauto.
Qed.

Lemma extractLanLight_ok resp l : extractLanLight resp = Some l →
  channels_ok li_channel l ∧
  ∃ c, c ∈ light_candidates resp ∧ ∀ a, a ∈ l → ∃ i, i ∈ items_of c ∧ light_item i = Some a.
Proof.
  intros (c & Hc & H)%first_some_Some. unfold light_candidate in H. destruct (truthy c); [|done].
  apply (sorted_candidate li_channel light_item) in H as [? ?]; [|apply light_item_nonneg]. eauto.
Qed.

(** The switches and the lights read from a reply are never an empty list, are in increasing
    order of non-negative channels, and each is the reading of one item of a single candidate of the
    digest. *)
Theorem extract_channels_ok resp :
  (∀ l, extractLanToggleX resp = Some l → channels_ok tx_channel l ∧
     ∃ c, c ∈ toggle_candidates resp ∧ ∀ a, a ∈ l → ∃ i, i ∈ items_of c ∧ toggle_item i = Some a) ∧
  (∀ l, extractLanLight resp = Some l → channels_ok li_channel l ∧
     ∃ c, c ∈ light_candidates resp ∧ ∀ a, a ∈ l → ∃ i, i ∈ items_of c ∧ light_item i = Some a).
Proof. split; intros l; [apply extractLanToggleX_ok|apply extractLanLight_ok]. Qed.

Definition sample_reply : val :=
  mk_obj [("payload", mk_obj [("all", mk_obj [("digest", mk_obj
    [("togglex", VArr [mk_obj [("channel", VZ 1); ("onoff", VZ 0)];
                       mk_obj [("channel", VStr "0"); ("onoff", VZ 1)];
                       mk_obj [("channel", VZ (-1))]]);
     ("light", mk_obj [("channel", VZ 0); ("onoff", VZ 1);
                       ("rgb", VArr [VZ 255; VZ 128; VStr "1"])]);
     ("timerx", mk_obj [("timerx", VArr [mk_obj [("channel", VZ 0); ("id", VStr "a")]])])])])])].

Lemma extract_channels_ok_witness :
  channels_ok tx_channel [{| tx_channel := 0; tx_onoff := true |}; {| tx_channel := 1; tx_onoff := false |}].
Proof.
  apply (proj1 (extract_channels_ok sample_reply)). vm_compute. reflexivity.
Defined.

Lemma bit_or_int32 x y : bit_or x y = int32 (uint32 (bit_or x y)).
Proof.
  assert (∀ z, int32 (uint32 z) = int32 z) as Hi.
  { intros z. unfold int32. by rewrite (uint32_id (uint32 z)) by apply uint32_range. }
  unfold bit_or. by rewrite uint32_int32, Hi.
Qed.

(** A colour given as three bytes is their packed value. *)
Lemma pack_rgb_value r g b : 0 <= r <= 255 → 0 <= g <= 255 → 0 <= b <= 255 →
  pack_rgb r g b = r * 65536 + g * 256 + b.
Proof.
  intros Hr Hg Hb. unfold pack_rgb. rewrite !bit_and_255, !Z.mod_small by lia.
  assert (Hu : uint32 (bit_or (bit_or (shl r 16) (shl g 8)) b) = r * 65536 + g * 256 + b).
  { rewrite !uint32_bit_or, !uint32_shl, !uint32_id by lia. rewrite !Z.mod_small by lia.
    rewrite (lor_disjoint r (g * 2 ^ 8) 16) by lia.
    replace (r * 2 ^ 16 + g * 2 ^ 8) with ((r * 2 ^ 8 + g) * 2 ^ 8) by lia.
    rewrite lor_disjoint by lia. lia. }
  by rewrite bit_or_int32, Hu, int32_id by lia.
Qed.

Lemma color_byte_range n z : color_byte n = Some z → num_Z n = Some z ∧ 0 <= z <= 255.
Proof. unfold color_byte. intros H. split_matches H. bool_hyps. split; [done|lia]. Qed.

(** A colour read from three components, in a list or in a record, is accepted only when each is
    an integer between 0 and 255, and is then [0xRRGGBB]: the components can be read back. *)
Theorem rgb_of_bytes r g b z : rgb_of r g b = Some z →
  ∃ x y w, (0 <= x <= 255 ∧ 0 <= y <= 255 ∧ 0 <= w <= 255) ∧
    (r ≫= num_Z = Some x ∧ g ≫= num_Z = Some y ∧ b ≫= num_Z = Some w) ∧
    z = x * 65536 + y * 256 + w ∧ 0 <= z <= 16777215 ∧
    z / 65536 = x ∧ z / 256 mod 256 = y ∧ z mod 256 = w.
Proof.
  unfold rgb_of. destruct r as [r|], g as [g|], b as [b|]; try done.
  destruct (color_byte r) as [x|] eqn:Ex, (color_byte g) as [y|] eqn:Ey, (color_byte b) as [w|] eqn:Ew; try done.
  apply color_byte_range in Ex as [? ?], Ey as [? ?], Ew as [? ?]. intros [= <-].
  exists x, y, w. rewrite pack_rgb_value by lia. split_and!; try done; try lia; Z.div_mod_to_equations; lia.
Qed.

Lemma rgb_of_bytes_witness : coerceRgb (VArr [VZ 255; VZ 128; VStr "1"]) = Some 16744449 ∧ 0 <= 16744449 <= 16777215.
Proof.
  split; [vm_compute; reflexivity|].
  destruct (rgb_of_bytes (Some (num_of_Z 255)) (Some (num_of_Z 128)) (Some (num_of_Z 1)) 16744449)
    as (x & y & w & _ & _ & _ & H & _); [vm_compute; reflexivity|exact H].
Defined.

(** An electricity state has a non-negative channel and at least one measurement, each scaled
    value is the raw reading over its unit, and raw and scaled values are present together. *)
Theorem extractLanElectricity_ok resp e : extractLanElectricity resp = Some e →
  0 <= el_channel e ∧
  (is_Some (el_voltageDv e) ∨ is_Some (el_currentMa e) ∨ is_Some (el_powerMw e)) ∧
  ∃ v i p, el_voltageDv e = round_finite <$> v ∧ el_voltageV e = (λ x, num_div x (num_of_Z 10)) <$> v ∧
    el_currentMa e = round_finite <$> i ∧ el_currentA e = (λ x, num_div x (num_of_Z 1000)) <$> i ∧
    el_powerMw e = round_finite <$> p ∧ el_powerW e = (λ x, num_div x (num_of_Z 1000)) <$> p ∧
    (∀ x, v = Some x ∨ i = Some x ∨ p = Some x → is_finite x = true).
Proof.
  intros (c & _ & H)%first_some_Some. unfold electricity_candidate in H.
  destruct (is_object c); [|done]. simpl in H. destruct (nonneg_integer _) as [ch|] eqn:Ech; [|done].
  assert (Hf : ∀ k x, coerceFiniteNumber (prop k c) = Some x → is_finite x = true).
  { intros k x. unfold coerceFiniteNumber. by destruct (is_finite _) eqn:E; intros; simplify_eq. }
  pose proof (Hf "voltage") as Hv. pose proof (Hf "current") as Hi. pose proof (Hf "power") as Hp. clear Hf.
  revert H. generalize dependent (coerceFiniteNumber (prop "voltage" c)).
  generalize dependent (coerceFiniteNumber (prop "current" c)).
  generalize dependent (coerceFiniteNumber (prop "power" c)). intros p Hp i Hi v Hv H.
  assert ((v ≠ None ∨ i ≠ None ∨ p ≠ None) ∧ el_channel e = ch ∧
    el_voltageDv e = round_finite <$> v ∧ el_currentMa e = round_finite <$> i ∧
    el_powerMw e = round_finite <$> p ∧ el_voltageV e = (λ x, num_div x (num_of_Z 10)) <$> v ∧
    el_currentA e = (λ x, num_div x (num_of_Z 1000)) <$> i ∧
    el_powerW e = (λ x, num_div x (num_of_Z 1000)) <$> p) as (Hne & -> & -> & -> & -> & -> & -> & ->).
  { destruct v, i, p; simplify_eq; simpl; split_and!; auto. }
  split; [by eapply nonneg_integer_range|]. split.
  - destruct v, i, p; naive_solver.
  - exists v, i, p. split_and!; try done. intros x [|[|]]; eauto.
Qed.

Definition sample_electricity : val :=
  mk_obj [("payload", mk_obj [("electricity", mk_obj
    [("channel", VZ 0); ("voltage", VZ 2256); ("power", VStr "61500")])])].

Lemma extractLanElectricity_ok_witness : ∃ e,
  extractLanElectricity sample_electricity = Some e ∧ el_powerMw e = Some 61500 ∧ 0 <= el_channel e.
Proof.
  eexists. split; [vm_compute; reflexivity|]. split; [reflexivity|].
  apply (extractLanElectricity_ok sample_electricity). vm_compute. reflexivity.
Defined.

Section Schedule.
Context (localeCompare : string → string → Z) `{!Collation localeCompare}.

Definition schedule_le (a b : LanScheduleDigestEntry) : Prop :=
  sd_channel a < sd_channel b ∨ (sd_channel a = sd_channel b ∧ localeCompare (sd_id a) (sd_id b) <= 0).

Lemma schedule_cmp_le a b : cmp_le (schedule_cmp localeCompare) a b ↔ schedule_le a b.
Proof. unfold cmp_le, schedule_cmp, schedule_le. case_match; bool_hyps; lia. Qed.

Lemma schedule_le_total a b : schedule_le a b ∨ schedule_le b a.
Proof.
  unfold schedule_le. pose proof (coll_total (sd_id a) (sd_id b)) as H. unfold cmp_le in H. lia.
Qed.

Lemma schedule_le_trans a b c : schedule_le a b → schedule_le b c → schedule_le a c.
Proof.
  unfold schedule_le. pose proof (coll_trans (sd_id a) (sd_id b) (sd_id c)) as H. unfold cmp_le in H. lia.
Qed.

(** The schedule digest is sorted by channel and then by id, its entries have a non-negative
    channel, a trimmed non-empty id and a non-negative count; it is read from the digest's own key
    alone: the nested candidate never decides the result. *)
Theorem extractLanScheduleDigest_ok resp kind :
  let l := extractLanScheduleDigest localeCompare resp kind in
  StronglySorted schedule_le l ∧
  Forall (λ e, 0 <= sd_channel e ∧ sd_id e ≠ "" ∧ trim (sd_id e) = sd_id e ∧ 0 <= sd_count e) l ∧
  l = (if truthy (prop kind (digest resp))
       then js_sort (schedule_cmp localeCompare) (omap schedule_item (items_of (prop kind (digest resp))))
       else []).
Proof.
  assert (extractLanScheduleDigest localeCompare resp kind =
    (if truthy (prop kind (digest resp))
     then js_sort (schedule_cmp localeCompare) (omap schedule_item (items_of (prop kind (digest resp))))
     else [])) as Heq.
  { unfold extractLanScheduleDigest, schedule_candidate. cbn [first_some path foldl].
    generalize (prop kind (digest resp)) as c. intros c.
    destruct (truthy c) eqn:E; [done|]. simpl. by destruct c. }
  cbv zeta. rewrite Heq. split_and!; [| |done]; (case_match; [|constructor]).
  - eapply StronglySorted_impl; [intros x y; apply schedule_cmp_le|]. apply js_sort_sorted.
    + intros x y. rewrite !schedule_cmp_le. apply schedule_le_total.
    + intros x y z. rewrite !schedule_cmp_le. apply schedule_le_trans.
  - apply Forall_js_sort, Forall_forall. intros e (i & _ & Hi)%list_elem_of_omap.
    unfold schedule_item in Hi. split_matches Hi; cbn [sd_channel sd_id sd_count];
    (split_and!; [by eapply nonneg_integer_range|by apply str_truthy_spec|apply trim_idemp|lia]).
Qed.
End Schedule.

Lemma extractLanScheduleDigest_ok_witness :
  let resp := mk_obj [("payload", mk_obj [("all", mk_obj [("digest", mk_obj
    [("timerx", VArr [mk_obj [("channel", VZ 1); ("id", VStr " b "); ("count", VZ 2)];
                      mk_obj [("channel", VZ 0); ("id", VStr "c")]])])])])] in
  map sd_id (extractLanScheduleDigest byte_compare resp "timerx") = ["c"; "b"] ∧
  extractLanScheduleDigest byte_compare sample_reply "timerx" = [] ∧
  StronglySorted (schedule_le byte_compare) (extractLanScheduleDigest byte_compare resp "timerx").
Proof.
  cbv zeta. split; [vm_compute; reflexivity|]. split; [vm_compute; reflexivity|].
  exact (proj1 (extractLanScheduleDigest_ok byte_compare _ "timerx")).
Defined.
