(* ===== verification/Runtime.v ===== *)
(** * The runtime

    The calls the program makes to its surroundings, as the constructors of one effect signature:
    clock, randomness, environment, network, files, processes, the SQLite engine, the
    streams to the clients and the worker pools that probe the LAN (their interleaving is in Scan.v). Configuration data
    (packages/core/src/meross/config.ts) and the helpers of packages/core/src/api/shared.ts that
    only use the runtime are here too.

    Console output is not modelled. The JSON text of the configuration file is read as the typed
    record the source casts it to. *)

From S2P Require Export JsLib Digest Eff.

Local Open Scope string_scope.
Local Open Scope Z_scope.

(** ** Pure functions of the platform *)

(** [crypto]'s MD5 and [Buffer]'s base64 of a UTF-8 text, and the collation of the host. *)
Class Runtime := {
  md5Hex : string → string;
  base64 : string → string;
  localeCompare : string → string → Z;
  locale_collation :: Collation localeCompare;
}.

(** ** Configuration (meross/config.ts, meross/cloud/types.ts) *)

Record MerossCloudCredentials := {
  cc_domain : string; cc_mqttDomain : option string; cc_token : string; cc_key : string;
  cc_userId : string; cc_userEmail : string }.

Record host_entry := { he_host : string; he_updatedAt : string; he_mac : option string }.

Record network_entry := { ne_cidr : option string; ne_updatedAt : string }.

(** A cloud device is a loose record of the SDK, kept as it came. *)
Record MerossConfig := {
  cf_cloud : option (MerossCloudCredentials * string);
  cf_devices : option (string * list val);
  cf_hosts : option (list (string * host_entry));
  cf_network : option network_entry }.

Definition empty_config : MerossConfig :=
  {| cf_cloud := None; cf_devices := None; cf_hosts := None; cf_network := None |}.

(** [{ ...cfg, hosts }] and the like. *)
Definition with_hosts (h : list (string * host_entry)) (c : MerossConfig) : MerossConfig :=
  {| cf_cloud := cf_cloud c; cf_devices := cf_devices c; cf_hosts := Some h; cf_network := cf_network c |}.
Definition with_cloud (creds : MerossCloudCredentials) (at_ : string) (c : MerossConfig) : MerossConfig :=
  {| cf_cloud := Some (creds, at_); cf_devices := cf_devices c; cf_hosts := cf_hosts c; cf_network := cf_network c |}.
Definition with_devices (at_ : string) (l : list val) (c : MerossConfig) : MerossConfig :=
  {| cf_cloud := cf_cloud c; cf_devices := Some (at_, l); cf_hosts := cf_hosts c; cf_network := cf_network c |}.
Definition with_network (n : network_entry) (c : MerossConfig) : MerossConfig :=
  {| cf_cloud := cf_cloud c; cf_devices := cf_devices c; cf_hosts := cf_hosts c; cf_network := Some n |}.

(** What the configuration file holds when it is read. *)
Inductive config_file : Type :=
| Unreadable
| NotJson
| NotObject
| ConfigText (c : MerossConfig).

(** ** Requests and effects *)

Record http_request := {
  rq_url : string; rq_method : string; rq_headers : list (string * string); rq_body : string; rq_timeoutMs : num }.

(** [rs_text] is [res.text()], [None] when it rejects. *)
Record http_response := {
  rs_ok : bool; rs_status : Z; rs_statusText : string; rs_text : option string }.

Record telemetry_row := {
  tr_uuid : string; tr_channel : Z; tr_atMs : Z;
  tr_voltageV : option num; tr_currentA : option num; tr_powerW : option num;
  tr_rawVoltageDv : option Z; tr_rawCurrentMa : option Z; tr_rawPowerMw : option Z; tr_source : string }.

Record consumption_row := { cr_uuid : string; cr_channel : Z; cr_date : string; cr_atS : Z; cr_wh : Z }.

Record bucket_point := {
  bp_t : Z; bp_powerWAvg : option num; bp_powerWMax : option num; bp_voltageVAvg : option num; bp_currentAAvg : option num }.

Record history_query := { hq_uuid : string; hq_channel : Z; hq_fromMs : Z; hq_toMs : Z; hq_bucketMs : Z }.

(** A scan of the LAN by a pool of [sc_workers] workers over the addresses of a block. [ScanAll] gives what the probe
    of each address ended with and the time then, in the order the probes end; [ScanUuid] gives what its workers
    found when they have all ended. *)
Record scan_spec := { sc_ips : list string; sc_workers : nat; sc_key : string; sc_timeoutMs : num }.

Inductive sysE : Type → Type :=
| Now : sysE Z
| MathRandom : sysE num
| RandomUUID : sysE string
| RandomNonce : sysE string
| GetEnv (name : string) : sysE (option string)
| HomeDir : sysE string
| OsInfo : sysE (string * string * string)
| NetworkInterfaces : sysE (list (string * list iface_addr))
| LoadFile (path : string) : sysE config_file
| SaveFile (path : string) (c : MerossConfig) : sysE (result unit)
| ReadText (path : string) : sysE (result string)
| TimeZone : sysE string
| Fetch (rq : http_request) : sysE (result http_response)
| RunCmd (cmd : list string) : sysE string
| Enqueue (subscriber : Z) (frame : string) : sysE bool
| PingAll (ips : list string) (workers : nat) (timeoutMs : num) : sysE unit
| ScanUuid (s : scan_spec) (uuid : string) (targetMac : option string) : sysE (option (string * option string))
| ScanAll (s : scan_spec) : sysE (list (string * (result val * string)))
| DbInsert (row : telemetry_row) : sysE (result unit)
| DbUpsertDay (row : consumption_row) : sysE (result unit)
| DbLatest (uuid : string) (channel : Z) : sysE (result (option (Z * telemetry_row)))
| DbHistory (q : history_query) : sysE (result (list bucket_point)).

(** The effects that complete at once: no other code of the server runs meanwhile. *)
Definition sync_effect {X} (e : sysE X) : bool :=
  match e with
  | Now | MathRandom | RandomUUID | RandomNonce | GetEnv _ | HomeDir | OsInfo | TimeZone | NetworkInterfaces | Enqueue _ _
  | DbInsert _ | DbUpsertDay _ | DbLatest _ _ | DbHistory _ => true
  | _ => false
  end.

Abbreviation sys_event := (event sysE).

(** The kinds of calls that theorems speak about. *)
Definition is_fetch (ev : sys_event) : bool := match ev with @Ev _ _ (Fetch _) _ => true | _ => false end.
Definition is_save (ev : sys_event) : bool := match ev with @Ev _ _ (SaveFile _ _) _ => true | _ => false end.
Definition is_network (ev : sys_event) : bool :=
  match ev with
  | @Ev _ _ (Fetch _) _ | @Ev _ _ (PingAll _ _ _) _ | @Ev _ _ (ScanUuid _ _ _) _ | @Ev _ _ (ScanAll _) _ => true
  | _ => false
  end.

Definition fetched (tr : list sys_event) : list http_request :=
  omap (λ ev, match ev with @Ev _ _ (Fetch rq) _ => Some rq | _ => None end) tr.
Definition saved (tr : list sys_event) : list MerossConfig :=
  omap (λ ev, match ev with @Ev _ _ (SaveFile _ c) _ => Some c | _ => None end) tr.

(** ** Helpers on the runtime *)

Section Helpers.
Context {St R : Type}.
Abbreviation M := (prog St R sysE).

(** api/shared.ts *)
Definition nowIso : M string := let! t := sys Now in Ret (to_iso t).

(** config.ts *)
Definition defaultMerossConfigPath : M string :=
  let! home := sys HomeDir in Ret (home +:+ "/.config/merossity/config.json").

Definition loadMerossConfig (filePath : string) : M MerossConfig :=
  let! f := sys (LoadFile filePath) in
  Ret (match f with
       | ConfigText c => c
       | Unreadable | NotJson | NotObject => empty_config
       end).

Definition saveMerossConfig (config : MerossConfig) (filePath : string) : M unit :=
  sys_try (SaveFile filePath config).

(** [process.env.X || fallback()] *)
Definition env_or (name : string) (fallback : M string) : M string :=
  let! v := sys (GetEnv name) in
  match v with
  | Some s => if str_truthy s then Ret s else fallback
  | None => fallback
  end.

Definition configPath : M string := env_or "MEROSS_CONFIG_PATH" defaultMerossConfigPath.

Definition readConfig : M MerossConfig := let! p := configPath in loadMerossConfig p.

Definition writeConfig (next : MerossConfig) : M unit := let! p := configPath in saveMerossConfig next p.

Definition hosts_of (c : MerossConfig) : list (string * host_entry) := cf_hosts c ?: [].

Definition devices_of (c : MerossConfig) : list val :=
  match cf_devices c with Some (_, l) => l | None => [] end.

(** [cfg.hosts?.[uuid]?.host] where it is truthy. *)
Definition known_host (c : MerossConfig) (uuid : string) : option string :=
  match jget uuid (hosts_of c) with Some h => nonempty (he_host h) | None => None end.

Definition requireLanHost (uuid : string) : M string :=
  let! cfg := readConfig in
  match known_host cfg uuid with
  | Some host => Ret host
  | None => Throw (JsError ("No LAN host known for device uuid=" +:+ uuid +:+ ". Resolve host first."))
  end.

Definition requireLanKey : M string :=
  let! cfg := readConfig in
  let missing := Throw (JsError "Missing Meross key. Login (cloud) or set MEROSS_KEY.") in
  match (match cf_cloud cfg with Some (c, _) => nonempty (cc_key c) | None => None end) with
  | Some key => Ret key
  | None =>
      let! e := sys (GetEnv "MEROSS_KEY") in
      match e with
      | Some key => if str_truthy key then Ret key else missing
      | None => missing
      end
  end.

(** [os.networkInterfaces()] through lan/discovery.ts. *)
Definition suggestCidrsNow `{Runtime} : M (list suggestion) :=
  let! ifs := sys NetworkInterfaces in Ret (suggestCidrs localeCompare ifs).

Definition defaultSuggestedCidrNow `{Runtime} : M (option string) :=
  let! ifs := sys NetworkInterfaces in Ret (defaultSuggestedCidr localeCompare ifs).
End Helpers.

(** ** A concrete platform, for executing the model *)

Definition test_runtime : Runtime :=
  {| md5Hex s := "md5(" +:+ s +:+ ")"; base64 s := "b64(" +:+ s +:+ ")"; localeCompare := byte_compare;
     locale_collation := byte_collation |}.

(** The answers of a quiet runtime, overridden case by case. *)
Definition quiet_answer (X : Type) (n : nat) (e : sysE X) : X :=
  match e in sysE X return X with
  | Now => 1700000000000
  | MathRandom => S754_zero false
  | RandomUUID => "11111111-2222-3333-4444-555555555555"
  | RandomNonce => "00ff"
  | GetEnv _ => None
  | HomeDir => "/home/u"
  | OsInfo => ("x86_64", "6.1", "linux")
  | NetworkInterfaces => []
  | LoadFile _ => Unreadable
  | SaveFile _ _ => Ok tt
  | ReadText _ => Err (JsError "ENOENT")
  | TimeZone => "Europe/Lisbon"
  | Fetch _ => Err (JsError "unreachable")
  | RunCmd _ => ""
  | Enqueue _ _ => true
  | PingAll _ _ _ => tt
  | ScanUuid _ _ _ => None
  | ScanAll _ => []
  | DbInsert _ => Ok tt
  | DbUpsertDay _ => Ok tt
  | DbLatest _ _ => Ok None
  | DbHistory _ => Ok []
  end.

(** A runtime with a configuration file and a network. *)
Definition test_answer (file : config_file) (net : nat → http_request → result http_response)
    (X : Type) (n : nat) (e : sysE X) : X :=
  match e in sysE X return X with
  | LoadFile _ => file
  | Fetch rq => net n rq
  | e => quiet_answer _ n e
  end.

Definition test_oracle {St R} (st : St) (aw : nat → result R) file net : oracle St R sysE :=
  {| o_sys := test_answer file net; o_state := st; o_await := aw |}.

Definition json_response (v : val) : result http_response :=
  Ok {| rs_ok := true; rs_status := 200; rs_statusText := "OK"; rs_text := Some (json_stringify v) |}.
