(* ===== verification/Lan.v ===== *)
(** * The LAN protocol

    packages/core/src/meross/lan: the signed message (message.ts), its POST to a device (http.ts) and
    the calls of the namespaces (system-all.ts, togglex.ts, light.ts, timerx.ts, triggerx.ts,
    electricity.ts, consumptionx.ts). *)

From S2P Require Export Runtime.

Local Open Scope string_scope.
Local Open Scope Z_scope.

Section Lan.
Context {St R : Type} `{Runtime}.
Abbreviation M := (prog St R sysE).

(** ** Messages (message.ts) *)

Record MerossLanHeader := {
  lh_messageId : string; lh_namespace : string; lh_method : string; lh_payloadVersion : Z;
  lh_from : string; lh_triggerSrc : string; lh_timestamp : Z; lh_timestampMs : Z; lh_sign : string }.

Record MerossLanMessage := { lm_header : MerossLanHeader; lm_payload : val }.

Record BuildLanMessageOptions := {
  bo_namespace : string; bo_method : string; bo_payload : val; bo_key : string;
  bo_from : option string; bo_triggerSrc : option string; bo_payloadVersion : option Z;
  bo_messageId : option string; bo_timestamp : option Z }.

Definition DEFAULT_FROM : string := "MerossClient".
Definition DEFAULT_TRIGGER_SRC : string := "MerossClient".

Definition randomMessageId : M string := let! u := sys RandomUUID in Ret (remove_char "-" u).

Definition buildLanMessage (options : BuildLanMessageOptions) : M MerossLanMessage :=
  let! ts := match bo_timestamp options with
             | Some t => Ret t
             | None => let! now := sys Now in Ret (now / 1000)
             end in
  let! messageId := match bo_messageId options with Some m => Ret m | None => randomMessageId end in
  let sign := md5Hex (messageId +:+ bo_key options +:+ pretty ts) in
  Ret {| lm_header :=
           {| lh_messageId := messageId; lh_namespace := bo_namespace options; lh_method := bo_method options;
              lh_payloadVersion := bo_payloadVersion options ?: 1;
              lh_from := bo_from options ?: DEFAULT_FROM;
              lh_triggerSrc := bo_triggerSrc options ?: DEFAULT_TRIGGER_SRC;
              lh_timestamp := ts; lh_timestampMs := 0; lh_sign := sign |};
         lm_payload := bo_payload options |}.

(** The message as the value that [JSON.stringify] writes. *)
Definition message_val (m : MerossLanMessage) : val :=
  let h := lm_header m in
  VObj [("header", VObj
           [("messageId", VStr (lh_messageId h)); ("namespace", VStr (lh_namespace h));
            ("method", VStr (lh_method h)); ("payloadVersion", VZ (lh_payloadVersion h));
            ("from", VStr (lh_from h)); ("triggerSrc", VStr (lh_triggerSrc h));
            ("timestamp", VZ (lh_timestamp h)); ("timestampMs", VZ (lh_timestampMs h));
            ("sign", VStr (lh_sign h))]);
        ("payload", lm_payload m)].

(** ** The POST (http.ts) *)

(** [await res.json()] *)
Definition response_json (res : http_response) : result val :=
  match rs_text res ≫= json_parse with
  | Some v => Ok v
  | None => Err (JsError "Failed to parse JSON")
  end.

(** The failure of a response that is not [ok]. *)
Definition http_failure (res : http_response) : exn :=
  let text := rs_text res ?: "" in
  LanHttpError ("POST /config failed: " +:+ pretty (rs_status res) +:+ " " +:+ rs_statusText res
                +:+ (if str_truthy text then ": " +:+ text else "")).

Definition config_request (host : string) (message : MerossLanMessage) (timeoutMs : option num) : http_request :=
  {| rq_url := "http://" +:+ host +:+ "/config"; rq_method := "POST";
     rq_headers := [("content-type", "application/json")];
     rq_body := json_stringify (message_val message); rq_timeoutMs := timeoutMs ?: num_of_Z 5000 |}.

Definition postConfig (host : string) (message : MerossLanMessage) (timeoutMs : option num) : M val :=
  let! res := sys_try (Fetch (config_request host message timeoutMs)) in
  if rs_ok res then of_result (response_json res) else Throw (http_failure res).

(** ** Namespaces *)

(** The options every call shares; [from] and [triggerSrc] are never given by the program. *)
Record lan_target := { lt_host : string; lt_key : string; lt_timeoutMs : option num }.

Definition to_device (host key : string) : lan_target := {| lt_host := host; lt_key := key; lt_timeoutMs := None |}.
Definition within (host key : string) (ms : num) : lan_target :=
  {| lt_host := host; lt_key := key; lt_timeoutMs := Some ms |}.

Definition lan_call (t : lan_target) (namespace method : string) (payload : val) : M val :=
  let! msg := buildLanMessage
    {| bo_namespace := namespace; bo_method := method; bo_payload := payload; bo_key := lt_key t;
       bo_from := None; bo_triggerSrc := None; bo_payloadVersion := None; bo_messageId := None;
       bo_timestamp := None |} in
  postConfig (lt_host t) msg (lt_timeoutMs t).

Definition NAMESPACE_SYSTEM_ALL : string := "Appliance.System.All".
Definition getSystemAll (t : lan_target) : M val := lan_call t NAMESPACE_SYSTEM_ALL "GET" (VObj []).

Definition NAMESPACE_TOGGLEX : string := "Appliance.Control.ToggleX".
Definition togglex_payload (channel : Z) (onoff : bool) : val :=
  VObj [("togglex", VObj [("channel", VZ channel); ("onoff", VZ (if onoff then 1 else 0))])].
Definition setToggleX (t : lan_target) (channel : Z) (onoff : bool) : M val :=
  lan_call t NAMESPACE_TOGGLEX "SET" (togglex_payload channel onoff).

(** The optional fields of [setLight]; [capacity] and [transform] are never given by the program. *)
Record light_fields := {
  lf_onoff : option bool; lf_luminance : option Z; lf_temperature : option Z; lf_rgb : option Z }.

Definition NAMESPACE_LIGHT : string := "Appliance.Control.Light".
Definition light_payload (channel : Z) (f : light_fields) : val :=
  VObj [("light", VObj
    ([("channel", VZ channel)] ++
     opt_prop "onoff" (λ b : bool, VZ (if b then 1 else 0)) (lf_onoff f) ++
     opt_prop "luminance" VZ (lf_luminance f) ++
     opt_prop "temperature" VZ (lf_temperature f) ++
     opt_prop "rgb" VZ (lf_rgb f)))].
Definition setLight (t : lan_target) (channel : Z) (f : light_fields) : M val :=
  lan_call t NAMESPACE_LIGHT "SET" (light_payload channel f).

Definition only_onoff (onoff : bool) : light_fields :=
  {| lf_onoff := Some onoff; lf_luminance := None; lf_temperature := None; lf_rgb := None |}.

Definition NAMESPACE_TIMERX : string := "Appliance.Control.TimerX".
Definition getTimerX (t : lan_target) (id : string) : M val :=
  lan_call t NAMESPACE_TIMERX "GET" (VObj [("timerx", VObj [("id", VStr id)])]).
Definition setTimerX (t : lan_target) (timer : val) : M val :=
  lan_call t NAMESPACE_TIMERX "SET" (VObj [("timerx", timer)]).

Definition NAMESPACE_TRIGGERX : string := "Appliance.Control.TriggerX".
Definition getTriggerX (t : lan_target) (id : string) : M val :=
  lan_call t NAMESPACE_TRIGGERX "GET" (VObj [("triggerx", VObj [("id", VStr id)])]).
Definition setTriggerX (t : lan_target) (trigger : val) : M val :=
  lan_call t NAMESPACE_TRIGGERX "SET" (VObj [("triggerx", trigger)]).

Definition NAMESPACE_ELECTRICITY : string := "Appliance.Control.Electricity".
Definition getElectricity (t : lan_target) (channel : Z) : M val :=
  lan_call t NAMESPACE_ELECTRICITY "GET" (VObj [("electricity", VObj [("channel", VZ channel)])]).

Definition NAMESPACE_CONSUMPTIONX : string := "Appliance.Control.ConsumptionX".
Definition getConsumptionX (t : lan_target) (channel : Z) : M val :=
  lan_call t NAMESPACE_CONSUMPTIONX "GET" (VObj [("consumptionx", VObj [("channel", VZ channel)])]).

(** ** Properties *)

(** What goes over the wire for one call: a message of the namespace, signed with the key. *)
Definition signed_request (t : lan_target) (namespace method : string) (payload : val) (rq : http_request) : Prop :=
  ∃ messageId ts,
    rq_url rq = "http://" +:+ lt_host t +:+ "/config" ∧ rq_method rq = "POST" ∧
    rq_timeoutMs rq = lt_timeoutMs t ?: num_of_Z 5000 ∧
    rq_body rq = json_stringify (message_val
      {| lm_header := {| lh_messageId := messageId; lh_namespace := namespace; lh_method := method;
                         lh_payloadVersion := 1; lh_from := DEFAULT_FROM; lh_triggerSrc := DEFAULT_TRIGGER_SRC;
                         lh_timestamp := ts; lh_timestampMs := 0;
                         lh_sign := md5Hex (messageId +:+ lt_key t +:+ pretty ts) |};
         lm_payload := payload |}).

(** One call: the clock, a message id, one POST; the result is the reply of the device or an
    exception. *)
Lemma lan_call_runs t ns m payload tr r : runs (lan_call t ns m payload) tr r →
  ∃ now uuid rq ans, tr = [Ev Now now; Ev RandomUUID uuid; Ev (Fetch rq) ans] ∧
    signed_request t ns m payload rq ∧
    r = match ans with
        | Ok res => if rs_ok res then response_json res else Err (http_failure res)
        | Err e => Err e
        end.
Proof.
  unfold lan_call, buildLanMessage, postConfig, sys, sys_try, randomMessageId, sys.
  cbn [bind runs bo_timestamp bo_messageId].
  intros (now & tr1 & -> & uuid & tr2 & -> & ans & tr3 & -> & Hr).
  exists now, uuid. eexists _, ans.
  assert (tr3 = [] ∧ r = match ans with
        | Ok res => if rs_ok res then response_json res else Err (http_failure res)
        | Err e => Err e
        end) as [-> ->].
  { destruct ans as [res|e]; cbn [of_result bind runs] in Hr; [|done].
    destruct (rs_ok res); [|done]. by destruct (response_json res). }
  split_and!; [done| |done].
  exists (remove_char "-" uuid), (now / 1000). split_and!; reflexivity.
Qed.

(** Every message the program sends to a device carries its namespace and method, the protocol
    defaults, and the signature [md5(messageId + key + timestamp)] over its own id and time; one call
    makes one POST to [http://host/config], and its result is the JSON of an [ok] reply or an
    exception. *)
Theorem lan_call_spec t ns m payload tr r : runs (lan_call t ns m payload) tr r →
  ∃ rq ans, fetched tr = [rq] ∧ signed_request t ns m payload rq ∧ Ev (Fetch rq) ans ∈ tr ∧
    (∀ v, r = Ok v → ∃ res, ans = Ok res ∧ rs_ok res = true ∧ rs_text res ≫= json_parse = Some v) ∧
    (∀ res, ans = Ok res → rs_ok res = false → r = Err (http_failure res)).
Proof.
  intros (now & uuid & rq & ans & -> & Hs & ->)%lan_call_runs. exists rq, ans.
  split_and!; [done|done|set_solver| |].
  - intros v Hv. destruct ans as [res|]; [|done]. destruct (rs_ok res) eqn:E; [|done].
    exists res. split_and!; try done. unfold response_json in Hv.
    destruct (rs_text res ≫= json_parse); congruence.
  - intros res -> ->. done.
Qed.
End Lan.

Lemma lan_call_spec_witness :
  ∃ rq, fetched (fst (exec (test_oracle (R := unit) tt (λ _, Ok tt) Unreadable (λ _ _, json_response (VObj []))) 0
    (let rt := test_runtime in setToggleX (to_device "10.0.0.9" "k") 0 true))) = [rq].
Proof.
  destruct (@lan_call_spec unit unit test_runtime (to_device "10.0.0.9" "k") NAMESPACE_TOGGLEX "SET" (togglex_payload 0 true)
    _ _ (exec_runs (test_oracle tt (λ _, Ok tt) Unreadable (λ _ _, json_response (VObj []))) 0 _)) as (rq & ans & Hf & _).
  exists rq. exact Hf.
Defined.
