(* ===== verification/Cloud.v ===== *)
(** * The Meross cloud

    packages/core/src/meross/cloud/http.ts: the signed POST ([authenticatedPost]), the regional
    redirect ([postWithRedirect]), the sign-in over the candidate domains ([merossCloudLogin]) and the
    device list ([merossCloudListDevices], [extractCloudDeviceList]). Debug output is not modelled;
    [fetch] and [scheme] overrides are arguments the program leaves at their defaults or passes
    through. *)

From S2P Require Export Runtime.

Local Open Scope string_scope.
Local Open Scope Z_scope.

(** ** Domains *)

Definition SECRET : string := "23x17ahWarFH6w29".
Definition DEFAULT_DOMAIN : string := "iotx.meross.com".
Definition DEFAULT_FALLBACK_DOMAINS : list string :=
  [DEFAULT_DOMAIN; "iotx-ap.meross.com"; "iotx-us.meross.com"; "iotx-eu.meross.com"].

Fixpoint strip_slashes (s : string) : string :=
  match s with
  | EmptyString => EmptyString
  | String c s' =>
      match strip_slashes s' with
      | EmptyString => if Ascii.eqb c "/" then EmptyString else String c EmptyString
      | t => String c t
      end
  end.

Definition strip_protocol (s : string) : string :=
  if starts_with "https://" s then str_drop 8 s
  else if starts_with "http://" s then str_drop 7 s else s.

Definition stripScheme (domain : string) : string := strip_slashes (strip_protocol domain).

(** ** One request *)

Record MerossCloudApiResponse := { ar_apiStatus : num; ar_body : val }.

Definition ar_data (r : MerossCloudApiResponse) : val := prop "data" (ar_body r).
Definition ar_info (r : MerossCloudApiResponse) : val := prop "info" (ar_body r).
Definition status_is (z : Z) (r : MerossCloudApiResponse) : bool := num_eqb (ar_apiStatus r) (num_of_Z z).

Record cloud_opts := { co_token : option string; co_scheme : string; co_timeoutMs : num }.

(** The status code of a usable reply, [None] for one that is no object with a numeric [apiStatus]. *)
Definition cloud_json (res : http_response) : option MerossCloudApiResponse :=
  match nonempty (rs_text res ?: "") ≫= json_parse with
  | Some json =>
      if typeof_object json then
        match prop "apiStatus" json with
        | VNum s => Some {| ar_apiStatus := s; ar_body := json |}
        | _ => None
        end
      else None
  | None => None
  end.

Definition cloud_headers (token : option string) : list (string * string) :=
  [("AppVersion", "0.4.10.3"); ("vender", "meross"); ("AppType", "MerossIOT"); ("AppLanguage", "EN");
   ("User-Agent", "MerossIOT/0.4.10.3"); ("Content-Type", "application/json");
   ("Authorization", match token ≫= nonempty with Some t => "Basic " +:+ t | None => "Basic" end)].

(** ** The device list *)

Definition isDeviceLike (v : val) : bool := is_object v && is_string (prop "uuid" v).

Definition coerceJson (v : val) : val :=
  match v with
  | VStr w =>
      let s := trim w in
      if starts_with "{" s || starts_with "[" s then json_parse s ?: v else v
  | _ => v
  end.

Definition device_list (v : val) : option (list val) :=
  match v with
  | VArr [] => Some []
  | VArr (d :: l) => if isDeviceLike d then Some (d :: l) else None
  | _ => None
  end.

Definition device_candidate (c : val) : option (list val) :=
  match device_list c with
  | Some l => Some l
  | None =>
      if is_object c
      then first_some device_list [prop "devList" c; prop "list" c; prop "devices" c] else None
  end.

Definition device_candidates (obj : val) : list val :=
  map coerceJson
    [prop "devList" obj; prop "deviceList" obj; prop "list" obj; prop "devices" obj;
     path ["data"; "devList"] obj; path ["data"; "deviceList"] obj; path ["data"; "list"] obj;
     if truthy (prop "payload" obj) then coerceJson (prop "payload" obj) else VUndef].

Definition extractCloudDeviceList (data : val) : option (list val) :=
  let coerced := coerceJson data in
  match device_list coerced with
  | Some l => Some l
  | None => if is_object coerced then first_some device_candidate (device_candidates coerced) else None
  end.

(** The description of an unusable reply in the error message. *)
Definition typeof_val (v : val) : string :=
  match v with
  | VUndef => "undefined" | VNull => "null" | VBool _ => "boolean" | VNum _ => "number"
  | VStr _ => "string" | VArr _ => "array" | VObj _ => "object"
  end.

Definition missing_list_message (data : val) : string :=
  let keys := match data with VObj o => take 20 (jkeys o) | _ => [] end in
  "Cloud devList response missing devList[] (dataType=" +:+ typeof_val data
  +:+ (match keys with [] => "" | _ => " keys=" +:+ join "," keys end) +:+ ")".

(** ** Sign-in *)

Record LoginParams := { lp_email : string; lp_password : string; lp_mfaCode : option string }.

Record cloud_options := { cl_domain : option string; cl_scheme : option string; cl_timeoutMs : option num }.

Definition domainCandidates (option_domain : option string) : list string :=
  let defaults := map stripScheme DEFAULT_FALLBACK_DOMAINS in
  match option_domain ≫= nonempty with
  | Some d =>
      let domain := stripScheme d in
      if bool_decide (domain ∈ defaults)
      then domain :: filter (λ x, x ≠ domain) defaults else [domain]
  | None => js_dedup defaults
  end.

(** The credentials of an accepted sign-in. *)
Definition login_creds (params : LoginParams) (resolvedDomain : string) (resp : MerossCloudApiResponse)
    : result MerossCloudCredentials :=
  let data := coalesce (ar_data resp) (VObj []) in
  let token := str_or_empty (prop "token" data) in
  let key := str_or_empty (prop "key" data) in
  let userId := to_str (first_present [prop "userid" data; prop "userId" data; VStr ""]) in
  let userEmail := to_str (coalesce (prop "email" data) (VStr (lp_email params))) in
  let finalDomain := stripScheme (as_str (prop "domain" data) ?: resolvedDomain) in
  if negb (str_truthy token) || negb (str_truthy key) || negb (str_truthy userId)
  then Err (CloudError "Cloud signIn did not return token/key/userid" None VUndef)
  else Ok {| cc_domain := finalDomain; cc_mqttDomain := as_str (prop "mqttDomain" data); cc_token := token;
             cc_key := key; cc_userId := userId; cc_userEmail := userEmail |}.

Section Http.
Context {St R : Type} `{Runtime}.
(** The identifier drawn once when the module is loaded. *)
Variable LOG_IDENTIFIER : string.
Abbreviation M := (prog St R sysE).

Definition cloud_request (endpoint : string) (params : val) (domain : string) (opts : cloud_opts)
    (nonce : string) (timestampMs : Z) : http_request :=
  let encodedParams := base64 (json_stringify params) in
  let sign := md5Hex (SECRET +:+ pretty timestampMs +:+ nonce +:+ encodedParams) in
  {| rq_url := co_scheme opts +:+ "://" +:+ domain +:+ endpoint; rq_method := "POST";
     rq_headers := cloud_headers (co_token opts);
     rq_body := json_stringify (VObj [("params", VStr encodedParams); ("sign", VStr sign);
                                      ("timestamp", VZ timestampMs); ("nonce", VStr nonce)]);
     rq_timeoutMs := co_timeoutMs opts |}.

Definition authenticatedPost (endpoint : string) (params : val) (domain : string) (opts : cloud_opts)
    : M MerossCloudApiResponse :=
  let! nonce := sys RandomNonce in
  let! timestampMs := sys Now in
  let! res := sys_try (Fetch (cloud_request endpoint params domain opts nonce timestampMs)) in
  match cloud_json res with
  | Some json => Ret json
  | None => Throw (CloudError ("Invalid cloud response (" +:+ pretty (rs_status res) +:+ ")") None VUndef)
  end.

(** The [for] loop of [postWithRedirect], then its last attempt. *)
Fixpoint redirect_loop (attempts : nat) (endpoint : string) (params : val) (domain : string) (opts : cloud_opts)
    : M (string * MerossCloudApiResponse) :=
  let! resp := authenticatedPost endpoint params domain opts in
  match attempts with
  | O => Ret (domain, resp)
  | S attempts =>
      match status_is 1030 resp, path ["data"; "domain"] (ar_body resp) with
      | true, VStr nextDomain =>
          if str_truthy nextDomain then redirect_loop attempts endpoint params (stripScheme nextDomain) opts
          else Ret (domain, resp)
      | _, _ => Ret (domain, resp)
      end
  end.

Definition postWithRedirect (endpoint : string) (params : val) (domain : string) (opts : cloud_opts)
    : M (string * MerossCloudApiResponse) :=
  redirect_loop 2 endpoint params (stripScheme domain) opts.

Definition sign_in_endpoint : string := "/v1/Auth/signIn".

Definition sign_in_params (params : LoginParams) (os : string * string * string) : val :=
  let '(machine, release, platform) := os in
  VObj ([("email", VStr (lp_email params)); ("password", VStr (md5Hex (lp_password params)));
         ("accountCountryCode", VStr "us"); ("agree", VZ 0); ("encryption", VZ 1);
         ("mobileInfo", VObj [("deviceModel", VStr machine); ("mobileOsVersion", VStr release);
                              ("mobileOs", VStr platform); ("uuid", VStr LOG_IDENTIFIER);
                              ("carrier", VStr "")])] ++
        opt_prop "mfaCode" VStr (lp_mfaCode params ≫= nonempty)).

(** The loop over the candidate domains: only status 1004 moves on to the next one. *)
Fixpoint login_loop (params : val) (opts : cloud_opts) (candidates : list string)
    : M (option (string * MerossCloudApiResponse)) :=
  match candidates with
  | [] => Ret None
  | candidate :: rest =>
      let! result := postWithRedirect sign_in_endpoint params candidate opts in
      if status_is 0 (snd result) then Ret (Some result)
      else match rest with
           | [] => Ret (Some result)
           | _ => if status_is 1004 (snd result) then login_loop params opts rest else Ret (Some result)
           end
  end.

Definition merossCloudLogin (params : LoginParams) (options : cloud_options) : M MerossCloudCredentials :=
  let opts := {| co_token := None; co_scheme := cl_scheme options ?: "https";
                 co_timeoutMs := cl_timeoutMs options ?: num_of_Z 15000 |} in
  let! os := sys OsInfo in
  let! last := login_loop (sign_in_params params os) opts (domainCandidates (cl_domain options)) in
  match last with
  | Some (resolvedDomain, resp) =>
      if status_is 0 resp then of_result (login_creds params resolvedDomain resp)
      else Throw (CloudError "Cloud signIn failed" (Some (ar_apiStatus resp)) (ar_info resp))
  | None => Throw (CloudError "Cloud signIn failed" None VUndef)
  end.

Definition merossCloudListDevices (creds : MerossCloudCredentials) (timeoutMs : option num) : M (list val) :=
  let! '(domain, resp) := postWithRedirect "/v1/Device/devList" (VObj []) (cc_domain creds)
    {| co_token := Some (cc_token creds); co_scheme := "https"; co_timeoutMs := timeoutMs ?: num_of_Z 15000 |} in
  if negb (status_is 0 resp)
  then Throw (CloudError "Cloud devList failed" (Some (ar_apiStatus resp)) (ar_info resp))
  else match extractCloudDeviceList (ar_data resp) with
       | Some l => Ret l
       | None => Throw (CloudError (missing_list_message (ar_data resp)) None VUndef)
       end.
End Http.

(** ** Lemmas *)

Local Open Scope list_scope.

Section Facts.
Context {St R : Type} `{Runtime}.
Variable LOG_IDENTIFIER : string.
Abbreviation M := (prog St R sysE).

Definition post_result (ans : result http_response) : result MerossCloudApiResponse :=
  let? res := ans in
  match cloud_json res with
  | Some json => Ok json
  | None => Err (CloudError ("Invalid cloud response (" +:+ pretty (rs_status res) +:+ ")") None VUndef)
  end.

Lemma authenticatedPost_runs endpoint params domain opts tr r :
  runs (authenticatedPost endpoint params domain opts : M _) tr r →
  ∃ nonce ts ans, tr = [Ev RandomNonce nonce; Ev Now ts; Ev (Fetch (cloud_request endpoint params domain opts nonce ts)) ans] ∧
    r = post_result ans.
Proof.
  unfold authenticatedPost, sys, sys_try. cbn [bind runs].
  intros (nonce & t1 & -> & ts & t2 & -> & ans & t3 & -> & Hr). exists nonce, ts, ans.
  assert (t3 = [] ∧ r = post_result ans) as [-> ->]; [|done].
  destruct ans as [res|e]; cbn [of_result bind runs] in Hr; [|done].
  unfold post_result. cbn [rbind]. by destruct (cloud_json res).
Qed.

(** The requests of a trace, and the reply of the last one. *)
Definition last_post (endpoint : string) (opts : cloud_opts) (tr : list sys_event) (domain : string)
    (r : result MerossCloudApiResponse) : Prop :=
  ∃ pre rq ans, tr = pre ++ [Ev (Fetch rq) ans] ∧ r = post_result ans ∧
    rq_url rq = co_scheme opts +:+ "://" +:+ domain +:+ endpoint.

Definition is_redirect (resp : MerossCloudApiResponse) : bool :=
  status_is 1030 resp && match path ["data"; "domain"] (ar_body resp) with VStr d => str_truthy d | _ => false end.

Definition posts_to (endpoint : string) (opts : cloud_opts) (ev : sys_event) : Prop :=
  match ev with
  | @Ev _ _ (Fetch rq) _ => ∃ domain, rq_url rq = co_scheme opts +:+ "://" +:+ domain +:+ endpoint
  | _ => is_save ev = false
  end.

Lemma first_posts endpoint params domain opts nonce ts ans :
  Forall (posts_to endpoint opts)
    [Ev RandomNonce nonce; Ev Now ts; Ev (Fetch (cloud_request endpoint params domain opts nonce ts)) ans].
Proof. repeat apply Forall_cons_2; [done|done| |constructor]. exists domain. done. Qed.

Lemma redirect_loop_runs n endpoint params domain opts tr r :
  runs (redirect_loop n endpoint params domain opts : M _) tr r →
  (1 <= length (fetched tr) <= S n)%nat ∧ Forall (posts_to endpoint opts) tr ∧
  (∀ d resp, r = Ok (d, resp) → last_post endpoint opts tr d (Ok resp) ∧
     (is_redirect resp = false ∨ length (fetched tr) = S n)) ∧
  (∀ e, r = Err e → ∃ d, last_post endpoint opts tr d (Err e)).
Proof.
  revert domain tr r. induction n as [|n IH]; intros domain tr r; cbn [redirect_loop]; rewrite runs_bind;
    intros [(tr1 & tr2 & resp & -> & (nonce & ts & ans & -> & Ha)%authenticatedPost_runs & H2)
           |(e & (nonce & ts & ans & -> & Ha)%authenticatedPost_runs & ->)].
  - cbn [runs] in H2. destruct H2 as [-> ->]. split_and!; [simpl; lia|simpl; lia|rewrite ?app_nil_r; apply first_posts| |done].
    intros d resp' [= <- <-]. split; [|by right].
    eexists [_; _], _, ans. split_and!; [reflexivity|done|reflexivity].
  - split_and!; [simpl; lia|simpl; lia|rewrite ?app_nil_r; apply first_posts|done|].
    intros e' [= <-]. exists domain. eexists [_; _], _, ans. split_and!; [reflexivity|done|reflexivity].
  - set (first := [Ev RandomNonce nonce; Ev Now ts; Ev (Fetch _) ans]) in *.
    assert (Hlast : last_post endpoint opts first domain (Ok resp)).
    { eexists [_; _], _, ans. split_and!; [reflexivity|done|reflexivity]. }
    assert (Hposts : Forall (posts_to endpoint opts) first) by apply first_posts.
    assert (Hdone : runs (Ret (domain, resp) : M _) tr2 r → is_redirect resp = false →
      (1 <= length (fetched (first ++ tr2)) <= S (S n))%nat ∧ Forall (posts_to endpoint opts) (first ++ tr2) ∧
      (∀ d resp, r = Ok (d, resp) → last_post endpoint opts (first ++ tr2) d (Ok resp) ∧
         (is_redirect resp = false ∨ length (fetched (first ++ tr2)) = S (S n))) ∧
      (∀ e, r = Err e → ∃ d, last_post endpoint opts (first ++ tr2) d (Err e))).
    { cbn [runs]. intros [-> ->] Hr. rewrite app_nil_r. split_and!; [simpl; lia|simpl; lia|done| |done].
      intros d resp' [= <- <-]. split; [done|by left]. }
    destruct (status_is 1030 resp) eqn:E1; [|by apply Hdone; [done|unfold is_redirect; rewrite E1]].
    destruct (path ["data"; "domain"] (ar_body resp)) as [| | | |next| |] eqn:E2;
      try (by apply Hdone; [done|unfold is_redirect; rewrite E1, E2]).
    destruct (str_truthy next) eqn:E3; [|by apply Hdone; [done|unfold is_redirect; rewrite E1, E2, E3]].
    clear Hdone. apply IH in H2 as (Hn & Hf & Hok & Herr).
    assert (Hlen : length (fetched (first ++ tr2)) = S (length (fetched tr2))) by done.
    rewrite Hlen. split_and!; [lia|lia|by apply Forall_app| |].
    + intros d resp' Hr. destruct (Hok _ _ Hr) as [(pre & rq & ans' & -> & ? & ?) Hor].
      split; [|destruct Hor; [by left|right; lia]].
      exists (first ++ pre), rq, ans'. by rewrite app_assoc.
    + intros e Hr. destruct (Herr _ Hr) as (d & pre & rq & ans' & -> & ? & ?).
      exists d, (first ++ pre), rq, ans'. by rewrite app_assoc.
  - split_and!; [simpl; lia|simpl; lia|rewrite ?app_nil_r; apply first_posts|done|].
    intros e' [= <-]. exists domain. eexists [_; _], _, ans. split_and!; [reflexivity|done|reflexivity].
Qed.

(** A call to the cloud makes one to three requests, each a POST to its endpoint; the reply it
    returns is the reply of the last one, from the domain it returns, and is a redirect only when the
    attempts are used up; a failed request or an unusable reply is an exception. *)
Theorem postWithRedirect_spec endpoint params domain opts tr r :
  runs (postWithRedirect endpoint params domain opts : M _) tr r →
  (1 <= length (fetched tr) <= 3)%nat ∧ Forall (posts_to endpoint opts) tr ∧
  (∀ d resp, r = Ok (d, resp) → last_post endpoint opts tr d (Ok resp) ∧
     (is_redirect resp = false ∨ length (fetched tr) = 3%nat)) ∧
  (∀ e, r = Err e → ∃ d, last_post endpoint opts tr d (Err e)).
Proof. apply redirect_loop_runs. Qed.

(** The attempts of a sign-in: every candidate before the last tried answered 1004. *)
Lemma login_loop_runs params opts cands tr r :
  runs (login_loop params opts cands : M _) tr r → cands ≠ [] →
  ∃ pre c post trs trc rc,
    cands = pre ++ c :: post ∧ tr = concat trs ++ trc ∧
    Forall2 (λ c' t, ∃ res, runs (postWithRedirect sign_in_endpoint params c' opts : M _) t (Ok res) ∧
                           status_is 0 (snd res) = false ∧ status_is 1004 (snd res) = true) pre trs ∧
    runs (postWithRedirect sign_in_endpoint params c opts : M _) trc rc ∧
    r = (let? x := rc in Ok (Some x)) ∧
    (∀ res, rc = Ok res → status_is 0 (snd res) = true ∨ post = [] ∨ status_is 1004 (snd res) = false).
Proof.
  revert tr r. induction cands as [|c rest IH]; intros tr r Hruns Hne; [done|].
  cbn [login_loop] in Hruns. rewrite runs_bind in Hruns.
  destruct Hruns as [(tr1 & tr2 & res & -> & H1 & H2)|(e & H1 & ->)].
  - assert (Hstop : runs (Ret (Some res) : M _) tr2 r →
      (status_is 0 (snd res) = true ∨ rest = [] ∨ status_is 1004 (snd res) = false) →
      ∃ pre c0 post trs trc rc, c :: rest = pre ++ c0 :: post ∧ tr1 ++ tr2 = concat trs ++ trc ∧
        Forall2 (λ c' t, ∃ res, runs (postWithRedirect sign_in_endpoint params c' opts : M _) t (Ok res) ∧
           status_is 0 (snd res) = false ∧ status_is 1004 (snd res) = true) pre trs ∧
        runs (postWithRedirect sign_in_endpoint params c0 opts : M _) trc rc ∧
        r = (let? x := rc in Ok (Some x)) ∧
        (∀ res, rc = Ok res → status_is 0 (snd res) = true ∨ post = [] ∨ status_is 1004 (snd res) = false)).
    { cbn [runs]. intros [-> ->] Hs. exists [], c, rest, [], tr1, (Ok res). rewrite app_nil_r.
      split_and!; [done|done|constructor|done|done|by intros ? [= <-]]. }
    destruct (status_is 0 (snd res)) eqn:E0; [by apply Hstop; [done|auto]|].
    destruct rest as [|c2 rest']; [by apply Hstop; [done|auto]|].
    destruct (status_is 1004 (snd res)) eqn:E4; [|by apply Hstop; [done|auto]].
    destruct (IH _ _ H2) as (pre & c0 & post & trs & trc & rc & Hc & -> & Hf & Hr & -> & Hend); [done|].
    exists (c :: pre), c0, post, (tr1 :: trs), trc, rc. rewrite Hc. cbn [app concat]. rewrite <- app_assoc.
    split_and!; try done. constructor; [by exists res|done].
  - exists [], c, rest, [], tr, (Err e). by split_and!.
Qed.

Lemma fetched_app tr1 tr2 : fetched (tr1 ++ tr2) = fetched tr1 ++ fetched tr2.
Proof. unfold fetched. by rewrite omap_app. Qed.

Lemma tries_requests params opts pre trs :
  Forall2 (λ c' t, ∃ res, runs (postWithRedirect sign_in_endpoint params c' opts : M _) t (Ok res) ∧
                         status_is 0 (snd res) = false ∧ status_is 1004 (snd res) = true) pre trs →
  (length (fetched (concat trs)) <= 3 * length pre)%nat ∧ Forall (posts_to sign_in_endpoint opts) (concat trs).
Proof.
  induction 1 as [|c t pre trs (res & Ht & _) Hf [IH1 IH2]]; [by simpl|].
  apply redirect_loop_runs in Ht as ([_ Hle] & Hp & _). simpl. rewrite fetched_app, length_app.
  split; [lia|by apply Forall_app].
Qed.

Lemma domainCandidates_length d : (1 <= length (domainCandidates d) <= 4)%nat.
Proof.
  unfold domainCandidates. destruct (d ≫= nonempty) as [w|]; [|by vm_compute; lia].
  case_bool_decide as Hin; [|simpl; lia]. cbn [length]. split; [lia|]. apply le_n_S.
  assert (length (filter (λ x, x ≠ stripScheme w) (map stripScheme DEFAULT_FALLBACK_DOMAINS)) < 4)%nat; [|lia].
  eapply Nat.lt_le_trans; [eapply (length_filter_lt _ _ (stripScheme w)); [exact Hin|naive_solver]|done].
Qed.

Lemma last_post_app endpoint opts tr0 tr d r :
  last_post endpoint opts tr d r → last_post endpoint opts (tr0 ++ tr) d r.
Proof. intros (pre & rq & ans & -> & ? & ?). exists (tr0 ++ pre), rq, ans. by rewrite <- app_assoc. Qed.

Lemma login_creds_ok params d resp creds : login_creds params d resp = Ok creds →
  cc_token creds ≠ "" ∧ cc_key creds ≠ "" ∧ cc_userId creds ≠ "".
Proof.
  unfold login_creds. destruct (_ || _ || _) eqn:E; [done|]. intros [= <-]. bool_hyps.
  cbn [cc_token cc_key cc_userId]. by rewrite <- !str_truthy_spec.
Qed.

(** The runs of a sign-in are those of its loop, with the platform read before. *)
Lemma merossCloudLogin_runs params options tr r :
  runs (merossCloudLogin LOG_IDENTIFIER params options : M _) tr r →
  let opts := {| co_token := None; co_scheme := cl_scheme options ?: "https";
                 co_timeoutMs := cl_timeoutMs options ?: num_of_Z 15000 |} in
  ∃ os tr' r', tr = Ev OsInfo os :: tr' ∧
    runs (login_loop (sign_in_params LOG_IDENTIFIER params os) opts (domainCandidates (cl_domain options)) : M _) tr' r' ∧
    r = (let? last := r' in
         match last with
         | Some (d, resp) =>
             if status_is 0 resp then login_creds params d resp
             else Err (CloudError "Cloud signIn failed" (Some (ar_apiStatus resp)) (ar_info resp))
         | None => Err (CloudError "Cloud signIn failed" None VUndef)
         end).
Proof.
  unfold merossCloudLogin, sys. cbn [bind runs]. intros (os & tr' & -> & H1). exists os, tr'.
  rewrite runs_bind in H1. destruct H1 as [(tr1 & tr2 & last & -> & H1 & H2)|(e & H1 & ->)];
    [|by exists (Err e)].
  exists (Ok last). assert (tr2 = [] ∧ r = (let? last := Ok last in
         match last with
         | Some (d, resp) =>
             if status_is 0 resp then login_creds params d resp
             else Err (CloudError "Cloud signIn failed" (Some (ar_apiStatus resp)) (ar_info resp))
         | None => Err (CloudError "Cloud signIn failed" None VUndef)
         end)) as [-> ->]; [|by rewrite app_nil_r].
  cbn [rbind]. destruct last as [[d resp]|]; [|done]. destruct (status_is 0 resp); [|done].
  by destruct (login_creds params d resp).
Qed.

(** C23: a sign-in makes at most twelve requests, all to the sign-in endpoint, tries the candidate
    domains in order and goes on to the next one only after status 1004; what it returns is decided
    by the last candidate tried alone. *)
Theorem merossCloudLogin_order params options tr r :
  runs (merossCloudLogin LOG_IDENTIFIER params options : M _) tr r →
  let opts := {| co_token := None; co_scheme := cl_scheme options ?: "https";
                 co_timeoutMs := cl_timeoutMs options ?: num_of_Z 15000 |} in
  (length (fetched tr) <= 12)%nat ∧ Forall (posts_to sign_in_endpoint opts) tr ∧
  ∃ os pre c post trs trc rc,
    domainCandidates (cl_domain options) = pre ++ c :: post ∧ tr = Ev OsInfo os :: concat trs ++ trc ∧
    let attempt c' := (postWithRedirect sign_in_endpoint (sign_in_params LOG_IDENTIFIER params os) c' opts : M _) in
    Forall2 (λ c' t, ∃ res, runs (attempt c') t (Ok res) ∧ status_is 1004 (snd res) = true) pre trs ∧
    runs (attempt c) trc rc ∧
    (∀ e, rc = Err e → r = Err e) ∧
    (∀ d resp, rc = Ok (d, resp) →
       (status_is 0 resp = true → r = login_creds params d resp) ∧
       (status_is 0 resp = false →
        r = Err (CloudError "Cloud signIn failed" (Some (ar_apiStatus resp)) (ar_info resp)) ∧
        (post = [] ∨ status_is 1004 resp = false))).
Proof.
  intros (os & tr' & r' & -> & Hl & ->)%merossCloudLogin_runs. cbv zeta.
  pose proof (domainCandidates_length (cl_domain options)) as Hlen.
  apply login_loop_runs in Hl as (pre & c & post & trs & trc & rc & Hc & -> & Hpre & Hrc & -> & Hend);
    [|by intros E; rewrite E in Hlen; simpl in Hlen; lia].
  pose proof (tries_requests _ _ _ _ Hpre) as [Hn Hp].
  destruct (redirect_loop_runs _ _ _ _ _ _ _ Hrc) as ([_ Hm] & Hq & _).
  rewrite Hc, length_app in Hlen. cbn [length] in Hlen. split_and!.
  - change (fetched (?e :: ?l)) with (fetched l). rewrite fetched_app, length_app. lia.
  - constructor; [done|]. by apply Forall_app.
  - exists os, pre, c, post, trs, trc, rc. split_and!; [done|done| |done| |].
    + eapply Forall2_impl; [exact Hpre|]. intros c' t (res & ? & _ & ?). by exists res.
    + by intros e ->.
    + intros d resp ->. cbn [rbind]. split; intros E; rewrite E; [done|]. split; [done|].
      destruct (Hend _ eq_refl) as [H'|[H'|H']]; [cbn [snd] in H'; congruence|by left|by right].
Qed.

(** Credentials come only from a reply with status 0, the last one received, and hold a
    non-empty token, key and user id; every other outcome is an exception. *)
Theorem merossCloudLogin_creds params options tr r :
  runs (merossCloudLogin LOG_IDENTIFIER params options : M _) tr r →
  let opts := {| co_token := None; co_scheme := cl_scheme options ?: "https";
                 co_timeoutMs := cl_timeoutMs options ?: num_of_Z 15000 |} in
  ∀ creds, r = Ok creds →
    cc_token creds ≠ "" ∧ cc_key creds ≠ "" ∧ cc_userId creds ≠ "" ∧
    ∃ d resp, last_post sign_in_endpoint opts tr d (Ok resp) ∧ status_is 0 resp = true ∧
      login_creds params d resp = Ok creds.
Proof.
  intros (os & tr' & r' & -> & Hl & ->)%merossCloudLogin_runs. cbv zeta. intros creds Hr.
  apply rbind_Ok in Hr as ([[d resp]|] & -> & Hr); [|done].
  destruct (status_is 0 resp) eqn:E0; [|done].
  destruct (login_creds_ok _ _ _ _ Hr) as (? & ? & ?). split_and!; [done..|].
  pose proof (domainCandidates_length (cl_domain options)) as Hlen.
  apply login_loop_runs in Hl as (pre & c & post & trs & trc & rc & Hc & -> & _ & Hrc & Heq & _);
    [|by intros E; rewrite E in Hlen; simpl in Hlen; lia].
  destruct rc as [[d' resp']|]; [|done]. injection Heq as -> ->.
  destruct (redirect_loop_runs _ _ _ _ _ _ _ Hrc) as (_ & _ & Hok & _).
  destruct (Hok _ _ eq_refl) as [Hlast _]. exists d', resp'. split_and!; [|done|done].
  by apply (last_post_app _ _ (Ev OsInfo os :: concat trs) trc).
Qed.

Lemma device_list_ok v l : device_list v = Some l →
  v = VArr l ∧ (∀ d, head l = Some d → isDeviceLike d = true).
Proof.
  unfold device_list. intros H0. split_matches H0; (split; [done|]); naive_solver.
Qed.

Lemma extractCloudDeviceList_ok data l : extractCloudDeviceList data = Some l →
  ∀ d, head l = Some d → isDeviceLike d = true.
Proof.
  unfold extractCloudDeviceList. destruct (device_list (coerceJson data)) as [l'|] eqn:E1.
  { intros [= <-]. by apply device_list_ok in E1 as [_ ?]. }
  destruct (is_object _); [|done]. intros (c & _ & Hc)%first_some_Some.
  unfold device_candidate in Hc. destruct (device_list c) as [l'|] eqn:E2.
  { injection Hc as <-. by apply device_list_ok in E2 as [_ ?]. }
  destruct (is_object c); [|done]. apply first_some_Some in Hc as (c' & _ & Hc).
  by apply device_list_ok in Hc as [_ ?].
Qed.

(** The device list is asked with the stored token at the stored domain, in at most three
    requests; a list is returned only on status 0, and is empty or starts with a device that has a
    textual uuid. *)
Theorem merossCloudListDevices_spec creds timeoutMs tr r :
  runs (merossCloudListDevices creds timeoutMs : M _) tr r →
  let opts := {| co_token := Some (cc_token creds); co_scheme := "https"; co_timeoutMs := timeoutMs ?: num_of_Z 15000 |} in
  (1 <= length (fetched tr) <= 3)%nat ∧ Forall (posts_to "/v1/Device/devList" opts) tr ∧
  ∀ l, r = Ok l → (∀ d, head l = Some d → isDeviceLike d = true) ∧
    ∃ d resp, last_post "/v1/Device/devList" opts tr d (Ok resp) ∧ status_is 0 resp = true ∧
      extractCloudDeviceList (ar_data resp) = Some l.
Proof.
  unfold merossCloudListDevices. rewrite runs_bind. cbv zeta.
  intros [(tr1 & tr2 & [d resp] & -> & H1 & H2)|(e & H1 & ->)];
    apply redirect_loop_runs in H1 as (Hn & Hf & Hok & Herr);
    [|split_and!; [lia|lia|done|by intros]].
  destruct (Hok _ _ eq_refl) as [Hlast _].
  assert (tr2 = [] ∧ (∀ l, r = Ok l → status_is 0 resp = true ∧ extractCloudDeviceList (ar_data resp) = Some l))
    as [-> Hr].
  { destruct (status_is 0 resp); cbn [negb] in H2; [|by destruct H2 as [-> ->]].
    destruct (extractCloudDeviceList (ar_data resp)); destruct H2 as [-> ->]; (split; [done|]); [|done].
    by intros l' [= <-]. }
  rewrite app_nil_r. split_and!; [lia|lia|done|]. intros l Hl. destruct (Hr l Hl) as [H0 Hx].
  split; [by eapply extractCloudDeviceList_ok|]. eauto.
Qed.
End Facts.

(** ** Witnesses *)

Definition login_ok_reply : val :=
  mk_obj [("apiStatus", VZ 0); ("data", mk_obj
    [("token", VStr "t"); ("key", VStr "k"); ("userid", VZ 7); ("domain", VStr "https://iotx-eu.meross.com/")])].

(** 1004 from the first domain, a redirect from the second one, then success. *)
Definition login_network (n : nat) (rq : http_request) : result http_response :=
  if starts_with "https://iotx.meross.com" (rq_url rq) then json_response (mk_obj [("apiStatus", VZ 1004)])
  else if starts_with "https://iotx-ap.meross.com" (rq_url rq)
  then json_response (mk_obj [("apiStatus", VZ 1030); ("data", mk_obj [("domain", VStr "https://iotx-eu.meross.com/")])])
  else json_response login_ok_reply.

Definition login_params : LoginParams := {| lp_email := "a@b"; lp_password := "p"; lp_mfaCode := None |}.
Definition login_options : cloud_options := {| cl_domain := None; cl_scheme := None; cl_timeoutMs := None |}.

Definition login_run : list sys_event * result MerossCloudCredentials :=
  exec (test_oracle (R := unit) tt (λ _, Ok tt) Unreadable login_network) 0
    (@merossCloudLogin unit unit test_runtime "id" login_params login_options).

Lemma merossCloudLogin_creds_witness : ∃ creds, snd login_run = Ok creds ∧
  cc_domain creds = "iotx-eu.meross.com" ∧ cc_userId creds = "7" ∧ cc_key creds ≠ "".
Proof.
  eexists. split; [vm_compute; reflexivity|]. split; [reflexivity|]. split; [reflexivity|].
  pose proof (@merossCloudLogin_creds unit unit test_runtime "id" login_params login_options _ _
    (exec_runs (test_oracle tt (λ _, Ok tt) Unreadable login_network) 0 _)) as H.
  destruct (H _ ltac:(vm_compute; reflexivity)) as (_ & Hk & _). exact Hk.
Defined.

Lemma merossCloudLogin_order_witness : length (fetched (fst login_run)) = 3%nat ∧ (length (fetched (fst login_run)) <= 12)%nat.
Proof.
  split; [vm_compute; reflexivity|].
  exact (proj1 (@merossCloudLogin_order unit unit test_runtime "id" login_params login_options _ _
    (exec_runs (test_oracle tt (λ _, Ok tt) Unreadable login_network) 0 _))).
Defined.

Lemma postWithRedirect_spec_witness :
  let p := @postWithRedirect unit unit test_runtime "/x" (VObj []) "http://iotx-ap.meross.com"
             {| co_token := None; co_scheme := "https"; co_timeoutMs := num_of_Z 15000 |} in
  let tr := fst (exec (test_oracle tt (λ _, Ok tt) Unreadable login_network) 0 p) in
  length (fetched tr) = 2%nat ∧ (length (fetched tr) <= 3)%nat.
Proof.
  cbv zeta. split; [vm_compute; reflexivity|].
  exact (proj2 (proj1 (@postWithRedirect_spec unit unit test_runtime "/x" (VObj []) "http://iotx-ap.meross.com"
    {| co_token := None; co_scheme := "https"; co_timeoutMs := num_of_Z 15000 |} _ _
    (exec_runs (test_oracle tt (λ _, Ok tt) Unreadable login_network) 0 _)))).
Defined.

Lemma merossCloudListDevices_spec_witness :
  let creds := {| cc_domain := "iotx-ap.meross.com"; cc_mqttDomain := None; cc_token := "t"; cc_key := "k";
                  cc_userId := "7"; cc_userEmail := "a@b" |} in
  let net := λ (_ : nat) (_ : http_request),
    json_response (mk_obj [("apiStatus", VZ 0); ("data", mk_obj [("devList", VArr [mk_obj [("uuid", VStr "u1")]])])]) in
  let run := exec (test_oracle tt (λ _, Ok tt) Unreadable net) 0 (@merossCloudListDevices unit unit test_runtime creds None) in
  snd run = Ok [mk_obj [("uuid", VStr "u1")]] ∧ isDeviceLike (mk_obj [("uuid", VStr "u1")]) = true.
Proof.
  cbv zeta. split; [vm_compute; reflexivity|].
  match goal with |- isDeviceLike ?d = true =>
    pose proof (@merossCloudListDevices_spec unit unit test_runtime
      {| cc_domain := "iotx-ap.meross.com"; cc_mqttDomain := None; cc_token := "t"; cc_key := "k";
         cc_userId := "7"; cc_userEmail := "a@b" |} None _ _
      (exec_runs (test_oracle tt (λ _, Ok tt) Unreadable (λ (_ : nat) (_ : http_request),
         json_response (mk_obj [("apiStatus", VZ 0); ("data", mk_obj [("devList", VArr [d])])]))) 0 _)) as (_ & _ & H);
    apply (proj1 (H [d] ltac:(vm_compute; reflexivity)))
  end. reflexivity.
Defined.
