(* ===== verification/Inventory.v ===== *)
(** * Device inventory and cloud dumps

    packages/core/src/meross/inventory.ts ([groupDevicesForControl]: the devices that can be
    controlled and those without a LAN host), dump.ts ([parseMerossCloudDump]) and the credential
    helpers of packages/core/src/api/shared.ts ([summarizeCloud], [inferMfaRequired]). *)

From S2P Require Export Runtime.

Local Open Scope string_scope.
Local Open Scope Z_scope.
Local Open Scope list_scope.

(** ** Inventory *)

Record InventoryDevice := {
  iv_uuid : string; iv_name : string; iv_type : string; iv_online : string;
  iv_host : option string; iv_mac : option string; iv_hostUpdatedAt : option string }.

Definition norm (s : string) : string := to_lower (trim s).

Definition newline_text : string := String newline EmptyString.

(** Empty names sort last. *)
Definition deviceSortKey (d : InventoryDevice) : string :=
  let name := norm (iv_name d) in
  let nameKey := if str_truthy name then "0:" +:+ name else "1:" in
  nameKey +:+ newline_text +:+ norm (iv_type d) +:+ newline_text +:+ norm (iv_uuid d).

(** [entry?.k ? String(entry.k) : null] *)
Definition entry_text (field : host_entry → option string) (entry : option host_entry) : option string :=
  match entry with
  | Some h => match field h with Some s => nonempty s | None => None end
  | None => None
  end.

Definition inventory_device (hosts : list (string * host_entry)) (d : val) : option InventoryDevice :=
  let uuid := str_or_empty (prop "uuid" d) in
  if negb (str_truthy uuid) then None
  else
    let hostEntry := jget uuid hosts in
    Some {| iv_uuid := uuid;
            iv_name := str_or_empty (prop "devName" d);
            iv_type := join " / " (map to_str (List.filter truthy [prop "deviceType" d; prop "subType" d]));
            iv_online := str_or_empty (prop "onlineStatus" d);
            iv_host := entry_text (λ h, Some (he_host h)) hostEntry;
            iv_mac := entry_text he_mac hostEntry;
            iv_hostUpdatedAt := entry_text (λ h, Some (he_updatedAt h)) hostEntry |}.

Record inventory := { in_ready : list InventoryDevice; in_inaccessible : list InventoryDevice }.

Section Group.
Context `{Runtime}.

Definition inventory_cmp (a b : InventoryDevice) : Z := localeCompare (deviceSortKey a) (deviceSortKey b).

Definition has_host (d : InventoryDevice) : bool := match iv_host d with Some _ => true | None => false end.

Definition groupDevicesForControl (devices : list val) (hosts : list (string * host_entry)) : inventory :=
  let invs := omap (inventory_device hosts) devices in
  {| in_ready := js_sort inventory_cmp (List.filter has_host invs);
     in_inaccessible := js_sort inventory_cmp (List.filter (λ d, negb (has_host d)) invs) |}.

Lemma filter_split {A} (p : A → bool) (l : list A) : List.filter p l ++ List.filter (λ x, negb (p x)) l ≡ₚ l.
Proof.
  induction l as [|x l IH]; simpl; [done|]. destruct (p x); simpl.
  - by rewrite IH.
  - by rewrite <- Permutation_middle, IH.
Qed.

(** The two groups of the inventory hold each device with a uuid exactly once; a device is ready
    exactly when a non-empty LAN host is stored for its uuid, and both groups are in the order of
    the sort key. *)
Theorem groupDevicesForControl_spec devices hosts :
  let g := groupDevicesForControl devices hosts in
  in_ready g ++ in_inaccessible g ≡ₚ omap (inventory_device hosts) devices ∧
  Forall (λ d, iv_uuid d ≠ "" ∧ is_Some (iv_host d) ∧ iv_host d = entry_text (λ h, Some (he_host h)) (jget (iv_uuid d) hosts))
    (in_ready g) ∧
  Forall (λ d, iv_uuid d ≠ "" ∧ entry_text (λ h, Some (he_host h)) (jget (iv_uuid d) hosts) = None) (in_inaccessible g) ∧
  StronglySorted (cmp_le inventory_cmp) (in_ready g) ∧ StronglySorted (cmp_le inventory_cmp) (in_inaccessible g).
Proof.
  cbv zeta. unfold groupDevicesForControl. cbn [in_ready in_inaccessible].
  assert (Hin : ∀ p d, In d (List.filter p (omap (inventory_device hosts) devices)) → p d = true ∧
    iv_uuid d ≠ "" ∧ iv_host d = entry_text (λ h, Some (he_host h)) (jget (iv_uuid d) hosts)).
  { intros p d [Hd Hp]%filter_In. split; [done|].
    apply list_elem_of_In, list_elem_of_omap in Hd as (v & _ & Hv). unfold inventory_device in Hv.
    destruct (str_truthy _) eqn:E; [|done]. simpl in Hv. injection Hv as <-. cbn. split; [|done].
    by apply str_truthy_spec. }
  assert (Hsorted : ∀ l, StronglySorted (cmp_le inventory_cmp) (js_sort inventory_cmp l)).
  { intros l. apply js_sort_sorted.
    - intros a b. unfold cmp_le, inventory_cmp. apply coll_total.
    - intros a b c. unfold cmp_le, inventory_cmp. apply coll_trans. }
  split_and!; [|apply Forall_js_sort, List.Forall_forall|apply Forall_js_sort, List.Forall_forall|done|done].
  - rewrite !js_sort_perm. apply filter_split.
  - intros d (Hp & Hu & Hh)%Hin. split_and!; [done| |done]. unfold has_host in Hp. by destruct (iv_host d).
  - intros d (Hp & Hu & Hh)%Hin. split; [done|]. rewrite <- Hh. unfold has_host in Hp. by destruct (iv_host d).
Qed.
End Group.

(** With a byte-wise collation a device without a name comes after every named one. *)
Lemma byte_compare_named w s t : (byte_compare ("1:" +:+ s) ("0:" +:+ w +:+ t) > 0)%Z.
Proof. vm_compute. done. Qed.

(** ** Cloud dumps (dump.ts) *)

Definition parseMerossCloudDump (json : string) : result val :=
  match json_parse json with
  | None => Err (DumpParseError "Invalid JSON")
  | Some parsed =>
      let cloud := prop "cloud" parsed in
      if negb (is_object parsed) then Err (DumpParseError "Expected object")
      else if negb (is_object cloud) then Err (DumpParseError "Missing cloud object")
      else if negb (is_string (prop "domain" cloud)) || negb (is_string (prop "key" cloud))
              || negb (is_string (prop "mqtt_domain" cloud))
      then Err (DumpParseError "cloud.domain, cloud.key, cloud.mqtt_domain are required")
      else if negb (is_array (prop "devices" parsed)) then Err (DumpParseError "devices must be an array")
      else Ok parsed
  end.

(** ** Credentials (api/shared.ts) *)

Record cloud_summary := {
  su_domain : string; su_mqttDomain : option string; su_userId : string; su_userEmail : string;
  su_key : string; su_tokenRedacted : string }.

(** The ellipsis of the source, in UTF-8. *)
Definition ellipsis : string := utf8 8230.

Definition summarizeCloud (cloud : MerossCloudCredentials) : cloud_summary :=
  {| su_domain := cc_domain cloud; su_mqttDomain := cc_mqttDomain cloud; su_userId := cc_userId cloud;
     su_userEmail := cc_userEmail cloud; su_key := cc_key cloud;
     su_tokenRedacted := if str_truthy (cc_token cloud)
                         then str_take 4 (cc_token cloud) +:+ ellipsis +:+ str_last 4 (cc_token cloud) else "" |}.

Definition summary_val (s : cloud_summary) : val :=
  mk_obj [("domain", VStr (su_domain s)); ("mqttDomain", from_option VStr VUndef (su_mqttDomain s));
          ("userId", VStr (su_userId s)); ("userEmail", VStr (su_userEmail s)); ("key", VStr (su_key s));
          ("tokenRedacted", VStr (su_tokenRedacted s))].

(** [(e.info ?? '').toLowerCase()] throws on an [info] that is neither absent nor a text. *)
Definition inferMfaRequired (e : exn) : result bool :=
  match e with
  | CloudError _ _ info =>
      match coalesce info (VStr "") with
      | VStr s =>
          let i := to_lower s in
          Ok (includes "mfa" i || includes "totp" i || includes "verify" i || includes "verification" i)
      | _ => Err (JsError "toLowerCase is not a function")
      end
  | _ => Ok false
  end.
