(* ===== verification/Scan.v ===== *)
(** * Scanning the LAN

    The worker pools of packages/core/src: [resolveHostByUuidScan] (meross/lan/discovery.ts), the
    probe loop of api/discover-hosts.ts and [pingSweep] (meross/lan/ping-sweep.ts). A pool is a shared
    index, an accumulator and workers that each wait for one probe; a step delivers one reply, in any
    order, and runs that worker to its next [await]. *)

From S2P Require Export Lan Inventory.

Local Open Scope string_scope.
Local Open Scope Z_scope.
Local Open Scope list_scope.

(** ** Worker pools *)

Inductive wstate : Type :=
| WWait (idx : nat)
| WDone.

Section Pool.
(** [A] is the accumulator, [Rep] what a probe ends with; [absorb] is the code that follows a probe
    and [stop] the test at the head of the loop. *)
Context {A Rep : Type} (ips : list string) (absorb : A → string → Rep → A) (stop : A → bool).

Record pool := { po_next : nat; po_acc : A; po_workers : list wstate; po_probed : list nat }.

(** One iteration up to its [await]: [if (found) return; const idx = i++; if (idx >= ips.length) return]. *)
Definition loop_head (p : pool) : pool * wstate :=
  if stop (po_acc p) then (p, WDone)
  else
    let idx := po_next p in
    let p' := {| po_next := S idx; po_acc := po_acc p; po_workers := po_workers p; po_probed := po_probed p |} in
    if Nat.leb (length ips) idx then (p', WDone)
    else ({| po_next := S idx; po_acc := po_acc p; po_workers := po_workers p; po_probed := po_probed p ++ [idx] |},
          WWait idx).

(** [Array.from({ length }, () => (async () => ...)())]: each worker starts at once. *)
Fixpoint start_workers (n : nat) (p : pool) : pool :=
  match n with
  | O => p
  | S n' =>
      let '(p', w) := loop_head p in
      start_workers n' {| po_next := po_next p'; po_acc := po_acc p'; po_workers := po_workers p' ++ [w];
                          po_probed := po_probed p' |}
  end.

Definition start (acc : A) (n : nat) : pool :=
  start_workers n {| po_next := 0; po_acc := acc; po_workers := []; po_probed := [] |}.

(** The reply to worker [w]. *)
Definition deliver (w : nat) (r : Rep) (p : pool) : option pool :=
  match po_workers p !! w with
  | Some (WWait idx) =>
      match ips !! idx with
      | Some ip =>
          let '(p', st) := loop_head {| po_next := po_next p; po_acc := absorb (po_acc p) ip r;
                                        po_workers := po_workers p; po_probed := po_probed p |} in
          Some {| po_next := po_next p'; po_acc := po_acc p'; po_workers := <[w := st]> (po_workers p');
                  po_probed := po_probed p' |}
      | None => None
      end
  | _ => None
  end.

Inductive pool_steps : pool → nat → pool → Prop :=
| pool_here p : pool_steps p 0 p
| pool_step p n q w r q' : pool_steps p n q → deliver w r q = Some q' → pool_steps p (S n) q'.

Definition pool_done (p : pool) : bool := forallb (λ w, match w with WDone => true | _ => false end) (po_workers p).

(** How a scan can end: [await Promise.all(workers)] returns with this accumulator. *)
Definition scan_outcome (acc : A) (n : nat) (res : A) : Prop :=
  ∃ k p, pool_steps (start acc n) k p ∧ pool_done p = true ∧ po_acc p = res.

(** *** The invariant *)

Definition waiting (ws : list wstate) : list nat :=
  omap (λ w, match w with WWait idx => Some idx | WDone => None end) ws.

(** The addresses probed are the first ones, in order; the workers wait for distinct ones of them;
    a worker that is done means that the scan has stopped or run out of addresses. *)
Record pool_inv (n : nat) (p : pool) : Prop := {
  pi_probed : po_probed p = seq 0 (Nat.min (po_next p) (length ips));
  pi_waiting : NoDup (waiting (po_workers p));
  pi_range : Forall (λ i, (i < Nat.min (po_next p) (length ips))%nat) (waiting (po_workers p));
  pi_workers : (length (po_workers p) <= n)%nat;
  pi_done : WDone ∈ po_workers p → stop (po_acc p) = true ∨ (length ips <= po_next p)%nat;
}.

Lemma waiting_app ws1 ws2 : waiting (ws1 ++ ws2) = waiting ws1 ++ waiting ws2.
Proof. unfold waiting. by rewrite omap_app. Qed.

Lemma waiting_length ws : (length (waiting ws) <= length ws)%nat.
Proof.
  induction ws as [|w ws IH]; [done|]. change (w :: ws) with ([w] ++ ws).
  rewrite waiting_app, !length_app. destruct w; simpl; lia.
Qed.

Lemma waiting_insert ws w i st : ws !! w = Some (WWait i) →
  i :: waiting (<[w := st]> ws) ≡ₚ waiting [st] ++ waiting ws.
Proof.
  intros Hw. rewrite <- (take_drop_middle _ _ _ Hw) at 2.
  rewrite insert_take_drop by (by eapply lookup_lt_Some).
  rewrite !waiting_app. change (waiting (?x :: ?l)) with (waiting ([x] ++ l)). rewrite !waiting_app.
  change (waiting [WWait i]) with [i]. simpl (waiting [st]). solve_Permutation.
Qed.

Lemma loop_head_spec p : po_probed p = seq 0 (Nat.min (po_next p) (length ips)) →
  let p' := fst (loop_head p) in let st := snd (loop_head p) in
  po_acc p' = po_acc p ∧ po_workers p' = po_workers p ∧ (po_next p <= po_next p')%nat ∧
  po_probed p' = seq 0 (Nat.min (po_next p') (length ips)) ∧
  length (po_probed p') = (length (po_probed p) + length (waiting [st]))%nat ∧
  match st with
  | WWait i => i = po_next p ∧ (i < length ips)%nat ∧ po_next p' = S i
  | WDone => stop (po_acc p) = true ∨ (length ips <= po_next p')%nat
  end.
Proof.
  intros Hp. unfold loop_head. destruct (stop (po_acc p)); cbn [fst snd po_acc po_workers po_next po_probed].
  { split_and!; auto; simpl; lia. }
  destruct (Nat.leb (length ips) (po_next p)) eqn:E; cbn [fst snd po_acc po_workers po_next po_probed].
  - apply Nat.leb_le in E. rewrite Hp, !Nat.min_r by lia. split_and!; auto; simpl; lia.
  - apply Nat.leb_gt in E. rewrite length_app, Hp, !Nat.min_l by lia.
    rewrite (seq_S (po_next p)). split_and!; auto; simpl; lia.
Qed.

(** The head of the loop does not look at the other workers. *)
Lemma loop_head_workers nx acc ws ws' pr :
  loop_head {| po_next := nx; po_acc := acc; po_workers := ws'; po_probed := pr |} =
  (let '(p', st) := loop_head {| po_next := nx; po_acc := acc; po_workers := ws; po_probed := pr |} in
   ({| po_next := po_next p'; po_acc := po_acc p'; po_workers := ws'; po_probed := po_probed p' |}, st)).
Proof.
  unfold loop_head. cbn [po_next po_acc po_workers po_probed].
  destruct (stop acc); [done|]. by destruct (Nat.leb (length ips) nx).
Qed.

Hypothesis stop_absorb : ∀ acc ip r, stop acc = true → stop (absorb acc ip r) = true.

(** A worker moved to its next wait or to its end keeps the invariant. *)
Lemma pool_inv_head n p ws' :
  pool_inv n p →
  (waiting ws' ⊆+ waiting (po_workers p)) →
  (length ws' <= n)%nat →
  (WDone ∈ ws' → WDone ∈ po_workers p) →
  ∀ acc, (stop (po_acc p) = true → stop acc = true) →
  let q := {| po_next := po_next p; po_acc := acc; po_workers := ws'; po_probed := po_probed p |} in
  ∀ ws2, ws2 ≡ₚ snd (loop_head q) :: ws' → (length ws2 <= n)%nat →
  pool_inv n {| po_next := po_next (fst (loop_head q)); po_acc := po_acc (fst (loop_head q));
                po_workers := ws2; po_probed := po_probed (fst (loop_head q)) |}.
Proof.
  intros Hinv Hsub Hlen Hd acc Hstop q ws2 Hperm Hlen2.
  destruct (loop_head_spec q) as (Ha & Hw & Hn & Hp & _ & Hst); [apply Hinv|].
  assert (Hwait : waiting ws2 ≡ₚ waiting [snd (loop_head q)] ++ waiting ws').
  { rewrite <- waiting_app. unfold waiting. by rewrite Hperm. }
  assert (Hnd : NoDup (waiting ws')).
  { destruct (submseteq_Permutation _ _ Hsub) as [k Hk]. pose proof (pi_waiting _ _ Hinv) as H.
    rewrite Hk in H. by apply NoDup_app in H as [? _]. }
  assert (Hr : Forall (λ i, (i < Nat.min (po_next p) (length ips))%nat) (waiting ws')).
  { apply Forall_forall. intros i Hi. pose proof (pi_range _ _ Hinv) as Hr. rewrite Forall_forall in Hr.
    apply Hr. by eapply elem_of_submseteq. }
  split; cbn [po_next po_acc po_workers po_probed]; [done| | |done|].
  - rewrite Hwait. destruct (snd (loop_head q)) as [i|]; [|done]. apply NoDup_cons_2; [|done].
    intros Hi. rewrite Forall_forall in Hr. specialize (Hr _ Hi). destruct Hst as (-> & _). cbn in Hr. lia.
  - rewrite Hwait. apply Forall_app. split; [|eapply Forall_impl; [exact Hr|]; cbn in *; intros; lia].
    destruct (snd (loop_head q)) as [i|]; constructor; [|constructor]. destruct Hst as (-> & ? & ->). lia.
  - rewrite Hperm, Ha, elem_of_cons. intros [Hx|Hx].
    + rewrite <- Hx in Hst. cbn in Hst. exact Hst.
    + destruct (pi_done _ _ Hinv (Hd Hx)) as [H1|H1]; [left; by apply Hstop|right; cbn in Hn; lia].
Qed.

Lemma start_workers_inv n m p : pool_inv m p → (length (po_workers p) + n <= m)%nat →
  pool_inv m (start_workers n p) ∧
  length (po_workers (start_workers n p)) = (length (po_workers p) + n)%nat.
Proof.
  revert p. induction n as [|n IH]; intros p Hinv Hlen; cbn [start_workers]; [split; [done|lia]|].
  destruct (loop_head_spec p) as (Ha & Hw & _); [apply Hinv|].
  destruct (loop_head p) as [p' w] eqn:E. cbn [fst snd] in *.
  assert (H1 : pool_inv m {| po_next := po_next p'; po_acc := po_acc p'; po_workers := po_workers p' ++ [w];
                             po_probed := po_probed p' |}).
  { pose proof (pool_inv_head m p (po_workers p) Hinv) as H. specialize (H ltac:(done) ltac:(lia) ltac:(done)).
    specialize (H (po_acc p) ltac:(done)). cbv zeta in H.
    destruct p as [nx ac wk pr]. cbn in *. rewrite E in H. cbn in H. apply H; rewrite Hw; [solve_Permutation|].
    rewrite length_app. simpl. lia. }
  destruct (IH _ H1) as [H2 H3]; cbn [po_workers] in *; rewrite ?length_app, ?Hw in *; simpl in *; [lia|].
  split; [done|]. rewrite H3. lia.
Qed.

Lemma start_inv acc n : pool_inv n (start acc n) ∧ length (po_workers (start acc n)) = n.
Proof.
  unfold start. destruct (start_workers_inv n n
    {| po_next := 0; po_acc := acc; po_workers := []; po_probed := [] |}) as [H1 H2]; [|simpl; lia|done].
  split; cbn; [done|constructor|constructor|lia|by intros ?%elem_of_nil].
Qed.

Lemma deliver_inv n w r p q : deliver w r p = Some q → pool_inv n p →
  pool_inv n q ∧ length (po_workers q) = length (po_workers p).
Proof.
  unfold deliver. intros Hd Hinv. destruct (po_workers p !! w) as [[i|]|] eqn:Ew; [|done..].
  destruct (ips !! i) as [ip|] eqn:Ei; [|done].
  set (q0 := {| po_next := po_next p; po_acc := absorb (po_acc p) ip r; po_workers := po_workers p;
                po_probed := po_probed p |}) in *.
  destruct (loop_head_spec q0) as (Ha & Hw & _); [apply Hinv|].
  destruct (loop_head q0) as [p' st] eqn:E. cbn [fst snd] in *. injection Hd as <-. cbn [po_workers].
  rewrite Hw. change (po_workers q0) with (po_workers p).
  pose proof (take_drop_middle _ _ _ Ew) as Hws. pose proof (lookup_lt_Some _ _ _ Ew) as Hlt.
  pose proof (pi_workers _ _ Hinv) as Hlen. rewrite insert_take_drop by done.
  revert Hws. generalize (take w (po_workers p)) as l1, (drop (S w) (po_workers p)) as l2. intros l1 l2 Hws.
  assert (Hl : length (l1 ++ WDone :: l2) = length (po_workers p)).
  { rewrite <- Hws, !length_app. done. }
  rewrite length_app in Hl. simpl in Hl. split; [|rewrite length_app; simpl; lia].
  pose proof (pool_inv_head n p (l1 ++ l2) Hinv) as H. rewrite <- Hws in H at 1 2.
  specialize (H ltac:(rewrite !waiting_app; apply submseteq_app; [done|]; by apply submseteq_cons)).
  specialize (H ltac:(rewrite length_app; lia) ltac:(set_solver) (absorb (po_acc p) ip r) (stop_absorb _ _ _)).
  cbv zeta in H. rewrite (loop_head_workers _ _ (po_workers p)) in H. fold q0 in H. rewrite E in H. cbn in H.
  apply H; [|rewrite length_app; simpl; lia]. by rewrite Permutation_middle.
Qed.

(** Each delivery answers one probe: probes made are probes answered plus workers waiting. *)
Lemma deliver_count n w r p q : deliver w r p = Some q → pool_inv n p →
  (length (po_probed q) + length (waiting (po_workers p)) =
   length (po_probed p) + length (waiting (po_workers q)) + 1)%nat.
Proof.
  unfold deliver. intros Hd Hinv. destruct (po_workers p !! w) as [[i|]|] eqn:Ew; [|done..].
  destruct (ips !! i) as [ip|] eqn:Ei; [|done].
  destruct (loop_head_spec {| po_next := po_next p; po_acc := absorb (po_acc p) ip r; po_workers := po_workers p;
                              po_probed := po_probed p |}) as (Ha & Hw & _ & _ & Hl & _); [apply Hinv|].
  destruct (loop_head _) as [p' st] eqn:E. cbn [fst snd po_workers po_probed] in *. injection Hd as <-.
  cbn [po_workers po_probed]. rewrite Hw, Hl.
  pose proof (waiting_insert _ _ _ st Ew) as Hp. apply Permutation_length in Hp.
  rewrite length_app in Hp. cbn [length] in Hp. lia.
Qed.

Lemma steps_inv acc n k p : pool_steps (start acc n) k p →
  pool_inv n p ∧ length (po_workers p) = n ∧ (k + length (waiting (po_workers p)) = length (po_probed p))%nat.
Proof.
  intros H. remember (start acc n) as p0 eqn:E0. induction H as [p|p k q w r q' Hs IH Hd]; subst.
  - destruct (start_inv acc n) as [H1 H2]. split_and!; [done|done|].
    assert (∀ m p, pool_inv n p ∨ po_probed p = seq 0 (Nat.min (po_next p) (length ips)) →
      length (waiting (po_workers p)) = length (po_probed p) →
      length (waiting (po_workers (start_workers m p))) = length (po_probed (start_workers m p))) as Hm.
    { clear. intros m. induction m as [|m IH]; intros p Hp Hl; [done|]. cbn [start_workers].
      assert (Hp' : po_probed p = seq 0 (Nat.min (po_next p) (length ips))) by (destruct Hp as [[]|]; done).
      destruct (loop_head_spec p Hp') as (_ & Hw & _ & Hq & Hc & _).
      destruct (loop_head p) as [p' st] eqn:E. cbn [fst snd] in *.
      apply IH; cbn [po_workers po_probed po_next]; [by right|]. rewrite Hw, waiting_app, length_app. lia. }
    simpl. apply Hm; [|done]. right. done.
  - destruct (IH eq_refl) as (H1 & H2 & H3). destruct (deliver_inv _ _ _ _ _ Hd H1) as [H4 H5].
    pose proof (deliver_count _ _ _ _ _ Hd H1). split_and!; [done|congruence|lia].
Qed.

(** What a scan promises, in every state its interleavings reach. *)
Lemma pool_spec acc n k p : pool_steps (start acc n) k p →
  po_probed p = seq 0 (length (po_probed p)) ∧ (length (po_probed p) <= length ips)%nat ∧
  (length (waiting (po_workers p)) <= n)%nat ∧ (k <= length ips)%nat ∧
  (pool_done p = false → ∃ w, ∀ r, is_Some (deliver w r p)) ∧
  (pool_done p = true → (0 < n)%nat → stop (po_acc p) = true ∨ po_probed p = seq 0 (length ips)).
Proof.
  intros H. destruct (steps_inv _ _ _ _ H) as (Hinv & Hn & Hk). pose proof (pi_probed _ _ Hinv) as Hp.
  assert (Hlen : length (po_probed p) = Nat.min (po_next p) (length ips)) by (rewrite Hp; apply length_seq).
  assert (Hw : (length (waiting (po_workers p)) <= length (po_workers p))%nat).
  { apply waiting_length. }
  split_and!; [by rewrite Hlen|lia|lia|lia| |].
  - intros Hf. unfold pool_done in Hf. apply not_true_iff_false in Hf. rewrite forallb_forall in Hf.
    assert (∃ w i, po_workers p !! w = Some (WWait i)) as (w & i & Hwi).
    { destruct (waiting (po_workers p)) as [|i l] eqn:E.
      - exfalso. apply Hf. intros [i|] Hin%list_elem_of_In; [|done].
        assert (i ∈ waiting (po_workers p)) as Hi.
        { apply list_elem_of_omap. by exists (WWait i). }
        rewrite E in Hi. by apply elem_of_nil in Hi.
      - assert (i ∈ waiting (po_workers p)) as Hi by (rewrite E; left).
        apply list_elem_of_omap in Hi as ([j|] & Hj%list_elem_of_lookup_1 & [= ->]).
        destruct Hj as [w Hw']. eauto. }
    exists w. intros r. unfold deliver. rewrite Hwi.
    pose proof (pi_range _ _ Hinv) as Hr. rewrite Forall_forall in Hr.
    assert (i < length ips)%nat as Hi.
    { assert (i ∈ waiting (po_workers p)) as Hx.
      { apply list_elem_of_omap. exists (WWait i). split; [by eapply list_elem_of_lookup_2|done]. }
      specialize (Hr _ Hx). lia. }
    apply lookup_lt_is_Some_2 in Hi as [ip ->]. by destruct (loop_head _).
  - intros Hd Hpos. destruct (po_workers p) as [|w ws] eqn:E; [simpl in Hn; lia|].
    unfold pool_done in Hd. rewrite E in Hd. simpl in Hd. apply andb_true_iff in Hd as [Hd _].
    destruct (pi_done _ _ Hinv) as [H1|H1]; [rewrite E; destruct w; [done|left]|by left|].
    right. rewrite Hp, Nat.min_r by lia. done.
Qed.

(** An invariant of the accumulator that every absorbed reply keeps holds when the scan ends. *)
Lemma steps_acc (P : A → Prop) acc n k p :
  P acc → (∀ a ip r, ip ∈ ips → P a → P (absorb a ip r)) → pool_steps (start acc n) k p → P (po_acc p).
Proof.
  intros Hacc Habs H. remember (start acc n) as p0 eqn:E0.
  assert (Hstart : ∀ m q, P (po_acc q) → P (po_acc (start_workers m q))).
  { intros m. induction m as [|m IH]; intros q Hq; [done|]. cbn [start_workers].
    destruct (loop_head q) as [q' st] eqn:E. apply IH. cbn. unfold loop_head in E.
    destruct (stop _); [by simplify_eq|]. by destruct (Nat.leb _ _); simplify_eq. }
  induction H as [p|p k q w r q' Hs IH Hd]; subst; [by apply Hstart|].
  specialize (IH eq_refl). unfold deliver in Hd. destruct (po_workers q !! w) as [[i|]|]; [|done..].
  destruct (ips !! i) as [ip|] eqn:Ei; [|done].
  specialize (Habs _ _ r (list_elem_of_lookup_2 _ _ _ Ei) IH).
  destruct (loop_head _) as [p' st] eqn:E. injection Hd as <-. cbn. unfold loop_head in E.
  destruct (stop _); [by simplify_eq|]. by destruct (Nat.leb _ _); simplify_eq.
Qed.
End Pool.

(** *** A pool that records its replies *)

Section Recording.
Context {A Rep : Type} (ips : list string) (absorb : A → string → Rep → A).

Definition record_reply (replies : list (string * Rep)) (ip : string) (r : Rep) : list (string * Rep) :=
  replies ++ [(ip, r)].

Definition absorb_all (acc : A) (replies : list (string * Rep)) : A :=
  foldl (λ acc '(ip, r), absorb acc ip r) acc replies.

Definition never {B : Type} (_ : B) : bool := false.

(** The pool of the source and the one that records go through the same states but for what they gather. *)
Record recorded (acc : A) (p : @pool A) (q : @pool (list (string * Rep))) : Prop := {
  rc_next : po_next p = po_next q;
  rc_workers : po_workers p = po_workers q;
  rc_probed : po_probed p = po_probed q;
  rc_acc : po_acc p = absorb_all acc (po_acc q) }.

Lemma recorded_head acc p q : recorded acc p q →
  recorded acc (fst (loop_head ips never p)) (fst (loop_head ips never q)) ∧
  snd (loop_head ips never p) = snd (loop_head ips never q).
Proof.
  intros [E1 E2 E3 E4]. unfold loop_head, never. rewrite E1, E2, E3. destruct (Nat.leb _ _); (split; [|done]); by split.
Qed.

Lemma recorded_start acc n p q : recorded acc p q →
  recorded acc (start_workers ips never n p) (start_workers ips never n q).
Proof.
  revert p q. induction n as [|n IH]; intros p q Hpq; [done|]. cbn [start_workers].
  destruct (recorded_head acc p q Hpq) as [[E1 E2 E3 E4] E]. destruct (loop_head ips never p), (loop_head ips never q). cbn in *.
  apply IH. split; cbn; [done| |done|done]. rewrite E2, E. done.
Qed.

Lemma recorded_deliver acc w r p p' q : recorded acc p q → deliver ips absorb never w r p = Some p' →
  ∃ q', deliver ips record_reply never w r q = Some q' ∧ recorded acc p' q'.
Proof.
  intros [E1 E2 E3 E4]. unfold deliver. rewrite <- E2. destruct (po_workers p !! w) as [[i|]|]; [|done..].
  destruct (ips !! i) as [ip|]; [|done].
  set (p0 := {| po_next := po_next p; po_acc := absorb (po_acc p) ip r; po_workers := po_workers p; po_probed := po_probed p |}).
  set (q0 := {| po_next := po_next q; po_acc := record_reply (po_acc q) ip r; po_workers := po_workers p; po_probed := po_probed q |}).
  destruct (recorded_head acc p0 q0) as [[F1 F2 F3 F4] F].
  { split; cbn; [done..|]. unfold record_reply, absorb_all. by rewrite foldl_app, E4. }
  destruct (loop_head ips never p0), (loop_head ips never q0). cbn in *. intros [= <-].
  eexists. split; [done|]. split; cbn; try done. by rewrite F2, F.
Qed.

(** Absorbing each reply as it arrives is absorbing them all, in that order, at the end. *)
Lemma scan_outcome_replies acc n res : scan_outcome ips absorb never acc n res →
  ∃ replies, scan_outcome ips record_reply never [] n replies ∧ res = absorb_all acc replies.
Proof.
  intros (k & p & Hs & Hd & <-).
  assert (∃ q, pool_steps ips record_reply never (start ips never [] n) k q ∧ recorded acc p q) as (q & Hq & [E1 E2 E3 E4]).
  { clear Hd. remember (start ips never acc n) as p0 eqn:E0. induction Hs as [p|p k q w r q' Hs IH Hd]; subst.
    - exists (start ips never [] n). split; [constructor|]. by apply recorded_start.
    - destruct (IH eq_refl) as (q1 & Hq1 & Hrec). destruct (recorded_deliver _ _ _ _ _ _ Hrec Hd) as (q2 & Hd2 & Hrec2).
      exists q2. split; [by econstructor|done]. }
  exists (po_acc q). split; [|done]. exists k, q. split_and!; [done| |done]. unfold pool_done in *. by rewrite <- E2.
Qed.

Lemma head_probed {B} (p : @pool B) : po_probed (fst (loop_head ips never p)) =
  po_probed p ++ waiting [snd (loop_head ips never p)] ∧ po_workers (fst (loop_head ips never p)) = po_workers p ∧
  po_acc (fst (loop_head ips never p)) = po_acc p.
Proof. unfold loop_head. destruct (Nat.leb _ _); cbn; by rewrite ?app_nil_r. Qed.

(** The probes made are those answered and those waited for. *)
Definition accounted (p : @pool (list (string * Rep))) : Prop :=
  ∃ answered : list nat, Forall2 (λ i x, ips !! i = Some x.1) answered (po_acc p) ∧
    po_probed p ≡ₚ answered ++ waiting (po_workers p).

Lemma accounted_start n p : accounted p → accounted (start_workers ips never n p).
Proof.
  revert p. induction n as [|n IH]; intros p (l & Hl & Hp); [by exists l|]. cbn [start_workers].
  destruct (head_probed p) as (E1 & E2 & E3). destruct (loop_head ips never p) as [p' st]. cbn in *.
  apply IH. exists l. cbn. rewrite E3, E1, E2, waiting_app, Hp. split; [done|]. solve_Permutation.
Qed.

Lemma accounted_deliver w r p p' : accounted p → deliver ips record_reply never w r p = Some p' → accounted p'.
Proof.
  intros (l & Hl & Hp). unfold deliver. destruct (po_workers p !! w) as [[i|]|] eqn:Ew; [|done..].
  destruct (ips !! i) as [ip|] eqn:Ei; [|done].
  set (p0 := {| po_next := po_next p; po_acc := record_reply (po_acc p) ip r; po_workers := po_workers p; po_probed := po_probed p |}).
  destruct (head_probed p0) as (E1 & E2 & E3). destruct (loop_head ips never p0) as [p1 st]. cbn in *. intros [= <-].
  pose proof (waiting_insert _ _ _ st Ew) as Hw. exists (l ++ [i]). cbn. rewrite E3, E1, E2. split.
  - apply Forall2_app; [done|]. by repeat constructor.
  - rewrite Hp, <- !app_assoc. cbn [app]. rewrite Hw. solve_Permutation.
Qed.

(** A scan that has workers and ends has one reply of every address. *)
Lemma scan_replies_all n replies : scan_outcome ips record_reply never [] n replies → (0 < n)%nat → replies.*1 ≡ₚ ips.
Proof.
  intros (k & p & Hs & Hd & <-) Hn.
  destruct (pool_spec ips record_reply never ltac:(done) _ _ _ _ Hs) as (_ & _ & _ & _ & _ & Hend).
  destruct (Hend Hd Hn) as [|Hprobed]; [done|].
  assert (Hacc : accounted p).
  { clear Hd Hend Hprobed. remember (start ips never [] n) as p0 eqn:E0. induction Hs as [p|p j q w r q' Hs IH Hd]; subst.
    - apply accounted_start. by exists [].
    - eapply accounted_deliver; [by apply IH|done]. }
  destruct Hacc as (l & Hl & Hp). assert (waiting (po_workers p) = []) as Hw.
  { unfold pool_done in Hd. clear -Hd. revert Hd. induction (po_workers p) as [|[] ws IH]; [done..|]. exact IH. }
  rewrite Hw, app_nil_r, Hprobed in Hp.
  assert (Hsome : (λ i, ips !! i) <$> l = Some <$> (po_acc p).*1).
  { clear Hp Hw. induction Hl as [|i x l acc Hi Hl IH]; [done|]. cbn. by rewrite Hi, IH. }
  assert (Hall : (λ i, ips !! i) <$> seq 0 (length ips) = Some <$> ips).
  { clear. induction ips as [|ip l IH] using rev_ind; [done|].
    rewrite length_app, Nat.add_1_r, seq_S, !fmap_app, <- IH. cbn. f_equal.
    - apply list_fmap_ext. intros i j [-> Hj]%lookup_seq. cbn. apply lookup_app_l. done.
    - by rewrite lookup_app_r, Nat.sub_diag by done. }
  assert (Hperm : Some <$> (po_acc p).*1 ≡ₚ Some <$> ips) by (by rewrite <- Hsome, <- Hall, Hp).
  assert (Hid : ∀ l : list string, omap id (Some <$> l) = l) by (induction l0 as [|x l0 IH]; [done|]; cbn; by f_equal).
  rewrite <- (Hid (po_acc p).*1), <- (Hid ips). by rewrite Hperm.
Qed.
End Recording.

(** ** The three scans *)

Section Scans.
Context `{Runtime}.

(** After a probe of [resolveHostByUuidScan]; [found] is overwritten by a later match. *)
Definition uuid_match (uuid : string) (targetMac : option string) (resp : val) : bool :=
  let got := extractLanUuid resp in
  let mac := extractLanMac resp in
  let macMatch := match targetMac ≫= nonempty, mac with
                  | Some t, Some m => String.eqb m t
                  | _, _ => false
                  end in
  match got with Some g => String.eqb g uuid || macMatch | None => macMatch end.

Definition absorb_uuid (uuid : string) (targetMac : option string)
    (found : option (string * option string)) (ip : string) (r : result val) : option (string * option string) :=
  match r with
  | Ok resp => if uuid_match uuid targetMac resp then Some (ip, extractLanMac resp) else found
  | Err _ => found
  end.

Definition is_found {A} (found : option A) : bool := match found with Some _ => true | None => false end.

(** After a probe of api/discover-hosts.ts, at the time [nowIso()] read with the reply. *)
Definition absorb_discover (found : list (string * host_entry)) (ip : string) (r : result val * string)
    : list (string * host_entry) :=
  match fst r with
  | Ok resp =>
      match extractLanUuid resp with
      | Some uuid => jset uuid {| he_host := ip; he_updatedAt := snd r; he_mac := extractLanMac resp |} found
      | None => found
      end
  | Err _ => found
  end.

(** The entries after probes that ended in this order. *)
Definition scanned (replies : list (string * (result val * string))) : list (string * host_entry) :=
  absorb_all absorb_discover [] replies.

(** The arguments of the ping process of [pingOne]; [-W] counts seconds on Linux. *)
Definition ping_command (isLinux : bool) (ip : string) (timeoutMs : num) : list string :=
  let wArg := if isLinux
              then pretty (Z.max 1 (round_finite (num_div timeoutMs (num_of_Z 1000))))
              else num_to_str timeoutMs in
  ["ping"; "-c"; "1"; "-W"; wArg; ip].

Definition absorb_ping (u : unit) (ip : string) (r : result unit) : unit := u.

(** The answers the scans can give: the ends of their pools. *)
Definition scan_answer {X} (e : sysE X) : X → Prop :=
  match e in sysE X return X → Prop with
  | ScanUuid s uuid targetMac => λ found,
      scan_outcome (sc_ips s) (absorb_uuid uuid targetMac) is_found None (sc_workers s) found
  | ScanAll s => λ replies, scan_outcome (sc_ips s) record_reply never [] (sc_workers s) replies
  | PingAll ips workers _ => λ u, scan_outcome ips absorb_ping never tt workers u
  | _ => λ _, True
  end.

Definition scans_valid (ev : sys_event) : Prop := match ev with @Ev _ _ e x => scan_answer e x end.

(** C24: a scan of the LAN probes the addresses of its block in order and each at most once, with at
    most as many probes outstanding as it has workers; it ends after at most one reply per address,
    always has a reply to wait for until it ends, and ends early only once a device is found. *)
Theorem scan_pool_spec (ips : list string) uuid targetMac n k p :
  pool_steps ips (absorb_uuid uuid targetMac) is_found (start ips is_found None n) k p →
  po_probed p = seq 0 (length (po_probed p)) ∧ (length (po_probed p) <= length ips)%nat ∧
  (length (waiting (po_workers p)) <= n)%nat ∧ (k <= length ips)%nat ∧
  (pool_done p = false → ∃ w, ∀ r, is_Some (deliver ips (absorb_uuid uuid targetMac) is_found w r p)) ∧
  (pool_done p = true → (0 < n)%nat → is_found (po_acc p) = true ∨ po_probed p = seq 0 (length ips)).
Proof.
  apply pool_spec. intros [a|] ip [resp|]; try done. intros _. simpl. by destruct (uuid_match _ _ _).
Qed.

Lemma scan_uuid_sound ips uuid targetMac n h m :
  scan_outcome ips (absorb_uuid uuid targetMac) is_found None n (Some (h, m)) →
  h ∈ ips ∧ ∃ resp, uuid_match uuid targetMac resp = true ∧ m = extractLanMac resp.
Proof.
  intros (k & p & Hs & _ & Ha).
  assert (∀ h m, po_acc p = Some (h, m) → h ∈ ips ∧ ∃ resp, uuid_match uuid targetMac resp = true ∧ m = extractLanMac resp)
    as Hall; [|by apply Hall].
  eapply (steps_acc ips _ _ (λ acc, ∀ h m, acc = Some (h, m) →
    h ∈ ips ∧ ∃ resp, uuid_match uuid targetMac resp = true ∧ m = extractLanMac resp)); [| |exact Hs]; [by intros ???|].
  intros acc ip [resp|e] Hip IH h' m'; simpl; [|apply IH].
  destruct (uuid_match uuid targetMac resp) eqn:E; [|apply IH]. intros [= <- <-]. eauto.
Qed.

(** The entry that the reply of an address gives the device with the uuid. *)
Definition answered (uuid : string) (x : string * (result val * string)) : option host_entry :=
  match x with
  | (ip, (Ok resp, at_)) =>
      if decide (extractLanUuid resp = Some uuid)
      then Some {| he_host := ip; he_updatedAt := at_; he_mac := extractLanMac resp |} else None
  | (_, (Err _, _)) => None
  end.

(** The entry of a device is that of the last address that answered with its uuid. *)
Lemma scanned_get uuid replies : jget uuid (scanned replies) = last (omap (answered uuid) replies).
Proof.
  unfold scanned, absorb_all. induction replies as [|[ip [[resp|e] at_]] replies IH] using rev_ind; [done|..];
    rewrite foldl_app, omap_app, last_app; cbn [foldl omap list_omap answered]; unfold absorb_discover at 1; cbn [fst snd];
    [|by rewrite IH].
  destruct (extractLanUuid resp) as [u|] eqn:E; [|by rewrite decide_False; [rewrite IH|]].
  rewrite jget_set. case_decide as Hu; [subst; by rewrite decide_True|]. rewrite decide_False by congruence. by rewrite IH.
Qed.

Lemma scanned_wf replies : jwf (scanned replies).
Proof.
  unfold scanned, absorb_all. induction replies as [|[ip [[resp|e] at_]] replies IH] using rev_ind; [apply jwf_nil|..];
    rewrite foldl_app; cbn [foldl]; unfold absorb_discover at 1; cbn [fst snd]; [|done].
  destruct (extractLanUuid resp); [by apply jwf_set|done].
Qed.
End Scans.

(** ** The functions that scan *)

Section Run.
Context {St R : Type} `{Runtime}.
Abbreviation M := (prog St R sysE).

(** The workers that [for (w = 0; w < concurrency; w++)] starts: none when it is not a number. With an
    infinite one the source never leaves the loop; that is not modelled. *)
Definition ping_workers (concurrency : num) : nat :=
  match num_ratio concurrency with Some (n, d) => Z.to_nat (- (- n / d)) | None => 0 end.

Definition pingSweep (cidr : string) (timeoutMs concurrency : option num) : M unit :=
  let! ips := of_result (listHostsInCidr cidr) in
  match ips with
  | [] => Ret tt
  | _ => sys (PingAll ips (ping_workers (num_max (num_of_Z 1) (concurrency ?: num_of_Z 64))) (timeoutMs ?: num_of_Z 200))
  end.

(** [Number.isFinite(x) ? f(x) : fallback] *)
Definition if_finite (x : option num) (f : num → num) (fallback : num) : num :=
  match x with Some n => if is_finite n then f n else fallback | None => fallback end.

(** [Array.from({ length: Math.floor(n) })]: a length that is not a number is zero. *)
Definition worker_count (n : num) : nat := Z.to_nat (num_floor n ?: 0).

Definition resolveHostByUuidScan (uuid cidr key : string) (perHostTimeoutMs concurrency : option num)
    (targetMac : option string) : M (option (string * option string)) :=
  match listHostsInCidr cidr with
  | Err _ | Ok [] => Ret None
  | Ok ips =>
      sys (ScanUuid
        {| sc_ips := ips; sc_workers := worker_count (if_finite concurrency (λ n, num_max (num_of_Z 1) n) (num_of_Z 24));
           sc_key := key;
           sc_timeoutMs := if_finite perHostTimeoutMs (num_max (num_of_Z 200)) (num_of_Z 900) |}
        uuid targetMac)
  end.

(** The loop of api/discover-hosts.ts, of the command line and of the terminal interface. *)
Definition scan_all (s : scan_spec) : M (list (string * host_entry)) :=
  let! replies := sys (ScanAll s) in Ret (scanned replies).

Definition resolveIpv4FromMac (mac : string) : M (option string) :=
  let! target := of_result (normalizeMac mac) in
  let! arpOut := sys (RunCmd ["arp"; "-a"]) in
  match arp_lookup target arpOut with
  | Some ip => Ret (Some ip)
  | None => let! neighOut := sys (RunCmd ["ip"; "neigh"]) in Ret (neigh_lookup target neighOut)
  end.
End Run.

Definition two_hosts : list string := ["10.0.0.9"; "10.0.0.10"].

Definition timed_out : option (@pool (option (string * option string))) :=
  deliver two_hosts (absorb_uuid "u1" None) is_found 1 (Err (JsError "timeout")) (start two_hosts is_found None 24).

Lemma scan_pool_spec_witness : ∃ p, timed_out = Some p ∧ pool_done p = false ∧ (length (waiting (po_workers p)) <= 24)%nat.
Proof.
  destruct timed_out as [p|] eqn:E; [|vm_compute in E; discriminate E].
  exists p. split; [reflexivity|]. split; [vm_compute in E; injection E as <-; reflexivity|].
  assert (Hs : pool_steps two_hosts (absorb_uuid "u1" None) is_found (start two_hosts is_found None 24) 1 p).
  { eapply pool_step; [apply pool_here|exact E]. }
  destruct (scan_pool_spec _ _ _ _ _ _ Hs) as (_ & _ & H & _). exact H.
Defined.
