(* ===== verification/Telemetry.v ===== *)
(** * The telemetry store

    packages/core/src/api/telemetry-db.ts: the two tables, the insert and upsert statements and the
    two queries. Rows are kept in insertion order; the aggregate [AVG] is the engine's own and is a
    parameter. *)

From S2P Require Export Runtime.

Local Open Scope string_scope.
Local Open Scope Z_scope.
Local Open Scope list_scope.

Record telemetry_db := {
  db_samples : list (Z * telemetry_row);
  db_nextId : Z;
  db_days : list ((string * Z * string) * (Z * Z)) }.

Definition empty_db : telemetry_db := {| db_samples := []; db_nextId := 1; db_days := [] |}.

(** [INSERT INTO telemetry_sample], with the autoincremented [id]. *)
Definition insertTelemetrySample (row : telemetry_row) (db : telemetry_db) : telemetry_db :=
  {| db_samples := db_samples db ++ [(db_nextId db, row)]; db_nextId := db_nextId db + 1; db_days := db_days db |}.

(** [INSERT ... ON CONFLICT(uuid, channel, date) DO UPDATE]. *)
Definition upsertConsumptionDay (row : consumption_row) (db : telemetry_db) : telemetry_db :=
  {| db_samples := db_samples db; db_nextId := db_nextId db;
     db_days := jset (cr_uuid row, cr_channel row, cr_date row) (cr_atS row, cr_wh row) (db_days db) |}.

(** [WHERE uuid = ? AND channel = ?] *)
Definition row_of (uuid : string) (channel : Z) (r : telemetry_row) : bool :=
  String.eqb (tr_uuid r) uuid && (tr_channel r =? channel).

(** [ORDER BY at_ms DESC LIMIT 1] *)
Definition getLatestTelemetrySample (uuid : string) (channel : Z) (db : telemetry_db) : option (Z * telemetry_row) :=
  head (js_sort (λ a b, tr_atMs (snd b) - tr_atMs (snd a))
          (List.filter (λ r, row_of uuid channel (snd r)) (db_samples db))).

(** [CAST(at_ms / ? AS INTEGER) * ?]: integer division of two integers. *)
Definition bucket_of (bucketMs at_ : Z) : Z := Z.quot at_ bucketMs * bucketMs.

Definition in_range (q : history_query) (r : telemetry_row) : bool :=
  row_of (hq_uuid q) (hq_channel q) r && (hq_fromMs q <=? tr_atMs r) && (tr_atMs r <=? hq_toMs q).

Section History.
Variable avg : list num → num.

(** An aggregate ignores the missing values and is missing over none. *)
Definition aggregate (f : list num → num) (l : list (option num)) : option num :=
  match omap id l with [] => None | xs => Some (f xs) end.

Definition sql_max (l : list num) : num :=
  match l with [] => num_nan | x :: l' => foldl (λ a b, if num_ltb a b then b else a) x l' end.

Definition bucket (q : history_query) (rows : list telemetry_row) (t : Z) : bucket_point :=
  let group := List.filter (λ r, bucket_of (hq_bucketMs q) (tr_atMs r) =? t) rows in
  {| bp_t := t; bp_powerWAvg := aggregate avg (map tr_powerW group);
     bp_powerWMax := aggregate sql_max (map tr_powerW group);
     bp_voltageVAvg := aggregate avg (map tr_voltageV group);
     bp_currentAAvg := aggregate avg (map tr_currentA group) |}.

Definition selected (q : history_query) (db : telemetry_db) : list telemetry_row :=
  List.filter (in_range q) (map snd (db_samples db)).

Definition getTelemetryHistoryBuckets (q : history_query) (db : telemetry_db) : list bucket_point :=
  let rows := selected q db in
  map (bucket q rows)
      (js_sort (λ a b, a - b) (js_dedup (map (λ r, bucket_of (hq_bucketMs q) (tr_atMs r)) rows))).
End History.

(** ** Properties *)

Lemma row_of_true uuid channel r : row_of uuid channel r = true ↔ tr_uuid r = uuid ∧ tr_channel r = channel.
Proof. unfold row_of. by rewrite andb_true_iff, String.eqb_eq, Z.eqb_eq. Qed.

Lemma latest_le_total (a b : Z * telemetry_row) :
  cmp_le (λ a b, tr_atMs (snd b) - tr_atMs (snd a)) a b ∨ cmp_le (λ a b, tr_atMs (snd b) - tr_atMs (snd a)) b a.
Proof. unfold cmp_le. lia. Qed.

Lemma sorted_head {A} (R : A → A → Prop) (l : list A) x :
  StronglySorted R l → head l = Some x → ∀ y, y ∈ l → y = x ∨ R x y.
Proof.
  intros Hs Hh y Hy. destruct Hs as [|z l Hs Hz]; [done|]. simplify_eq/=.
  apply elem_of_cons in Hy as [->|Hy]; [by left|right]. rewrite Forall_forall in Hz. auto.
Qed.

(** The latest sample of a channel is one of its samples and none of them is later; there is
    none exactly when the channel has no sample; a sample inserted with a time after all those of its
    channel becomes the latest. *)
Theorem getLatestTelemetrySample_spec uuid channel db :
  (∀ id r, getLatestTelemetrySample uuid channel db = Some (id, r) →
     (id, r) ∈ db_samples db ∧ tr_uuid r = uuid ∧ tr_channel r = channel ∧
     ∀ id' r', (id', r') ∈ db_samples db → tr_uuid r' = uuid → tr_channel r' = channel → tr_atMs r' <= tr_atMs r) ∧
  (getLatestTelemetrySample uuid channel db = None ↔
     ∀ id r, (id, r) ∈ db_samples db → ¬ (tr_uuid r = uuid ∧ tr_channel r = channel)) ∧
  (∀ row, tr_uuid row = uuid → tr_channel row = channel →
     (∀ id r, (id, r) ∈ db_samples db → tr_uuid r = uuid → tr_channel r = channel → tr_atMs r < tr_atMs row) →
     getLatestTelemetrySample uuid channel (insertTelemetrySample row db) = Some (db_nextId db, row)).
Proof.
  set (cmp := λ a b : Z * telemetry_row, tr_atMs (snd b) - tr_atMs (snd a)).
  assert (Hin : ∀ d x, x ∈ js_sort cmp (List.filter (λ r, row_of uuid channel (snd r)) (db_samples d)) ↔
                x ∈ db_samples d ∧ tr_uuid (snd x) = uuid ∧ tr_channel (snd x) = channel).
  { intros d x. by rewrite elem_of_js_sort, list_elem_of_In, filter_In, <- list_elem_of_In, row_of_true. }
  assert (Hsort : ∀ l, StronglySorted (cmp_le cmp) (js_sort cmp l)).
  { intros l. apply js_sort_sorted; [apply latest_le_total|unfold cmp_le, cmp; lia]. }
  assert (Hmax : ∀ d x, getLatestTelemetrySample uuid channel d = Some x →
    (x ∈ db_samples d ∧ tr_uuid (snd x) = uuid ∧ tr_channel (snd x) = channel) ∧
    ∀ y, y ∈ db_samples d → tr_uuid (snd y) = uuid → tr_channel (snd y) = channel → y = x ∨ tr_atMs (snd y) <= tr_atMs (snd x)).
  { intros d x Hx. split; [apply Hin; by apply head_Some_elem_of|]. intros y Hy Hu Hc.
    destruct (sorted_head _ _ _ (Hsort _) Hx y) as [->|Hle]; [by apply Hin|by left|].
    right. unfold cmp_le, cmp in Hle. lia. }
  split_and!.
  - intros id r [[H1 [H2 H3]] H4]%Hmax. cbn [snd] in *. split_and!; [done..|]. intros id' r' Hr Hu Hc.
    destruct (H4 (id', r') Hr Hu Hc) as [[= -> ->]|]; simpl in *; lia.
  - unfold getLatestTelemetrySample. fold cmp. rewrite head_None. split.
    + intros Hn id r Hr Hm. apply (not_elem_of_nil (id, r)). rewrite <- Hn. by apply Hin.
    + intros Hn. apply elem_of_nil_inv. intros [id r] (Hr & Hm)%Hin. by apply (Hn id r).
  - intros row Hu Hc Hlt. assert (Hrow : (db_nextId db, row) ∈ db_samples (insertTelemetrySample row db)).
    { cbn. apply elem_of_app. right. by left. }
    destruct (getLatestTelemetrySample uuid channel (insertTelemetrySample row db)) as [x|] eqn:E.
    + destruct (Hmax _ _ E) as [(Hx & Hxu & Hxc) Hall]. f_equal.
      destruct (Hall _ Hrow Hu Hc) as [->|Hle]; [done|]. cbn in Hx, Hle.
      apply elem_of_app in Hx as [Hx| ->%list_elem_of_singleton]; [|done].
      destruct x as [id r]. specialize (Hlt _ _ Hx Hxu Hxc). cbn in *. lia.
    + exfalso. unfold getLatestTelemetrySample in E. fold cmp in E. rewrite head_None in E.
      apply (not_elem_of_nil (db_nextId db, row)). rewrite <- E. by apply Hin.
Qed.

(** Between two buckets of the same width there is nothing. *)
Lemma bucket_of_range b x : 0 < b → 0 <= x → bucket_of b x <= x < bucket_of b x + b ∧ (b | bucket_of b x).
Proof.
  intros Hb Hx. unfold bucket_of. rewrite Z.quot_div_nonneg by lia.
  pose proof (Z.div_mod x b). pose proof (Z.mod_pos_bound x b). split; [lia|]. by exists (x / b).
Qed.

Lemma sorted_NoDup_lt (l : list Z) : StronglySorted (cmp_le (λ a b, a - b)) l → NoDup l → StronglySorted Z.lt l.
Proof.
  induction 1 as [|x l Hl IH Hx]; intros Hn; [constructor|]. apply NoDup_cons in Hn as [Hx' Hn].
  constructor; [by apply IH|]. rewrite Forall_forall in Hx |- *. intros y Hy. specialize (Hx _ Hy).
  unfold cmp_le in Hx. assert (x ≠ y) by congruence. lia.
Qed.

(** The points of a history are in strictly increasing time, one per bucket of [bucketMs]
    milliseconds that holds a sample of the range, and every sample of the range falls in the bucket
    of exactly one of them; the query changes nothing. *)
Theorem getTelemetryHistoryBuckets_spec avg q db :
  0 < hq_bucketMs q → 0 <= hq_fromMs q →
  let ts := map bp_t (getTelemetryHistoryBuckets avg q db) in
  StronglySorted Z.lt ts ∧
  (∀ t, t ∈ ts ↔ ∃ r, r ∈ selected q db ∧ bucket_of (hq_bucketMs q) (tr_atMs r) = t) ∧
  (∀ r, r ∈ selected q db → ∃ t, t ∈ ts ∧ t <= tr_atMs r < t + hq_bucketMs q ∧
     ∀ t', t' ∈ ts → t' <= tr_atMs r < t' + hq_bucketMs q → t' = t) ∧
  (∀ r, r ∈ selected q db ↔ r ∈ map snd (db_samples db) ∧
     (tr_uuid r = hq_uuid q ∧ tr_channel r = hq_channel q) ∧ hq_fromMs q <= tr_atMs r <= hq_toMs q).
Proof.
  intros Hb Hf. cbv zeta.
  assert (Hts : map bp_t (getTelemetryHistoryBuckets avg q db) =
    js_sort (λ a b, a - b) (js_dedup (map (λ r, bucket_of (hq_bucketMs q) (tr_atMs r)) (selected q db)))).
  { unfold getTelemetryHistoryBuckets. rewrite map_map. apply map_id. }
  assert (Hsel : ∀ r, r ∈ selected q db ↔ r ∈ map snd (db_samples db) ∧
     (tr_uuid r = hq_uuid q ∧ tr_channel r = hq_channel q) ∧ hq_fromMs q <= tr_atMs r <= hq_toMs q).
  { intros r. unfold selected. rewrite !list_elem_of_In, filter_In. unfold in_range.
    rewrite !andb_true_iff, row_of_true, !Z.leb_le. naive_solver. }
  assert (Hmem : ∀ t, t ∈ map bp_t (getTelemetryHistoryBuckets avg q db) ↔
    ∃ r, r ∈ selected q db ∧ bucket_of (hq_bucketMs q) (tr_atMs r) = t).
  { intros t. rewrite Hts, elem_of_js_sort, elem_of_js_dedup, list_elem_of_fmap. naive_solver. }
  split_and!; [|done| |done].
  - rewrite Hts. apply sorted_NoDup_lt.
    + apply js_sort_sorted; [apply (key_cmp_total id)|apply (key_cmp_trans id)].
    + rewrite js_sort_perm. apply js_dedup_NoDup.
  - intros r Hr. pose proof Hr as (_ & _ & Hrange)%Hsel.
    destruct (bucket_of_range (hq_bucketMs q) (tr_atMs r)) as [Hin [k Hk]]; [lia..|].
    exists (bucket_of (hq_bucketMs q) (tr_atMs r)). split_and!; [apply Hmem; eauto|lia|lia|].
    intros t' (r' & Hr' & <-)%Hmem Ht'. pose proof Hr' as (_ & _ & Hrange')%Hsel.
    destruct (bucket_of_range (hq_bucketMs q) (tr_atMs r')) as [_ [k' Hk']]; [lia..|].
    rewrite Hk, Hk' in *. assert (k = k') as ->; [|done].
    apply Z.le_antisymm; apply Z.lt_succ_r, (Z.mul_lt_mono_pos_r (hq_bucketMs q)); lia.
Qed.

(** Storing the day of a device again replaces its reading and touches no other day; no key is
    ever stored twice. *)
Theorem upsertConsumptionDay_spec row db k :
  jget k (db_days (upsertConsumptionDay row db)) =
    (if decide ((cr_uuid row, cr_channel row, cr_date row) = k) then Some (cr_atS row, cr_wh row)
     else jget k (db_days db)) ∧
  (jwf (db_days db) → jwf (db_days (upsertConsumptionDay row db))) ∧
  upsertConsumptionDay row (upsertConsumptionDay row db) = upsertConsumptionDay row db ∧
  db_samples (upsertConsumptionDay row db) = db_samples db.
Proof.
  unfold upsertConsumptionDay. cbn [db_days db_samples db_nextId]. split_and!; [apply jget_set|apply jwf_set| |done].
  f_equal. apply jset_id. apply jget_set_eq.
Qed.

(** ** Witnesses *)

Definition sample_row (at_ : Z) : telemetry_row :=
  {| tr_uuid := "u"; tr_channel := 0; tr_atMs := at_; tr_voltageV := None; tr_currentA := None;
     tr_powerW := Some (num_of_Z at_); tr_rawVoltageDv := None; tr_rawCurrentMa := None; tr_rawPowerMw := None;
     tr_source := "telemetry_poller" |}.

Definition sample_db : telemetry_db :=
  insertTelemetrySample (sample_row 2500) (insertTelemetrySample (sample_row 1200) (insertTelemetrySample (sample_row 1900) empty_db)).

Definition sample_query : history_query :=
  {| hq_uuid := "u"; hq_channel := 0; hq_fromMs := 1000; hq_toMs := 9000; hq_bucketMs := 1000 |}.

Lemma getLatestTelemetrySample_spec_witness :
  getLatestTelemetrySample "u" 0 sample_db = Some (3, sample_row 2500) ∧ (3, sample_row 2500) ∈ db_samples sample_db.
Proof.
  split; [vm_compute; reflexivity|].
  apply (proj1 (getLatestTelemetrySample_spec "u" 0 sample_db)). vm_compute. reflexivity.
Defined.

Lemma getTelemetryHistoryBuckets_spec_witness :
  map bp_t (getTelemetryHistoryBuckets (λ l, num_nan) sample_query sample_db) = [1000; 2000] ∧
  StronglySorted Z.lt (map bp_t (getTelemetryHistoryBuckets (λ l, num_nan) sample_query sample_db)).
Proof.
  split; [vm_compute; reflexivity|].
  exact (proj1 (getTelemetryHistoryBuckets_spec (λ l, num_nan) sample_query sample_db ltac:(reflexivity) ltac:(discriminate))).
Defined.

Lemma upsertConsumptionDay_spec_witness :
  jwf (db_days (upsertConsumptionDay {| cr_uuid := "u"; cr_channel := 0; cr_date := "2024-01-01"; cr_atS := 5; cr_wh := 7 |} empty_db)).
Proof. apply (upsertConsumptionDay_spec _ empty_db ("u", 0, "2024-01-01")). apply jwf_nil. Defined.
