(* ===== verification/Dto.v ===== *)
(** * Device states and their comparison

    The data and the pure functions of packages/core/src/api/state-poller.ts: the device and power
    states, the polling metadata, the back-off and jitter of the next poll, and the test that decides
    whether a new state is worth a broadcast. *)

From S2P Require Export Runtime.

Local Open Scope string_scope.
Local Open Scope Z_scope.
Local Open Scope list_scope.

(** ** Data *)

Inductive device_kind : Type := KTogglex | KLight | KMixed.
Inductive poll_reason : Type := RPoller | RManual.
Inductive telemetry_source : Type := TPoller | TManual.

#[export] Instance device_kind_eq_dec : EqDecision device_kind.
Proof. solve_decision. Defined.
#[export] Instance poll_reason_eq_dec : EqDecision poll_reason.
Proof. solve_decision. Defined.
#[export] Instance telemetry_source_eq_dec : EqDecision telemetry_source.
Proof. solve_decision. Defined.

Record DeviceStateDto := {
  ds_uuid : string; ds_host : string; ds_kind : device_kind; ds_channel : Z; ds_onoff : bool;
  ds_channels : list LanToggleXState; ds_lights : list LanLightState; ds_light : option LanLightState;
  ds_timerxDigest : list LanScheduleDigestEntry; ds_triggerxDigest : list LanScheduleDigestEntry;
  ds_updatedAt : Z; ds_source : poll_reason; ds_stale : bool; ds_error : option string }.

Record DevicePowerDto := {
  dp_uuid : string; dp_host : string; dp_channel : Z;
  dp_voltageV : option num; dp_currentA : option num; dp_powerW : option num;
  dp_voltageDv : option Z; dp_currentMa : option Z; dp_powerMw : option Z;
  dp_updatedAt : Z; dp_source : telemetry_source; dp_stale : bool; dp_error : option string }.

Record PollErrorDto := { pe_uuid : string; pe_code : string; pe_message : string; pe_at : string }.

(** A due time that is not a number is never due: [None]. *)
Record PollMeta := {
  pm_nextDueAt : option Z; pm_failureCount : Z; pm_lastSuccessAt : option Z; pm_lastChangeAt : option Z;
  pm_lastResolveAttemptAt : option Z; pm_boostUntilAt : option Z;
  pm_telemetryNextDueAt : Z; pm_telemetryFailureCount : Z; pm_telemetryLastSuccessAt : option Z }.

Record PollerStats := {
  ps_inFlight : Z; ps_queueDepth : Z; ps_cycleMsP50 : Z; ps_cycleMsP95 : Z; ps_lastCycleAt : option string;
  ps_activeClients : Z }.

(** [{ state?, error? }] *)
Record PollResult := { pr_state : option DeviceStateDto; pr_error : option PollErrorDto }.

Record KnownHost := { kh_host : string; kh_mac : option string }.

(** ** Constants *)

Definition DEFAULT_POLL_TIMEOUT_MS : Z := 2500.
Definition POLL_MAX_CONCURRENCY : Z := 6.
Definition STABLE_INTERVAL_MS : Z := 45000.
Definition HOT_INTERVAL_MS : Z := 12000.
Definition BOOST_INTERVAL_MS : Z := 8000.
Definition TELEMETRY_MAX_CONCURRENCY : Z := 4.
Definition HOT_WINDOW_MS : Z := 2 * 60000.
Definition BOOST_WINDOW_MS : Z := 30000.
Definition SYNC_HOSTS_EVERY_MS : Z := 5000.
Definition RESOLVE_COOLDOWN_MS : Z := 5 * 60000.
Definition HEALTH_BROADCAST_EVERY_MS : Z := 5000.
Definition FAILURE_BACKOFF_SEQUENCE_MS : list Z := [30000; 60000; 120000; 300000].

(** [TELEMETRY_INTERVAL_MS], read once from [MEROSS_TELEMETRY_INTERVAL_MS]. *)
Definition telemetry_interval (env : option string) : Z :=
  let raw := match env with Some s => str_to_num s | None => num_nan end in
  if negb (is_finite raw) || num_leb raw (num_of_Z 0) then 10000 else Z.max 2000 (round_finite raw).

(** ** Timing *)

Definition failureBackoffMs (failureCount : Z) : Z :=
  if failureCount <=? 0 then 0
  else
    let idx := Z.min (Z.of_nat (length FAILURE_BACKOFF_SEQUENCE_MS) - 1) (failureCount - 1) in
    nth (Z.to_nat idx) FAILURE_BACKOFF_SEQUENCE_MS 0.

(** [None] where the result is not a finite number. *)
Definition withJitterMs (baseMs : Z) (percent randomValue : num) : option Z :=
  let zero := num_of_Z 0 in let one := num_of_Z 1 in
  let boundedPercent := num_max zero (num_min percent one) in
  let delta := num_mul (num_of_Z baseMs) boundedPercent in
  let centered := num_mul (num_sub (num_mul (num_max zero (num_min randomValue one)) (num_of_Z 2)) one) delta in
  Z.max 1000 <$> num_round (num_add (num_of_Z baseMs) centered).

Definition createMeta (now : Z) : PollMeta :=
  {| pm_nextDueAt := Some now; pm_failureCount := 0; pm_lastSuccessAt := None; pm_lastChangeAt := None;
     pm_lastResolveAttemptAt := None; pm_boostUntilAt := None; pm_telemetryNextDueAt := now;
     pm_telemetryFailureCount := 0; pm_telemetryLastSuccessAt := None |}.

(** A number that the source tests for truth before using it: zero counts as absent. *)
Definition truthy_time (t : option Z) : option Z :=
  match t with Some z => if z =? 0 then None else Some z | None => None end.

Definition before_boost_end (m : PollMeta) (now : Z) : bool :=
  match truthy_time (pm_boostUntilAt m) with Some b => now <? b | None => false end.

Definition recently_changed (m : PollMeta) (now : Z) : bool :=
  match truthy_time (pm_lastChangeAt m) with Some c => now - c <? HOT_WINDOW_MS | None => false end.

(** [nextIntervalMs], given the random number it draws. *)
Definition interval_of (m : PollMeta) (now : Z) (random : num) : option Z :=
  if 0 <? pm_failureCount m then Some (failureBackoffMs (pm_failureCount m))
  else if before_boost_end m now then withJitterMs BOOST_INTERVAL_MS (str_to_num "0.1") random
  else if recently_changed m now then withJitterMs HOT_INTERVAL_MS (str_to_num "0.15") random
  else withJitterMs STABLE_INTERVAL_MS (str_to_num "0.15") random.

Definition next_version (now : Z) (prev : option Z) : Z :=
  match prev with None => now | Some v => Z.max now (v + 1) end.

(** The percentile of the cycle samples. *)
Definition percentile (values : list Z) (p : Z) : Z :=
  match js_sort (λ a b, a - b) values with
  | [] => 0
  | sorted =>
      let len := Z.of_nat (length sorted) in
      let k := num_floor (num_mul (num_div (num_of_Z p) (num_of_Z 100)) (num_of_Z len)) ?: 0 in
      nth (Z.to_nat (Z.min (len - 1) (Z.max 0 k))) sorted 0
  end.

Definition pollCodeFromError (message : string) : string :=
  let m := to_lower message in
  if includes "missing meross key" m then "missing_key"
  else if includes "no lan host known" m then "host_unavailable"
  else if includes "state unavailable" m || includes "togglex state not found" m || includes "device state not found" m
  then "state_unavailable"
  else "lan_error".

(** ** Material changes *)

Definition normalizeChannels (channels : list LanToggleXState) : list LanToggleXState :=
  js_sort (λ a b, tx_channel a - tx_channel b) channels.

(** A loop over two lists that stops at the first pair that differs. *)
Fixpoint same_list {A} (same : A → A → bool) (a b : list A) : bool :=
  match a, b with
  | [], [] => true
  | x :: a', y :: b' => same x y && same_list same a' b'
  | _, _ => false
  end.

Definition sameChannels (a b : list LanToggleXState) : bool :=
  same_list (λ x y, (tx_channel x =? tx_channel y) && Bool.eqb (tx_onoff x) (tx_onoff y)) a b.

Definition sameScheduleDigest (a b : list LanScheduleDigestEntry) : bool :=
  same_list (λ x y, (sd_channel x =? sd_channel y) && String.eqb (sd_id x) (sd_id y) && (sd_count x =? sd_count y)) a b.

(** [(a ?? null) === (b ?? null)] *)
Definition same_num (a b : option num) : bool :=
  match a, b with
  | None, None => true
  | Some x, Some y => num_eqb x y
  | _, _ => false
  end.

Definition same_int (a b : option Z) : bool :=
  match a, b with
  | None, None => true
  | Some x, Some y => x =? y
  | _, _ => false
  end.

Definition sameLight (a b : LanLightState) : bool :=
  (li_channel a =? li_channel b) && Bool.eqb (li_onoff a) (li_onoff b) && same_num (li_luminance a) (li_luminance b)
  && same_num (li_temperature a) (li_temperature b) && same_int (li_rgb a) (li_rgb b).

Definition sameLightOption (a b : option LanLightState) : bool :=
  match a, b with
  | None, None => true
  | Some x, Some y => sameLight x y
  | _, _ => false
  end.

Definition hasMaterialStateChange (prev : option DeviceStateDto) (next : DeviceStateDto) : bool :=
  match prev with
  | None => true
  | Some prev =>
      if negb (String.eqb (ds_host prev) (ds_host next)) then true
      else if negb (bool_decide (ds_kind prev = ds_kind next)) then true
      else if negb (ds_channel prev =? ds_channel next) then true
      else if negb (Bool.eqb (ds_onoff prev) (ds_onoff next)) then true
      else if negb (Bool.eqb (ds_stale prev) (ds_stale next)) then true
      else if negb (sameChannels (ds_channels prev) (ds_channels next)) then true
      else if negb (sameScheduleDigest (ds_timerxDigest prev) (ds_timerxDigest next)) then true
      else if negb (sameScheduleDigest (ds_triggerxDigest prev) (ds_triggerxDigest next)) then true
      else if negb (same_list sameLight (ds_lights prev) (ds_lights next)) then true
      else negb (sameLightOption (ds_light prev) (ds_light next))
  end.

(** The test of [pollTelemetry] after a reading, and after a failure. *)
Definition power_changed (prev : option DevicePowerDto) (next : DevicePowerDto) : bool :=
  match prev with
  | None => true
  | Some p => negb (Bool.eqb (dp_stale p) (dp_stale next)) || negb (same_num (dp_powerW p) (dp_powerW next))
              || negb (same_num (dp_voltageV p) (dp_voltageV next)) || negb (same_num (dp_currentA p) (dp_currentA next))
  end.

Definition power_failed_changed (prev : option DevicePowerDto) (next : DevicePowerDto) : bool :=
  match prev with
  | None => true
  | Some p => negb (Bool.eqb (dp_stale p) (dp_stale next)) || negb (bool_decide (dp_error p = dp_error next))
              || negb (same_num (dp_powerW p) (dp_powerW next))
  end.

(** ** Reading a poll *)

(** The state of a reply, before its version and its source. *)
Definition state_of_reply `{Runtime} (uuid host : string) (resp : val) (updatedAt : Z) (source : poll_reason)
    : result DeviceStateDto :=
  let channels := normalizeChannels (extractLanToggleX resp ?: []) in
  let lights := extractLanLight resp ?: [] in
  match channels, lights with
  | [], [] => Err (JsError "Device state not found in Appliance.System.All digest (state unavailable).")
  | _, _ =>
      let light0 := match js_find (λ l, li_channel l =? 0) lights with Some l => Some l | None => head lights end in
      let ch0 := match js_find (λ c, tx_channel c =? 0) channels with Some c => Some c | None => head channels end in
      let kind := match light0, ch0 with
                  | Some _, Some _ => KMixed
                  | Some _, None => KLight
                  | None, _ => KTogglex
                  end in
      match (match light0 with
             | Some l => Some (li_channel l, li_onoff l)
             | None => match ch0 with Some c => Some (tx_channel c, tx_onoff c) | None => None end
             end) with
      | None => Err (JsError "Device state unavailable (no channels).")
      | Some (channel, onoff) =>
          Ok {| ds_uuid := uuid; ds_host := host; ds_kind := kind; ds_channel := channel; ds_onoff := onoff;
                ds_channels := channels; ds_lights := lights; ds_light := light0;
                ds_timerxDigest := extractLanTimerXDigest localeCompare resp;
                ds_triggerxDigest := extractLanTriggerXDigest localeCompare resp;
                ds_updatedAt := updatedAt; ds_source := source; ds_stale := false; ds_error := None |}
      end
  end.

(** The state kept when a poll fails: the last one known, marked stale. *)
Definition stale_state (uuid : string) (prev : option DeviceStateDto) (known : option KnownHost) (updatedAt : Z)
    (source : poll_reason) (message : string) : DeviceStateDto :=
  {| ds_uuid := uuid;
     ds_host := match prev with Some p => ds_host p | None => match known with Some k => kh_host k | None => "" end end;
     ds_kind := from_option ds_kind KTogglex prev; ds_channel := from_option ds_channel 0 prev;
     ds_onoff := from_option ds_onoff false prev; ds_channels := from_option ds_channels [] prev;
     ds_lights := from_option ds_lights [] prev; ds_light := prev ≫= ds_light;
     ds_timerxDigest := from_option ds_timerxDigest [] prev; ds_triggerxDigest := from_option ds_triggerxDigest [] prev;
     ds_updatedAt := updatedAt; ds_source := source; ds_stale := true; ds_error := Some message |}.

Definition power_of_reading (uuid host : string) (e : LanElectricityState) (updatedAt : Z) (source : telemetry_source)
    : DevicePowerDto :=
  {| dp_uuid := uuid; dp_host := host; dp_channel := el_channel e;
     dp_voltageV := el_voltageV e; dp_currentA := el_currentA e; dp_powerW := el_powerW e;
     dp_voltageDv := el_voltageDv e; dp_currentMa := el_currentMa e; dp_powerMw := el_powerMw e;
     dp_updatedAt := updatedAt; dp_source := source; dp_stale := false; dp_error := None |}.

Definition stale_power (uuid : string) (prev : option DevicePowerDto) (known : option KnownHost) (updatedAt : Z)
    (source : telemetry_source) (message : string) : DevicePowerDto :=
  {| dp_uuid := uuid;
     dp_host := match prev with Some p => dp_host p | None => match known with Some k => kh_host k | None => "" end end;
     dp_channel := from_option dp_channel 0 prev;
     dp_voltageV := prev ≫= dp_voltageV; dp_currentA := prev ≫= dp_currentA; dp_powerW := prev ≫= dp_powerW;
     dp_voltageDv := prev ≫= dp_voltageDv; dp_currentMa := prev ≫= dp_currentMa; dp_powerMw := prev ≫= dp_powerMw;
     dp_updatedAt := updatedAt; dp_source := source; dp_stale := true; dp_error := Some message |}.

(** The row stored for a reading. *)
Definition row_of_power (atMs : Z) (p : DevicePowerDto) : telemetry_row :=
  {| tr_uuid := dp_uuid p; tr_channel := dp_channel p; tr_atMs := atMs; tr_voltageV := dp_voltageV p;
     tr_currentA := dp_currentA p; tr_powerW := dp_powerW p; tr_rawVoltageDv := dp_voltageDv p;
     tr_rawCurrentMa := dp_currentMa p; tr_rawPowerMw := dp_powerMw p;
     tr_source := match dp_source p with TPoller => "telemetry_poller" | TManual => "telemetry_manual" end |}.

(** ** Equality of numbers

    [===] identifies the two zeros and no NaN. *)

Definition num_same (x y : num) : Prop :=
  match x, y with
  | S754_zero _, S754_zero _ => True
  | S754_infinity s, S754_infinity s' => s = s'
  | S754_finite s m e, S754_finite s' m' e' => s = s' ∧ m = m' ∧ e = e'
  | _, _ => False
  end.

Lemma finite_eqb s m e s' m' e' :
  num_eqb (S754_finite s m e) (S754_finite s' m' e') = true ↔ s = s' ∧ m = m' ∧ e = e'.
Proof.
  unfold num_eqb, SFeqb, SFcompare. change (Pos.compare_cont Eq m m') with (m ?= m')%positive.
  destruct (Z.compare_spec e e'); destruct (Pos.compare_spec m m'); subst; destruct s, s'; simpl;
    split; try done; try lia; intros (? & ? & ?); try done; lia.
Qed.

Lemma num_eqb_spec x y : num_eqb x y = true ↔ num_same x y.
Proof.
  destruct x as [sx|sx| |sx mx ex], y as [sy|sy| |sy my ey]; [..|apply finite_eqb];
    cbn; repeat match goal with b : bool |- _ => destruct b end; done.
Qed.

Lemma num_eqb_refl x : is_nan x = false → num_eqb x x = true.
Proof. rewrite num_eqb_spec. by destruct x. Qed.

Lemma num_eqb_sym x y : num_eqb x y = true → num_eqb y x = true.
Proof. rewrite !num_eqb_spec. destruct x, y; simpl; naive_solver. Qed.

Lemma num_eqb_trans x y z : num_eqb x y = true → num_eqb y z = true → num_eqb x z = true.
Proof. rewrite !num_eqb_spec. destruct x, y, z; simpl; naive_solver. Qed.

(** ** Material equality *)

Section SameList.
Context {A : Type} (same : A → A → bool).

Lemma same_list_Forall2 a b : same_list same a b = true ↔ Forall2 (λ x y, same x y = true) a b.
Proof.
  revert b. induction a as [|x a IH]; intros [|y b]; simpl.
  - split; [constructor|done].
  - split; [done|by inversion 1].
  - split; [done|by inversion 1].
  - rewrite andb_true_iff, IH. split; [by intros []; constructor|by inversion 1].
Qed.

Lemma same_list_eq a b : (∀ x y, same x y = true ↔ x = y) → same_list same a b = true ↔ a = b.
Proof.
  intros Hs. rewrite same_list_Forall2. split; [|intros ->; induction b; constructor; [by apply Hs|done]].
  induction 1 as [|x y a b Hxy H IH]; [done|]. apply Hs in Hxy as ->. by rewrite IH.
Qed.
End SameList.

Lemma sameChannels_eq a b : sameChannels a b = true ↔ a = b.
Proof.
  apply same_list_eq. intros [c o] [c' o']. cbn. rewrite andb_true_iff, Z.eqb_eq, eqb_true_iff. naive_solver.
Qed.

Lemma sameScheduleDigest_eq a b : sameScheduleDigest a b = true ↔ a = b.
Proof.
  apply same_list_eq. intros [c i n] [c' i' n']. cbn.
  rewrite !andb_true_iff, !Z.eqb_eq, String.eqb_eq. naive_solver.
Qed.

(** Numbers of a light that can be compared: no NaN (the extractors only let finite ones through). *)
Definition light_numbers_ok (l : LanLightState) : Prop :=
  (∀ x, li_luminance l = Some x → is_nan x = false) ∧ (∀ x, li_temperature l = Some x → is_nan x = false).

Definition num_equiv (a b : option num) : Prop := same_num a b = true.

Record light_equiv (a b : LanLightState) : Prop := {
  le_channel : li_channel a = li_channel b;
  le_onoff : li_onoff a = li_onoff b;
  le_luminance : num_equiv (li_luminance a) (li_luminance b);
  le_temperature : num_equiv (li_temperature a) (li_temperature b);
  le_rgb : li_rgb a = li_rgb b }.

Lemma sameLight_equiv a b : sameLight a b = true ↔ light_equiv a b.
Proof.
  unfold sameLight. rewrite !andb_true_iff, Z.eqb_eq, eqb_true_iff. split.
  - intros [[[[? ?] ?] ?] Hr]. split; try done. unfold same_int in Hr. repeat case_match; bool_hyps; congruence.
  - intros [? ? ? ? Hr]. split_and!; try done. rewrite Hr. unfold same_int. case_match; [apply Z.eqb_refl|done].
Qed.

(** Two states that a subscriber cannot tell apart: everything but the version, the source and the
    message of the error. *)
Record material_equiv (p n : DeviceStateDto) : Prop := {
  me_host : ds_host p = ds_host n;
  me_kind : ds_kind p = ds_kind n;
  me_channel : ds_channel p = ds_channel n;
  me_onoff : ds_onoff p = ds_onoff n;
  me_stale : ds_stale p = ds_stale n;
  me_channels : ds_channels p = ds_channels n;
  me_timerx : ds_timerxDigest p = ds_timerxDigest n;
  me_triggerx : ds_triggerxDigest p = ds_triggerxDigest n;
  me_lights : Forall2 light_equiv (ds_lights p) (ds_lights n);
  me_light : option_Forall2 light_equiv (ds_light p) (ds_light n) }.

Lemma sameLightOption_equiv a b : sameLightOption a b = true ↔ option_Forall2 light_equiv a b.
Proof.
  destruct a as [a|], b as [b|]; simpl; rewrite ?sameLight_equiv; split; try done; try (by constructor);
  by inversion 1.
Qed.

Lemma sameLights_equiv a b : same_list sameLight a b = true ↔ Forall2 light_equiv a b.
Proof.
  rewrite same_list_Forall2. split; intros H; (eapply Forall2_impl; [exact H|]); intros; by apply sameLight_equiv.
Qed.

Lemma hasMaterialStateChange_all p next : hasMaterialStateChange (Some p) next =
  negb (String.eqb (ds_host p) (ds_host next) && bool_decide (ds_kind p = ds_kind next) &&
        (ds_channel p =? ds_channel next) && Bool.eqb (ds_onoff p) (ds_onoff next) &&
        Bool.eqb (ds_stale p) (ds_stale next) && sameChannels (ds_channels p) (ds_channels next) &&
        sameScheduleDigest (ds_timerxDigest p) (ds_timerxDigest next) &&
        sameScheduleDigest (ds_triggerxDigest p) (ds_triggerxDigest next) &&
        same_list sameLight (ds_lights p) (ds_lights next) && sameLightOption (ds_light p) (ds_light next)).
Proof.
  cbn [hasMaterialStateChange].
  repeat match goal with |- (if negb ?b then true else _) = _ => destruct b; simpl; [|done] end. done.
Qed.

Lemma hasMaterialStateChange_false prev next :
  hasMaterialStateChange prev next = false ↔ ∃ p, prev = Some p ∧ material_equiv p next.
Proof.
  destruct prev as [p|]; [|split; [done|by intros (? & ? & _)]].
  trans (material_equiv p next); [|naive_solver].
  rewrite hasMaterialStateChange_all, negb_false_iff, !andb_true_iff, String.eqb_eq, bool_decide_eq_true,
    Z.eqb_eq, !eqb_true_iff, sameChannels_eq, !sameScheduleDigest_eq, sameLights_equiv, sameLightOption_equiv.
  split; [intros [[[[[[[[[? ?] ?] ?] ?] ?] ?] ?] ?] ?]; by split|by intros []].
Qed.

(** The states of the poller: no NaN among the numbers of the lights. *)
Definition numbers_ok (d : DeviceStateDto) : Prop :=
  Forall light_numbers_ok (ds_lights d) ∧ ∀ l, ds_light d = Some l → light_numbers_ok l.

Lemma num_equiv_refl a : (∀ x, a = Some x → is_nan x = false) → num_equiv a a.
Proof. intros H. destruct a; [|done]. apply num_eqb_refl. auto. Qed.

#[export] Instance num_equiv_sym : Symmetric num_equiv.
Proof. intros [x|] [y|]; try done. apply num_eqb_sym. Qed.

#[export] Instance num_equiv_trans : Transitive num_equiv.
Proof. intros [x|] [y|] [z|]; try done. apply num_eqb_trans. Qed.

Lemma light_equiv_refl a : light_numbers_ok a → light_equiv a a.
Proof. intros [? ?]. split; auto using num_equiv_refl. Qed.

#[export] Instance light_equiv_sym : Symmetric light_equiv.
Proof. intros a b []. split; by symmetry. Qed.

#[export] Instance light_equiv_trans : Transitive light_equiv.
Proof. intros a b c [] []. split; etrans; eauto. Qed.

#[export] Instance material_equiv_sym : Symmetric material_equiv.
Proof. intros p n []. split; by symmetry. Qed.

#[export] Instance material_equiv_trans : Transitive material_equiv.
Proof. intros p n q [] []. split; etrans; eauto. Qed.

Lemma material_equiv_refl d : numbers_ok d → material_equiv d d.
Proof.
  intros [Hl Hp]. split; try done.
  - induction Hl; constructor; [by apply light_equiv_refl|done].
  - destruct (ds_light d); constructor. by apply light_equiv_refl, Hp.
Qed.

(** The comparison is a test on equivalence classes. *)
#[export] Instance hasMaterialStateChange_proper :
  Proper (option_Forall2 material_equiv ==> material_equiv ==> eq) hasMaterialStateChange.
Proof.
  intros p p' Hp n n' Hn.
  destruct (hasMaterialStateChange p n) eqn:E1, (hasMaterialStateChange p' n') eqn:E2; try done; exfalso.
  - apply hasMaterialStateChange_false in E2 as (q & -> & Hq). inversion Hp as [x ? Hx|]; subst.
    apply not_false_iff_true in E1. apply E1, hasMaterialStateChange_false. exists x. split; [done|].
    etrans; [exact Hx|]. etrans; [exact Hq|]. by symmetry.
  - apply hasMaterialStateChange_false in E1 as (q & -> & Hq). inversion Hp as [? x Hx|]; subst.
    apply not_false_iff_true in E2. apply E2, hasMaterialStateChange_false. exists x. split; [done|].
    etrans; [symmetry; exact Hx|]. etrans; [exact Hq|done].
Qed.

(** ** Properties *)

(** C25: a new state is broadcast exactly when it can be told apart from the last one: the test is
    false precisely on a previous state that agrees in everything but the version, the source and the
    error message, numbers compared as numbers. *)
Theorem hasMaterialStateChange_spec prev next :
  (hasMaterialStateChange prev next = false ↔ ∃ p, prev = Some p ∧ material_equiv p next) ∧
  hasMaterialStateChange None next = true ∧
  (∀ p, material_equiv p next → material_equiv next p) ∧
  (∀ p q, material_equiv p next → hasMaterialStateChange (Some q) p = hasMaterialStateChange (Some q) next) ∧
  (numbers_ok next → hasMaterialStateChange (Some next) next = false).
Proof.
  split_and!; [apply hasMaterialStateChange_false|done|by symmetry| |].
  - intros p q Hp. destruct (hasMaterialStateChange (Some q) next) eqn:E.
    + apply not_false_iff_true. apply not_false_iff_true in E. intros Hf. apply E.
      apply hasMaterialStateChange_false in Hf as (q' & [= <-] & Hq).
      apply hasMaterialStateChange_false. exists q. split; [done|]. etrans; [exact Hq|]. done.
    + apply hasMaterialStateChange_false in E as (q' & [= <-] & Hq).
      apply hasMaterialStateChange_false. exists q. split; [done|]. etrans; [exact Hq|]. by symmetry.
  - intros Hok. apply hasMaterialStateChange_false. exists next. split; [done|by apply material_equiv_refl].
Qed.

Lemma withJitterMs_min b p r z : withJitterMs b p r = Some z → 1000 <= z.
Proof. unfold withJitterMs. rewrite fmap_Some. intros (x & _ & ->). lia. Qed.

Lemma failureBackoffMs_values n : failureBackoffMs n =
  if n <=? 0 then 0 else if n <=? 1 then 30000 else if n <=? 2 then 60000 else if n <=? 3 then 120000 else 300000.
Proof.
  unfold failureBackoffMs. cbn [length FAILURE_BACKOFF_SEQUENCE_MS].
  destruct (n <=? 0) eqn:E0; [done|]. destruct (n <=? 1) eqn:E1; [by assert (n = 1) as -> by lia|].
  destruct (n <=? 2) eqn:E2; [by assert (n = 2) as -> by lia|].
  destruct (n <=? 3) eqn:E3; [by assert (n = 3) as -> by lia|].
  bool_hyps. rewrite Z.min_l by lia. done.
Qed.

(** The delay before the next poll: no failure means a jittered interval of at least one second,
    the shortest class that applies (boosted, recently changed, stable); failures mean the fixed
    back-off, which never shrinks as failures accumulate, is at least thirty seconds and at most five
    minutes. *)
Theorem interval_of_spec m now random :
  (0 < pm_failureCount m → interval_of m now random = Some (failureBackoffMs (pm_failureCount m)) ∧
     30000 <= failureBackoffMs (pm_failureCount m) <= 300000) ∧
  (∀ n k, n <= k → failureBackoffMs n <= failureBackoffMs k) ∧
  (pm_failureCount m <= 0 → ∀ z, interval_of m now random = Some z → 1000 <= z) ∧
  (pm_failureCount m <= 0 → before_boost_end m now = true →
     interval_of m now random = withJitterMs BOOST_INTERVAL_MS (str_to_num "0.1") random) ∧
  (pm_failureCount m <= 0 → before_boost_end m now = false →
     interval_of m now random = withJitterMs (if recently_changed m now then HOT_INTERVAL_MS else STABLE_INTERVAL_MS)
                                  (str_to_num "0.15") random).
Proof.
  unfold interval_of. split_and!.
  - intros H. rewrite (proj2 (Z.ltb_lt 0 _) H). split; [done|]. rewrite failureBackoffMs_values.
    repeat case_match; bool_hyps; lia.
  - intros n k Hnk. rewrite !failureBackoffMs_values. repeat case_match; bool_hyps; lia.
  - intros H z. rewrite (proj2 (Z.ltb_ge 0 _) H). repeat case_match; apply withJitterMs_min.
  - intros H Hb. by rewrite (proj2 (Z.ltb_ge 0 _) H), Hb.
  - intros H Hb. rewrite (proj2 (Z.ltb_ge 0 _) H), Hb. by destruct (recently_changed m now).
Qed.

(** ** Examples *)

Example jitter_ex :
  (withJitterMs STABLE_INTERVAL_MS (str_to_num "0.15") (num_of_Z 0),
   withJitterMs STABLE_INTERVAL_MS (str_to_num "0.15") (str_to_num "0.5"),
   withJitterMs 100 (num_of_Z 0) num_nan) = (Some 38250, Some 45000, None).
Proof. vm_compute. reflexivity. Qed.

Example percentile_ex : (percentile [5; 1; 9; 3] 50, percentile [5; 1; 9; 3] 95, percentile [] 50) = (5, 9, 0).
Proof. vm_compute. reflexivity. Qed.
