(* ===== verification/Threads.v ===== *)
(** * Interleaving over a shared state

    The event loop: threads that run one at a time from one suspension to the next over one shared
    state. A thread suspends at a call to the runtime that is not synchronous and at the [await] of a
    promise that is not settled; everything between two suspensions is one block. A call whose
    promise is dropped runs to its first suspension inside the block that makes it.

    Invariants are proved thread by thread with [rg], a weakest precondition under interference:
    every write keeps the invariant, respects what the other threads own, and what a thread knows of
    the shared state survives a suspension only if it follows from the invariant, from the transition
    relation or from its ownership. Ownership is of tokens, numbers drawn from a counter of the
    state. *)

From stdpp Require Import gmap.
From S2P Require Export Eff.

Local Open Scope nat_scope.
Local Open Scope list_scope.

Section Threads.
Context {St R : Type} {E : Type → Type}.
Variable is_sync : ∀ X, E X → bool.
(** How a promise has settled, if it has. *)
Variable settled : St → nat → option (result R).

Abbreviation M := (prog St R E).

(** [adv p s p' s' l]: started in [s], [p] reaches its next suspension [p'] in [s'], having started
    the calls [l] on the way. *)
Fixpoint adv {A : Type} (p : M A) (s : St) (p' : M A) (s' : St) (l : list (M unit)) : Prop :=
  match p with
  | Ret _ | Throw _ | Await _ _ => p' = p ∧ s' = s ∧ l = []
  | Sys e k => if is_sync _ e then ∃ x, adv (k x) s p' s' l else p' = p ∧ s' = s ∧ l = []
  | Atom f k => adv (k (snd (f s))) (fst (f s)) p' s' l
  | Fork q k => ∃ q' s1 l1 l2, adv q s q' s1 l1 ∧ adv k s1 p' s' l2 ∧ l = q' :: l1 ++ l2
  end.

(** One block of a suspended thread. *)
Definition resume {A : Type} (p : M A) (s : St) (p' : M A) (s' : St) (l : list (M unit)) : Prop :=
  match p with
  | Sys e k => is_sync _ e = false ∧ ∃ x, adv (k x) s p' s' l
  | Await pid k => ∃ r, settled s pid = Some r ∧ adv (k r) s p' s' l
  | _ => False
  end.

Record threads := { th_state : St; th_threads : list (M unit) }.

(** A block of one thread, or a new call from outside: a timer, a request, a disconnection. *)
Inductive step (entry : M unit → Prop) : threads → threads → Prop :=
| step_resume s ts i p p' s' l :
    ts !! i = Some p → resume p s p' s' l →
    step entry {| th_state := s; th_threads := ts |} {| th_state := s'; th_threads := <[i := p']> ts ++ l |}
| step_entry s ts q q' s' l :
    entry q → adv q s q' s' l →
    step entry {| th_state := s; th_threads := ts |} {| th_state := s'; th_threads := ts ++ q' :: l |}.

Definition steps (entry : M unit → Prop) : threads → threads → Prop := rtc (step entry).

Lemma steps_trans entry c1 c2 c3 : steps entry c1 c2 → steps entry c2 c3 → steps entry c1 c3.
Proof. unfold steps. intros H1 H2. by etrans. Qed.

(** ** Executing a schedule

    With an answer for every call to the runtime the blocks are functions. *)

Variable answer : ∀ X, E X → X.

Fixpoint run {A : Type} (p : M A) (s : St) : M A * St * list (M unit) :=
  match p with
  | Ret a => (Ret a, s, [])
  | Throw e => (Throw e, s, [])
  | Await pid k => (Await pid k, s, [])
  | Sys e k => if is_sync _ e then run (k (answer _ e)) s else (Sys e k, s, [])
  | Atom f k => run (k (snd (f s))) (fst (f s))
  | Fork q k =>
      let '(q', s1, l1) := run q s in
      let '(p', s2, l2) := run k s1 in
      (p', s2, q' :: l1 ++ l2)
  end.

Lemma run_adv {A : Type} (p : M A) s : let '(p', s', l) := run p s in adv p s p' s' l.
Proof.
  revert s. induction p as [A a|A e|A X e k IH|A X g k IH|A pid k IH|A q IHq k IH]; intros s; cbn [run adv]; auto.
  - destruct (is_sync X e).
    + specialize (IH (answer X e) s). destruct (run _ s) as [[? ?] ?]. eauto.
    + done.
  - apply IH.
  - specialize (IHq s). destruct (run q s) as [[q' s1] l1]. specialize (IH s1).
    destruct (run k s1) as [[p' s2] l2]. eauto 10.
Qed.

(** A call from outside, and the next block of thread [i]; a thread that cannot continue stays. *)
Definition call_run (q : M unit) (c : threads) : threads :=
  let '(q', s', l) := run q (th_state c) in
  {| th_state := s'; th_threads := th_threads c ++ q' :: l |}.

Definition continue (i : nat) (p : M unit) (c : threads) : threads :=
  let '(p', s', l) := run p (th_state c) in
  {| th_state := s'; th_threads := <[i := p']> (th_threads c) ++ l |}.

Definition resume_run (i : nat) (c : threads) : threads :=
  match th_threads c !! i with
  | Some (Sys e k) => if is_sync _ e then c else continue i (k (answer _ e)) c
  | Some (Await pid k) => match settled (th_state c) pid with Some r => continue i (k r) c | None => c end
  | _ => c
  end.

Lemma call_run_step entry q c : entry q → step entry c (call_run q c).
Proof.
  intros Hq. unfold call_run. pose proof (run_adv q (th_state c)) as Hr. destruct (run _ _) as [[q' s'] l].
  destruct c. by apply (step_entry _ _ _ q).
Qed.

Lemma continue_step entry i p q c : th_threads c !! i = Some p →
  (∀ p' s' l, adv q (th_state c) p' s' l → resume p (th_state c) p' s' l) → steps entry c (continue i q c).
Proof.
  intros Hi Hq. unfold continue. pose proof (run_adv q (th_state c)) as Hr. destruct (run _ _) as [[q' s'] l].
  apply rtc_once. destruct c. eapply step_resume; [exact Hi|]. auto.
Qed.

Lemma resume_run_steps entry i c : steps entry c (resume_run i c).
Proof.
  unfold resume_run. destruct (th_threads c !! i) as [p|] eqn:Hi; [|apply rtc_refl].
  destruct p as [a|e|X e k|X f k|pid k|q k]; try apply rtc_refl.
  - destruct (is_sync X e) eqn:Es; [apply rtc_refl|]. eapply continue_step; [exact Hi|]. cbn [resume]. eauto.
  - destruct (settled (th_state c) pid) as [r|] eqn:Es; [|apply rtc_refl].
    eapply continue_step; [exact Hi|]. cbn [resume]. eauto.
Qed.

(** ** Blocks that run to their end

    What a program does when nothing suspends it: no other thread runs meanwhile, so its writes are
    one change of the state. *)

Fixpoint blk {A : Type} (p : M A) (Q : result A → St → list (M unit) → Prop) (s : St) : Prop :=
  match p with
  | Ret a => Q (Ok a) s []
  | Throw e => Q (Err e) s []
  | Sys e k => is_sync _ e = true ∧ ∀ x, blk (k x) Q s
  | Atom f k => blk (k (snd (f s))) Q (fst (f s))
  | Await _ _ => False
  | Fork q k => ∀ q' s1 l1, adv q s q' s1 l1 → blk k (λ r s' l, Q r s' (q' :: l1 ++ l)) s1
  end.

Lemma blk_mono {A : Type} (p : M A) (Q1 Q2 : result A → St → list (M unit) → Prop) s :
  (∀ r s' l, Q1 r s' l → Q2 r s' l) → blk p Q1 s → blk p Q2 s.
Proof.
  revert Q1 Q2 s. induction p as [A a|A e|A X e k IH|A X g k IH|A pid k IH|A q IHq k IH];
    intros Q1 Q2 s HQ; cbn [blk]; auto.
  - intros [? H]. eauto.
  - eauto.
  - intros H q' s1 l1 Hq. eapply IH; [|by apply H]. eauto.
Qed.

Lemma blk_bind {A B : Type} (p : M A) (f : A → M B) Q s :
  blk (bind p f) Q s ↔
  blk p (λ r s' l, match r with
                   | Ok a => blk (f a) (λ r' s2 l2, Q r' s2 (l ++ l2)) s'
                   | Err e => Q (Err e) s' l
                   end) s.
Proof.
  revert f Q s. induction p as [A a|A e|A X e k IH|A X g k IH|A pid k IH|A q IHq k IH];
    intros f Q s; cbn [bind blk]; try done.
  - split; intros [? Hk]; (split; [done|]); intros x; by apply IH.
  - split; intros H q' s1 l1 Hq; specialize (H q' s1 l1 Hq).
    + apply IH in H. eapply blk_mono, H. intros [a|e] s' l; [|done]. apply blk_mono. intros r s2 l2.
      change ((q' :: l1 ++ l) ++ l2) with (q' :: ((l1 ++ l) ++ l2)). by rewrite app_assoc.
    + apply IH. eapply blk_mono, H. intros [a|e] s' l; [|done]. apply blk_mono. intros r s2 l2.
      change ((q' :: l1 ++ l) ++ l2) with (q' :: ((l1 ++ l) ++ l2)). by rewrite app_assoc.
Qed.

Lemma blk_adv {A : Type} (p : M A) Q s p' s' l : blk p Q s → adv p s p' s' l →
  ∃ r, p' = of_result r ∧ Q r s' l.
Proof.
  revert Q s l. induction p as [A a|A e|A X e k IH|A X g k IH|A pid k IH|A q IHq k IH];
    intros Q s l; cbn [blk adv].
  - intros HQ (-> & -> & ->). by exists (Ok a).
  - intros HQ (-> & -> & ->). by exists (Err e).
  - intros [-> Hk] [x Hadv]. eauto.
  - eauto.
  - done.
  - intros Hk (q' & s1 & l1 & l2 & Hq & Hadv & ->). by apply (IH _ _ _ _ (Hk _ _ _ Hq) Hadv).
Qed.

(** A program that only makes synchronous calls before it suspends. *)
Fixpoint waits {A : Type} (p : M A) : Prop :=
  match p with
  | Sys e k => if is_sync _ e then ∀ x, waits (k x) else True
  | Await _ _ => True
  | _ => False
  end.

Lemma waits_bind {A B : Type} (p : M A) (f : A → M B) : waits p → waits (bind p f).
Proof.
  revert f. induction p as [A a|A e|A X e k IH|A X g k IH|A pid k IH|A q IHq k IH]; intros f; cbn [waits bind]; try done.
  destruct (is_sync X e); auto.
Qed.

Lemma waits_catch {A : Type} (p : M A) h : waits p → waits (catch p h).
Proof.
  revert h. induction p as [A a|A e|A X e k IH|A X g k IH|A pid k IH|A q IHq k IH]; intros h; cbn [waits catch]; try done.
  destruct (is_sync X e); auto.
Qed.

Lemma waits_adv {A : Type} (p : M A) s p' s' l : waits p → adv p s p' s' l → s' = s ∧ l = [].
Proof.
  revert s. induction p as [A a|A e|A X e k IH|A X g k IH|A pid k IH|A q IHq k IH]; intros s; cbn [waits adv]; try done.
  - destruct (is_sync X e).
    + intros Hw [x Hadv]. eauto.
    + intros _ (_ & -> & ->). done.
  - intros _ (_ & -> & ->). done.
Qed.

(** ** Nothing else running

    A program that no other code interferes with, each call to the runtime answered by [answer]; a call it
    starts runs first. Nobody settles a promise that is awaited. *)

Fixpoint alone {A : Type} (p : M A) (s : St) : option (result A * St) :=
  match p with
  | Ret a => Some (Ok a, s)
  | Throw e => Some (Err e, s)
  | Sys e k => alone (k (answer _ e)) s
  | Atom f k => alone (k (snd (f s))) (fst (f s))
  | Await _ _ => None
  | Fork q k => match alone q s with Some (_, s') => alone k s' | None => None end
  end.

Lemma alone_bind {A B : Type} (p : M A) (f : A → M B) s :
  alone (bind p f) s =
  match alone p s with Some (Ok a, s') => alone (f a) s' | Some (Err e, s') => Some (Err e, s') | None => None end.
Proof.
  revert s. induction p as [A a|A e|A X e k IH|A X g k IH|A pid k IH|A q IHq k IH]; intros s; cbn [bind alone]; auto.
  destruct (alone q s) as [[? ?]|]; auto.
Qed.

Lemma alone_catch {A : Type} (p : M A) h s :
  alone (catch p h) s =
  match alone p s with Some (Ok a, s') => Some (Ok a, s') | Some (Err e, s') => alone (h e) s' | None => None end.
Proof.
  revert s. induction p as [A a|A e|A X e k IH|A X g k IH|A pid k IH|A q IHq k IH]; intros s; cbn [catch alone]; auto.
  destruct (alone q s) as [[? ?]|]; auto.
Qed.

Lemma alone_finally {A : Type} (p : M A) f s :
  alone (finally p (modify f)) s = match alone p s with Some (r, s') => Some (r, f s') | None => None end.
Proof.
  unfold finally. rewrite alone_bind, alone_catch, alone_bind. destruct (alone p s) as [[[a|e] s']|]; reflexivity.
Qed.

(** ** Rely and guarantee *)

(** The invariant, what every write respects, what a token protects, and the next token. *)
Variable Inv : St → Prop.
Variable Trans : St → St → Prop.
Variable rely : nat → St → St → Prop.
Variable next : St → nat.

Hypothesis Trans_refl : ∀ s, Trans s s.
Hypothesis Trans_trans : ∀ s1 s2 s3, Trans s1 s2 → Trans s2 s3 → Trans s1 s3.
Hypothesis rely_refl : ∀ t s, rely t s s.
Hypothesis rely_trans : ∀ t s1 s2 s3, rely t s1 s2 → rely t s2 s3 → rely t s1 s3.

(** What a thread that owns [O] may do, ending with [O']. *)
Record ok_step (O : gset nat) (s : St) (O' : gset nat) (s' : St) : Prop := {
  os_inv : Inv s';
  os_trans : Trans s s';
  os_next : next s <= next s';
  os_own : ∀ t, t ∈ O' → t ∈ O ∨ next s <= t < next s';
  os_rely : ∀ t, t < next s → t ∉ O → rely t s s' }.

(** What the others do meanwhile. *)
Record env_step (O : gset nat) (s s' : St) : Prop := {
  es_inv : Inv s';
  es_trans : Trans s s';
  es_next : next s <= next s';
  es_rely : ∀ t, t ∈ O → rely t s s' }.

Definition post (A : Type) : Type := result A → gset nat → St → Prop.

Fixpoint rg {A : Type} (p : M A) (Q : post A) (O : gset nat) (s : St) : Prop :=
  match p with
  | Ret a => Q (Ok a) O s
  | Throw e => Q (Err e) O s
  | Sys e k =>
      if is_sync _ e then ∀ x, rg (k x) Q O s
      else ∀ s' x, env_step O s s' → rg (k x) Q O s'
  | Atom f k => ∃ O', ok_step O s O' (fst (f s)) ∧ rg (k (snd (f s))) Q O' (fst (f s))
  | Await pid k => ∀ s' r, env_step O s s' → settled s' pid = Some r → rg (k r) Q O s'
  | Fork q k => rg q (λ _ _ _, True) ∅ s ∧ ∀ s', env_step O s s' → rg k Q O s'
  end.

Definition any {A : Type} : post A := λ _ _ _, True.

Lemma env_step_refl O s : Inv s → env_step O s s.
Proof. intros. split; auto. Qed.

Lemma env_step_trans O s1 s2 s3 : env_step O s1 s2 → env_step O s2 s3 → env_step O s1 s3.
Proof.
  intros [] []. split; [done|eauto|lia|eauto].
Qed.

Lemma rg_mono {A : Type} (p : M A) (Q1 Q2 : post A) O s :
  (∀ r O' s', Q1 r O' s' → Q2 r O' s') → rg p Q1 O s → rg p Q2 O s.
Proof.
  revert Q1 Q2 O s. induction p as [A a|A e|A X e k IH|A X g k IH|A pid k IH|A q IHq k IH];
    intros Q1 Q2 O s HQ; cbn [rg]; auto.
  - destruct (is_sync X e); eauto.
  - intros (O' & Hok & H). eauto.
  - eauto.
  - intros [H1 H2]. eauto.
Qed.

Lemma rg_bind {A B : Type} (p : M A) (f : A → M B) (Q : post B) O s :
  rg (bind p f) Q O s ↔
  rg p (λ r O' s', match r with Ok a => rg (f a) Q O' s' | Err e => Q (Err e) O' s' end) O s.
Proof.
  revert f Q O s. induction p as [A a|A e|A X e k IH|A X g k IH|A pid k IH|A q IHq k IH];
    intros f Q O s; cbn [bind rg]; try done.
  - destruct (is_sync X e); setoid_rewrite IH; done.
  - setoid_rewrite IH. done.
  - setoid_rewrite IH. done.
  - setoid_rewrite IH. done.
Qed.

Lemma rg_catch {A : Type} (p : M A) h (Q : post A) O s :
  rg (catch p h) Q O s ↔
  rg p (λ r O' s', match r with Ok a => Q (Ok a) O' s' | Err e => rg (h e) Q O' s' end) O s.
Proof.
  revert h Q O s. induction p as [A a|A e|A X e k IH|A X g k IH|A pid k IH|A q IHq k IH];
    intros h Q O s; cbn [catch rg]; try done.
  - destruct (is_sync X e); setoid_rewrite IH; done.
  - setoid_rewrite IH. done.
  - setoid_rewrite IH. done.
  - setoid_rewrite IH. done.
Qed.

Lemma env_step_mono O1 O2 s s' : O1 ⊆ O2 → env_step O2 s s' → env_step O1 s s'.
Proof. intros Hsub []. split; auto. Qed.

(** What a token protects is framed around a program that does not own it. *)
Lemma rg_frame {A : Type} (t : nat) (p : M A) (Q : post A) O s s0 :
  t ∉ O → t < next s → rely t s0 s → rg p Q O s →
  rg p (λ r O' s', ∃ O1, (O' = ({[t]} ∪ O1)) ∧ t ∉ O1 ∧ (t < next s')%nat ∧ rely t s0 s' ∧ Q r O1 s') ({[t]} ∪ O) s.
Proof.
  revert Q O s. induction p as [A a|A e|A X e k IH|A X g k IH|A pid k IH|A q IHq k IH];
    intros Q O s Ht Hn Hr Hp; cbn [rg] in *; eauto 10.
  - destruct (is_sync X e); [by eauto|]. intros s' x He.
    pose proof (es_next _ _ _ He). pose proof (es_rely _ _ _ He t ltac:(set_solver)).
    apply IH; [done|lia|by eapply rely_trans|]. apply Hp. eapply env_step_mono; [|done]. apply union_subseteq_r.
  - destruct Hp as (O1 & Hok & Hp). pose proof (os_next _ _ _ _ Hok).
    assert (Ht1 : t ∉ O1) by (intros [|]%(os_own _ _ _ _ Hok); [done|lia]).
    exists ({[t]} ∪ O1). split.
    + destruct Hok as [? ? ? Ho Hr']. split; [done..| |].
      * intros u [Hu|Hu]%elem_of_union; [set_solver|]. destruct (Ho u Hu); [set_solver|by right].
      * intros u Hu Hnu. apply Hr'; [done|set_solver].
    + apply IH; [done|lia| |done]. eapply rely_trans; [done|]. by apply (os_rely _ _ _ _ Hok).
  - intros s' r He Hs. pose proof (es_next _ _ _ He). pose proof (es_rely _ _ _ He t ltac:(set_solver)).
    apply IH; [done|lia|by eapply rely_trans|]. apply Hp; [|done]. eapply env_step_mono; [|done]. apply union_subseteq_r.
  - destruct Hp as [Hq Hp]. split; [done|]. intros s' He.
    pose proof (es_next _ _ _ He). pose proof (es_rely _ _ _ He t ltac:(set_solver)).
    apply IH; [done|lia|by eapply rely_trans|]. apply Hp. eapply env_step_mono; [|done]. apply union_subseteq_r.
Qed.

(** A program only moves along transitions. *)
Lemma rg_trans {A : Type} (p : M A) (Q : post A) O s s0 :
  Trans s0 s → rg p Q O s → rg p (λ r O' s', Q r O' s' ∧ Trans s0 s') O s.
Proof.
  revert Q O s. induction p as [A a|A e|A X e k IH|A X g k IH|A pid k IH|A q IHq k IH];
    intros Q O s Ht Hp; cbn [rg] in *; eauto.
  - destruct (is_sync X e); [by eauto|]. intros s' x He. apply IH; [|by apply Hp].
    eapply Trans_trans; [done|apply He].
  - destruct Hp as (O1 & Hok & Hp). exists O1. split; [done|]. apply IH; [|done].
    eapply Trans_trans; [done|apply Hok].
  - intros s' r He Hs. apply IH; [|by apply Hp]. eapply Trans_trans; [done|apply He].
  - destruct Hp as [Hq Hp]. split; [done|]. intros s' He. apply IH; [|by apply Hp].
    eapply Trans_trans; [done|apply He].
Qed.

(** A suspended thread keeps its assertion while the others run. *)
Definition suspended {A : Type} (p : M A) : Prop :=
  match p with
  | Ret _ | Throw _ | Await _ _ => True
  | Sys e _ => is_sync _ e = false
  | Atom _ _ | Fork _ _ => False
  end.

Lemma rg_stable {A : Type} (p : M A) O s s' :
  suspended p → rg p any O s → env_step O s s' → rg p any O s'.
Proof.
  destruct p; cbn [suspended rg]; try done.
  - intros ->. intros H He s2 x He2. apply H. by eapply env_step_trans.
  - intros _ H He s2 r He2. apply H. by eapply env_step_trans.
Qed.

(** ** Ownership of a pool *)

Fixpoint disjoint_sets (Os : list (gset nat)) : Prop :=
  match Os with [] => True | W :: Ws => W ## ⋃ Ws ∧ disjoint_sets Ws end.

Lemma disjoint_sets_app Os1 Os2 :
  disjoint_sets (Os1 ++ Os2) ↔ disjoint_sets Os1 ∧ disjoint_sets Os2 ∧ ⋃ Os1 ## ⋃ Os2.
Proof.
  induction Os1 as [|W Os1 IH]; cbn [app disjoint_sets].
  - rewrite union_list_nil. set_solver.
  - rewrite IH, union_list_app_L, union_list_cons. set_solver.
Qed.

Lemma elem_of_union_list_lookup (Os : list (gset nat)) i O t : Os !! i = Some O → t ∈ O → t ∈ ⋃ Os.
Proof. intros Hi Ht. apply elem_of_union_list. exists O. split; [by eapply list_elem_of_lookup_2|done]. Qed.

(** The calls started in a block, with what each owns at its suspension. *)
Definition started (l : list (M unit)) (Os : list (gset nat)) (s : St) : Prop :=
  Forall2 (λ q O, suspended q ∧ rg q any O s) l Os.

Lemma started_env l Os s s' :
  started l Os s → (∀ O, O ∈ Os → env_step O s s') → started l Os s'.
Proof.
  induction 1 as [|q O l Os [Hs Hr] H IH]; intros He; constructor.
  - split; [done|]. eapply rg_stable; [done..|]. apply He. left.
  - apply IH. intros O' HO'. apply He. by right.
Qed.

Lemma ok_step_trans O1 O2 O3 s1 s2 s3 :
  ok_step O1 s1 O2 s2 → ok_step O2 s2 O3 s3 → ok_step O1 s1 O3 s3.
Proof.
  intros [I1 T1 N1 W1 R1] [I2 T2 N2 W2 R2]. split; [done|eauto|lia| |].
  - intros t [Ht|Ht]%W2; [|lia]. destruct (W1 _ Ht); [by left|lia].
  - intros t Ht Hn. eapply rely_trans; [by apply R1|]. apply R2; [lia|].
    intros Ht'. destruct (W1 _ Ht') as [|]; [done|lia].
Qed.

Definition below (O : gset nat) (s : St) : Prop := ∀ t, t ∈ O → t < next s.

(** A block of a thread: it ends suspended with its assertion, the calls it started too, they share
    what was owned before or drawn in the block, and the others see an allowed step. *)
Lemma below_empty s : below ∅ s.
Proof. intros t Ht. by apply not_elem_of_empty in Ht. Qed.

(** The outcome of a block. *)
Definition block_ok {A : Type} (W : gset nat) s (p' : M A) s' l : Prop :=
  ∃ W' Ws, suspended p' ∧ rg p' any W' s' ∧ started l Ws s' ∧
    disjoint_sets (W' :: Ws) ∧ below (⋃ (W' :: Ws)) s' ∧ ok_step W s (⋃ (W' :: Ws)) s'.

Lemma ok_step_refl W s : Inv s → ok_step W s W s.
Proof. intros. split; auto. Qed.

Lemma adv_here {A : Type} (p : M A) W s :
  suspended p → rg p any W s → Inv s → below W s → block_ok W s p s [].
Proof.
  intros. exists W, []. assert (⋃ [W] = W) as -> by (simpl; set_solver).
  split_and!; [done|done|constructor|by split; [set_solver|]|done|by apply ok_step_refl].
Qed.

(** A call started in the middle of a block, then the rest of the block. *)
Lemma fork_ok {A : Type} (W : gset nat) s (q' : M unit) s1 l1 (p' : M A) s' l2 :
  below W s → block_ok ∅ s q' s1 l1 → env_step W s s1 → block_ok W s1 p' s' l2 →
  block_ok W s p' s' (q' :: l1 ++ l2).
Proof.
  intros Hb (Wq & Ws1 & Sq & Rq & F1 & D1 & B1 & Okq) He (W' & Ws2 & S2 & R2 & F2 & D2 & B2 & Ok2).
  assert (HQ : ∀ t, t ∈ Wq ∪ ⋃ Ws1 → next s <= t < next s1).
  { intros t Ht. rewrite <- union_list_cons in Ht. destruct (os_own _ _ _ _ Okq t Ht); [set_solver|done]. }
  assert (HP : ∀ t, t ∈ W' ∪ ⋃ Ws2 → t < next s ∨ next s1 <= t).
  { intros t Ht. rewrite <- union_list_cons in Ht. destruct (os_own _ _ _ _ Ok2 t Ht) as [Ht'|]; [|lia].
    left. by apply Hb. }
  assert (Hcross : ∀ V1 V2, V1 ⊆ W' ∪ ⋃ Ws2 → V2 ⊆ Wq ∪ ⋃ Ws1 → V1 ## V2).
  { intros V1 V2 HV1 HV2 t Ht1%HV1%HP Ht2%HV2%HQ. lia. }
  pose proof (es_next _ _ _ He) as Hn1. pose proof (os_next _ _ _ _ Ok2) as Hn2.
  assert (Hlate : ∀ V, V ⊆ Wq ∪ ⋃ Ws1 → env_step V s1 s').
  { intros V HV. split; [apply Ok2|apply Ok2|done|]. intros t Ht%HV%HQ. apply (os_rely _ _ _ _ Ok2); [lia|].
    intros Hw%Hb. lia. }
  exists W', (Wq :: Ws1 ++ Ws2).
  assert (HU : ⋃ (W' :: Wq :: Ws1 ++ Ws2) = (W' ∪ ⋃ Ws2) ∪ (Wq ∪ ⋃ Ws1)).
  { rewrite !union_list_cons, union_list_app_L. set_solver. }
  cbn [disjoint_sets] in *. rewrite HU, disjoint_sets_app, union_list_cons, union_list_app_L.
  destruct D1 as [D1 D1'], D2 as [D2 D2']. rewrite union_list_cons in B2.
  pose proof (Hcross W' Wq (union_subseteq_l _ _) (union_subseteq_l _ _)).
  pose proof (Hcross W' (⋃ Ws1) (union_subseteq_l _ _) (union_subseteq_r _ _)).
  pose proof (Hcross (⋃ Ws2) Wq (union_subseteq_r _ _) (union_subseteq_l _ _)).
  pose proof (Hcross (⋃ Ws2) (⋃ Ws1) (union_subseteq_r _ _) (union_subseteq_r _ _)).
  rewrite !disjoint_union_r. split_and!; try done; try (by symmetry).
  - constructor; [split; [done|eapply rg_stable; [done..|apply Hlate, union_subseteq_l]]|].
    apply Forall2_app; [|done]. eapply started_env; [done|]. intros V HV. apply Hlate. intros t Ht.
    apply elem_of_union_r, elem_of_union_list. eauto.
  - intros t [Ht|Ht%HQ]%elem_of_union; [by apply B2|lia].
  - split; [apply Ok2|eapply Trans_trans; [apply He|apply Ok2]|lia| |].
    + intros t [Ht|Ht%HQ]%elem_of_union; [|right; lia]. rewrite <- union_list_cons in Ht.
      destruct (os_own _ _ _ _ Ok2 _ Ht) as [|]; [by left|right; lia].
    + intros t Ht Hw. eapply rely_trans; [apply (os_rely _ _ _ _ Okq); [done|set_solver]|].
      apply (os_rely _ _ _ _ Ok2); [lia|done].
Qed.

Lemma adv_rg {A : Type} (p : M A) (W : gset nat) s p' s' l :
  adv p s p' s' l → Inv s → below W s → rg p any W s → block_ok W s p' s' l.
Proof.
  revert W s p' s' l. induction p as [A a|A e|A X e k IH|A X g k IH|A pid k IH|A q IHq k IH];
    intros W s p' s' l Hadv Hinv Hb Hrg; cbn [adv rg] in *.
  - destruct Hadv as (-> & -> & ->). by apply adv_here.
  - destruct Hadv as (-> & -> & ->). by apply adv_here.
  - destruct (is_sync X e) eqn:Es.
    + destruct Hadv as [x Hadv]. eauto.
    + destruct Hadv as (-> & -> & ->). apply adv_here; [done| |done..]. cbn [rg]. by rewrite Es.
  - destruct Hrg as (W1 & Hok & Hrg).
    assert (Hb1 : below W1 (g s).1).
    { intros t Ht. destruct (os_own _ _ _ _ Hok t Ht) as [Ht'|]; [|lia].
      specialize (Hb _ Ht'). pose proof (os_next _ _ _ _ Hok). lia. }
    destruct (IH _ W1 _ _ _ _ Hadv (os_inv _ _ _ _ Hok) Hb1 Hrg) as (W' & Ws & ? & ? & ? & ? & ? & ?).
    exists W', Ws. split_and!; try done. by eapply ok_step_trans.
  - destruct Hadv as (-> & -> & ->). by apply adv_here.
  - destruct Hadv as (q' & s1 & l1 & l2 & Hq & Hk & ->). destruct Hrg as [Hrq Hrk].
    pose proof (IHq ∅ _ _ _ _ Hq Hinv (below_empty s) Hrq) as Hbq.
    assert (env_step W s s1) as He.
    { destruct Hbq as (? & ? & _ & _ & _ & _ & _ & Okq). split; [apply Okq|apply Okq|apply Okq|].
      intros t Ht. apply (os_rely _ _ _ _ Okq); [by apply Hb|set_solver]. }
    eapply fork_ok; [done|exact Hbq|exact He|]. eapply IH; [done|apply He| |by apply Hrk].
    intros t Ht. specialize (Hb _ Ht). pose proof (es_next _ _ _ He). lia.
Qed.

(** ** Reachable states *)

(** The assertions of all threads, and how the tokens are shared among them. *)
Definition threads_ok (c : threads) : Prop :=
  Inv (th_state c) ∧ ∃ Ws, started (th_threads c) Ws (th_state c) ∧ disjoint_sets Ws ∧ below (⋃ Ws) (th_state c).

(** Each call from outside is verified from any state, owning nothing. *)
Definition entry_ok (entry : M unit → Prop) : Prop := ∀ q s, entry q → Inv s → rg q any ∅ s.

Lemma resume_rg {A : Type} (p : M A) W s p' s' l :
  resume p s p' s' l → Inv s → below W s → rg p any W s → block_ok W s p' s' l.
Proof.
  destruct p; cbn [resume rg]; try done.
  - intros [-> [x Hadv]] Hinv Hb Hrg. eapply adv_rg; [exact Hadv|done..|]. apply Hrg. by apply env_step_refl.
  - intros (r & Hr & Hadv) Hinv Hb Hrg. eapply adv_rg; [exact Hadv|done..|]. apply Hrg; [by apply env_step_refl|done].
Qed.

(** A block of one thread [W] among the others [Vs]. *)
Lemma block_threads {A : Type} (W : gset nat) s (p' : M A) s' l Vs :
  block_ok W s p' s' l → below (⋃ Vs) s → W ## ⋃ Vs →
  ∃ W' Ws, suspended p' ∧ rg p' any W' s' ∧ started l Ws s' ∧ disjoint_sets (W' :: Ws) ∧
    (W' ∪ ⋃ Ws) ## ⋃ Vs ∧ below (W' ∪ ⋃ Ws) s' ∧ Inv s' ∧ Trans s s' ∧ next s <= next s' ∧
    ∀ V, V ⊆ ⋃ Vs → env_step V s s'.
Proof.
  intros (W' & Ws & ? & ? & ? & ? & Hb & Hok) HVs HW. exists W', Ws.
  rewrite union_list_cons in *. split_and!; try done; try apply Hok.
  - intros t Ht Ht'. destruct (os_own _ _ _ _ Hok _ Ht) as [Hw|]; [by apply (HW t)|].
    specialize (HVs _ Ht'). lia.
  - intros V HV. split; [apply Hok|apply Hok|apply Hok|]. intros t Ht%HV. apply (os_rely _ _ _ _ Hok); [by apply HVs|].
    intros Hw. by apply (HW t).
Qed.

Lemma step_ok entry c c' : entry_ok entry → step entry c c' → threads_ok c →
  threads_ok c' ∧ Trans (th_state c) (th_state c').
Proof.
  intros He Hstep [Hinv (Ws & Hst & Hd & Hb)]. destruct Hstep as [s ts i p p' s' l Hi Hres|s ts q q' s' l Hq Hadv];
    cbn [th_state th_threads] in *.
  - destruct (Forall2_lookup_l _ _ _ _ _ Hst Hi) as (W & HW & Hsp & Hrg).
    pose proof (take_drop_middle _ _ _ HW) as HWs. rewrite <- HWs in Hd, Hb.
    rewrite disjoint_sets_app in Hd. cbn [disjoint_sets] in Hd.
    set (W1 := take i Ws) in *. set (W2 := drop (S i) Ws) in *.
    rewrite union_list_app_L, union_list_cons in Hb. destruct Hd as (D1 & [D2 D2'] & D12).
    rewrite union_list_cons in D12.
    destruct (block_threads W s p' s' l (W1 ++ W2)) as (W' & Ws' & ? & ? & Hl & [? ?] & Hx & ? & ? & HT & Hn & Henv).
    { eapply resume_rg; [done..| |done]. intros t Ht. apply Hb. set_solver. }
    { intros t Ht. apply Hb. rewrite union_list_app_L in Ht. set_solver. }
    { rewrite union_list_app_L. set_solver. }
    split; [|done]. split; [done|]. exists ((W1 ++ W' :: W2) ++ Ws'). split_and!.
    + apply Forall2_app; [|done]. rewrite insert_take_drop by (by eapply lookup_lt_Some).
      pose proof (Forall2_take _ _ _ i Hst) as Ht1. pose proof (Forall2_drop _ _ _ (S i) Hst) as Ht2.
      fold W1 in Ht1. fold W2 in Ht2. rewrite union_list_app_L in Henv.
      apply Forall2_app; [|constructor; [by split|]].
      * eapply started_env; [exact Ht1|]. intros V HV. apply Henv. intros t Ht.
        apply elem_of_union_l, elem_of_union_list. eauto.
      * eapply started_env; [exact Ht2|]. intros V HV. apply Henv. intros t Ht.
        apply elem_of_union_r, elem_of_union_list. eauto.
    + rewrite !disjoint_sets_app. cbn [disjoint_sets]. rewrite !union_list_app_L, !union_list_cons in *.
      rewrite !disjoint_union_l, !disjoint_union_r in *. split_and!; try done; try (by symmetry); naive_solver.
    + intros t. cbn [th_state]. rewrite !union_list_app_L, union_list_cons, !elem_of_union. intros Ht.
      assert (t ∈ ⋃ W1 ∨ t ∈ ⋃ W2 ∨ t ∈ W' ∪ ⋃ Ws') as [Hw|[Hw|Hw]] by set_solver; [| |auto].
      * assert (t < next s) by (apply Hb; set_solver). lia.
      * assert (t < next s) by (apply Hb; set_solver). lia.
  - destruct (block_threads ∅ s q' s' l Ws) as (W' & Ws' & ? & ? & Hl & [? ?] & Hx & ? & ? & HT & Hn & Henv).
    { eapply adv_rg; [done|done|set_solver|by apply He]. }
    { done. }
    { set_solver. }
    split; [|done]. split; [done|]. exists (Ws ++ W' :: Ws'). split_and!.
    + apply Forall2_app; [|constructor; [by split|done]]. eapply started_env; [exact Hst|].
      intros V HV. apply Henv. intros t Ht. apply elem_of_union_list. eauto.
    + rewrite disjoint_sets_app. cbn [disjoint_sets]. rewrite union_list_cons. split_and!; try done.
    + intros t. cbn [th_state]. rewrite union_list_app_L, union_list_cons. intros [Ht|Ht]%elem_of_union; [|auto].
      specialize (Hb _ Ht). lia.
Qed.

(** The invariant holds in every reachable state, which only transitions lead to. *)
Theorem reachable_ok entry c c' : entry_ok entry → threads_ok c → steps entry c c' →
  threads_ok c' ∧ Inv (th_state c') ∧ Trans (th_state c) (th_state c').
Proof.
  intros He Hc Hs. assert (threads_ok c' ∧ Trans (th_state c) (th_state c')) as [H1 H2].
  { induction Hs as [c|c1 c2 c3 H12 H23 IH]; [split; [done|apply Trans_refl]|].
    destruct (step_ok _ _ _ He H12 Hc) as [H2 HT]. destruct (IH H2) as [H3 HT']. eauto. }
  split_and!; [done|apply H1|done].
Qed.

Lemma threads_ok_init s : Inv s → threads_ok {| th_state := s; th_threads := [] |}.
Proof. intros. split; [done|]. exists []. split_and!; [constructor|done|set_solver]. Qed.
End Threads.

(** ** Invariants of every write

    An invariant that each write keeps whatever the other threads did before it needs no ownership. *)

Section Keeps.
Context {St R : Type} {E : Type → Type}.
Variable is_sync : ∀ X, E X → bool.
Variable settled : St → nat → option (result R).
Variable Inv : St → Prop.

Fixpoint keeps {A : Type} (p : prog St R E A) : Prop :=
  match p with
  | Ret _ | Throw _ => True
  | Sys _ k => ∀ x, keeps (k x)
  | Atom f k => ∀ s, Inv s → Inv (fst (f s)) ∧ keeps (k (snd (f s)))
  | Await _ k => ∀ r, keeps (k r)
  | Fork q k => keeps q ∧ keeps k
  end.

Lemma keeps_bind {A B : Type} (p : prog St R E A) (f : A → prog St R E B) :
  keeps p → (∀ a, keeps (f a)) → keeps (bind p f).
Proof.
  intros Hp Hf. induction p as [| |A X e k IH|A X g k IH|A pid k IH|A q _ k IH]; cbn [bind keeps] in *; auto.
  - intros s Hs. destruct (Hp s Hs). auto.
  - destruct Hp. auto.
Qed.

Lemma keeps_catch {A : Type} (p : prog St R E A) h : keeps p → (∀ e, keeps (h e)) → keeps (catch p h).
Proof.
  intros Hp Hh. induction p as [| |A X e k IH|A X g k IH|A pid k IH|A q _ k IH]; cbn [catch keeps] in *; auto.
  - intros s Hs. destruct (Hp s Hs). auto.
  - destruct Hp. auto.
Qed.

Lemma keeps_finally {A : Type} (p : prog St R E A) c : keeps p → keeps c → keeps (finally p c).
Proof.
  intros Hp Hc. unfold finally. apply keeps_bind.
  - apply keeps_catch; [by apply keeps_bind|done].
  - intros r. apply keeps_bind; [done|]. by destruct r.
Qed.

Lemma keeps_modify f : (∀ s, Inv s → Inv (f s)) → keeps (modify f).
Proof. intros Hf s Hs. split; [by apply Hf|done]. Qed.

Lemma keeps_sys {X : Type} (e : E X) : keeps (sys e).
Proof. done. Qed.

Lemma keeps_of_result {A : Type} (r : result A) : keeps (of_result r).
Proof. by destruct r. Qed.

Lemma keeps_sys_try {X : Type} (e : E (result X)) : keeps (sys_try e).
Proof. intros r. apply keeps_of_result. Qed.

Lemma keeps_fork q : keeps q → keeps (fork q).
Proof. intros Hq. by split. Qed.

Lemma adv_keeps {A : Type} (p : prog St R E A) s p' s' l : adv is_sync p s p' s' l → keeps p → Inv s →
  keeps p' ∧ Inv s' ∧ Forall keeps l.
Proof.
  revert s s' l. induction p as [A a|A e|A X e k IH|A X g k IH|A pid k IH|A q IHq k IH]; intros s s' l; cbn [adv keeps].
  - intros (-> & -> & ->) _ Hs. by repeat constructor.
  - intros (-> & -> & ->) _ Hs. by repeat constructor.
  - destruct (is_sync X e).
    + intros [x Hadv] Hp Hs. eauto.
    + intros (-> & -> & ->) Hp Hs. by repeat constructor.
  - intros Hadv Hp Hs. destruct (Hp s Hs). eauto.
  - intros (-> & -> & ->) Hp Hs. by repeat constructor.
  - intros (q' & s1 & l1 & l2 & Hq & Hk & ->) [Hkq Hkk] Hs.
    destruct (IHq _ _ _ _ Hq Hkq Hs) as (Hq' & Hs1 & Hl1). destruct (IH _ _ _ _ Hk Hkk Hs1) as (Hp' & Hs' & Hl2).
    split_and!; [done..|]. constructor; [done|]. by apply Forall_app.
Qed.

Lemma step_keeps entry c c' : (∀ q, entry q → keeps q) → step is_sync settled entry c c' →
  Inv (th_state c) ∧ Forall keeps (th_threads c) → Inv (th_state c') ∧ Forall keeps (th_threads c').
Proof.
  intros He Hstep [Hs Hts]. destruct Hstep as [s ts i p p' s' l Hi Hres|s ts q q' s' l Hq Hadv]; cbn [th_state th_threads] in *.
  - assert (Hp : keeps p) by by eapply Forall_lookup_1.
    assert (keeps p' ∧ Inv s' ∧ Forall keeps l) as (Hp' & Hs' & Hl).
    { destruct p as [a|e|X e k|X f k|pid k|q k]; try done; cbn [resume keeps] in *.
      - destruct Hres as [_ [x Hadv]]. by eapply adv_keeps.
      - destruct Hres as (r & _ & Hadv). by eapply adv_keeps. }
    split; [done|]. apply Forall_app. split; [by apply Forall_insert|done].
  - destruct (adv_keeps q s q' s' l Hadv (He q Hq) Hs) as (Hq' & Hs' & Hl).
    split; [done|]. apply Forall_app. by split; [|constructor].
Qed.

Lemma steps_keeps entry c c' : (∀ q, entry q → keeps q) → steps is_sync settled entry c c' →
  Inv (th_state c) ∧ Forall keeps (th_threads c) → Inv (th_state c') ∧ Forall keeps (th_threads c').
Proof. intros He Hs. induction Hs as [c|c1 c2 c3 H12 _ IH]; [done|]. intros Hc. by eapply IH, step_keeps. Qed.
End Keeps.

Create HintDb keeps discriminated.
#[export] Hint Resolve @keeps_sys @keeps_of_result @keeps_sys_try @keeps_fork : keeps.

(** Proves that a program keeps an invariant by its shape. *)
Ltac keeps_tac :=
  repeat first
    [ progress intros
    | match goal with |- keeps _ (match ?x with _ => _ end) => destruct x end
    | solve [eauto 2 with keeps nocore]
    | exact I
    | apply keeps_bind | apply keeps_catch | apply keeps_finally | apply keeps_fork
    | progress cbv zeta ].
