(* ===== verification/Server.v ===== *)
(** * The state of the server

    The fields of [StatePollerServiceImpl] (packages/core/src/api/state-poller.ts) with what its
    pending calls share, and the messages it sends to the clients of the event stream.

    A [PollMeta] is an object that a poll keeps a reference to while the table holds it; the table
    never drops or replaces one, so writes go through the table by uuid. Promises are numbers: those
    of the polls in the [inFlight] tables, and those of the worker pools of [pollNow]. The lists of
    polls and of messages record what has happened; no code reads them. *)

From coqutil Require Export Datatypes.RecordSettersUsingExistingGetters.
From S2P Require Export Dto Scan Threads.

#[global] Arguments RecordSettersUsingExistingGetters.const {E} newValue _ /.

Local Open Scope string_scope.
Local Open Scope Z_scope.
Local Open Scope list_scope.

(** ** Messages *)

Inductive sse_message : Type :=
| MsgSnapshot (states : list DeviceStateDto)
| MsgPowerSnapshot (readings : list DevicePowerDto)
| MsgHealth (stats : PollerStats)
| MsgState (d : DeviceStateDto)
| MsgStale (d : DeviceStateDto)
| MsgPower (d : DevicePowerDto)
| MsgPowerStale (d : DevicePowerDto)
| MsgHeartbeat (at_ : string).

Definition bit_val (b : bool) : val := VZ (if b then 1 else 0).
Definition opt_val {A} (f : A → val) (o : option A) : val := match o with Some a => f a | None => VUndef end.
Definition null_val {A} (f : A → val) (o : option A) : val := match o with Some a => f a | None => VNull end.

Definition toggle_val (c : LanToggleXState) : val :=
  VObj [("channel", VZ (tx_channel c)); ("onoff", bit_val (tx_onoff c))].

Definition light_val (l : LanLightState) : val :=
  mk_obj [("channel", VZ (li_channel l)); ("onoff", bit_val (li_onoff l)); ("luminance", opt_val VNum (li_luminance l));
          ("temperature", opt_val VNum (li_temperature l)); ("rgb", opt_val VZ (li_rgb l))].

Definition schedule_val (e : LanScheduleDigestEntry) : val :=
  VObj [("channel", VZ (sd_channel e)); ("id", VStr (sd_id e)); ("count", VZ (sd_count e))].

Definition kind_text (k : device_kind) : string :=
  match k with KTogglex => "togglex" | KLight => "light" | KMixed => "mixed" end.

Definition state_val (d : DeviceStateDto) : val :=
  mk_obj [("uuid", VStr (ds_uuid d)); ("host", VStr (ds_host d)); ("kind", VStr (kind_text (ds_kind d)));
          ("channel", VZ (ds_channel d)); ("onoff", bit_val (ds_onoff d));
          ("channels", VArr (map toggle_val (ds_channels d))); ("lights", VArr (map light_val (ds_lights d)));
          ("light", null_val light_val (ds_light d)); ("timerxDigest", VArr (map schedule_val (ds_timerxDigest d)));
          ("triggerxDigest", VArr (map schedule_val (ds_triggerxDigest d))); ("updatedAt", VZ (ds_updatedAt d));
          ("source", VStr (match ds_source d with RPoller => "poller" | RManual => "manual" end));
          ("stale", VBool (ds_stale d)); ("error", opt_val VStr (ds_error d))].

Definition power_val (p : DevicePowerDto) : val :=
  mk_obj [("uuid", VStr (dp_uuid p)); ("host", VStr (dp_host p)); ("channel", VZ (dp_channel p));
          ("voltageV", opt_val VNum (dp_voltageV p)); ("currentA", opt_val VNum (dp_currentA p));
          ("powerW", opt_val VNum (dp_powerW p)); ("voltageDv", opt_val VZ (dp_voltageDv p));
          ("currentMa", opt_val VZ (dp_currentMa p)); ("powerMw", opt_val VZ (dp_powerMw p));
          ("updatedAt", VZ (dp_updatedAt p));
          ("source", VStr (match dp_source p with TPoller => "telemetry_poller" | TManual => "telemetry_manual" end));
          ("stale", VBool (dp_stale p)); ("error", opt_val VStr (dp_error p))].

Definition stats_val (s : PollerStats) : val :=
  VObj [("running", VBool true); ("inFlight", VZ (ps_inFlight s)); ("queueDepth", VZ (ps_queueDepth s));
        ("cycleMsP50", VZ (ps_cycleMsP50 s)); ("cycleMsP95", VZ (ps_cycleMsP95 s));
        ("lastCycleAt", null_val VStr (ps_lastCycleAt s)); ("activeClients", VZ (ps_activeClients s))].

(** The name of the event and its payload. *)
Definition message_event (m : sse_message) : string * val :=
  match m with
  | MsgSnapshot l => ("snapshot", VObj [("states", VArr (map state_val l))])
  | MsgPowerSnapshot l => ("power_snapshot", VObj [("readings", VArr (map power_val l))])
  | MsgHealth s => ("poller_health", stats_val s)
  | MsgState d => ("device_state", state_val d)
  | MsgStale d => ("device_stale", state_val d)
  | MsgPower p => ("device_power", power_val p)
  | MsgPowerStale p => ("device_power_stale", power_val p)
  | MsgHeartbeat at_ => ("heartbeat", VObj [("at", VStr at_)])
  end.

Definition sse_frame (m : sse_message) : string :=
  let '(type, payload) := message_event m in
  "event: " +:+ type +:+ newline_text +:+ "data: " +:+ json_stringify payload +:+ newline_text +:+ newline_text.

(** A notice that a state or a reading is stale repeats the message that carries it. *)
Definition notice_of (n : sse_message) : option sse_message :=
  match n with
  | MsgStale d => Some (MsgState d)
  | MsgPowerStale p => Some (MsgPower p)
  | _ => None
  end.

(** Every notice directly follows the message it repeats. *)
Definition announced (l : list sse_message) : Prop :=
  ∀ j n m, l !! j = Some n → notice_of n = Some m → ∃ i, j = S i ∧ l !! i = Some m.

Lemma announced_nil : announced [].
Proof. by intros j n m [=]. Qed.

Lemma announced_snoc l n : announced (l ++ [n]) ↔ announced l ∧ (∀ m, notice_of n = Some m → last l = Some m).
Proof.
  split.
  - intros H. split.
    + intros j n' m Hj Hn. destruct (H j n' m) as (i & -> & Hi); [by apply lookup_app_l_Some|done|].
      exists i. split; [done|]. rewrite lookup_app_l in Hi; [done|]. apply lookup_lt_Some in Hj. lia.
    + intros m Hn. destruct (H (length l) n m) as (i & Hi & Hm); [by rewrite lookup_app_r, Nat.sub_diag by done|done|].
      rewrite lookup_app_l in Hm by lia. rewrite last_lookup, Hi. exact Hm.
  - intros [H Hlast] j n' m [Hj|[Hle Hj]]%lookup_app_Some Hn.
    + destruct (H j n' m Hj Hn) as (i & -> & Hi). exists i. split; [done|]. by apply lookup_app_l_Some.
    + apply list_lookup_singleton_Some in Hj as [Hj ->]. specialize (Hlast m Hn). rewrite last_lookup in Hlast.
      exists (Nat.pred (length l)). apply lookup_lt_Some in Hlast as Hlt. split; [lia|]. by apply lookup_app_l_Some.
Qed.

(** Dropping a subscriber. *)
Lemma filter_gone id l : id ∉ List.filter (λ i, negb (i =? id)) l.
Proof. intros [_ Hf]%list_elem_of_In%filter_In. by rewrite Z.eqb_refl in Hf. Qed.

Lemma filter_absent (id : Z) l : id ∉ l → List.filter (λ i, negb (i =? id)) l = l.
Proof.
  induction l as [|i l IH]; [done|]. intros [Hne Hl]%not_elem_of_cons. cbn.
  rewrite (proj2 (Z.eqb_neq i id)) by congruence. cbn. by rewrite IH.
Qed.

Lemma filter_middle (id : Z) l1 l2 : NoDup (l1 ++ id :: l2) → List.filter (λ i, negb (i =? id)) (l1 ++ id :: l2) = l1 ++ l2.
Proof.
  intros (_ & Hd & [Hn _]%NoDup_cons)%NoDup_app. rewrite List.filter_app. cbn. rewrite Z.eqb_refl. cbn.
  rewrite !filter_absent; [done|done|]. intros Hin. apply (Hd id Hin). by left.
Qed.

Lemma filter_sublist (id : Z) l : List.filter (λ i, negb (i =? id)) l `sublist_of` l.
Proof. induction l as [|i l IH]; [constructor|]. cbn. destruct (negb _); by constructor. Qed.

(** ** State *)

(** What a promise of the server settles with. *)
Inductive pval : Type :=
| PvPoll (r : PollResult)
| PvPower (p : option DevicePowerDto)
| PvWorkers.

(** The variables that the workers of one [pollNow] share. *)
Record poll_job := {
  jb_queue : list string; jb_states : list DeviceStateDto; jb_errors : list PollErrorDto; jb_live : nat }.

Record server := {
  sv_state : list (string * DeviceStateDto);
  sv_meta : list (string * PollMeta);
  sv_known : list (string * KnownHost);
  sv_inFlight : list (string * nat);
  sv_power : list (string * DevicePowerDto);
  sv_telInFlight : list (string * nat);
  sv_resolving : list (string * nat);
  sv_subs : list Z;
  sv_lastSyncHostsAt : Z;
  sv_lastCycleAt : option string;
  sv_lastHealthBroadcastAt : Z;
  sv_queueDepth : Z;
  sv_cycleSamples : list Z;
  sv_tickBusy : bool;
  sv_nextSubscriberId : Z;
  (** promises *)
  sv_next : nat;
  sv_settled : list (nat * result pval);
  sv_jobs : list (nat * poll_job);
  (** what has happened *)
  sv_polls : list (nat * string);
  sv_telPolls : list (nat * string);
  sv_log : list sse_message;
  sv_sent : list (Z * sse_message) }.

(** The update of one field. *)
Abbreviation upd p f := (λ r : server, set p f r).

Definition initial_server : server :=
  {| sv_state := []; sv_meta := []; sv_known := []; sv_inFlight := []; sv_power := []; sv_telInFlight := [];
     sv_resolving := []; sv_subs := []; sv_lastSyncHostsAt := 0; sv_lastCycleAt := None; sv_lastHealthBroadcastAt := 0;
     sv_queueDepth := 0; sv_cycleSamples := []; sv_tickBusy := false; sv_nextSubscriberId := 1; sv_next := 0;
     sv_settled := []; sv_jobs := []; sv_polls := []; sv_telPolls := []; sv_log := []; sv_sent := [] |}.

Definition settled_as (s : server) (pid : nat) : option (result pval) := jget pid (sv_settled s).

(** A promise settles once: later outcomes are ignored. *)
Definition settle (pid : nat) (r : result pval) (s : server) : server :=
  match jget pid (sv_settled s) with
  | Some _ => s
  | None => set sv_settled (jset pid r) s
  end.

Definition server_sync (X : Type) (e : sysE X) : bool := sync_effect e.

Abbreviation poller := (prog server pval sysE).

(** [p] with its outcome as a value. *)
Definition attempt {A} (p : poller A) : poller (result A) :=
  catch (bind p (λ a, Ret (Ok a))) (λ e, Ret (Err e)).

(** ** Health *)

Definition stats_of (s : server) : PollerStats :=
  {| ps_inFlight := Z.of_nat (length (sv_inFlight s)); ps_queueDepth := sv_queueDepth s;
     ps_cycleMsP50 := percentile (sv_cycleSamples s) 50; ps_cycleMsP95 := percentile (sv_cycleSamples s) 95;
     ps_lastCycleAt := sv_lastCycleAt s; ps_activeClients := Z.of_nat (length (sv_subs s)) |}.
