(* ===== verification/Poller.v ===== *)
(** * The poller

    The methods of [StatePollerServiceImpl] (packages/core/src/api/state-poller.ts) over the state of
    Server.v. An async method is a [poller] tree; a [void f()] is a [fork]; a promise that several
    callers wait for is a number with its outcome in [sv_settled].

    A reference to the [PollMeta] of a device is its uuid: the table never drops or replaces one.
    [pollDevice] and [pollTelemetry] write their table before they start the task and the source right
    after; the task runs to its first [await] without looking at the table, so nothing tells the two
    orders apart. *)

From S2P Require Export Server.

Local Open Scope string_scope.
Local Open Scope Z_scope.
Local Open Scope list_scope.

(** ** Messages to the subscribers *)

Definition getStatus : poller PollerStats := gets stats_of.

Definition pushToSubscriber (m : sse_message) (id : Z) : poller unit :=
  let! sub := gets (λ s, bool_decide (id ∈ sv_subs s)) in
  if sub then
    let! delivered := (sys (Enqueue id (sse_frame m)) : poller bool) in
    if delivered then modify (upd sv_sent (λ l, l ++ [(id, m)]))
    else modify (upd sv_subs (List.filter (λ i, negb (i =? id))))
  else Ret tt.

Definition broadcast (m : sse_message) : poller unit :=
  modify (upd sv_log (λ l, l ++ [m])) ;;!
  let! ids := gets sv_subs in
  for_each ids (pushToSubscriber m).

(** The headers of the event stream, before the security headers. *)
Definition stream_headers : list (string * string) :=
  [("content-type", "text/event-stream"); ("cache-control", "no-cache, no-transform");
   ("connection", "keep-alive"); ("x-accel-buffering", "no")].

(** ** Metadata *)

Definition ensureMeta (uuid : string) (now : Z) : poller unit :=
  modify (λ s, match jget uuid (sv_meta s) with
               | Some _ => s
               | None => set sv_meta (jset uuid (createMeta now)) s
               end).

(** The object that the table holds for [uuid]. *)
Definition meta_of (uuid : string) (s : server) : PollMeta := jget uuid (sv_meta s) ?: createMeta 0.

Definition up_meta (uuid : string) (f : PollMeta → PollMeta) : poller unit :=
  modify (λ s, set sv_meta (jset uuid (f (meta_of uuid s))) s).

Definition boosted (now dueAt : Z) (m : PollMeta) : PollMeta :=
  m <| pm_boostUntilAt := Some (now + BOOST_WINDOW_MS) |> <| pm_nextDueAt := Some dueAt |>.

Definition boostDevice (uuid : string) : poller unit :=
  if str_truthy uuid then
    let! now := sys Now in
    ensureMeta uuid now ;;!
    up_meta uuid (boosted now now)
  else Ret tt.

Definition nextIntervalMs (meta : PollMeta) (now : Z) : poller (option Z) :=
  if 0 <? pm_failureCount meta then Ret (Some (failureBackoffMs (pm_failureCount meta)))
  else let! random := sys MathRandom in Ret (interval_of meta now random).

(** [meta.nextDueAt = now + this.nextIntervalMs(meta, now)] *)
Definition schedule_next (uuid : string) (now : Z) : poller unit :=
  let! meta := gets (meta_of uuid) in
  let! interval := nextIntervalMs meta now in
  up_meta uuid (λ m, m <| pm_nextDueAt := Z.add now <$> interval |>).

Definition nextUpdatedAt (prev : option DeviceStateDto) : poller Z :=
  let! now := sys Now in Ret (next_version now (ds_updatedAt <$> prev)).

Definition nextTelemetryUpdatedAt (prev : option DevicePowerDto) : poller Z :=
  let! now := sys Now in Ret (next_version now (dp_updatedAt <$> prev)).

(** ** Known hosts *)

Definition known_of (h : host_entry) : KnownHost := {| kh_host := he_host h; kh_mac := he_mac h ≫= nonempty |}.

Definition syncKnownHosts : poller unit :=
  let! cfg := readConfig in
  let! now := sys Now in
  modify (λ s, s <| sv_lastSyncHostsAt := now |> <| sv_known := [] |>) ;;!
  for_each (hosts_of cfg) (λ '(uuid, v),
    if str_truthy (he_host v) then
      modify (upd sv_known (jset uuid (known_of v))) ;;!
      let! now := sys Now in
      ensureMeta uuid now
    else Ret tt).

(** ** Host recovery *)

Section Poller.
Context `{Runtime}.

(** The cloud record of a device. *)
Definition cloud_device (cfg : MerossConfig) (uuid : string) : val :=
  js_find (λ d, String.eqb (str_or_empty (prop "uuid" d)) uuid) (devices_of cfg) ?: VUndef.

(** [String(v ?? '').trim() || null] *)
Definition trimmed (v : val) : option string := nonempty (trim (str_or_empty v)).

(** The MAC to look for: the one stored with the host, or the one of the cloud record. *)
Definition recovery_mac (cfg : MerossConfig) (uuid : string) : option string :=
  let stored := match jget uuid (hosts_of cfg) with Some h => opt_val VStr (he_mac h) | None => VUndef end in
  let device := cloud_device cfg uuid in
  match trimmed (coalesce stored (coalesce (prop "macAddress" device) (prop "mac" device))) with
  | Some mac => match normalizeMac mac with Ok m => Some m | Err _ => Some mac end
  | None => None
  end.

(** [String(cfg.network?.cidr ?? '').trim() || defaultSuggestedCidr() || ''] *)
Definition recovery_cidr {St R} (cfg : MerossConfig) : prog St R sysE string :=
  match nonempty (trim ((cf_network cfg ≫= ne_cidr) ?: "")) with
  | Some cidr => Ret cidr
  | None => let! suggested := defaultSuggestedCidrNow in Ret (suggested ?: "")
  end.

(** The neighbour tables, warmed by a ping sweep, for the MAC. *)
Definition recovery_by_mac {St R} (cidr mac : string) : prog St R sysE (option string) :=
  (if str_truthy cidr then catch (pingSweep cidr (Some (num_of_Z 200)) (Some (num_of_Z 64))) (λ _, Ret tt) else Ret tt) ;;!
  catch (resolveIpv4FromMac mac) (λ _, Ret None).

(** What a scan adds: the host, and its MAC where the reply carries one. *)
Definition scanned_host (mac : option string) (resolved : string * option string) : option (string * option string) :=
  let '(host, found) := resolved in
  (λ h, (h, match found ≫= nonempty with Some m => Some m | None => mac end)) <$> nonempty host.

(** The search of [tryResolveHost]: by MAC where one is known, then by a scan for the uuid. *)
Definition recovery_search {St R} (uuid key cidr : string) (mac : option string)
    : prog St R sysE (option (string * option string)) :=
  let! viaMac := from_option (recovery_by_mac cidr) (Ret None) mac in
  match viaMac ≫= nonempty with
  | Some host => Ret (Some (host, mac))
  | None =>
      if str_truthy cidr then
        let! resolved := resolveHostByUuidScan uuid cidr key (Some (num_of_Z 900)) None mac in
        Ret (resolved ≫= scanned_host mac)
      else Ret None
  end.

(** The entry written for a host that was found: a MAC already stored stays unless a new one is known. *)
Definition recovered_entry (old : option host_entry) (host : string) (mac : option string) (at_ : string) : host_entry :=
  {| he_host := host; he_updatedAt := at_;
     he_mac := match mac with Some m => Some m | None => (old ≫= he_mac) ≫= nonempty end |}.

Definition recovery (uuid : string) : poller unit :=
  let! cfg := readConfig in
  let! key := requireLanKey in
  let! cidr := recovery_cidr cfg in
  let! found := recovery_search uuid key cidr (recovery_mac cfg uuid) in
  match found with
  | None => Ret tt
  | Some (host, mac) =>
      let! nextCfg := readConfig in
      let! at_ := nowIso in
      writeConfig (with_hosts (jset uuid (recovered_entry (jget uuid (hosts_of nextCfg)) host mac at_) (hosts_of nextCfg)) nextCfg) ;;!
      modify (upd sv_known (jset uuid {| kh_host := host; kh_mac := mac |})) ;;!
      let! boostAt := sys Now in
      let! dueAt := sys Now in
      up_meta uuid (boosted boostAt dueAt)
  end.

(** [this.resolving.add(uuid)], with a mark of the call that added it. *)
Definition start_resolving (uuid : string) (s : server) : server :=
  s <| sv_resolving ::= jset uuid (sv_next s) |> <| sv_next ::= S |>.

Definition tryResolveHost (uuid : string) : poller unit :=
  let! resolving := gets (λ s, jhas uuid (sv_resolving s)) in
  if resolving then Ret tt
  else
    let! now := sys Now in
    ensureMeta uuid now ;;!
    let! meta := gets (meta_of uuid) in
    let cooling := match truthy_time (pm_lastResolveAttemptAt meta) with
                   | Some t => now - t <? RESOLVE_COOLDOWN_MS
                   | None => false
                   end in
    if cooling then Ret tt
    else
      modify (start_resolving uuid) ;;!
      up_meta uuid (λ m, m <| pm_lastResolveAttemptAt := Some now |>) ;;!
      finally (catch (recovery uuid) (λ _, Ret tt)) (modify (upd sv_resolving (jdel uuid))).

(** ** Polling one device *)

(** A new promise for a poll of [uuid], which [table] holds. *)
Definition start_poll (uuid : string) (s : server) : server * nat :=
  let pid := sv_next s in
  (s <| sv_next ::= S |> <| sv_inFlight ::= jset uuid pid |> <| sv_polls ::= λ l, l ++ [(pid, uuid)] |>, pid).

Definition start_telemetry (uuid : string) (s : server) : server * nat :=
  let pid := sv_next s in
  (s <| sv_next ::= S |> <| sv_telInFlight ::= jset uuid pid |> <| sv_telPolls ::= λ l, l ++ [(pid, uuid)] |>, pid).

(** An async body that settles the promise [pid]. *)
Definition promise_task {A} (pid : nat) (inj : A → pval) (body : poller A) : poller unit :=
  let! r := attempt body in
  modify (settle pid (match r with Ok a => Ok (inj a) | Err e => Err e end)).

Definition not_a (what : string) : exn := JsError ("not a " +:+ what).

Definition await_poll (pid : nat) : poller PollResult :=
  let! v := await pid in match v with PvPoll r => Ret r | _ => Throw (not_a "poll") end.

Definition await_power (pid : nat) : poller (option DevicePowerDto) :=
  let! v := await pid in match v with PvPower p => Ret p | _ => Throw (not_a "reading") end.

Definition no_host : exn := JsError "No LAN host known for device uuid. Resolve host first.".

Definition with_version (v : Z) (d : DeviceStateDto) : DeviceStateDto := d <| ds_updatedAt := v |>.

Definition put_state (uuid : string) (d : DeviceStateDto) : poller unit := modify (upd sv_state (jset uuid d)).

Definition put_power (uuid : string) (p : DevicePowerDto) : poller unit := modify (upd sv_power (jset uuid p)).

(** [timeoutMs ?? DEFAULT_POLL_TIMEOUT_MS] *)
Definition poll_timeout (timeoutMs : option num) : num := timeoutMs ?: num_of_Z DEFAULT_POLL_TIMEOUT_MS.

(** What follows a reply that could be read. *)
Definition poll_store (uuid : string) (reason : poll_reason) (now : Z) (reading : DeviceStateDto) : poller PollResult :=
  let! prev := gets (λ s, jget uuid (sv_state s)) in
  let! updatedAt := nextUpdatedAt prev in
  let next := with_version updatedAt reading in
  (if hasMaterialStateChange prev next then
     up_meta uuid (λ m, m <| pm_lastChangeAt := Some now |>) ;;!
     put_state uuid next ;;!
     broadcast (MsgState next)
   else
     match prev with
     | None => put_state uuid next
     | Some p => put_state uuid (p <| ds_source := reason |>)
     end) ;;!
  up_meta uuid (λ m, m <| pm_failureCount := 0 |> <| pm_lastSuccessAt := Some now |>) ;;!
  schedule_next uuid now ;;!
  let! stored := gets (λ s, jget uuid (sv_state s)) in
  Ret {| pr_state := stored; pr_error := None |}.

(** The [try] block. *)
Definition poll_attempt (uuid : string) (reason : poll_reason) (timeoutMs : option num) (now : Z) : poller PollResult :=
  let! cfg := readConfig in
  match known_host cfg uuid with
  | None => Throw no_host
  | Some host =>
      let! key := requireLanKey in
      let! resp := getSystemAll (within host key (poll_timeout timeoutMs)) in
      let! reading := of_result (state_of_reply uuid host resp 0 reason) in
      poll_store uuid reason now reading
  end.

(** The [catch] block. *)
Definition poll_failed (uuid : string) (reason : poll_reason) (now : Z) (error : exn) : poller PollResult :=
  let message := exn_message error in
  up_meta uuid (λ m, m <| pm_failureCount := pm_failureCount m + 1 |>) ;;!
  schedule_next uuid now ;;!
  let! prev := gets (λ s, jget uuid (sv_state s)) in
  let! known := gets (λ s, jget uuid (sv_known s)) in
  let! updatedAt := nextUpdatedAt prev in
  let staleNext := stale_state uuid prev known updatedAt reason message in
  let becameStale := match prev with Some p => negb (ds_stale p) | None => true end in
  (if hasMaterialStateChange prev staleNext then
     put_state uuid staleNext ;;!
     broadcast (MsgState staleNext)
   else
     match prev with None => put_state uuid staleNext | Some _ => Ret tt end) ;;!
  (if becameStale then broadcast (MsgStale staleNext) else Ret tt) ;;!
  let! meta := gets (meta_of uuid) in
  (if 3 <=? pm_failureCount meta then fork (tryResolveHost uuid) else Ret tt) ;;!
  let! at_ := nowIso in
  Ret {| pr_state := None;
         pr_error := Some {| pe_uuid := uuid; pe_code := pollCodeFromError message; pe_message := message; pe_at := at_ |} |}.

Definition poll_task (uuid : string) (reason : poll_reason) (timeoutMs : option num) : poller PollResult :=
  let! now := sys Now in
  ensureMeta uuid now ;;!
  catch (poll_attempt uuid reason timeoutMs now) (poll_failed uuid reason now).

Definition pollDevice (uuid : string) (reason : poll_reason) (timeoutMs : option num) : poller PollResult :=
  let! existing := gets (λ s, jget uuid (sv_inFlight s)) in
  match existing with
  | Some pid => await_poll pid
  | None =>
      let! pid := atom (start_poll uuid) in
      fork (promise_task pid PvPoll (poll_task uuid reason timeoutMs)) ;;!
      finally (await_poll pid) (modify (upd sv_inFlight (jdel uuid)))
  end.

(** ** Telemetry *)

Variable TELEMETRY_INTERVAL_MS : Z.

(** [scheduleNext] *)
Definition schedule_telemetry (uuid : string) (now : Z) : poller unit :=
  up_meta uuid (λ meta,
    let backoff := if 0 <? pm_telemetryFailureCount meta then failureBackoffMs (pm_telemetryFailureCount meta) else 0 in
    meta <| pm_telemetryNextDueAt := now + Z.max TELEMETRY_INTERVAL_MS backoff |>).

Definition cloud_model (cfg : MerossConfig) (uuid : string) : string :=
  to_upper (trim (str_or_empty (prop "deviceType" (cloud_device cfg uuid)))).

(** Devices that the cloud knows and that are neither plugs nor strips are not asked. *)
Definition no_electricity (model : string) : bool :=
  str_truthy model && negb (starts_with "MSS" model || starts_with "MSP" model || includes "MSS" model).

Definition no_reading : exn := JsError "Electricity data unavailable (namespace unsupported or empty payload).".

Definition power_store (uuid host : string) (source : telemetry_source) (now : Z) (parsed : LanElectricityState)
    : poller (option DevicePowerDto) :=
  let! prev := gets (λ s, jget uuid (sv_power s)) in
  let! updatedAt := nextTelemetryUpdatedAt prev in
  let next := power_of_reading uuid host parsed updatedAt source in
  let! atMs := sys Now in
  catch (sys_try (DbInsert (row_of_power atMs next))) (λ _, Ret tt) ;;!
  put_power uuid next ;;!
  (if power_changed prev next then broadcast (MsgPower next) else Ret tt) ;;!
  up_meta uuid (λ m, m <| pm_telemetryFailureCount := 0 |> <| pm_telemetryLastSuccessAt := Some now |>) ;;!
  schedule_telemetry uuid now ;;!
  Ret (Some next).

Definition power_attempt (uuid : string) (source : telemetry_source) (timeoutMs : option num) (now : Z)
    : poller (option DevicePowerDto) :=
  let! cfg := readConfig in
  match known_host cfg uuid with
  | None => Throw no_host
  | Some host =>
      if no_electricity (cloud_model cfg uuid) then
        up_meta uuid (λ m, m <| pm_telemetryNextDueAt := now + Z.max 60000 TELEMETRY_INTERVAL_MS |>) ;;!
        Ret None
      else
        let! key := requireLanKey in
        let! resp := getElectricity (within host key (poll_timeout timeoutMs)) 0 in
        match extractLanElectricity resp with
        | None => Throw no_reading
        | Some parsed => power_store uuid host source now parsed
        end
  end.

Definition power_failed (uuid : string) (source : telemetry_source) (now : Z) (error : exn)
    : poller (option DevicePowerDto) :=
  let message := exn_message error in
  up_meta uuid (λ m, m <| pm_telemetryFailureCount := pm_telemetryFailureCount m + 1 |>) ;;!
  schedule_telemetry uuid now ;;!
  let! prev := gets (λ s, jget uuid (sv_power s)) in
  let! known := gets (λ s, jget uuid (sv_known s)) in
  let! updatedAt := nextTelemetryUpdatedAt prev in
  let staleNext := stale_power uuid prev known updatedAt source message in
  let becameStale := match prev with Some p => negb (dp_stale p) | None => true end in
  put_power uuid staleNext ;;!
  (if power_failed_changed prev staleNext then broadcast (MsgPower staleNext) else Ret tt) ;;!
  (if becameStale then broadcast (MsgPowerStale staleNext) else Ret tt) ;;!
  Ret None.

Definition telemetry_task (uuid : string) (source : telemetry_source) (timeoutMs : option num)
    : poller (option DevicePowerDto) :=
  let! now := sys Now in
  ensureMeta uuid now ;;!
  catch (power_attempt uuid source timeoutMs now) (power_failed uuid source now).

Definition pollTelemetry (uuid : string) (source : telemetry_source) (timeoutMs : option num)
    : poller (option DevicePowerDto) :=
  let! existing := gets (λ s, jget uuid (sv_telInFlight s)) in
  match existing with
  | Some pid => await_power pid
  | None =>
      let! pid := atom (start_telemetry uuid) in
      fork (promise_task pid PvPower (telemetry_task uuid source timeoutMs)) ;;!
      finally (await_power pid) (modify (upd sv_telInFlight (jdel uuid)))
  end.

(** ** The timer *)

(** The devices whose state is due, and those whose telemetry is. *)
Definition due_lists (s : server) (now : Z) : list string * list string :=
  let idle := List.filter (λ '(uuid, _), jhas uuid (sv_known s) && negb (jhas uuid (sv_inFlight s))) (sv_meta s) in
  (map fst (List.filter (λ '(_, m), match pm_nextDueAt m with Some t => t <=? now | None => false end) idle),
   map fst (List.filter (λ '(uuid, m), negb (jhas uuid (sv_telInFlight s)) && (pm_telemetryNextDueAt m <=? now)) idle)).

Definition due_at (s : server) (uuid : string) : Z := pm_nextDueAt (meta_of uuid s) ?: 0.
Definition telemetry_due_at (s : server) (uuid : string) : Z := pm_telemetryNextDueAt (meta_of uuid s).

(** [while (due.length && this.inFlight.size < MAX) void this.pollDevice(due.shift())] *)
Fixpoint start_due (running : server → nat) (max : Z) (start : string → poller unit) (due : list string) : poller unit :=
  match due with
  | [] => Ret tt
  | uuid :: due' =>
      let! n := gets running in
      if Z.of_nat n <? max then
        if str_truthy uuid then fork (start uuid) ;;! start_due running max start due' else Ret tt
      else Ret tt
  end.

Definition ignore {A} (p : poller A) : poller unit := let! _ := p in Ret tt.

Definition poll_due (uuid : string) : poller unit := ignore (pollDevice uuid RPoller None).
Definition telemetry_due (uuid : string) : poller unit := ignore (pollTelemetry uuid TPoller None).

(** The body of the [try]. *)
Definition cycle : poller unit :=
  let! t := sys Now in
  let! last := gets sv_lastSyncHostsAt in
  (if SYNC_HOSTS_EVERY_MS <? t - last then syncKnownHosts else Ret tt) ;;!
  let! now := sys Now in
  let! s := gets id in
  let '(due, dueTelemetry) := due_lists s now in
  let due := js_sort (λ a b, due_at s a - due_at s b) due in
  modify (λ r, r <| sv_queueDepth := Z.of_nat (length due) |>) ;;!
  start_due (λ r, length (sv_inFlight r)) POLL_MAX_CONCURRENCY poll_due due ;;!
  let! s2 := gets id in
  let dueTelemetry := js_sort (λ a b, telemetry_due_at s2 a - telemetry_due_at s2 b) dueTelemetry in
  start_due (λ r, length (sv_telInFlight r)) TELEMETRY_MAX_CONCURRENCY telemetry_due dueTelemetry.

(** [cycleSamples.push(x); if (cycleSamples.length > 200) cycleSamples.shift()] *)
Definition push_sample (x : Z) (samples : list Z) : list Z :=
  let l := samples ++ [x] in if Nat.ltb 200 (length l) then tail l else l.

(** The body of the [finally]. *)
Definition cycle_end (started : Z) : poller unit :=
  let! at_ := nowIso in
  modify (λ r, r <| sv_lastCycleAt := Some at_ |>) ;;!
  let! ended := sys Now in
  modify (upd sv_cycleSamples (push_sample (ended - started))) ;;!
  let! t := sys Now in
  let! last := gets sv_lastHealthBroadcastAt in
  (if HEALTH_BROADCAST_EVERY_MS <? t - last then
     let! at_ := sys Now in
     modify (λ r, r <| sv_lastHealthBroadcastAt := at_ |>) ;;!
     let! stats := getStatus in
     broadcast (MsgHealth stats)
   else Ret tt) ;;!
  modify (λ r, r <| sv_tickBusy := false |>).

Definition tick : poller unit :=
  let! busy := gets sv_tickBusy in
  if busy then Ret tt
  else
    modify (λ r, r <| sv_tickBusy := true |>) ;;!
    let! started := sys Now in
    finally cycle (cycle_end started).

(** ** Polls on request *)

Record poll_options := { po_uuids : option (list val); po_reason : option poll_reason; po_timeoutMs : option num }.

(** [options.uuids && options.uuids.length ? unique trimmed texts : [...knownHosts.keys()]] *)
Definition requested_uuids (uuids : option (list val)) (known : list string) : list string :=
  match uuids with
  | None | Some [] => known
  | Some l => js_dedup (map trim (List.filter (λ u, str_truthy (trim u)) (omap as_str l)))
  end.

(** [Number.isFinite(t) ? Math.max(500, t) : undefined] *)
Definition requested_timeout (timeoutMs : option num) : option num :=
  match timeoutMs with
  | Some t => if is_finite t then Some (num_max (num_of_Z 500) t) else None
  | None => None
  end.

Definition job_of (jid : nat) (s : server) : poll_job :=
  jget jid (sv_jobs s) ?: {| jb_queue := []; jb_states := []; jb_errors := []; jb_live := 0 |}.

Definition up_job (jid : nat) (f : poll_job → poll_job) (s : server) : server :=
  set sv_jobs (jset jid (f (job_of jid s))) s.

(** [uuids.shift()] *)
Definition shift_uuid (jid : nat) (s : server) : server * option string :=
  match jb_queue (job_of jid s) with
  | [] => (s, None)
  | uuid :: rest => (up_job jid (λ j, j <| jb_queue := rest |>) s, Some uuid)
  end.

(** [states.push(result.state)], [errors.push(result.error)] *)
Definition push_result (r : PollResult) (j : poll_job) : poll_job :=
  j <| jb_states ::= λ l, l ++ from_option (λ d, [d]) [] (pr_state r) |>
    <| jb_errors ::= λ l, l ++ from_option (λ e, [e]) [] (pr_error r) |>.

(** One worker; an iteration takes one uuid, so more fuel than uuids in the queue is enough, whatever
    [exhausted] is. *)
Fixpoint poll_worker (exhausted : poller unit) (fuel : nat) (jid : nat) (reason : poll_reason) (timeoutMs : option num)
    : poller unit :=
  match fuel with
  | O => exhausted
  | S fuel' =>
      let! shifted := atom (shift_uuid jid) in
      match shifted with
      | None => Ret tt
      | Some uuid =>
          if str_truthy uuid then
            let! result := pollDevice uuid reason timeoutMs in
            modify (up_job jid (push_result result)) ;;!
            poll_worker exhausted fuel' jid reason timeoutMs
          else Ret tt
      end
  end.

(** A worker that ends settles the promise of [Promise.all] when it is the last one, or at once when it
    fails. *)
Definition worker_end (jid : nat) (r : result unit) (s : server) : server :=
  let s' := up_job jid (λ j, j <| jb_live := Nat.pred (jb_live j) |>) s in
  match r with
  | Err e => settle jid (Err e) s'
  | Ok _ => if Nat.eqb (jb_live (job_of jid s')) 0 then settle jid (Ok PvWorkers) s' else s'
  end.

Definition out_of_fuel : exn := JsError "out of fuel".

Definition job_worker (fuel : nat) (jid : nat) (reason : poll_reason) (timeoutMs : option num) : poller unit :=
  let! r := attempt (poll_worker (Throw out_of_fuel) fuel jid reason timeoutMs) in
  modify (worker_end jid r).

(** [Math.max(1, Math.min(POLL_MAX_CONCURRENCY, uuids.length || 1))] *)
Definition pool_size (uuids : list string) : nat :=
  Z.to_nat (Z.max 1 (Z.min POLL_MAX_CONCURRENCY (if Nat.eqb (length uuids) 0 then 1 else Z.of_nat (length uuids)))).

Definition start_job (uuids : list string) (s : server) : server * nat :=
  let jid := sv_next s in
  (s <| sv_next ::= S |>
     <| sv_jobs ::= jset jid {| jb_queue := uuids; jb_states := []; jb_errors := []; jb_live := pool_size uuids |} |>,
   jid).

Record poll_report := { rp_polledAt : string; rp_states : list DeviceStateDto; rp_errors : list PollErrorDto }.

Definition pollNow (options : poll_options) : poller poll_report :=
  syncKnownHosts ;;!
  let reason := po_reason options ?: RManual in
  let timeoutMs := requested_timeout (po_timeoutMs options) in
  let! known := gets (λ s, jkeys (sv_known s)) in
  let uuids := requested_uuids (po_uuids options) known in
  for_each uuids boostDevice ;;!
  let! jid := atom (start_job uuids) in
  for_each (seq 0 (pool_size uuids)) (λ _, fork (job_worker (S (length uuids)) jid reason timeoutMs)) ;;!
  let! _ := await jid in
  let! polledAt := nowIso in
  let! job := gets (job_of jid) in
  Ret {| rp_polledAt := polledAt; rp_states := jb_states job; rp_errors := jb_errors job |}.

(** ** The event stream *)

Definition new_subscriber (s : server) : server * Z :=
  (s <| sv_nextSubscriberId ::= λ n, n + 1 |> <| sv_subs ::= λ l, l ++ [sv_nextSubscriberId s] |>, sv_nextSubscriberId s).

(** [start] of the stream; the interval of [heartbeat] and [cancelStream] run later. *)
Definition createStreamResponse : poller Z :=
  let! id := atom new_subscriber in
  let! states := gets (λ s, js_sort (λ a b, localeCompare (ds_uuid a) (ds_uuid b)) (jvalues (sv_state s))) in
  pushToSubscriber (MsgSnapshot states) id ;;!
  let! readings := gets (λ s, js_sort (λ a b, localeCompare (dp_uuid a) (dp_uuid b)) (jvalues (sv_power s))) in
  pushToSubscriber (MsgPowerSnapshot readings) id ;;!
  let! stats := getStatus in
  pushToSubscriber (MsgHealth stats) id ;;!
  Ret id.

Definition heartbeat (id : Z) : poller unit :=
  let! at_ := nowIso in pushToSubscriber (MsgHeartbeat at_) id.

Definition cancelStream (id : Z) : poller unit := modify (upd sv_subs (List.filter (λ i, negb (i =? id)))).
End Poller.
