(* ===== verification/PollerInv.v ===== *)
(** * What holds of the poller under every interleaving

    The invariant of the server, what its writes respect, and what the call that started a poll
    relies on, in the terms of Threads.v; every entry point of the poller keeps them. *)

From stdpp Require Import gmap.
From S2P Require Export Poller.

Local Open Scope string_scope.
Local Open Scope Z_scope.
Local Open Scope list_scope.

(** ** The invariant *)

(** A poll whose promise is not settled is the one its table holds for its device. *)
Definition single (polls : list (nat * string)) (table : list (string * nat)) (s : server) : Prop :=
  ∀ pid uuid, (pid, uuid) ∈ polls → settled_as s pid = None → jget uuid table = Some pid.

(** Promises are numbered once. *)
Definition numbered (polls : list (nat * string)) (next : nat) : Prop :=
  NoDup (map fst polls) ∧ Forall (λ p, (fst p < next)%nat) polls.

(** The versions of the messages about one device. *)
Definition versions (uuid : string) (l : list (string * Z)) : list Z :=
  omap (λ '(u, v), if decide (u = uuid) then Some v else None) l.

(** They strictly increase, and the table is at least as recent. *)
Definition versioned (ver : string → option Z) (l : list (string * Z)) : Prop :=
  ∀ uuid, StronglySorted Z.lt (versions uuid l) ∧
          ∀ v, v ∈ versions uuid l → ∃ w, ver uuid = Some w ∧ v <= w.

Definition state_msgs : list sse_message → list (string * Z) :=
  omap (λ m, match m with MsgState d => Some (ds_uuid d, ds_updatedAt d) | _ => None end).
Definition power_msgs : list sse_message → list (string * Z) :=
  omap (λ m, match m with MsgPower p => Some (dp_uuid p, dp_updatedAt p) | _ => None end).

Definition ver_state (s : server) (uuid : string) : option Z := ds_updatedAt <$> jget uuid (sv_state s).
Definition ver_power (s : server) (uuid : string) : option Z := dp_updatedAt <$> jget uuid (sv_power s).

(** A stored state belongs to its key and carries an error exactly when it is stale. *)
Definition state_ok (uuid : string) (d : DeviceStateDto) : Prop :=
  ds_uuid d = uuid ∧ (ds_stale d = true ↔ is_Some (ds_error d)).
Definition power_ok (uuid : string) (p : DevicePowerDto) : Prop :=
  dp_uuid p = uuid ∧ (dp_stale p = true ↔ is_Some (dp_error p)).

Definition msg_ok (m : sse_message) : Prop :=
  match m with
  | MsgState d => state_ok (ds_uuid d) d
  | MsgStale d => state_ok (ds_uuid d) d ∧ ds_stale d = true
  | MsgPower p => power_ok (dp_uuid p) p
  | MsgPowerStale p => power_ok (dp_uuid p) p ∧ dp_stale p = true
  | _ => True
  end.

(** What was sent to a subscriber. *)
Definition sent_to (id : Z) (s : server) : list sse_message :=
  omap (λ '(i, m), if decide (i = id) then Some m else None) (sv_sent s).

Record inv (s : server) : Prop := {
  in_polls : single (sv_polls s) (sv_inFlight s) s;
  in_telPolls : single (sv_telPolls s) (sv_telInFlight s) s;
  in_numbered : numbered (sv_polls s) (sv_next s);
  in_telNumbered : numbered (sv_telPolls s) (sv_next s);
  in_states : versioned (ver_state s) (state_msgs (sv_log s));
  in_powers : versioned (ver_power s) (power_msgs (sv_log s));
  in_state_ok : ∀ uuid d, jget uuid (sv_state s) = Some d → state_ok uuid d;
  in_power_ok : ∀ uuid p, jget uuid (sv_power s) = Some p → power_ok uuid p;
  in_msgs : Forall msg_ok (sv_log s);
  in_notices : announced (sv_log s);
  in_sent : ∀ id, announced (sent_to id s);
  in_subs : NoDup (sv_subs s);
  in_subIds : Forall (λ id, id < sv_nextSubscriberId s) (sv_subs s) }.

(** A table of versions only moves forward. *)
Definition forward (v1 v2 : string → option Z) : Prop :=
  ∀ uuid v, v1 uuid = Some v → ∃ w, v2 uuid = Some w ∧ v <= w.

Record trans (s s' : server) : Prop := {
  tn_states : forward (ver_state s) (ver_state s');
  tn_powers : forward (ver_power s) (ver_power s');
  tn_log : sv_log s `prefix_of` sv_log s';
  tn_settled : ∀ pid r, settled_as s pid = Some r → settled_as s' pid = Some r;
  tn_metas : ∀ uuid, is_Some (jget uuid (sv_meta s)) → is_Some (jget uuid (sv_meta s'));
  tn_next : (sv_next s <= sv_next s')%nat;
  tn_queues : ∀ jid, (jid < sv_next s)%nat →
                (length (jb_queue (job_of jid s')) <= length (jb_queue (job_of jid s)))%nat }.

(** An entry of one of the tables stays until the call that made it removes it. *)
Definition keeps (t : nat) (l l' : list (string * nat)) : Prop :=
  ∀ uuid, jget uuid l = Some t → jget uuid l' = Some t.

Record relies (t : nat) (s s' : server) : Prop := {
  rl_inFlight : keeps t (sv_inFlight s) (sv_inFlight s');
  rl_telInFlight : keeps t (sv_telInFlight s) (sv_telInFlight s');
  rl_resolving : keeps t (sv_resolving s) (sv_resolving s') }.

Lemma forward_refl v : forward v v.
Proof. intros u x Hx. exists x. split; [done|lia]. Qed.

Lemma forward_trans v1 v2 v3 : forward v1 v2 → forward v2 v3 → forward v1 v3.
Proof. intros H1 H2 u x (y & Hy & ?)%H1. destruct (H2 _ _ Hy) as (z & Hz & ?). exists z. split; [done|lia]. Qed.

Lemma trans_refl s : trans s s.
Proof. split; [apply forward_refl|apply forward_refl|done..]. Qed.

Lemma relies_refl t s : relies t s s.
Proof. split; by intros u. Qed.

Lemma relies_trans t s1 s2 s3 : relies t s1 s2 → relies t s2 s3 → relies t s1 s3.
Proof. intros [] []. split; intros u Hu; auto. Qed.

Lemma trans_trans s1 s2 s3 : trans s1 s2 → trans s2 s3 → trans s1 s3.
Proof.
  intros [A1 B1 C1 D1 E1 F1 G1] [A2 B2 C2 D2 E2 F2 G2]. split; [by eapply forward_trans..|by etrans| | |lia|]; auto.
  intros jid Hj. etrans; [apply G2; lia|auto].
Qed.

(** ** Steps *)

Abbreviation step_ok := (ok_step inv trans relies sv_next).
Abbreviation others := (env_step inv trans relies sv_next).
Abbreviation rgp := (rg server_sync settled_as inv trans relies sv_next).

(** The fields that the invariant speaks about are unchanged; metadata may be added. *)
Record same_core (s s' : server) : Prop := {
  sc_state : sv_state s' = sv_state s;
  sc_power : sv_power s' = sv_power s;
  sc_inFlight : sv_inFlight s' = sv_inFlight s;
  sc_telInFlight : sv_telInFlight s' = sv_telInFlight s;
  sc_resolving : sv_resolving s' = sv_resolving s;
  sc_settled : sv_settled s' = sv_settled s;
  sc_next : sv_next s' = sv_next s;
  sc_polls : sv_polls s' = sv_polls s;
  sc_telPolls : sv_telPolls s' = sv_telPolls s;
  sc_log : sv_log s' = sv_log s;
  sc_jobs : sv_jobs s' = sv_jobs s;
  sc_subs : sv_subs s' = sv_subs s;
  sc_sent : sv_sent s' = sv_sent s;
  sc_nextSubscriber : sv_nextSubscriberId s' = sv_nextSubscriberId s;
  sc_metas : ∀ uuid, is_Some (jget uuid (sv_meta s)) → is_Some (jget uuid (sv_meta s')) }.

Lemma single_settled polls table s s' : (∀ pid, settled_as s' pid = None → settled_as s pid = None) →
  single polls table s → single polls table s'.
Proof. intros Hs H pid u Hp Hn. apply H; auto. Qed.

Lemma quiet_step O s s' : inv s → same_core s s' → step_ok O s O s'.
Proof.
  intros [] []. assert (Hset : ∀ pid, settled_as s' pid = settled_as s pid) by (intros; unfold settled_as; congruence).
  assert (Hv : ∀ u, ver_state s' u = ver_state s u) by (intros; unfold ver_state; congruence).
  assert (Hp : ∀ u, ver_power s' u = ver_power s u) by (intros; unfold ver_power; congruence).
  split; [split| |by rewrite sc_next0|auto|].
  - rewrite sc_polls0, sc_inFlight0. eapply single_settled; [|done]. intros. by rewrite <- Hset.
  - rewrite sc_telPolls0, sc_telInFlight0. eapply single_settled; [|done]. intros. by rewrite <- Hset.
  - by rewrite sc_polls0, sc_next0.
  - by rewrite sc_telPolls0, sc_next0.
  - rewrite sc_log0. intros u. setoid_rewrite Hv. apply in_states0.
  - rewrite sc_log0. intros u. setoid_rewrite Hp. apply in_powers0.
  - by rewrite sc_state0.
  - by rewrite sc_power0.
  - by rewrite sc_log0.
  - by rewrite sc_log0.
  - intros id. unfold sent_to. rewrite sc_sent0. apply in_sent0.
  - by rewrite sc_subs0.
  - by rewrite sc_subs0, sc_nextSubscriber0.
  - split.
    + intros u v. rewrite Hv. apply forward_refl.
    + intros u v. rewrite Hp. apply forward_refl.
    + by rewrite sc_log0.
    + intros. by rewrite Hset.
    + done.
    + by rewrite sc_next0.
    + intros. unfold job_of. by rewrite sc_jobs0.
  - intros t _ _. split; [rewrite sc_inFlight0|rewrite sc_telInFlight0|rewrite sc_resolving0]; by intros u.
Qed.

Lemma same_core_refl s : same_core s s.
Proof. by split. Qed.

(** ** Programs that need no knowledge *)

Definition kept {A} (r : result A) (O : gset nat) (s : server) : Prop := inv s ∧ O = ∅.

Definition safe {A} (p : poller A) : Prop := ∀ s, inv s → rgp p kept ∅ s.

Lemma safe_ret {A} (a : A) : safe (Ret a).
Proof. by intros s H. Qed.

Lemma safe_throw {A} e : safe (A := A) (Throw e).
Proof. by intros s H. Qed.

Lemma safe_of_result {A} (r : result A) : safe (of_result r).
Proof. destruct r; [apply safe_ret|apply safe_throw]. Qed.

Lemma safe_sys_k {A X} (e : sysE X) (k : X → poller A) : (∀ x, safe (k x)) → safe (Sys e k).
Proof.
  intros Hk s H. cbn [rg]. destruct (server_sync X e); [intros x; by apply Hk|].
  intros s' x He. by apply Hk, He.
Qed.

Lemma safe_sys {X} (e : sysE X) : safe (sys e).
Proof. apply safe_sys_k. intros. apply safe_ret. Qed.

Lemma safe_sys_try {X} (e : sysE (result X)) : safe (sys_try e).
Proof. apply safe_sys_k. intros. apply safe_of_result. Qed.

Lemma safe_await pid : safe (await pid).
Proof. intros s H s' r He _. by apply safe_of_result, He. Qed.

Lemma safe_step {A} (f : server → server * A) : (∀ s, inv s → step_ok ∅ s ∅ (fst (f s))) → safe (atom f).
Proof. intros Hf s H. pose proof (Hf s H) as Hok. exists ∅. split; [done|]. split; [apply Hok|done]. Qed.

Lemma safe_gets {A} (f : server → A) : safe (gets f).
Proof. apply (safe_step (λ s, (s, f s))). intros s H. by apply ok_step_refl; [apply trans_refl|apply relies_refl|]. Qed.

Lemma safe_modify (f : server → server) : (∀ s, same_core s (f s)) → safe (modify f).
Proof. intros Hf. apply (safe_step (λ s, (f s, tt))). intros s H. by apply quiet_step. Qed.

Lemma safe_bind {A B} (p : poller A) (f : A → poller B) : safe p → (∀ a, safe (f a)) → safe (bind p f).
Proof.
  intros Hp Hf s H. apply rg_bind. eapply rg_mono, Hp, H. intros [a|e] O' s' [H' ->]; [by apply Hf|done].
Qed.

Lemma safe_catch {A} (p : poller A) h : safe p → (∀ e, safe (h e)) → safe (catch p h).
Proof.
  intros Hp Hf s H. apply rg_catch. eapply rg_mono, Hp, H. intros [a|e] O' s' [H' ->]; [done|by apply Hf].
Qed.

Lemma safe_attempt {A} (p : poller A) : safe p → safe (attempt p).
Proof. intros Hp. apply safe_catch; [apply safe_bind; [done|]|]; intros; apply safe_ret. Qed.

Lemma safe_finally {A} (p : poller A) c : safe p → safe c → safe (finally p c).
Proof.
  intros Hp Hc. apply safe_bind; [by apply safe_attempt|]. intros r. apply safe_bind; [done|].
  intros _. destruct r; [apply safe_ret|apply safe_throw].
Qed.

Lemma safe_fork q : safe q → safe (fork q).
Proof.
  intros Hq s H. split; [eapply rg_mono, Hq, H; done|]. intros s' He. split; [apply He|done].
Qed.

Lemma safe_for_each {A} (l : list A) f : (∀ x, safe (f x)) → safe (for_each l f).
Proof. intros Hf. induction l as [|x l IH]; [apply safe_ret|]. apply safe_bind; auto. Qed.

Lemma safe_if {A} (b : bool) (p q : poller A) : safe p → safe q → safe (if b then p else q).
Proof. by destruct b. Qed.

Create HintDb safe discriminated.
#[export] Hint Resolve @safe_ret @safe_throw @safe_of_result @safe_sys @safe_sys_try @safe_await @safe_gets
  @safe_bind @safe_catch @safe_attempt @safe_finally @safe_fork @safe_for_each @safe_if : safe.

(** Proves a program safe by its shape. *)
Ltac safe_tac :=
  repeat first
    [ progress intros
    | match goal with |- safe (match ?x with _ => _ end) => destruct x end
    | solve [eauto 2 with safe nocore]
    | apply safe_bind | apply safe_catch | apply safe_finally | apply safe_fork | apply safe_for_each | apply safe_if
    | progress cbv zeta ].

(** *** The functions that only ask the runtime *)

Lemma safe_nowIso : safe nowIso. Proof. unfold nowIso. safe_tac. Qed.
#[export] Hint Resolve safe_nowIso : safe.

Lemma safe_configPath : safe configPath.
Proof. unfold configPath, env_or, defaultMerossConfigPath. safe_tac. Qed.
#[export] Hint Resolve safe_configPath : safe.

Lemma safe_readConfig : safe readConfig. Proof. unfold readConfig, loadMerossConfig. safe_tac. Qed.
Lemma safe_writeConfig c : safe (writeConfig c). Proof. unfold writeConfig, saveMerossConfig. safe_tac. Qed.
#[export] Hint Resolve safe_readConfig safe_writeConfig : safe.

Lemma safe_requireLanKey : safe requireLanKey. Proof. unfold requireLanKey. cbv zeta. safe_tac. Qed.
Lemma safe_requireLanHost u : safe (requireLanHost u). Proof. unfold requireLanHost. safe_tac. Qed.
#[export] Hint Resolve safe_requireLanKey safe_requireLanHost : safe.

Lemma safe_pingSweep cidr t n : safe (pingSweep cidr t n).
Proof. unfold pingSweep. safe_tac. Qed.
Lemma safe_resolveHostByUuidScan u c k t n m : safe (resolveHostByUuidScan u c k t n m).
Proof. unfold resolveHostByUuidScan. safe_tac. Qed.
Lemma safe_resolveIpv4FromMac m : safe (resolveIpv4FromMac m).
Proof. unfold resolveIpv4FromMac. safe_tac. Qed.
#[export] Hint Resolve safe_pingSweep safe_resolveHostByUuidScan safe_resolveIpv4FromMac : safe.

Section Calls.
Context `{Runtime}.

Lemma safe_lan_call t ns m payload : safe (lan_call t ns m payload).
Proof. unfold lan_call, buildLanMessage, randomMessageId, postConfig. cbv zeta. safe_tac. Qed.

Lemma safe_recovery_cidr cfg : safe (recovery_cidr cfg).
Proof. unfold recovery_cidr, defaultSuggestedCidrNow. safe_tac. Qed.

Lemma safe_recovery_search u k c m : safe (recovery_search u k c m).
Proof.
  unfold recovery_search, from_option, recovery_by_mac. safe_tac.
Qed.
End Calls.

#[export] Hint Resolve safe_lan_call safe_recovery_cidr safe_recovery_search : safe.

(** *** One operation before the rest *)

Lemma rg_modify {A} (f : server → server) (k : poller A) Q O O' s :
  step_ok O s O' (f s) → rgp k Q O' (f s) → rgp (modify f ;;! k) Q O s.
Proof. intros Hok Hk. by exists O'. Qed.

Lemma rg_last (f : server → server) s : step_ok ∅ s ∅ (f s) → rgp (modify f) kept ∅ s.
Proof. intros Hok. exists ∅. split; [exact Hok|]. split; [apply Hok|done]. Qed.

Lemma rg_atom {A B} (f : server → server * B) (k : B → poller A) Q O O' s :
  step_ok O s O' (fst (f s)) → rgp (k (snd (f s))) Q O' (fst (f s)) → rgp (let! x := atom f in k x) Q O s.
Proof. intros Hok Hk. by exists O'. Qed.

Lemma rg_gets {A B} (f : server → B) (k : B → poller A) Q O s :
  inv s → rgp (k (f s)) Q O s → rgp (let! x := gets f in k x) Q O s.
Proof. intros Hi Hk. exists O. split; [by apply ok_step_refl; [apply trans_refl|apply relies_refl|]|done]. Qed.

(** A safe prefix tells only that the invariant still holds. *)
Lemma rg_safe {A B} (p : poller A) (k : A → poller B) Q s : safe p → inv s →
  (∀ a s', inv s' → rgp (k a) Q ∅ s') → (∀ e s', inv s' → Q (Err e) ∅ s') → rgp (bind p k) Q ∅ s.
Proof.
  intros Hp Hi Hk He. apply rg_bind. eapply rg_mono, Hp, Hi. intros [a|e] O' s' [H' ->]; auto.
Qed.

Lemma rg_attempt {A} (p : poller A) Q O s :
  rgp (attempt p) Q O s ↔ rgp p (λ r O' s', Q (Ok r) O' s') O s.
Proof.
  unfold attempt. rewrite rg_catch, rg_bind. split; apply rg_mono; by intros [a|e].
Qed.

Lemma rg_finally {A} (p : poller A) c Q O s :
  rgp p (λ r O' s', rgp c (λ rc O2 s2, match rc with Ok _ => Q r O2 s2 | Err e => Q (Err e) O2 s2 end) O' s') O s →
  rgp (finally p c) Q O s.
Proof.
  intros Hp. change (finally p c) with
    (let! r := attempt p in c ;;! match r with Ok a => Ret a | Err e => Throw e end).
  apply rg_bind, rg_attempt. eapply rg_mono, Hp. intros r O' s' Hc. apply rg_bind. eapply rg_mono, Hc.
  intros [u|e] O2 s2; [|done]. by destruct r.
Qed.

(** [try { p } finally { f() }] where [f] needs what the token [t] protects: [p] runs without [t]. *)
Lemma finally_owned {A} (P : server → Prop) (p : poller A) f t s :
  (t < sv_next s)%nat → rgp p (λ r O s', kept r O s' ∧ P s') ∅ s →
  (∀ s', inv s' → relies t s s' → P s' → step_ok {[t]} s' ∅ (f s')) →
  rgp (finally p (modify f)) kept {[t]} s.
Proof.
  intros Ht Hp Hf. apply rg_finally. rewrite <- (union_empty_r_L {[t]}).
  eapply rg_mono; [|eapply rg_frame; [..|exact Hp]; eauto using trans_refl, trans_trans, relies_refl, relies_trans; set_solver].
  intros r O' s' (O1 & -> & _ & _ & Hr & [Hi ->] & HP). rewrite union_empty_r_L.
  exists ∅. split; [by apply Hf|]. destruct r; (split; [|done]); eapply (os_inv _ _ _ _ _ _ _ _ (Hf s' Hi Hr HP)).
Qed.

Lemma rg_then_safe {A B} (p : poller A) (k : A → poller B) s :
  rgp p kept ∅ s → (∀ a, safe (k a)) → rgp (bind p k) kept ∅ s.
Proof. intros Hp Hk. apply rg_bind. eapply rg_mono, Hp. intros [a|e] O' s' [H' ->]; [by apply Hk|done]. Qed.

(** ** Metadata, subscribers, known hosts *)

Lemma core_metas (f : list (string * PollMeta) → list (string * PollMeta)) s :
  (∀ uuid, is_Some (jget uuid (sv_meta s)) → is_Some (jget uuid (f (sv_meta s)))) → same_core s (set sv_meta f s).
Proof. by split. Qed.

Lemma jset_keeps {V} (k : string) (v : V) m uuid : is_Some (jget uuid m) → is_Some (jget uuid (jset k v m)).
Proof. rewrite jget_set. case_decide; [eauto|done]. Qed.

Lemma safe_up_meta uuid f : safe (up_meta uuid f).
Proof. apply safe_modify. intros s. apply core_metas. intros u. apply jset_keeps. Qed.

Lemma safe_ensureMeta uuid now : safe (ensureMeta uuid now).
Proof.
  apply safe_modify. intros s. destruct (jget uuid (sv_meta s)); [apply same_core_refl|].
  apply core_metas. intros u. apply jset_keeps.
Qed.
#[export] Hint Resolve safe_up_meta safe_ensureMeta : safe.

Lemma safe_boostDevice uuid : safe (boostDevice uuid).
Proof. unfold boostDevice. safe_tac. Qed.

Lemma safe_schedule_next uuid now : safe (schedule_next uuid now).
Proof. unfold schedule_next, nextIntervalMs. safe_tac. Qed.

Lemma safe_schedule_telemetry i uuid now : safe (schedule_telemetry i uuid now).
Proof. apply safe_up_meta. Qed.

#[export] Hint Resolve safe_boostDevice safe_schedule_next safe_schedule_telemetry : safe.

(** *** Subscribers *)

Lemma omap_snoc {A B} (f : A → option B) (l : list A) x :
  omap f (l ++ [x]) = omap f l ++ from_option (λ y, [y]) [] (f x).
Proof. rewrite omap_app. simpl. by destruct (f x). Qed.

Lemma sent_to_push id id' m s : sent_to id (set sv_sent (λ l, l ++ [(id', m)]) s) =
  if decide (id' = id) then sent_to id s ++ [m] else sent_to id s.
Proof. unfold sent_to. cbn. rewrite omap_snoc. case_decide; cbn; [done|by rewrite app_nil_r]. Qed.

(** A notice is sent only right after the message it repeats. *)
Definition follows (m : sse_message) (l : list sse_message) : Prop := ∀ m', notice_of m = Some m' → last l = Some m'.

Lemma sent_step O s id m : inv s → follows m (sent_to id s) → step_ok O s O (set sv_sent (λ l, l ++ [(id, m)]) s).
Proof.
  intros [] Hm. split; [split; try done|by split; try apply forward_refl|done|auto|by split; intros ?].
  intros id'. rewrite sent_to_push. case_decide as E; [subst|apply in_sent0]. by apply announced_snoc.
Qed.

Lemma drop_step O s id : inv s → step_ok O s O (set sv_subs (List.filter (λ i, negb (i =? id))) s).
Proof.
  intros []. split; [split; try done|by split; try apply forward_refl|done|auto|by split; intros ?].
  - eapply sublist_NoDup; [exact in_subs0|apply filter_sublist].
  - cbn. apply Forall_forall. intros i [Hi _]%list_elem_of_In%filter_In.
    rewrite Forall_forall in in_subIds0. apply in_subIds0. by apply list_elem_of_In.
Qed.

Lemma safe_pushToSubscriber m id : notice_of m = None → safe (pushToSubscriber m id).
Proof.
  intros Hm. assert (Hf : ∀ l, follows m l) by (intros l m'; by rewrite Hm). unfold pushToSubscriber.
  apply safe_bind; [apply safe_gets|]. intros [|]; [|apply safe_ret]. apply safe_bind; [apply safe_sys|]. intros [|].
  - apply (safe_step (λ s, (_ s, tt))). intros s Hi. by apply sent_step.
  - apply (safe_step (λ s, (_ s, tt))). intros s Hi. by apply drop_step.
Qed.

(** Every subscriber has just been sent the message. *)
Definition told (m : sse_message) (s : server) : Prop :=
  last (sv_log s) = Some m ∧ ∀ id, id ∈ sv_subs s → last (sent_to id s) = Some m.

(** The message to the rest of the subscribers, [done] having got it. *)
Lemma pushes_rg m ids before s : inv s → sv_subs s = before ++ ids → last (sv_log s) = Some m →
  (∀ id, id ∈ before → last (sent_to id s) = Some m) → (∀ id, id ∈ ids → follows m (sent_to id s)) →
  rgp (for_each ids (pushToSubscriber m)) (λ r O s', kept r O s' ∧ told m s') ∅ s.
Proof.
  revert before s. induction ids as [|id ids IH]; intros before s Hi Hsubs Hlog Hbefore Hids.
  { split; [done|]. split; [done|]. rewrite Hsubs, app_nil_r. exact Hbefore. }
  cbn [for_each]. pose proof (in_subs _ Hi) as Hn. rewrite Hsubs in Hn.
  apply rg_bind. unfold pushToSubscriber. apply rg_gets; [done|].
  rewrite bool_decide_eq_true_2 by (rewrite Hsubs; set_solver). intros [|].
  - pose proof (sent_step ∅ s id m Hi (Hids id ltac:(by left))) as Hok. exists ∅. split; [exact Hok|].
    apply (IH (before ++ [id])); [apply Hok|cbn; by rewrite Hsubs, <- app_assoc|done| |].
    + intros i Hin. change (last (sent_to i (set sv_sent (λ l, l ++ [(id, m)]) s)) = Some m). rewrite sent_to_push.
      case_decide as E; [by rewrite last_snoc|]. apply Hbefore. set_solver.
    + intros i Hin. change (follows m (sent_to i (set sv_sent (λ l, l ++ [(id, m)]) s))).
      rewrite sent_to_push, decide_False; [apply Hids; by right|].
      intros <-. apply NoDup_app in Hn as (_ & _ & [Hnin _]%NoDup_cons). done.
  - pose proof (drop_step ∅ s id Hi) as Hok. exists ∅. split; [exact Hok|].
    apply (IH before); [apply Hok|cbn; by rewrite Hsubs, filter_middle|done|done|].
    intros i Hin. apply (Hids i). by right.
Qed.

Lemma safe_getStatus : safe getStatus.
Proof. apply safe_gets. Qed.

Lemma safe_syncKnownHosts : safe syncKnownHosts.
Proof.
  unfold syncKnownHosts. safe_tac; try by apply safe_modify.
Qed.
#[export] Hint Resolve safe_getStatus safe_syncKnownHosts : safe.

(** ** Messages *)

(** A message may be sent: it is well formed, a notice repeats what everybody was sent last, and a state is
    the stored one and newer than those sent before. *)
Definition sendable (m : sse_message) (s : server) : Prop :=
  msg_ok m ∧ (∀ m', notice_of m = Some m' → told m' s) ∧
  match m with
  | MsgState d => ver_state s (ds_uuid d) = Some (ds_updatedAt d) ∧
      Forall (λ v, v < ds_updatedAt d) (versions (ds_uuid d) (state_msgs (sv_log s)))
  | MsgPower p => ver_power s (dp_uuid p) = Some (dp_updatedAt p) ∧
      Forall (λ v, v < dp_updatedAt p) (versions (dp_uuid p) (power_msgs (sv_log s)))
  | _ => True
  end.

Lemma versions_app uuid l1 l2 : versions uuid (l1 ++ l2) = versions uuid l1 ++ versions uuid l2.
Proof. apply omap_app. Qed.

Lemma sorted_snoc (l : list Z) v : StronglySorted Z.lt l → Forall (λ w, w < v) l → StronglySorted Z.lt (l ++ [v]).
Proof.
  induction 1 as [|w l Hl IH Hw]; intros Hv; simpl; [by repeat constructor|].
  inversion Hv; subst. constructor; [by apply IH|]. apply Forall_app. split; [done|by repeat constructor].
Qed.

Lemma versioned_snoc ver l u v : versioned ver l → ver u = Some v → Forall (λ w, w < v) (versions u l) →
  versioned ver (l ++ [(u, v)]).
Proof.
  intros Hl Hu Hf u'. rewrite versions_app. destruct (Hl u') as [Hs Hb].
  unfold versions at 2 4. simpl. destruct (decide (u = u')) as [<-|]; simpl; [|by rewrite app_nil_r].
  split; [by apply sorted_snoc|]. intros w [Hw|Hw]%elem_of_app; [auto|].
  apply list_elem_of_singleton in Hw as ->. exists v. split; [done|lia].
Qed.

Lemma log_step O s m : inv s → sendable m s → step_ok O s O (set sv_log (λ l, l ++ [m]) s).
Proof.
  intros [] (Hm & Hn & Hv). split; [split; try done| |done|auto|].
  - cbn. unfold state_msgs. rewrite omap_snoc. destruct m; simpl; rewrite ?app_nil_r; try done.
    apply versioned_snoc; naive_solver.
  - cbn. unfold power_msgs. rewrite omap_snoc. destruct m; simpl; rewrite ?app_nil_r; try done.
    apply versioned_snoc; naive_solver.
  - cbn. apply Forall_app. by repeat constructor.
  - cbn. apply announced_snoc. split; [done|]. intros m' Hm'. by apply Hn.
  - split; try done; try apply forward_refl. cbn. by apply prefix_app_r.
  - intros t _ _. by split; intros u.
Qed.

Lemma broadcast_rg m s : inv s → sendable m s → rgp (broadcast m) (λ r O s', kept r O s' ∧ told m s') ∅ s.
Proof.
  intros Hi Hm. pose proof (log_step ∅ s m Hi Hm) as Hok. eapply rg_modify; [exact Hok|].
  apply rg_gets; [apply Hok|]. apply (pushes_rg m _ []); [apply Hok|done|cbn; apply last_snoc|by intros ? ?%elem_of_nil|].
  intros id Hid m' Hm'. by apply (proj1 (proj2 Hm) m' Hm').
Qed.

Lemma safe_broadcast m : (∀ s, sendable m s) → safe (broadcast m).
Proof. intros Hm s Hi. eapply rg_mono, broadcast_rg; [|done..]. by intros r O s' [? _]. Qed.

(** A message and, where it is due, the notice that repeats it. *)
Lemma notice_rg {A} m n (changed due : bool) (p : poller unit) (k : poller A) s :
  rgp p (λ r O s', kept r O s' ∧ (changed = true → told m s')) ∅ s →
  notice_of n = Some m → msg_ok n → (due = true → changed = true) → safe k →
  rgp (p ;;! (if due then broadcast n else Ret tt) ;;! k) kept ∅ s.
Proof.
  intros Hp Hn Hok Hdue Hk. apply rg_bind. eapply rg_mono, Hp. intros [[]|e] O s' [[Hi ->] Ht]; [|done].
  apply rg_then_safe; [|done]. destruct due; [|done]. eapply rg_mono, broadcast_rg; [by intros r O s2 [? _]|done|].
  split; [done|]. split; [intros m'; rewrite Hn; intros [= <-]; by apply Ht, Hdue|]. by destruct n.
Qed.

(** ** Stored states and readings *)

Lemma ver_state_put s u d u' : ver_state (set sv_state (jset u d) s) u' =
  if decide (u = u') then Some (ds_updatedAt d) else ver_state s u'.
Proof. unfold ver_state. cbn. rewrite jget_set. by case_decide. Qed.

Lemma ver_power_put s u p u' : ver_power (set sv_power (jset u p) s) u' =
  if decide (u = u') then Some (dp_updatedAt p) else ver_power s u'.
Proof. unfold ver_power. cbn. rewrite jget_set. by case_decide. Qed.

(** [v] is at least as recent as what the table holds. *)
Definition at_least (ver : string → option Z) (uuid : string) (v : Z) : Prop := ∀ w, ver uuid = Some w → w <= v.

Lemma forward_put (ver ver' : string → option Z) u v : at_least ver u v →
  (∀ u', ver' u' = if decide (u = u') then Some v else ver u') → forward ver ver'.
Proof.
  intros Hv Hver u' x Hx. rewrite Hver. case_decide; [subst|exists x; split; [done|lia]].
  exists v. split; [done|by apply Hv].
Qed.

Lemma versioned_forward ver ver' l : versioned ver l → forward ver ver' → versioned ver' l.
Proof.
  intros Hl Hf u. destruct (Hl u) as [Hs Hb]. split; [done|]. intros v (w & Hw & ?)%Hb.
  destruct (Hf _ _ Hw) as (x & Hx & ?). exists x. split; [done|lia].
Qed.

Lemma put_state_step O s u d : inv s → state_ok u d → at_least (ver_state s) u (ds_updatedAt d) →
  step_ok O s O (set sv_state (jset u d) s).
Proof.
  intros [] Hd Hv. pose proof (forward_put _ _ _ _ Hv (ver_state_put s u d)) as Hf.
  split; [split; try done| |done|auto|].
  - by eapply versioned_forward.
  - intros u' d'. cbn. rewrite jget_set. case_decide; [intros [= <-]; by subst|apply in_state_ok0].
  - split; try done; apply forward_refl.
  - intros t _ _. by split; intros ?.
Qed.

Lemma put_power_step O s u p : inv s → power_ok u p → at_least (ver_power s) u (dp_updatedAt p) →
  step_ok O s O (set sv_power (jset u p) s).
Proof.
  intros [] Hd Hv. pose proof (forward_put _ _ _ _ Hv (ver_power_put s u p)) as Hf.
  split; [split; try done| |done|auto|].
  - by eapply versioned_forward.
  - intros u' d'. cbn. rewrite jget_set. case_decide; [intros [= <-]; by subst|apply in_power_ok0].
  - split; try done; apply forward_refl.
  - intros t _ _. by split; intros ?.
Qed.

Lemma versions_below ver l u v : versioned ver l → (∀ w, ver u = Some w → w < v) → Forall (λ w, w < v) (versions u l).
Proof.
  intros Hl Hv. apply Forall_forall. intros w (x & Hx & ?)%(proj2 (Hl u)). specialize (Hv _ Hx). lia.
Qed.

(** A newer state is stored and sent. *)
Lemma publish_state_rg u d s : inv s → state_ok u d → (∀ w, ver_state s u = Some w → w < ds_updatedAt d) →
  rgp (put_state u d ;;! broadcast (MsgState d)) (λ r O s', kept r O s' ∧ told (MsgState d) s') ∅ s.
Proof.
  intros Hi [Hu Hd] Hv. assert (step_ok ∅ s ∅ (set sv_state (jset u d) s)) as Hok.
  { apply put_state_step; [done|by split|]. intros w Hw. apply Hv in Hw. lia. }
  eapply rg_modify; [exact Hok|]. apply broadcast_rg; [apply Hok|]. split; [by split|]. split; [done|].
  split; [rewrite ver_state_put, Hu; by case_decide|].
  subst u. eapply versions_below; [apply (in_states s); done|done].
Qed.

Lemma publish_power_rg u p (b : bool) s : inv s → power_ok u p → (∀ w, ver_power s u = Some w → w < dp_updatedAt p) →
  rgp (put_power u p ;;! (if b then broadcast (MsgPower p) else Ret tt))
    (λ r O s', kept r O s' ∧ (b = true → told (MsgPower p) s')) ∅ s.
Proof.
  intros Hi [Hu Hd] Hv. assert (step_ok ∅ s ∅ (set sv_power (jset u p) s)) as Hok.
  { apply put_power_step; [done|by split|]. intros w Hw. apply Hv in Hw. lia. }
  eapply rg_modify; [exact Hok|]. destruct b; [|split; [|done]; split; [apply Hok|done]].
  eapply rg_mono, broadcast_rg; [naive_solver|apply Hok|]. split; [by split|]. split; [done|].
  split; [rewrite ver_power_put, Hu; by case_decide|].
  subst u. eapply versions_below; [apply (in_powers s); done|done].
Qed.

Lemma next_version_newer now (o : option Z) w : o = Some w → w < next_version now o.
Proof. intros ->. unfold next_version. lia. Qed.

(** ** One poll *)

Section Polls.
Context `{Runtime} (TELEMETRY_INTERVAL_MS : Z).

Lemma state_of_reply_ok u h resp v r d : state_of_reply u h resp v r = Ok d →
  ds_uuid d = u ∧ ds_stale d = false ∧ ds_error d = None.
Proof. unfold state_of_reply. cbv zeta. intros Hd. repeat case_match; simplify_eq; done. Qed.

Lemma rg_version {B} (prev : option DeviceStateDto) (k : Z → poller B) Q O s :
  (∀ t, rgp (k (next_version t (ds_updatedAt <$> prev))) Q O s) → rgp (let! v := nextUpdatedAt prev in k v) Q O s.
Proof. intros Hk t. apply Hk. Qed.

Lemma rg_telemetry_version {B} (prev : option DevicePowerDto) (k : Z → poller B) Q O s :
  (∀ t, rgp (k (next_version t (dp_updatedAt <$> prev))) Q O s) → rgp (let! v := nextTelemetryUpdatedAt prev in k v) Q O s.
Proof. intros Hk t. apply Hk. Qed.

Lemma meta_step O s u m : inv s → step_ok O s O (set sv_meta (jset u m) s).
Proof. intros Hi. apply quiet_step; [done|]. apply core_metas. intros. by apply jset_keeps. Qed.

Lemma safe_poll_store u r now reading : ds_uuid reading = u → ds_stale reading = false → ds_error reading = None →
  safe (poll_store u r now reading).
Proof.
  intros Hu Hst He s Hi. unfold poll_store. apply rg_gets; [done|]. apply rg_version. intros t.
  cbv zeta. set (next := with_version (next_version t (ds_updatedAt <$> jget u (sv_state s))) reading).
  assert (Hok : state_ok u next) by (split; [done|]; cbn; rewrite Hst, He; split; [done|by intros [? ?]]).
  apply rg_then_safe; [|intros; safe_tac]. destruct (hasMaterialStateChange _ next).
  - eapply rg_modify; [by apply meta_step|]. eapply rg_mono, publish_state_rg; [by intros ? ? ? [? _]| |done|].
    + eapply os_inv. by apply (meta_step ∅).
    + intros w Hw. by apply next_version_newer.
  - destruct (jget u (sv_state s)) as [p|] eqn:E.
    + apply rg_last, put_state_step; [done|apply (in_state_ok s Hi u p E)|].
      intros w. unfold ver_state. rewrite E. intros [= <-]. cbn. lia.
    + apply rg_last, put_state_step; [done..|]. intros w. unfold ver_state. by rewrite E.
Qed.
(** A quiet write before the rest. *)
Lemma rg_quiet {A} (f : server → server) (k : poller A) Q O s : inv s → (∀ r, same_core r (f r)) →
  (∀ s', inv s' → same_core s s' → rgp k Q O s') → rgp (modify f ;;! k) Q O s.
Proof.
  intros Hi Hf Hk. pose proof (quiet_step O s (f s) Hi (Hf s)) as Hok.
  eapply rg_modify; [exact Hok|]. apply Hk; [apply Hok|apply Hf].
Qed.

Lemma ensure_core uuid now s : same_core s
  (match jget uuid (sv_meta s) with Some _ => s | None => set sv_meta (jset uuid (createMeta now)) s end).
Proof.
  destruct (jget uuid (sv_meta s)); [apply same_core_refl|]. apply core_metas. intros u. apply jset_keeps.
Qed.

Lemma up_meta_core uuid (f : PollMeta → PollMeta) s : same_core s (set sv_meta (jset uuid (f (meta_of uuid s))) s).
Proof. apply core_metas. intros u. apply jset_keeps. Qed.

(** A token that the table of [uuid] did not hold before. *)
Lemma keeps_new t uuid n l : (t < n)%nat → jget uuid l = None → keeps t l (jset uuid n l).
Proof. intros Ht Hn u Hu. rewrite jget_set_ne; [done|]. congruence. Qed.

Lemma keeps_del t t' uuid l : jget uuid l = Some t' → t ≠ t' → keeps t l (jdel uuid l).
Proof. intros Hl Ht u Hu. rewrite jget_del_ne; [done|]. congruence. Qed.

(** *** Host recovery *)

Lemma safe_recovery uuid : safe (recovery uuid).
Proof.
  unfold recovery. safe_tac. by apply safe_modify.
Qed.

Lemma numbered_le polls n n' : (n <= n')%nat → numbered polls n → numbered polls n'.
Proof. intros Hn [? Hf]. split; [done|]. eapply Forall_impl; [exact Hf|]. intros ? ?. simpl in *. lia. Qed.

Lemma start_resolving_step uuid s : inv s → jget uuid (sv_resolving s) = None →
  step_ok ∅ s {[sv_next s]} (start_resolving uuid s).
Proof.
  intros [] Hn. split; [split; try done; by eapply numbered_le; [|done]; cbn; lia| |cbn; lia| |].
  - split; try done; try apply forward_refl. cbn. lia.
  - intros t ->%elem_of_singleton. right. cbn. lia.
  - intros t Ht _. split; [by intros u..|]. by apply keeps_new.
Qed.

Lemma end_resolving_step t uuid s : inv s → jget uuid (sv_resolving s) = Some t →
  step_ok {[t]} s ∅ (set sv_resolving (jdel uuid) s).
Proof.
  intros [] Hn. split; [by split|by split; try apply forward_refl|done|set_solver|].
  intros u Hu Hne. split; [by intros ?..|]. eapply keeps_del; [done|]. set_solver.
Qed.

Lemma safe_tryResolveHost uuid : safe (tryResolveHost uuid).
Proof.
  intros s Hi. unfold tryResolveHost. apply rg_gets; [done|].
  destruct (jhas uuid (sv_resolving s)) eqn:E; [done|]. apply jhas_false in E. intros now.
  apply (rg_quiet _ _ _ _ _ Hi (ensure_core uuid now)). intros s1 Hi1 Hc1.
  apply rg_gets; [done|]. cbv zeta. destruct (match truthy_time _ with Some _ => _ | None => _ end); [done|].
  rewrite <- (sc_resolving _ _ Hc1) in E. eapply rg_modify; [by apply start_resolving_step|].
  assert (Hi2 : inv (start_resolving uuid s1)) by (eapply os_inv; by apply start_resolving_step).
  apply (rg_quiet _ _ _ _ _ Hi2 (up_meta_core uuid _)). intros s3 Hi3 Hc3.
  apply (finally_owned (λ _, True)).
  - rewrite (sc_next _ _ Hc3). cbn. lia.
  - eapply rg_mono, safe_catch; [done|apply safe_recovery| |done]. intros. apply safe_ret.
  - intros s' Hi' Hr _. apply end_resolving_step; [done|]. apply (rl_resolving _ _ _ Hr).
    rewrite (sc_resolving _ _ Hc3). apply jget_set_eq.
Qed.

#[local] Hint Resolve safe_tryResolveHost : safe.

(** *** State *)

Lemma stale_state_ok u prev known v r m : state_ok u (stale_state u prev known v r m).
Proof. split; [done|]. cbn. split; eauto. Qed.

(** A device that turns stale is sent as such. *)
Lemma stale_changes prev d : ds_stale d = true → (match prev with Some p => negb (ds_stale p) | None => true end) = true →
  hasMaterialStateChange prev d = true.
Proof.
  intros Hd Hp. destruct prev as [p|]; [|done]. apply negb_true_iff in Hp. cbn. rewrite Hd, Hp. cbn [Bool.eqb negb].
  by repeat case_match.
Qed.

Lemma stale_power_changes prev p : dp_stale p = true → (match prev with Some p => negb (dp_stale p) | None => true end) = true →
  power_failed_changed prev p = true.
Proof. intros Hd Hp. destruct prev as [q|]; [|done]. apply negb_true_iff in Hp. cbn. by rewrite Hd, Hp. Qed.

Lemma safe_poll_failed u r now e : safe (poll_failed u r now e).
Proof.
  intros s Hi. unfold poll_failed. cbv zeta.
  apply rg_safe; [apply safe_up_meta|done| |done]. intros _ s1 Hi1.
  apply rg_safe; [apply safe_schedule_next|done| |done]. intros _ s2 Hi2.
  apply rg_gets; [done|]. apply rg_gets; [done|]. apply rg_version. intros t.
  set (prev := jget u (sv_state s2)). set (d := stale_state u prev _ _ _ _).
  pose proof (stale_state_ok u prev (jget u (sv_known s2)) (next_version t (ds_updatedAt <$> prev)) r (exn_message e)) as Hd.
  fold d in Hd. apply (notice_rg (MsgState d) (MsgStale d) (hasMaterialStateChange prev d)); [|done|by split| |safe_tac].
  - destruct (hasMaterialStateChange prev d) eqn:Ec.
    + eapply rg_mono, publish_state_rg; [naive_solver|done|exact Hd|]. intros w Hw. by apply next_version_newer.
    + destruct prev as [p|]; [|done]. by split.
  - by apply stale_changes.
Qed.

Lemma safe_poll_attempt u r t now : safe (poll_attempt u r t now).
Proof.
  unfold poll_attempt, getSystemAll. apply safe_bind; [apply safe_readConfig|]. intros cfg.
  destruct (known_host cfg u) as [host|]; [|apply safe_throw].
  apply safe_bind; [apply safe_requireLanKey|]. intros key. apply safe_bind; [apply safe_lan_call|]. intros resp.
  destruct (state_of_reply u host resp 0 r) as [d|e] eqn:E; [|apply safe_throw].
  apply state_of_reply_ok in E as (? & ? & ?). by apply safe_poll_store.
Qed.

Lemma safe_poll_task u r t : safe (poll_task u r t).
Proof.
  unfold poll_task. apply safe_bind; [apply safe_sys|]. intros now. apply safe_bind; [apply safe_ensureMeta|].
  intros _. apply safe_catch; [apply safe_poll_attempt|intros; apply safe_poll_failed].
Qed.

(** *** Telemetry *)

Lemma safe_power_store u host src now e : safe (power_store TELEMETRY_INTERVAL_MS u host src now e).
Proof.
  intros s Hi. unfold power_store. apply rg_gets; [done|]. apply rg_telemetry_version. intros t.
  cbv zeta. intros at_ ins. set (p := power_of_reading _ _ _ _ _).
  assert (rgp ((put_power u p ;;! (if power_changed (jget u (sv_power s)) p then broadcast (MsgPower p) else Ret tt)) ;;!
    (up_meta u (λ m, m <| pm_telemetryFailureCount := 0 |> <| pm_telemetryLastSuccessAt := Some now |>) ;;!
     schedule_telemetry TELEMETRY_INTERVAL_MS u now ;;! Ret (Some p))) kept ∅ s) as Hk.
  { apply rg_then_safe; [|intros; safe_tac]. eapply rg_mono, publish_power_rg; [by intros ? ? ? [? _]|done| |].
    - split; [done|]. cbn. split; [done|by intros []].
    - intros w Hw. by apply next_version_newer. }
  destruct ins; exact Hk.
Qed.

Lemma safe_power_failed u src now e : safe (power_failed TELEMETRY_INTERVAL_MS u src now e).
Proof.
  intros s Hi. unfold power_failed. cbv zeta.
  apply rg_safe; [apply safe_up_meta|done| |done]. intros _ s1 Hi1.
  apply rg_safe; [apply safe_schedule_telemetry|done| |done]. intros _ s2 Hi2.
  apply rg_gets; [done|]. apply rg_gets; [done|]. apply rg_telemetry_version. intros t.
  set (prev := jget u (sv_power s2)). set (p := stale_power _ _ _ _ _ _).
  assert (Hp : power_ok u p) by (split; [done|]; cbn; split; eauto).
  assert (Hnewer : ∀ w, ver_power s2 u = Some w → w < dp_updatedAt p) by (intros w Hw; by apply next_version_newer).
  apply (notice_rg (MsgPower p) (MsgPowerStale p) (power_failed_changed prev p)
    (match prev with Some p => negb (dp_stale p) | None => true end)
    (put_power u p ;;! (if power_failed_changed prev p then broadcast (MsgPower p) else Ret tt))); [|done|by split| |safe_tac].
  - by apply publish_power_rg.
  - by apply stale_power_changes.
Qed.

Lemma safe_power_attempt u src t now : safe (power_attempt TELEMETRY_INTERVAL_MS u src t now).
Proof.
  unfold power_attempt, getElectricity. apply safe_bind; [apply safe_readConfig|]. intros cfg.
  destruct (known_host cfg u) as [host|]; [|apply safe_throw].
  destruct (no_electricity _); [safe_tac|].
  apply safe_bind; [apply safe_requireLanKey|]. intros key. apply safe_bind; [apply safe_lan_call|]. intros resp.
  destruct (extractLanElectricity resp) as [e|]; [apply safe_power_store|apply safe_throw].
Qed.

Lemma safe_telemetry_task u src t : safe (telemetry_task TELEMETRY_INTERVAL_MS u src t).
Proof.
  unfold telemetry_task. apply safe_bind; [apply safe_sys|]. intros now. apply safe_bind; [apply safe_ensureMeta|].
  intros _. apply safe_catch; [apply safe_power_attempt|intros; apply safe_power_failed].
Qed.

(** *** Promises *)

Lemma settle_settled pid r s p : settled_as (settle pid r s) p =
  match settled_as s p with Some x => Some x | None => if decide (pid = p) then Some r else None end.
Proof.
  unfold settle, settled_as. destruct (jget pid (sv_settled s)) eqn:E; cbn.
  - destruct (jget p (sv_settled s)) eqn:E'; [done|]. case_decide; [congruence|done].
  - rewrite jget_set. case_decide; [subst; by rewrite E|]. by destruct (jget p _).
Qed.

Lemma settle_step pid r s : inv s → step_ok ∅ s ∅ (settle pid r s).
Proof.
  intros Hi. assert (Hs : ∀ p, settled_as (settle pid r s) p = None → settled_as s p = None).
  { intros p. rewrite settle_settled. by destruct (settled_as s p). }
  assert (Hm : ∀ p x, settled_as s p = Some x → settled_as (settle pid r s) p = Some x).
  { intros p x Hx. by rewrite settle_settled, Hx. }
  revert Hs Hm. unfold settle. destruct (jget pid (sv_settled s)); intros Hs Hm.
  { apply ok_step_refl; [apply trans_refl|apply relies_refl|done]. }
  destruct Hi. split; [split; try done; by eapply single_settled|by split; try apply forward_refl|done|auto|].
  intros t _ _. by split; intros ?.
Qed.

Lemma safe_settle pid r : safe (modify (settle pid r)).
Proof. apply (safe_step (λ s, (settle pid r s, tt))). intros s Hi. by apply settle_step. Qed.

Lemma safe_promise_task {A} pid (inj : A → pval) body : safe body → safe (promise_task pid inj body).
Proof. intros Hb. apply safe_bind; [by apply safe_attempt|]. intros r. apply safe_settle. Qed.


Lemma await_poll_rg pid s :
  rgp (await_poll pid) (λ r O s', kept r O s' ∧ is_Some (settled_as s' pid)) ∅ s.
Proof.
  intros s' r He Hs. assert (inv s') by apply He. destruct r as [[]|]; (split; [by split|eauto]).
Qed.

Lemma await_power_rg pid s :
  rgp (await_power pid) (λ r O s', kept r O s' ∧ is_Some (settled_as s' pid)) ∅ s.
Proof.
  intros s' r He Hs. assert (inv s') by apply He. destruct r as [[]|]; (split; [by split|eauto]).
Qed.

Lemma safe_await_poll pid : safe (await_poll pid).
Proof. intros s Hi. eapply rg_mono, await_poll_rg. by intros r O s' []. Qed.

Lemma safe_await_power pid : safe (await_power pid).
Proof. intros s Hi. eapply rg_mono, await_power_rg. by intros r O s' []. Qed.

(** *** The tables of polls *)

Lemma single_start polls table s s' uuid : single polls table s → jget uuid table = None →
  (∀ pid, settled_as s' pid = settled_as s pid) →
  ∀ n, single (polls ++ [(n, uuid)]) (jset uuid n table) s'.
Proof.
  intros Hs Hn He n pid u [Hp|Hp]%elem_of_app Hset.
  - rewrite He in Hset. specialize (Hs _ _ Hp Hset). rewrite jget_set_ne; [done|]. congruence.
  - apply list_elem_of_singleton in Hp as [= -> ->]. apply jget_set_eq.
Qed.

Lemma single_end polls table s uuid pid : single polls table s → jget uuid table = Some pid →
  is_Some (settled_as s pid) → single polls (jdel uuid table) s.
Proof.
  intros Hs Hp [r Hr] p u Hpu Hn. specialize (Hs _ _ Hpu Hn). rewrite jget_del_ne; [done|]. congruence.
Qed.

Lemma numbered_start polls n uuid : numbered polls n → numbered (polls ++ [(n, uuid)]) (S n).
Proof.
  intros [Hn Hf]. split.
  - rewrite map_app. apply NoDup_app. split_and!; [done| |apply NoDup_singleton].
    intros x Hx Hn'%list_elem_of_singleton. simpl in Hn'. subst x. apply list_elem_of_fmap in Hx as ([m u] & -> & Hx).
    rewrite Forall_forall in Hf. specialize (Hf _ Hx). simpl in Hf. lia.
  - apply Forall_app. split; [|by repeat constructor; simpl; lia]. eapply Forall_impl; [exact Hf|].
    intros ? ?. simpl in *. lia.
Qed.

Lemma start_poll_step uuid s : inv s → jget uuid (sv_inFlight s) = None →
  step_ok ∅ s {[sv_next s]} (fst (start_poll uuid s)).
Proof.
  intros [] Hn. split; [split; try done| |cbn; lia| |].
  - by apply (single_start _ _ s).
  - by apply numbered_start.
  - eapply numbered_le; [|done]. cbn. lia.
  - split; try done; try apply forward_refl. cbn. lia.
  - intros t ->%elem_of_singleton. right. cbn. lia.
  - intros t Ht _. split; [|by intros ?..]. by apply keeps_new.
Qed.

Lemma start_telemetry_step uuid s : inv s → jget uuid (sv_telInFlight s) = None →
  step_ok ∅ s {[sv_next s]} (fst (start_telemetry uuid s)).
Proof.
  intros [] Hn. split; [split; try done| |cbn; lia| |].
  - by apply (single_start _ _ s).
  - eapply numbered_le; [|done]. cbn. lia.
  - by apply numbered_start.
  - split; try done; try apply forward_refl. cbn. lia.
  - intros t ->%elem_of_singleton. right. cbn. lia.
  - intros t Ht _. split; [by intros ?| |by intros ?]. by apply keeps_new.
Qed.

Lemma end_poll_step pid uuid s : inv s → jget uuid (sv_inFlight s) = Some pid → is_Some (settled_as s pid) →
  step_ok {[pid]} s ∅ (set sv_inFlight (jdel uuid) s).
Proof.
  intros [] Hn Hset. split; [split; try done|by split; try apply forward_refl|done|set_solver|].
  - by eapply single_end.
  - intros u Hu Hne. split; [|by intros ?..]. eapply keeps_del; [done|]. set_solver.
Qed.

Lemma end_telemetry_step pid uuid s : inv s → jget uuid (sv_telInFlight s) = Some pid → is_Some (settled_as s pid) →
  step_ok {[pid]} s ∅ (set sv_telInFlight (jdel uuid) s).
Proof.
  intros [] Hn Hset. split; [split; try done|by split; try apply forward_refl|done|set_solver|].
  - by eapply single_end.
  - intros u Hu Hne. split; [by intros ?| |by intros ?]. eapply keeps_del; [done|]. set_solver.
Qed.

Lemma safe_pollDevice u r t : safe (pollDevice u r t).
Proof.
  intros s Hi. unfold pollDevice. apply rg_gets; [done|].
  destruct (jget u (sv_inFlight s)) as [pid|] eqn:E; [by apply safe_await_poll|].
  pose proof (start_poll_step u s Hi E) as Hok. eapply rg_atom; [exact Hok|].
  set (s1 := fst (start_poll u s)) in *. change (snd (start_poll u s)) with (sv_next s).
  split; [eapply rg_mono, safe_promise_task; [done|apply safe_poll_task|apply Hok]|].
  intros s2 He. apply (finally_owned (λ s', is_Some (settled_as s' (sv_next s)))).
  - pose proof (es_next _ _ _ _ _ _ _ He) as Hn. cbn in Hn. lia.
  - apply await_poll_rg.
  - intros s3 Hi3 Hr Hset. apply end_poll_step; [done| |done]. apply (rl_inFlight _ _ _ Hr).
    pose proof (es_rely _ _ _ _ _ _ _ He (sv_next s) ltac:(set_solver)) as Hr1.
    apply (rl_inFlight _ _ _ Hr1). apply jget_set_eq.
Qed.

Lemma safe_pollTelemetry u r t : safe (pollTelemetry TELEMETRY_INTERVAL_MS u r t).
Proof.
  intros s Hi. unfold pollTelemetry. apply rg_gets; [done|].
  destruct (jget u (sv_telInFlight s)) as [pid|] eqn:E; [by apply safe_await_power|].
  pose proof (start_telemetry_step u s Hi E) as Hok. eapply rg_atom; [exact Hok|].
  set (s1 := fst (start_telemetry u s)) in *. change (snd (start_telemetry u s)) with (sv_next s).
  split; [eapply rg_mono, safe_promise_task; [done|apply safe_telemetry_task|apply Hok]|].
  intros s2 He. apply (finally_owned (λ s', is_Some (settled_as s' (sv_next s)))).
  - pose proof (es_next _ _ _ _ _ _ _ He) as Hn. cbn in Hn. lia.
  - apply await_power_rg.
  - intros s3 Hi3 Hr Hset. apply end_telemetry_step; [done| |done]. apply (rl_telInFlight _ _ _ Hr).
    pose proof (es_rely _ _ _ _ _ _ _ He (sv_next s) ltac:(set_solver)) as Hr1.
    apply (rl_telInFlight _ _ _ Hr1). apply jget_set_eq.
Qed.

(** ** Jobs *)

Lemma job_of_up jid f s j : job_of j (up_job jid f s) = if decide (jid = j) then f (job_of jid s) else job_of j s.
Proof. unfold up_job, job_of at 1. cbn. rewrite jget_set. by case_decide. Qed.

(** A write to a job that does not lengthen its queue. *)
Lemma up_job_step jid f s : inv s →
  (length (jb_queue (f (job_of jid s))) <= length (jb_queue (job_of jid s)))%nat → step_ok ∅ s ∅ (up_job jid f s).
Proof.
  intros [] Hf. split; [by split| |done|auto|].
  - split; try done; try apply forward_refl. intros j _. rewrite job_of_up. case_decide; [by subst|done].
  - intros t _ _. by split; intros ?.
Qed.

Lemma shift_step jid s : inv s → step_ok ∅ s ∅ (fst (shift_uuid jid s)).
Proof.
  intros Hi. unfold shift_uuid. destruct (jb_queue (job_of jid s)) as [|u l] eqn:E.
  - by apply ok_step_refl; [apply trans_refl|apply relies_refl|].
  - apply up_job_step; [done|]. rewrite E. cbn. lia.
Qed.

Lemma push_result_queue r j : jb_queue (push_result r j) = jb_queue j.
Proof. done. Qed.

Lemma start_job_step uuids s : inv s → step_ok ∅ s ∅ (fst (start_job uuids s)).
Proof.
  intros []. split; [split; try done; (by eapply numbered_le; [|done]; cbn; lia)| |cbn; lia|auto|].
  - split; try done; try apply forward_refl; [cbn; lia|]. intros j Hj. unfold job_of. cbn.
    rewrite jget_set_ne; [done|lia].
  - intros t _ _. by split; intros ?.
Qed.

(** Enough fuel for what is left of the queue. *)
Definition fuelled (fuel jid : nat) (s : server) : Prop :=
  (jid < sv_next s)%nat ∧ (length (jb_queue (job_of jid s)) < fuel)%nat.

Lemma fuelled_trans fuel jid s s' : fuelled fuel jid s → trans s s' → fuelled fuel jid s'.
Proof. intros [Hj Hl] Ht. pose proof (tn_next _ _ Ht). pose proof (tn_queues _ _ Ht jid Hj). split; lia. Qed.

(** A worker with more fuel than its queue is long never runs out of it. *)
Lemma poll_worker_rg exhausted fuel jid r t s : inv s → fuelled fuel jid s →
  rgp (poll_worker exhausted fuel jid r t) kept ∅ s.
Proof.
  revert s. induction fuel as [|fuel IH]; intros s Hi [Hj Hl]; [lia|]. cbn [poll_worker].
  pose proof (shift_step jid s Hi) as Hok. eapply rg_atom; [exact Hok|].
  assert (Hs : ∀ u, snd (shift_uuid jid s) = Some u → fuelled fuel jid (fst (shift_uuid jid s))).
  { intros u. unfold shift_uuid. destruct (jb_queue (job_of jid s)) as [|v l] eqn:E; [done|]. intros _.
    split; [done|]. cbn [fst]. rewrite job_of_up, decide_True by done. cbn in *. lia. }
  destruct (snd (shift_uuid jid s)) as [u|]; [|split; [apply Hok|done]]. specialize (Hs u eq_refl).
  destruct (str_truthy u); [|split; [apply Hok|done]].
  apply rg_bind. eapply rg_mono, (rg_trans _ _ _ _ _ _ trans_trans (pollDevice u r t) kept);
    [|apply trans_refl|apply safe_pollDevice, Hok].
  intros [x|e] O s2 [[Hi2 ->] Ht]; [|done].
  assert (Hok2 : step_ok ∅ s2 ∅ (up_job jid (push_result x) s2)) by (by apply up_job_step).
  eapply rg_modify; [exact Hok2|]. apply IH; [apply Hok2|].
  eapply fuelled_trans; [|apply Hok2]. by eapply fuelled_trans.
Qed.

Lemma worker_end_step jid r s : inv s → step_ok ∅ s ∅ (worker_end jid r s).
Proof.
  intros Hi. unfold worker_end.
  set (s1 := up_job jid (λ j, j <| jb_live := Nat.pred (jb_live j) |>) s).
  assert (Hok : step_ok ∅ s ∅ s1) by (by apply up_job_step).
  assert (Hset : ∀ x, step_ok ∅ s ∅ (settle jid x s1)).
  { intros x. eapply ok_step_trans; [apply trans_trans|apply relies_trans|exact Hok|]. apply settle_step, Hok. }
  destruct r; [|apply Hset]. by destruct (Nat.eqb _ 0); [apply Hset|].
Qed.

Lemma job_worker_rg fuel jid r t s : inv s → fuelled fuel jid s → rgp (job_worker fuel jid r t) kept ∅ s.
Proof.
  intros Hi Hf. unfold job_worker. apply rg_bind, rg_attempt.
  eapply rg_mono, (poll_worker_rg _ fuel jid r t s Hi Hf). intros x O s2 [Hi2 ->].
  apply rg_last. by apply worker_end_step.
Qed.

Lemma fork_workers_rg {A B} (l : list B) fuel jid r t (k : poller A) s : inv s → fuelled fuel jid s → safe k →
  rgp (for_each l (λ _, fork (job_worker fuel jid r t)) ;;! k) kept ∅ s.
Proof.
  revert s. induction l as [|x l IH]; intros s Hi Hf Hk; [by apply Hk|].
  split; [eapply rg_mono, job_worker_rg; done|]. intros s' He. apply IH; [apply He| |done].
  eapply fuelled_trans; [done|apply He].
Qed.

(** ** Entry points *)

Lemma safe_pollNow o : safe (pollNow o).
Proof.
  unfold pollNow. apply safe_bind; [apply safe_syncKnownHosts|]. intros _. cbv zeta.
  apply safe_bind; [apply safe_gets|]. intros known. apply safe_bind; [safe_tac|]. intros _ s Hi.
  pose proof (start_job_step (requested_uuids (po_uuids o) known) s Hi) as Hok.
  eapply rg_atom; [exact Hok|]. apply fork_workers_rg; [apply Hok| |safe_tac].
  split; [cbn; lia|]. unfold job_of. cbn. rewrite jget_set_eq. simpl. lia.
Qed.

Lemma safe_start_due running max start due : (∀ u, safe (start u)) → safe (start_due running max start due).
Proof. intros Hs. induction due as [|u due IH]; cbn [start_due]; safe_tac. Qed.

Lemma safe_health stats : safe (broadcast (MsgHealth stats)).
Proof. by apply safe_broadcast. Qed.

Lemma safe_cycle_end t : safe (cycle_end t).
Proof.
  pose proof safe_health. unfold cycle_end. safe_tac; by apply safe_modify.
Qed.

Lemma safe_tick : safe (tick TELEMETRY_INTERVAL_MS).
Proof.
  pose proof safe_cycle_end. unfold tick, cycle. safe_tac; try by apply safe_modify.
  - apply safe_start_due. intros u. apply safe_bind; [apply safe_pollDevice|]. intros. apply safe_ret.
  - apply safe_start_due. intros u. apply safe_bind; [apply safe_pollTelemetry|]. intros. apply safe_ret.
Qed.

Lemma subscribe_step s : inv s → step_ok ∅ s ∅ (fst (new_subscriber s)).
Proof.
  intros []. split; [split; try done|by split; try apply forward_refl|done|auto|by split; intros ?].
  - cbn. apply NoDup_app. split_and!; [done| |apply NoDup_singleton]. intros id Hid ->%list_elem_of_singleton.
    rewrite Forall_forall in in_subIds0. specialize (in_subIds0 _ Hid). lia.
  - cbn. apply Forall_app. split; [|by repeat constructor; lia]. eapply Forall_impl; [exact in_subIds0|]. cbn. lia.
Qed.

Lemma safe_createStreamResponse : safe createStreamResponse.
Proof.
  unfold createStreamResponse. apply safe_bind; [apply safe_step, subscribe_step|]. intros id.
  assert (∀ l, safe (pushToSubscriber (MsgSnapshot l) id)) by (intros; by apply safe_pushToSubscriber).
  assert (∀ l, safe (pushToSubscriber (MsgPowerSnapshot l) id)) by (intros; by apply safe_pushToSubscriber).
  assert (∀ h, safe (pushToSubscriber (MsgHealth h) id)) by (intros; by apply safe_pushToSubscriber).
  safe_tac.
Qed.

Lemma safe_heartbeat id : safe (heartbeat id).
Proof. apply safe_bind; [apply safe_nowIso|]. intros at_. by apply safe_pushToSubscriber. Qed.

Lemma safe_cancel id : safe (cancelStream id).
Proof. apply (safe_step (λ s, (_ s, tt))). intros s Hi. by apply drop_step. Qed.
End Polls.
