(* ===== verification/Schedules.v ===== *)
(** * Timer and trigger rules

    The pure parts of the schedule handlers of packages/core/src/api (get-device-timerx.ts,
    patch-device-timerx.ts, delete-device-timerx.ts, delete-device-triggerx.ts): finding the rule in a
    reply, reading it, patching it, the error code of a reply, and the order of the list. *)

From S2P Require Export Digest.

Local Open Scope string_scope.
Local Open Scope Z_scope.
Local Open Scope list_scope.

(** A record of the device protocol: its properties in order. *)
Abbreviation record := (list (string * val)).

(** ** Finding the rule *)

(** [typeof v.id === 'string' && v.id.trim()] *)
Definition has_text_id (o : record) : bool :=
  match jget "id" o with Some (VStr s) => str_truthy (trim s) | _ => false end.

(** [asTimerRuleRecord] with [kind] "timerx", [asTriggerRuleRecord] with "triggerx": the first record
    with an id, through arrays and the nesting the devices use. *)
Fixpoint as_rule_record (kind : string) (v : val) : option record :=
  match v with
  | VArr l =>
      (fix first (l : list val) := match l with
                                   | [] => None
                                   | x :: l' => match as_rule_record kind x with Some r => Some r | None => first l' end
                                   end) l
  | VObj o =>
      if has_text_id o then Some o
      else (fix nested (o' : record) := match o' with
                                        | [] => None
                                        | (k, x) :: o'' => if decide (kind = k) then as_rule_record kind x else nested o''
                                        end) o
  | _ => None
  end.

(** ** Numbers *)

(** A number given as one or as text: [clampInt], [coerceInt], [asFiniteInt] and [lanErrorCode] read
    their argument this way. *)
Definition loose_number (v : val) : num :=
  match v with
  | VStr s => if str_truthy (trim s) then str_to_num s else num_nan
  | VNum n => n
  | _ => num_nan
  end.

(** [coerceInt], [asFiniteInt] *)
Definition asFiniteInt (v : val) : option Z := num_round (loose_number v).

(** [Number(v) === 1 ? 1 : 0] *)
Definition coerce01 (v : val) : bool := num_eqb (to_num v) (num_of_Z 1).

Definition bit01 (v : val) : val := VZ (if coerce01 v then 1 else 0).

(** [lanErrorCode] *)
Definition lanErrorCode (resp : val) : option Z := num_round (loose_number (path ["payload"; "error"; "code"] resp)).

(** [code === null || code === 0] *)
Definition accepted (resp : val) : bool := match lanErrorCode resp with None => true | Some c => c =? 0 end.

(** ** Reading a rule *)

(** [raw.k !== undefined ? { k: f(raw.k) } : {}] *)
Definition field (k : string) (f : val → val) (raw : record) : string * val :=
  match jget k raw with Some v => (k, if is_undef v then VUndef else f v) | None => (k, VUndef) end.

(** [parseTimerXRule]; the two files differ in how they read a number. *)
Definition timer_rule (number : val → val) (raw : record) : val :=
  mk_obj [("id", VStr (trim (str_or_empty (prop "id" (VObj raw)))));
          field "enable" bit01 raw; field "channel" number raw; field "alias" (λ v, VStr (str_or_empty v)) raw;
          field "type" number raw; field "week" number raw; field "time" number raw; field "sunOffset" number raw;
          field "duration" number raw; field "extend" id raw].

(** get-device-timerx.ts: a number that is not finite is left out. *)
Definition listed_rule : record → val :=
  timer_rule (λ v, match asFiniteInt v with Some z => VZ z | None => VUndef end).

(** patch-device-timerx.ts: the number as it is. *)
Definition updated_rule : record → val := timer_rule (λ v, VNum (to_num v)).

Definition rule_id (rule : val) : string := to_str (prop "id" rule).

(** [timers.sort]: by first appearance in the digest. *)
Fixpoint digest_index (id : string) (digest : list LanScheduleDigestEntry) (i : Z) : option Z :=
  match digest with
  | [] => None
  | e :: digest' => if String.eqb (sd_id e) id then Some i else digest_index id digest' (i + 1)
  end.

Definition rule_cmp (localeCompare : string → string → Z) (digest : list LanScheduleDigestEntry) (a b : val) : Z :=
  match digest_index (rule_id a) digest 0, digest_index (rule_id b) digest 0 with
  | Some i, Some j => i - j
  | Some _, None => -1
  | None, Some _ => 1
  | None, None => localeCompare (rule_id a) (rule_id b)
  end.

(** [[...new Set(digest.map((d) => d.id).filter(Boolean))]] *)
Definition digest_ids (digest : list LanScheduleDigestEntry) : list string :=
  js_dedup (List.filter str_truthy (map sd_id digest)).

(** ** Patching *)

(** A refusal is an early [return apiErr(message, code)]. *)
Inductive outcome (A : Type) : Type :=
| Go (a : A)
| Refuse (message code : string).
Arguments Go {A} _.
Arguments Refuse {A} _ _.

Definition obind {A B} (o : outcome A) (f : A → outcome B) : outcome B :=
  match o with Go a => f a | Refuse m c => Refuse m c end.

Notation "'let+' x ':=' o 'in' k" := (obind o (λ x, k))
  (at level 100, x name, o at level 100, k at level 200, right associativity) : js_scope.

Definition patch_fields : list string :=
  ["enable"; "toggleOnoff"; "alias"; "channel"; "type"; "week"; "time"; "sunOffset"; "duration"].

Definition wants (k : string) (patch : val) : bool := negb (is_undef (prop k patch)).

Definition no_fields (patch : val) : bool := forallb (λ k, negb (wants k patch)) patch_fields.

(** [if (wantsK) rule.k = f(raw)] *)
Definition patch_field (k : string) (f : val → val) (patch : val) (rule : record) : record :=
  if wants k patch then jset k (f (prop k patch)) rule else rule.

(** [if (wantsK) { const n = asFiniteInt(raw); if (n === null) return apiErr(...); rule.k = n }] *)
Definition patch_int (k : string) (ok : Z → bool) (message code : string) (patch : val) (rule : record)
    : outcome record :=
  if wants k patch then
    match asFiniteInt (prop k patch) with
    | Some n => if ok n then Go (jset k (VZ n) rule) else Refuse message code
    | None => Refuse message code
    end
  else Go rule.

(** [rule.extend.toggle.onoff = toggleOnoff], where the rule has it. *)
Definition patch_toggle (patch : val) (rule : record) : outcome record :=
  if wants "toggleOnoff" patch then
    match prop "extend" (VObj rule) with
    | VObj extend =>
        match prop "toggle" (VObj extend) with
        | VObj toggle =>
            if is_undef (prop "onoff" (VObj toggle))
            then Refuse "TimerX rule does not support extend.toggle.onoff" "unsupported_action"
            else Go (jset "extend"
                       (VObj (jset "toggle" (VObj (jset "onoff" (bit01 (prop "toggleOnoff" patch)) toggle)) extend)) rule)
        | _ => Refuse "TimerX rule does not support extend.toggle.onoff" "unsupported_action"
        end
    | _ => Refuse "TimerX rule does not support extend.toggle.onoff" "unsupported_action"
    end
  else Go rule.

Definition any_int (n : Z) : bool := true.

(** The writes of patch-device-timerx.ts to the rule it read, in order. *)
Definition apply_patch (patch : val) (rule : record) : outcome record :=
  let rule := patch_field "enable" bit01 patch rule in
  let rule := patch_field "alias" (λ v, VStr (str_or_empty v)) patch rule in
  let+ rule := patch_int "channel" (λ n, 0 <=? n) "Invalid channel" "invalid_channel" patch rule in
  let+ rule := patch_int "type" any_int "Invalid type" "invalid_type" patch rule in
  let+ rule := patch_int "week" any_int "Invalid week" "invalid_week" patch rule in
  let+ rule := patch_int "time" any_int "Invalid time" "invalid_time" patch rule in
  let+ rule := patch_int "sunOffset" any_int "Invalid sunOffset" "invalid_sunoffset" patch rule in
  let+ rule := patch_int "duration" any_int "Invalid duration" "invalid_duration" patch rule in
  patch_toggle patch rule.
