(* ===== verification/Handlers.v ===== *)
(** * The HTTP handlers

    packages/core/src/api: the request and response helpers of shared.ts, one definition per route
    handler, and the table of routes of index.ts. A handler is a [poller] tree: it may call the poller
    ([boostDevice], [pollNow]) and the runtime. Its answer is the JSON envelope, an event stream, or
    an exception that the server turns into a failed request.

    The security headers, the status line and console output are not modelled. *)

From S2P Require Export Poller Cloud Mac Schedules.

Local Open Scope string_scope.
Local Open Scope Z_scope.
Local Open Scope list_scope.

(** ** Requests and responses (shared.ts, types.ts) *)

Record api_request := { rb_contentType : option string; rb_body : string }.

Inductive api_response : Type :=
| ApiOk (data : val)
| ApiErr (message code : string) (details : val).

(** A stream answers with the id of its subscriber. *)
Inductive api_answer : Type :=
| Json (r : api_response)
| Stream (subscriber : Z).

Definition response_val (r : api_response) : val :=
  match r with
  | ApiOk data => VObj [("ok", VBool true); ("data", data)]
  | ApiErr message code details =>
      VObj [("ok", VBool false);
            ("error", mk_obj [("message", VStr message); ("code", VStr code); ("details", details)])]
  end.

(** [null] where there is no JSON body. *)
Definition parseJsonBody (req : api_request) : val :=
  if includes "application/json" (to_lower (rb_contentType req ?: "")) then json_parse (rb_body req) ?: VNull else VNull.

(** [(await parseJsonBody(req)) ?? {}] *)
Definition body_of (req : api_request) : val := coalesce (parseJsonBody req) (VObj []).

Abbreviation handler := (poller api_response).

Definition apiOk (data : val) : handler := Ret (ApiOk data).
Definition apiErr (message code : string) : handler := Ret (ApiErr message code VUndef).

(** [body.channel === undefined ? 0 : Number(body.channel)], then
    [!Number.isInteger(channel) || channel < 0]: [None] is an invalid channel. *)
Definition channel_of (body : val) : option Z :=
  match prop "channel" body with
  | VUndef => Some 0
  | v => match num_Z (to_num v) with Some z => if z <? 0 then None else Some z | None => None end
  end.

Definition missing_uuid : handler := apiErr "Missing uuid" "missing_uuid".
Definition invalid_channel : handler := apiErr "Invalid channel" "invalid_channel".

(** [body.x !== undefined ? Number(body.x) : undefined] *)
Definition opt_number (v : val) : option num := if is_undef v then None else Some (to_num v).

(** [Number.isFinite(x) ? x : undefined] *)
Definition finite_only (x : option num) : option num :=
  match x with Some n => if is_finite n then Some n else None | None => None end.

(** A record and no array: [isRecord]. *)
Definition as_record (v : val) : option (list (string * val)) := match v with VObj o => Some o | _ => None end.

(** [try { host; key; ... } catch (e) { return apiErr(e.message, 'lan_error') }] *)
Definition on_lan (uuid : string) (f : string → string → handler) : handler :=
  catch (let! host := requireLanHost uuid in let! key := requireLanKey in f host key)
        (λ e, apiErr (exn_message e) "lan_error").

Section Handlers.
Context `{Runtime} (LOG_IDENTIFIER : string).

(** After a command: [poller.boostDevice(uuid); void poller.pollNow(...).catch(() => {})]. *)
Definition refresh_after (hasPoller : bool) (uuid : string) : poller unit :=
  if hasPoller then
    boostDevice uuid ;;!
    fork (catch (ignore (pollNow {| po_uuids := Some [VStr uuid]; po_reason := Some RManual; po_timeoutMs := None |}))
                (λ _, Ret tt))
  else Ret tt.

(** ** Configuration *)

(** get-status.ts *)
Definition getStatusHandler : handler :=
  let! cfg := readConfig in
  let! path := configPath in
  let nonzero {A} (l : list A) := negb (Nat.eqb (length l) 0) in
  apiOk (VObj [("config", VObj
    [("path", VStr path);
     ("hasCloudCreds", VBool (match cf_cloud cfg with
                              | Some (c, _) => str_truthy (cc_token c) && str_truthy (cc_key c) | None => false end));
     ("hasDevices", VBool (nonzero (devices_of cfg)));
     ("hasHosts", VBool (nonzero (hosts_of cfg)));
     ("updatedAt", mk_obj [("cloud", opt_val (λ c, VStr (snd c)) (cf_cloud cfg));
                           ("devices", opt_val (λ d, VStr (fst d)) (cf_devices cfg))])])]).

(** get-cloud-creds.ts *)
Definition getCloudCreds : handler :=
  let! cfg := readConfig in
  match cf_cloud cfg with
  | None => apiOk (VObj [("cloud", VNull)])
  | Some (cloud, _) => apiOk (VObj [("cloud", summary_val (summarizeCloud cloud))])
  end.

(** get-cloud-devices.ts *)
Definition getCloudDevices : handler :=
  let! cfg := readConfig in
  apiOk (VObj [("updatedAt", null_val (λ d, VStr (fst d)) (cf_devices cfg)); ("list", VArr (devices_of cfg))]).

Definition host_val (h : host_entry) : val :=
  mk_obj [("host", VStr (he_host h)); ("updatedAt", VStr (he_updatedAt h)); ("mac", opt_val VStr (he_mac h))].

Definition hosts_val (hosts : list (string * host_entry)) : val := VObj (map (λ '(u, h), (u, host_val h)) hosts).

(** get-hosts.ts *)
Definition getHosts : handler :=
  let! cfg := readConfig in apiOk (VObj [("hosts", hosts_val (hosts_of cfg))]).

(** network-cidr.ts *)
Definition getNetworkCidr : handler :=
  let! cfg := readConfig in
  apiOk (VObj [("cidr", null_val VStr (nonempty (trim ((cf_network cfg ≫= ne_cidr) ?: ""))))]).

Definition postNetworkCidr (req : api_request) : handler :=
  let cidrRaw := trim (str_or_empty (prop "cidr" (body_of req))) in
  if negb (str_truthy cidrRaw) then apiErr "Missing cidr" "missing_cidr"
  else
    let! cfg := readConfig in
    let! at_ := nowIso in
    writeConfig (with_network {| ne_cidr := Some cidrRaw; ne_updatedAt := at_ |} cfg) ;;!
    apiOk (VObj [("cidr", VStr cidrRaw)]).

Definition suggestion_val (s : suggestion) : val :=
  VObj [("iface", VStr (sg_iface s)); ("address", VStr (sg_address s)); ("netmask", VStr (sg_netmask s));
        ("cidr", VStr (sg_cidr s))].

(** suggest-lan-cidr.ts *)
Definition suggestLanCidr : handler :=
  let! suggestions := suggestCidrsNow in
  let! default := defaultSuggestedCidrNow in
  apiOk (VObj [("suggestions", VArr (map suggestion_val suggestions)); ("default", null_val VStr default)]).

(** ** Cloud *)

Definition cloud_details (apiStatus : option num) (info : val) : val :=
  mk_obj [("apiStatus", opt_val VNum apiStatus); ("info", info)].

(** The answer to a failure of the cloud. *)
Definition cloud_failure (e : exn) : handler :=
  match e with
  | CloudError message apiStatus info => Ret (ApiErr message "cloud_error" (cloud_details apiStatus info))
  | _ => apiErr (exn_message e) "unknown"
  end.

(** refresh-cloud-devices.ts *)
Definition refreshCloudDevices (req : api_request) : handler :=
  let timeoutMs := opt_number (prop "timeoutMs" (body_of req)) in
  let! cfg := readConfig in
  match cf_cloud cfg with
  | None => apiErr "Not logged in. Run /api/cloud/login first." "not_logged_in"
  | Some (cloud, _) =>
      catch
        (let! devices := merossCloudListDevices cloud (finite_only timeoutMs) in
         let! at_ := nowIso in
         writeConfig (with_devices at_ devices cfg) ;;!
         apiOk (VObj [("count", VZ (Z.of_nat (length devices))); ("list", VArr devices)]))
        cloud_failure
  end.

(** [body.k ? String(body.k) : undefined] *)
Definition opt_text (v : val) : option string := if truthy v then Some (to_str v) else None.

Definition scheme_of (v : val) : option string :=
  match v with
  | VStr s => if String.eqb s "http" || String.eqb s "https" then Some s else None
  | _ => None
  end.

Definition mfa_answer (e : exn) : handler :=
  let message := "MFA required. Provide a TOTP code and try again." in
  match e with
  | CloudError _ apiStatus info => Ret (ApiErr message "mfa_required" (cloud_details apiStatus info))
  | _ => apiErr message "mfa_required"
  end.

(** login-cloud.ts; the clock, the request id and the debug variable only feed the console. *)
Definition loginCloud (req : api_request) : handler :=
  let body := body_of req in
  let email := str_or_empty (prop "email" body) in
  let password := str_or_empty (prop "password" body) in
  let timeoutMs := opt_number (prop "timeoutMs" body) in
  let! _ := sys (GetEnv "MEROSS_DEBUG_AUTH") in
  let! _ := sys RandomUUID in
  if negb (str_truthy email) || negb (str_truthy password)
  then apiErr "Missing email/password in request body." "missing_creds"
  else
    let! _ := sys Now in
    catch
      (let! creds := merossCloudLogin LOG_IDENTIFIER
         {| lp_email := email; lp_password := password; lp_mfaCode := opt_text (prop "mfaCode" body) |}
         {| cl_domain := opt_text (prop "domain" body); cl_scheme := scheme_of (prop "scheme" body);
            cl_timeoutMs := finite_only timeoutMs |} in
       let! cfg := readConfig in
       let! at_ := nowIso in
       writeConfig (with_cloud creds at_ cfg) ;;!
       apiOk (VObj [("cloud", summary_val (summarizeCloud creds))]))
      (λ e, let! mfa := of_result (inferMfaRequired e) in
            if mfa then mfa_answer e else cloud_failure e).

(** ** Hosts *)

Definition default_cidr {St R} (cidr : string) : prog St R sysE string :=
  if str_truthy cidr then Ret cidr
  else let! suggested := defaultSuggestedCidrNow in Ret (suggested ?: "").

(** [await pingSweep(cidr, { timeoutMs: 200, concurrency: 64 }).catch(() => {})] *)
Definition warm_up {St R} (cidr : string) : prog St R sysE unit :=
  catch (pingSweep cidr (Some (num_of_Z 200)) (Some (num_of_Z 64))) (λ _, Ret tt).

Definition invalid_cidr (cidr : string) : handler := apiErr ("Invalid CIDR: " +:+ cidr) "invalid_cidr".

(** [Math.floor] as a number, and the length of [Array.from({ length })]. *)
Definition floor_num (n : num) : num := match num_floor n with Some k => num_of_Z k | None => n end.

Definition array_length (n : num) : result nat :=
  match num_floor n with
  | Some k => if 2 ^ 32 <=? k then Err (JsError "Invalid array length") else Ok (Z.to_nat k)
  | None => if num_ltb (num_of_Z 0) n then Err (JsError "Invalid array length") else Ok 0%nat
  end.

(** discover-hosts.ts *)
Definition discoverHosts (req : api_request) : handler :=
  let body := body_of req in
  let! effectiveCidr := default_cidr (opt_text (prop "cidr" body) ?: "") in
  let perHostTimeoutMs := match opt_number (prop "perHostTimeoutMs" body) with
                          | Some n => num_max (num_of_Z 200) n
                          | None => num_of_Z 900
                          end in
  let concurrency := match opt_number (prop "concurrency" body) with
                     | Some n => num_max (num_of_Z 1) (floor_num n)
                     | None => num_of_Z 24
                     end in
  if negb (str_truthy effectiveCidr) then apiErr "Missing cidr" "missing_cidr"
  else
    let! key := requireLanKey in
    warm_up effectiveCidr ;;!
    match listHostsInCidr effectiveCidr with
    | Err _ => invalid_cidr effectiveCidr
    | Ok ips =>
        let! workers := of_result (array_length concurrency) in
        let! found := scan_all {| sc_ips := ips; sc_workers := workers; sc_key := key;
                                  sc_timeoutMs := perHostTimeoutMs |} in
        let! cfg := readConfig in
        writeConfig (with_hosts (jspread (hosts_of cfg) found) cfg) ;;!
        apiOk (VObj [("cidr", VStr effectiveCidr); ("count", VZ (Z.of_nat (length found))); ("hosts", hosts_val found)])
    end.

(** resolve-host.ts: what a scan adds to the address and the MAC found so far. *)
Definition scan_hosts {St R} (uuid cidr key : string) (perHostTimeoutMs : option num) (mac : option string)
    : prog St R sysE (option string * option string) :=
  warm_up cidr ;;!
  let! resolved := resolveHostByUuidScan uuid cidr key perHostTimeoutMs None mac in
  Ret (match resolved with
       | Some (host, found) => (Some host, match found ≫= nonempty with Some m => Some m | None => mac end)
       | None => (None, mac)
       end).

Record host_search := { hs_ip : option string; hs_mac : option string; hs_cidrTried : option string }.

(** The branch with a MAC. *)
Definition search_by_mac {St R} (uuid mac cidr : string) (perHostTimeoutMs : option num)
    : prog St R sysE host_search :=
  (if str_truthy cidr then warm_up cidr else Ret tt) ;;!
  let! ip := resolveIpv4FromMac mac in
  let normalizedMac := result_opt (normalizeMac mac) in
  match ip ≫= nonempty with
  | Some _ => Ret {| hs_ip := ip; hs_mac := normalizedMac; hs_cidrTried := None |}
  | None =>
      let! effectiveCidr := default_cidr cidr in
      if str_truthy effectiveCidr then
        let! key := requireLanKey in
        let! r := scan_hosts uuid effectiveCidr key perHostTimeoutMs normalizedMac in
        Ret {| hs_ip := match fst r with Some h => Some h | None => ip end; hs_mac := snd r;
               hs_cidrTried := Some effectiveCidr |}
      else Ret {| hs_ip := ip; hs_mac := normalizedMac; hs_cidrTried := None |}
  end.

(** The branch without one. *)
Definition search_by_uuid {St R} (uuid effectiveCidr : string) (perHostTimeoutMs : option num)
    : prog St R sysE host_search :=
  let! key := requireLanKey in
  let! r := scan_hosts uuid effectiveCidr key perHostTimeoutMs None in
  Ret {| hs_ip := fst r; hs_mac := snd r; hs_cidrTried := Some effectiveCidr |}.

(** The message of a failed search. *)
Definition host_not_found (mac : string) (cidrTried : option string) (suggested : option string) : string :=
  if str_truthy mac then
    match cidrTried ≫= nonempty with
    | Some _ => "Could not resolve IP from MAC (and LAN scan by uuid did not find it). Ensure the device is online and CIDR is correct."
    | None => "Could not resolve IP from MAC. Provide a CIDR (e.g. 192.168.1.0/24) so we can scan the LAN by uuid, and ensure the device is online."
    end
  else
    join " " (List.filter str_truthy
      ["Could not find device on LAN by uuid.";
       match cidrTried ≫= nonempty with Some c => "CIDR tried: " +:+ c +:+ "." | None => "" end;
       match suggested with
       | Some s => if bool_decide (Some s = cidrTried) then "" else "Suggested: " +:+ s +:+ "."
       | None => ""
       end;
       "Confirm the device is awake on that network."]).

Definition resolveHost (req : api_request) : handler :=
  let body := body_of req in
  let uuid := str_or_empty (prop "uuid" body) in
  let mac := str_or_empty (coalesce (prop "mac" body) (prop "macAddress" body)) in
  let cidr := opt_text (prop "cidr" body) ?: "" in
  let perHostTimeoutMs := opt_number (prop "perHostTimeoutMs" body) in
  if negb (str_truthy uuid) then missing_uuid
  else
    let! effectiveCidr := if str_truthy mac then Ret cidr else default_cidr cidr in
    if negb (str_truthy mac) && negb (str_truthy effectiveCidr)
    then apiErr "No MAC address available. Provide a CIDR (e.g. 192.168.68.0/22) so we can scan the LAN by uuid." "missing_mac"
    else
      let! search := if str_truthy mac then search_by_mac uuid mac cidr perHostTimeoutMs
                     else search_by_uuid uuid effectiveCidr perHostTimeoutMs in
      match hs_ip search ≫= nonempty with
      | None =>
          let! suggested := if str_truthy mac then Ret None else defaultSuggestedCidrNow in
          apiErr (host_not_found mac (hs_cidrTried search) suggested) "host_not_found"
      | Some ip =>
          let! cfg := readConfig in
          let! at_ := nowIso in
          let entry := recovered_entry (jget uuid (hosts_of cfg)) ip (hs_mac search ≫= nonempty) at_ in
          writeConfig (with_hosts (jset uuid entry (hosts_of cfg)) cfg) ;;!
          apiOk (mk_obj [("uuid", VStr uuid); ("host", VStr ip);
                         ("mac", opt_val VStr (hs_mac search ≫= nonempty))])
      end.
End Handlers.
