(* ===== verification/DeviceApi.v ===== *)
(** * The device handlers

    The handlers of packages/core/src/api that talk to one device (state, commands, electricity and
    consumption) and those that read the stored telemetry. *)

From S2P Require Export Handlers.

Local Open Scope string_scope.
Local Open Scope Z_scope.
Local Open Scope list_scope.

Section Device.
Context `{Runtime}.

(** ** State *)

(** get-device-system-all.ts *)
Definition getDeviceSystemAll (req : api_request) : handler :=
  let uuid := str_or_empty (prop "uuid" (body_of req)) in
  if negb (str_truthy uuid) then missing_uuid
  else on_lan uuid (λ host key,
    let! data := getSystemAll (to_device host key) in
    apiOk (VObj [("host", VStr host); ("data", data)])).

(** [lights.find(channel) ?? channels.find(channel)]: its channel and its state. *)
Definition channel_match (channel : Z) (channels : list LanToggleXState) (lights : list LanLightState) : option (Z * bool) :=
  match js_find (λ l, li_channel l =? channel) lights with
  | Some l => Some (li_channel l, li_onoff l)
  | None => (λ c, (tx_channel c, tx_onoff c)) <$> js_find (λ c, tx_channel c =? channel) channels
  end.

Definition state_answer (host : string) (kind : device_kind) (m : Z * bool) (channels : list LanToggleXState)
    (lights : list LanLightState) (light : option LanLightState) (timerx triggerx : list LanScheduleDigestEntry) : handler :=
  apiOk (VObj [("host", VStr host); ("kind", VStr (kind_text kind)); ("channel", VZ (fst m)); ("onoff", bit_val (snd m));
               ("channels", VArr (map toggle_val channels)); ("lights", VArr (map light_val lights));
               ("light", null_val light_val light); ("timerxDigest", VArr (map schedule_val timerx));
               ("triggerxDigest", VArr (map schedule_val triggerx))]).

(** get-device-state.ts with the poller. *)
Definition polled_state (uuid : string) (channel : Z) : handler :=
  let! result := pollNow {| po_uuids := Some [VStr uuid]; po_reason := Some RManual; po_timeoutMs := None |} in
  match js_find (λ e, String.eqb (pe_uuid e) uuid) (rp_errors result) with
  | Some failed => apiErr (pe_message failed) (pe_code failed)
  | None =>
      match js_find (λ d, String.eqb (ds_uuid d) uuid) (rp_states result) with
      | None => apiErr "State unavailable" "state_unavailable"
      | Some d =>
          match channel_match channel (ds_channels d) (ds_lights d) with
          | None => apiErr "Channel not found" "state_unavailable"
          | Some m => state_answer (ds_host d) (ds_kind d) m (ds_channels d) (ds_lights d) (ds_light d)
                        (ds_timerxDigest d) (ds_triggerxDigest d)
          end
      end
  end.

(** get-device-state.ts without it. *)
Definition direct_state (uuid : string) (channel : Z) : handler :=
  on_lan uuid (λ host key,
    let! data := getSystemAll (within host key (num_of_Z 3000)) in
    let togglex := extractLanToggleX data ?: [] in
    let lights := extractLanLight data ?: [] in
    match channel_match channel togglex lights with
    | None => apiErr "State not found in Appliance.System.All digest" "state_unavailable"
    | Some m =>
        let light0 := match js_find (λ l, li_channel l =? 0) lights with Some l => Some l | None => head lights end in
        let ch0 := match js_find (λ c, tx_channel c =? 0) togglex with Some c => Some c | None => head togglex end in
        let kind := match light0, ch0 with Some _, Some _ => KMixed | Some _, None => KLight | None, _ => KTogglex end in
        state_answer host kind m togglex lights light0 (extractLanTimerXDigest localeCompare data)
          (extractLanTriggerXDigest localeCompare data)
    end).

Definition getDeviceState (hasPoller : bool) (req : api_request) : handler :=
  let body := body_of req in
  let uuid := str_or_empty (prop "uuid" body) in
  if negb (str_truthy uuid) then missing_uuid
  else
    match channel_of body with
    | None => invalid_channel
    | Some channel => if hasPoller then polled_state uuid channel else direct_state uuid channel
    end.

Definition poll_error_val (e : PollErrorDto) : val :=
  VObj [("uuid", VStr (pe_uuid e)); ("code", VStr (pe_code e)); ("message", VStr (pe_message e)); ("at", VStr (pe_at e))].

(** get-device-states.ts *)
Definition getDeviceStates (req : api_request) : handler :=
  let body := body_of req in
  let uuids := match prop "uuids" body with
               | VArr l => Some (List.filter str_truthy (map str_or_empty l))
               | _ => None
               end in
  let reason := match prop "reason" body with VStr "poller" => RPoller | _ => RManual end in
  let timeoutMs := opt_number (prop "timeoutMs" body) in
  if existsb (λ u, negb (str_truthy (trim u))) (uuids ?: []) then apiErr "Invalid uuids" "invalid_uuids"
  else if (match timeoutMs with Some t => negb (is_finite t) || num_leb t (num_of_Z 0) | None => false end)
  then apiErr "Invalid timeoutMs" "invalid_timeout"
  else
    let! result := pollNow {| po_uuids := (λ l, map VStr (List.filter str_truthy (map trim l))) <$> uuids;
                              po_reason := Some reason; po_timeoutMs := finite_only timeoutMs |} in
    apiOk (VObj [("polledAt", VStr (rp_polledAt result)); ("states", VArr (map state_val (rp_states result)));
                 ("errors", VArr (map poll_error_val (rp_errors result)))]).

(** ** Commands *)

(** [preferLight] *)
Definition prefers_light (cfg : MerossConfig) (uuid : string) : bool :=
  let model := cloud_model cfg uuid in starts_with "MSL" model || includes "LIGHT" model.

(** toggle-device.ts: the preferred namespace, then the other one. *)
Definition toggle_call {St R} (light : bool) (t : lan_target) (channel : Z) (onoff : bool) : prog St R sysE val :=
  let via_light := setLight t channel (only_onoff onoff) in
  let via_togglex := setToggleX t channel onoff in
  if light then catch via_light (λ _, via_togglex) else catch via_togglex (λ _, via_light).

Definition toggleDevice (hasPoller : bool) (req : api_request) : handler :=
  let body := body_of req in
  let uuid := str_or_empty (prop "uuid" body) in
  let onoff := coerce01 (prop "onoff" body) in
  if negb (str_truthy uuid) then missing_uuid
  else
    match channel_of body with
    | None => invalid_channel
    | Some channel =>
        on_lan uuid (λ host key,
          let! cfg := readConfig in
          let! resp := toggle_call (prefers_light cfg uuid) (to_device host key) channel onoff in
          refresh_after hasPoller uuid ;;!
          apiOk (VObj [("host", VStr host); ("channel", VZ channel); ("onoff", bit_val onoff); ("resp", resp)]))
    end.

(** [clampInt] *)
Definition clampInt (v : val) (lo hi : Z) : option Z := (λ n, Z.max lo (Z.min hi n)) <$> asFiniteInt v.

(** [if (body.k !== undefined) { const n = clampInt(...); if (n === null) return apiErr(...) }] *)
Definition light_number (k : string) (hi : Z) (message code : string) (body : val) : outcome (option Z) :=
  match prop k body with
  | VUndef => Go None
  | v => match clampInt v 0 hi with Some n => Go (Some n) | None => Refuse message code end
  end.

Definition light_request (body : val) : outcome light_fields :=
  let onoff := match prop "onoff" body with VUndef => None | v => Some (coerce01 v) end in
  let+ luminance := light_number "luminance" 100 "Invalid luminance" "invalid_luminance" body in
  let+ temperature := light_number "temperature" 100 "Invalid temperature" "invalid_temperature" body in
  let+ rgb := light_number "rgb" 16777215 "Invalid rgb" "invalid_rgb" body in
  match onoff, luminance, temperature, rgb with
  | None, None, None, None => Refuse "No light fields provided" "missing_fields"
  | _, _, _, _ => Go {| lf_onoff := onoff; lf_luminance := luminance; lf_temperature := temperature; lf_rgb := rgb |}
  end.

(** set-device-light.ts *)
Definition setDeviceLight (hasPoller : bool) (req : api_request) : handler :=
  let body := body_of req in
  let uuid := str_or_empty (prop "uuid" body) in
  if negb (str_truthy uuid) then missing_uuid
  else
    match channel_of body with
    | None => invalid_channel
    | Some channel =>
        match light_request body with
        | Refuse message code => apiErr message code
        | Go fields =>
            on_lan uuid (λ host key,
              let! resp := setLight (to_device host key) channel fields in
              refresh_after hasPoller uuid ;;!
              apiOk (VObj [("host", VStr host); ("channel", VZ channel); ("resp", resp)]))
        end
    end.

(** ** Telemetry *)

Definition electricity_config_val (c : electricity_config) : val :=
  mk_obj [("voltageRatio", opt_val VNum (ec_voltageRatio c)); ("electricityRatio", opt_val VNum (ec_electricityRatio c))].

Definition reading_val (e : LanElectricityState) : val :=
  mk_obj [("channel", VZ (el_channel e)); ("voltageDv", opt_val VZ (el_voltageDv e));
          ("currentMa", opt_val VZ (el_currentMa e)); ("powerMw", opt_val VZ (el_powerMw e));
          ("config", opt_val electricity_config_val (el_config e)); ("voltageV", opt_val VNum (el_voltageV e));
          ("currentA", opt_val VNum (el_currentA e)); ("powerW", opt_val VNum (el_powerW e))].

(** The uuid and the channel of a telemetry request. *)
Definition on_channel (body : val) (f : string → Z → handler) : handler :=
  let uuid := trim (str_or_empty (prop "uuid" body)) in
  if negb (str_truthy uuid) then missing_uuid
  else match channel_of body with None => invalid_channel | Some channel => f uuid channel end.

(** get-device-electricity.ts *)
Definition getDeviceElectricity (req : api_request) : handler :=
  on_channel (body_of req) (λ uuid channel,
    on_lan uuid (λ host key,
      let! resp := getElectricity (within host key (num_of_Z 3000)) channel in
      match extractLanElectricity resp with
      | None => Ret (ApiErr "Electricity data unavailable" "telemetry_unavailable"
                       (VObj [("uuid", VStr uuid); ("host", VStr host)]))
      | Some reading => apiOk (VObj [("host", VStr host); ("reading", reading_val reading)])
      end)).

Record ConsumptionXEntry := { ce_date : string; ce_time : Z; ce_value : Z }.

(** [/^\d{4}-\d{2}-\d{2}$/] *)
Definition is_date (s : string) : bool :=
  match split_on "-"%char s with
  | [y; m; d] => Nat.eqb (String.length y) 4 && Nat.eqb (String.length m) 2 && Nat.eqb (String.length d) 2
                 && str_all is_digit y && str_all is_digit m && str_all is_digit d
  | _ => false
  end.

Definition consumption_item (item : val) : option ConsumptionXEntry :=
  let date := trim (str_or_empty (prop "date" item)) in
  let time := to_num (prop "time" item) in
  let value := to_num (prop "value" item) in
  let zero := num_of_Z 0 in
  if negb (is_date date) then None
  else if negb (is_finite time) || num_leb time zero then None
  else if negb (is_finite value) || num_ltb value zero then None
  else Some {| ce_date := date; ce_time := num_floor time ?: 0; ce_value := num_floor value ?: 0 |}.

(** The first candidate that is truthy decides, whether or not anything in it can be read. *)
Definition extractConsumptionX (resp : val) : list ConsumptionXEntry :=
  let c1 := path ["payload"; "consumptionx"] resp in
  let candidates := [c1; prop "consumptionx" c1; path ["payload"; "ConsumptionX"] resp] in
  match js_find truthy candidates with
  | None => []
  | Some c => js_sort (λ a b, localeCompare (ce_date a) (ce_date b)) (omap consumption_item (arr_items c))
  end.

Definition consumption_val (e : ConsumptionXEntry) : val :=
  VObj [("date", VStr (ce_date e)); ("time", VZ (ce_time e)); ("value", VZ (ce_value e))].

(** get-device-consumptionx.ts *)
Definition getDeviceConsumptionX (req : api_request) : handler :=
  on_channel (body_of req) (λ uuid channel,
    on_lan uuid (λ host key,
      let! resp := getConsumptionX (within host key (num_of_Z 5000)) channel in
      let entries := extractConsumptionX resp in
      for_each entries (λ e,
        catch (sys_try (DbUpsertDay {| cr_uuid := uuid; cr_channel := channel; cr_date := ce_date e;
                                       cr_atS := ce_time e; cr_wh := ce_value e |}))
              (λ _, Ret tt)) ;;!
      apiOk (VObj [("host", VStr host); ("list", VArr (map consumption_val entries))]))).

Definition sample_val (s : Z * telemetry_row) : val :=
  let '(id, r) := s in
  VObj [("id", VZ id); ("uuid", VStr (tr_uuid r)); ("channel", VZ (tr_channel r)); ("atMs", VZ (tr_atMs r));
        ("voltageV", null_val VNum (tr_voltageV r)); ("currentA", null_val VNum (tr_currentA r));
        ("powerW", null_val VNum (tr_powerW r)); ("rawVoltageDv", null_val VZ (tr_rawVoltageDv r));
        ("rawCurrentMa", null_val VZ (tr_rawCurrentMa r)); ("rawPowerMw", null_val VZ (tr_rawPowerMw r));
        ("source", VStr (tr_source r))].

(** get-telemetry-power-current.ts *)
Definition getTelemetryPowerCurrent (req : api_request) : handler :=
  on_channel (body_of req) (λ uuid channel,
    let! sample := sys_try (DbLatest uuid channel) in
    apiOk (VObj [("sample", null_val sample_val sample)])).

Definition point_val (p : bucket_point) : val :=
  VObj [("t", VZ (bp_t p)); ("powerWAvg", null_val VNum (bp_powerWAvg p)); ("powerWMax", null_val VNum (bp_powerWMax p));
        ("voltageVAvg", null_val VNum (bp_voltageVAvg p)); ("currentAAvg", null_val VNum (bp_currentAAvg p))].

(** [body.k === undefined ? fallback : Number(body.k)], floored and bounded below where it is finite. *)
Definition query_number (k : string) (lo fallback : Z) (body : val) : Z :=
  match prop k body with
  | VUndef => Z.max lo fallback
  | v => match num_floor (to_num v) with Some z => Z.max lo z | None => fallback end
  end.

(** The query of get-telemetry-power-history.ts, or its refusal. *)
Definition history_request (uuid : string) (channel now : Z) (body : val) : outcome history_query :=
  let sixHours := 6 * 60 * 60 * 1000 in
  let toMs := query_number "toMs" 0 now body in
  let fromMs := query_number "fromMs" 0 (now - sixHours) body in
  let bucketMs := query_number "bucketMs" 1000 60000 body in
  if toMs <? fromMs then Refuse "fromMs must be <= toMs" "invalid_range"
  else if 30 * 24 * 60 * 60 * 1000 <? toMs - fromMs then Refuse "Range too large (max 30 days)" "invalid_range"
  else Go {| hq_uuid := uuid; hq_channel := channel; hq_fromMs := fromMs; hq_toMs := toMs; hq_bucketMs := bucketMs |}.

Definition getTelemetryPowerHistory (req : api_request) : handler :=
  let body := body_of req in
  on_channel body (λ uuid channel,
    let! now := sys Now in
    match history_request uuid channel now body with
    | Refuse message code => apiErr message code
    | Go q =>
        let! points := sys_try (DbHistory q) in
        apiOk (VObj [("fromMs", VZ (hq_fromMs q)); ("toMs", VZ (hq_toMs q)); ("bucketMs", VZ (hq_bucketMs q));
                     ("points", VArr (map point_val points))])
    end).
End Device.
