(* ===== verification/ScheduleApi.v ===== *)
(** * The schedule handlers and the routes

    The handlers of packages/core/src/api for timers and triggers, and the table of index.ts. *)

From S2P Require Export DeviceApi.

Local Open Scope string_scope.
Local Open Scope Z_scope.
Local Open Scope list_scope.

Section Schedule.
Context `{Runtime} (LOG_IDENTIFIER : string).

(** ** Listing *)

(** The rule in the reply of a device, at the place it should be or one level further. *)
Definition timer_in (resp : val) : option record :=
  match as_rule_record "timerx" (path ["payload"; "timerx"] resp) with
  | Some r => Some r
  | None => as_rule_record "timerx" (path ["payload"; "timerx"; "timerx"] resp)
  end.

(** One id of the digest: its reply, and its rule where it has one. *)
Definition list_timer (t : lan_target) (acc : list val * list (string * val)) (id : string)
    : poller (list val * list (string * val)) :=
  let '(timers, rawById) := acc in
  let! resp := getTimerX t id in
  let parsed := listed_rule <$> timer_in resp in
  Ret (timers ++ match parsed with
                 | Some rule => if str_truthy (rule_id rule) then [rule] else []
                 | None => []
                 end,
       jset id resp rawById).

(** get-device-timerx.ts *)
Definition getDeviceTimerX (req : api_request) : handler :=
  let uuid := str_or_empty (prop "uuid" (body_of req)) in
  if negb (str_truthy uuid) then missing_uuid
  else on_lan uuid (λ host key,
    let! systemAll := getSystemAll (to_device host key) in
    let entries := extractLanTimerXDigest localeCompare systemAll in
    let! '(timers, rawById) := for_fold (digest_ids entries) ([], []) (list_timer (to_device host key)) in
    apiOk (VObj [("host", VStr host); ("digest", VArr (map schedule_val entries));
                 ("timers", VArr (js_sort (rule_cmp localeCompare entries) timers)); ("rawById", VObj rawById)])).

Definition list_trigger (t : lan_target) (rawById : list (string * val)) (id : string) : poller (list (string * val)) :=
  let! resp := getTriggerX t id in Ret (jset id resp rawById).

(** get-device-triggerx.ts *)
Definition getDeviceTriggerX (req : api_request) : handler :=
  let uuid := str_or_empty (prop "uuid" (body_of req)) in
  if negb (str_truthy uuid) then missing_uuid
  else on_lan uuid (λ host key,
    let! systemAll := getSystemAll (to_device host key) in
    let entries := extractLanTriggerXDigest localeCompare systemAll in
    let! rawById := for_fold (digest_ids entries) [] (list_trigger (to_device host key)) in
    apiOk (VObj [("host", VStr host); ("digest", VArr (map schedule_val entries)); ("rawById", VObj rawById)])).

(** ** Writing *)

Definition missing_id : handler := apiErr "Missing id" "missing_id".

(** set-device-timerx.ts and set-device-triggerx.ts: the rule of the body as it came. *)
Definition set_rule (hasPoller : bool) (kind : string) (call : lan_target → val → poller val) (req : api_request)
    : handler :=
  let body := body_of req in
  let uuid := str_or_empty (prop "uuid" body) in
  if negb (str_truthy uuid) then missing_uuid
  else
    match as_record (prop kind body) with
    | None => apiErr ("Missing " +:+ kind) ("missing_" +:+ kind)
    | Some rule =>
        let id := trim (str_or_empty (prop "id" (VObj rule))) in
        if negb (str_truthy id) then apiErr ("Missing " +:+ kind +:+ ".id") "missing_id"
        else on_lan uuid (λ host key,
          let! resp := call (to_device host key) (VObj rule) in
          refresh_after hasPoller uuid ;;!
          apiOk (VObj [("host", VStr host); ("id", VStr id); ("resp", resp)]))
    end.

Definition setDeviceTimerX (hasPoller : bool) : api_request → handler := set_rule hasPoller "timer" setTimerX.
Definition setDeviceTriggerX (hasPoller : bool) : api_request → handler := set_rule hasPoller "trigger" setTriggerX.

(** patch-device-timerx.ts *)
Definition patchDeviceTimerX (hasPoller : bool) (req : api_request) : handler :=
  let body := body_of req in
  let uuid := str_or_empty (prop "uuid" body) in
  let id := trim (str_or_empty (prop "id" body)) in
  let patch := match as_record (prop "patch" body) with Some o => VObj o | None => VObj [] end in
  if negb (str_truthy uuid) then missing_uuid
  else if negb (str_truthy id) then missing_id
  else if no_fields patch then apiErr "No patch fields provided" "missing_fields"
  else on_lan uuid (λ host key,
    let! currentResp := getTimerX (to_device host key) id in
    match as_rule_record "timerx" (path ["payload"; "timerx"] currentResp) with
    | None => apiErr "TimerX rule not found in response" "timerx_not_found"
    | Some currentRule =>
        match apply_patch patch currentRule with
        | Refuse message code => apiErr message code
        | Go rule =>
            let! resp := setTimerX (to_device host key) (VObj rule) in
            refresh_after hasPoller uuid ;;!
            apiOk (VObj [("host", VStr host); ("id", VStr id); ("updated", updated_rule rule); ("resp", resp)])
        end
    end).

(** ** Deleting *)

(** [Some (resp, deleted)] when the device accepts: [enable = -1] deletes, else [enable = 0] disables.
    [None] with the code of the second refusal otherwise. *)
Definition delete_rule (call : val → poller val) (rule : record) : poller (val * (bool + Z)) :=
  let! resp := call (VObj (jset "enable" (VZ (-1)) rule)) in
  if accepted resp then Ret (resp, inl true)
  else
    let! resp := call (VObj (jset "enable" (VZ 0) (jset "enable" (VZ (-1)) rule))) in
    match lanErrorCode resp with
    | Some code => if code =? 0 then Ret (resp, inl false) else Ret (resp, inr code)
    | None => Ret (resp, inl false)
    end.

(** What both handlers do once they have a rule. *)
Definition delete_answer (hasPoller : bool) (uuid host id label failure : string) (call : val → poller val)
    (rule : record) : handler :=
  let! '(resp, outcome) := delete_rule call rule in
  match outcome with
  | inr code => Ret (ApiErr (label +:+ " delete failed (error code " +:+ pretty code +:+ ")") failure resp)
  | inl deleted =>
      refresh_after hasPoller uuid ;;!
      apiOk (VObj [("host", VStr host); ("id", VStr id); ("deleted", VBool deleted); ("disabled", VBool (negb deleted));
                   ("resp", resp)])
  end.

(** delete-device-timerx.ts *)
Definition deleteDeviceTimerX (hasPoller : bool) (req : api_request) : handler :=
  let body := body_of req in
  let uuid := str_or_empty (prop "uuid" body) in
  let id := trim (str_or_empty (prop "id" body)) in
  if negb (str_truthy uuid) then missing_uuid
  else if negb (str_truthy id) then missing_id
  else on_lan uuid (λ host key,
    let! currentResp := getTimerX (to_device host key) id in
    match as_rule_record "timerx" (path ["payload"; "timerx"] currentResp) with
    | None => apiErr "TimerX rule not found in response" "timerx_not_found"
    | Some rule =>
        delete_answer hasPoller uuid host id "TimerX" "timerx_delete_failed" (setTimerX (to_device host key)) rule
    end).

(** delete-device-triggerx.ts: without a rule in the reply, or without a reply, the id alone. *)
Definition deleteDeviceTriggerX (hasPoller : bool) (req : api_request) : handler :=
  let body := body_of req in
  let uuid := str_or_empty (prop "uuid" body) in
  let id := trim (str_or_empty (prop "id" body)) in
  if negb (str_truthy uuid) then missing_uuid
  else if negb (str_truthy id) then missing_id
  else on_lan uuid (λ host key,
    let! currentResp := catch (getTriggerX (to_device host key) id) (λ _, Ret VNull) in
    let base := as_rule_record "triggerx" (path ["payload"; "triggerx"] currentResp) ?: [("id", VStr id)] in
    delete_answer hasPoller uuid host id "TriggerX" "triggerx_delete_failed" (setTriggerX (to_device host key)) base).

(** ** Events (get-events-status.ts, get-events-stream.ts) *)

Definition getEventsStatus : handler := let! stats := getStatus in apiOk (stats_val stats).

Definition getEventsStream : poller api_answer := let! id := createStreamResponse in Ret (Stream id).

(** ** Routes (index.ts) *)

Inductive http_method : Type := GET | POST.

#[export] Instance http_method_eq_dec : EqDecision http_method.
Proof. solve_decision. Defined.

Definition json (h : handler) : poller api_answer := let! r := h in Ret (Json r).

Definition apiRoutes : list ((string * http_method) * (api_request → poller api_answer)) :=
  [(("/api/lan/cidr-suggest", GET), λ _, json suggestLanCidr);
   (("/api/status", GET), λ _, json getStatusHandler);
   (("/api/cloud/login", POST), λ req, json (loginCloud LOG_IDENTIFIER req));
   (("/api/cloud/creds", GET), λ _, json getCloudCreds);
   (("/api/cloud/devices", GET), λ _, json getCloudDevices);
   (("/api/cloud/devices/refresh", POST), λ req, json (refreshCloudDevices req));
   (("/api/hosts", GET), λ _, json getHosts);
   (("/api/hosts/resolve", POST), λ req, json (resolveHost req));
   (("/api/hosts/discover", POST), λ req, json (discoverHosts req));
   (("/api/network/cidr", GET), λ _, json getNetworkCidr);
   (("/api/network/cidr", POST), λ req, json (postNetworkCidr req));
   (("/api/device/system-all", POST), λ req, json (getDeviceSystemAll req));
   (("/api/device/electricity", POST), λ req, json (getDeviceElectricity req));
   (("/api/device/consumptionx", POST), λ req, json (getDeviceConsumptionX req));
   (("/api/device/state", POST), λ req, json (getDeviceState true req));
   (("/api/device/states", POST), λ req, json (getDeviceStates req));
   (("/api/device/toggle", POST), λ req, json (toggleDevice true req));
   (("/api/device/light", POST), λ req, json (setDeviceLight true req));
   (("/api/device/timerx/list", POST), λ req, json (getDeviceTimerX req));
   (("/api/device/timerx/patch", POST), λ req, json (patchDeviceTimerX true req));
   (("/api/device/timerx/set", POST), λ req, json (setDeviceTimerX true req));
   (("/api/device/timerx/delete", POST), λ req, json (deleteDeviceTimerX true req));
   (("/api/device/triggerx/list", POST), λ req, json (getDeviceTriggerX req));
   (("/api/device/triggerx/set", POST), λ req, json (setDeviceTriggerX true req));
   (("/api/device/triggerx/delete", POST), λ req, json (deleteDeviceTriggerX true req));
   (("/api/events/stream", GET), λ _, getEventsStream);
   (("/api/events/status", GET), λ _, json getEventsStatus);
   (("/api/telemetry/power/current", POST), λ req, json (getTelemetryPowerCurrent req));
   (("/api/telemetry/power/history", POST), λ req, json (getTelemetryPowerHistory req))].

Definition route (path : string) (method : http_method) : option (api_request → poller api_answer) :=
  jget (path, method) apiRoutes.
End Schedule.
