(* ===== verification/WebServer.v ===== *)
(** * The web server

    apps/web/src/index.ts: the built pages and their assets, the build at start-up, what restarts the server, and the
    responses of the handlers with their headers (packages/core/src/api: applySecurityHeaders.ts and
    shared.ts). The bundler and the files are effects of the host; the content type of a file is Bun's. *)

From S2P Require Export Host ScheduleApi.

Local Open Scope string_scope.
Local Open Scope Z_scope.
Local Open Scope list_scope.

(** ** Responses *)

Inductive web_body : Type :=
| BodyJson (v : val)
| BodyFile (path : string)
| BodyStream (subscriber : Z).

(** Names of headers are kept in lower case, as [Headers] compares them. *)
Record web_response := {
  wr_status : Z; wr_statusText : string; wr_headers : list (string * string); wr_body : web_body }.

Definition set_header (name value : string) (h : list (string * string)) : list (string * string) :=
  jset (to_lower name) value h.

Definition get_header (name : string) (r : web_response) : option string := jget (to_lower name) (wr_headers r).

Definition csp : string :=
  join "; " ["default-src 'self'"; "script-src 'self'"; "style-src 'self' 'unsafe-inline' https://fonts.googleapis.com";
             "img-src 'self' data:"; "font-src 'self' data: https://fonts.gstatic.com"; "connect-src 'self'";
             "base-uri 'self'"; "form-action 'self'"; "frame-ancestors 'none'"].

Definition security_headers : list (string * string) :=
  [("X-Content-Type-Options", "nosniff"); ("Referrer-Policy", "strict-origin-when-cross-origin");
   ("Permissions-Policy", "camera=(), microphone=(), geolocation=()"); ("Cross-Origin-Opener-Policy", "same-origin");
   ("Cross-Origin-Resource-Policy", "same-origin"); ("Cross-Origin-Embedder-Policy", "require-corp");
   ("Content-Security-Policy", csp)].

Section Responses.
(** [process.env.NODE_ENV === 'production'], read when the module loads. *)
Variable isProduction : bool.

Definition applySecurityHeaders (r : web_response) : web_response :=
  if negb isProduction then r
  else {| wr_status := wr_status r; wr_statusText := wr_statusText r;
          wr_headers := foldl (λ h '(k, v), set_header k v h) (wr_headers r) security_headers; wr_body := wr_body r |}.

(** [Response.json(data, init)]; no caller gives a status of its own. *)
Definition jsonContent (v : val) : web_response :=
  applySecurityHeaders {| wr_status := 200; wr_statusText := "";
    wr_headers := [("content-type", "application/json;charset=utf-8")]; wr_body := BodyJson v |}.

Definition htmlContent (path : string) : web_response :=
  applySecurityHeaders {| wr_status := 200; wr_statusText := "";
    wr_headers := set_header "Content-Type" "text/html; charset=utf-8" []; wr_body := BodyFile path |}.

(** The response [createStreamResponse] returns. *)
Definition eventStream (subscriber : Z) : web_response :=
  applySecurityHeaders {| wr_status := 200; wr_statusText := "";
    wr_headers := foldl (λ h '(k, v), set_header k v h) []
      [("content-type", "text/event-stream"); ("cache-control", "no-cache, no-transform"); ("connection", "keep-alive");
       ("x-accel-buffering", "no")];
    wr_body := BodyStream subscriber |}.

Definition answer_response (a : api_answer) : web_response :=
  match a with Json r => jsonContent (response_val r) | Stream id => eventStream id end.
End Responses.

(** ** The path of a request: [new URL(req.url).pathname] *)

(** A segment that means the directory itself, and one that means its parent, as URLs spell them. *)
Definition single_dot (s : string) : bool := String.eqb s "." || String.eqb (to_lower s) "%2e".
Definition double_dot (s : string) : bool :=
  existsb (String.eqb (to_lower s)) [".."; ".%2e"; "%2e."; "%2e%2e"].

Definition hex_upper (z : Z) : ascii := char_upper (hex_digit z).

(** A byte of the path, percent-encoded where URLs do not allow it. *)
Definition path_char (c : ascii) : string :=
  let n := Z.of_nat (nat_of_ascii c) in
  if (n <? 33) || (126 <? n) || existsb (Ascii.eqb c) [chr 34; "#"; "<"; ">"; "?"; "^"; "`"; "{"; "}"]%char
  then String "%" (String (hex_upper (n / 16)) (String (hex_upper (n mod 16)) ""))
  else String c "".

Fixpoint encode_seg (s : string) : string :=
  match s with EmptyString => "" | String c s' => path_char c +:+ encode_seg s' end.

Fixpoint url_segs (acc l : list string) : list string :=
  match l with
  | [] => rev acc
  | s :: rest =>
      let last := match rest with [] => [""] | _ => [] end in
      if double_dot s then url_segs (last ++ tail acc) rest
      else if single_dot s then url_segs (last ++ acc) rest
      else url_segs (encode_seg s :: acc) rest
  end.

(** [target] is what follows the authority in the URL. *)
Definition pathname (target : string) : string :=
  let path := fst (take_while (λ c, negb (Ascii.eqb c "?" || Ascii.eqb c "#")) target) in
  "/" +:+ join "/" (url_segs [] (tail (split_on slash (replace_char "\" "/" path)))).

(** ** The built pages *)

Section Site.
Variable mimeType : string → string.
Abbreviation W := (prog unit unit hostE).
Abbreviation sys := (@sys unit unit hostE _).

Record site := { si_production : bool; si_dist : string; si_index : string }.

Definition tryServeDistAsset (distDir pathname : string) : W (option web_response) :=
  let clean := drop_while is_slash pathname in
  if negb (str_truthy clean) then Ret None
  else
    let path := path_join [distDir; clean] in
    let! present := sys (HFileExists path) in
    Ret (if present : bool then
           Some {| wr_status := 200; wr_statusText := ""; wr_headers := [("content-type", mimeType path)]; wr_body := BodyFile path |}
         else None).

(** The route [/*]. *)
Definition servePage (s : site) (target : string) : W web_response :=
  let! asset := tryServeDistAsset (si_dist s) (pathname target) in
  Ret (match asset with
       | Some r => applySecurityHeaders (si_production s) r
       | None => htmlContent (si_production s) (si_index s)
       end).

(** ** The build at start-up *)

Definition ends_with (suffix s : string) : bool :=
  (String.length suffix <=? String.length s)%nat && String.eqb (str_last (String.length suffix) s) suffix.

(** [/\.(tsx?|css|html)$/] *)
Definition affects_ui (name : string) : bool := existsb (λ e, ends_with e name) [".ts"; ".tsx"; ".css"; ".html"].

Definition skipped_dir (name : string) : bool := String.eqb name "dist" || String.eqb name "node_modules".

Fixpoint newest_entry (e : fs_entry) : Z :=
  match e with
  | FsFile name mtime => if affects_ui name then mtime ?: 0 else 0
  | FsDir name entries =>
      if skipped_dir name then 0
      else match entries with
           | None => 0
           | Some l => foldr (λ e, Z.max (newest_entry e)) 0 l
           end
  end.

Definition newestMtimeMs (dir : option (list fs_entry)) : Z :=
  match dir with None => 0 | Some l => foldr (λ e, Z.max (newest_entry e)) 0 l end.

Definition shouldBuild (always : bool) (srcDir stamp index : string) : W bool :=
  if always then Ret true
  else
    let! stamped := sys (HFileExists stamp) in
    if negb stamped then Ret true
    else
      let! built := sys (HFileExists index) in
      if negb built then Ret true
      else
        let! mtime := sys (HStat stamp) in
        match mtime with
        | Err _ => Ret true
        | Ok mtime => let! tree := sys (HTree srcDir) in Ret (mtime <? newestMtimeMs tree)
        end.

Definition ensureDevBuild (isProduction : bool) (srcDir distDir stamp index : string) : W unit :=
  if isProduction then Ret tt
  else
    let! always := sys (HEnv "DEV_BUILD_ALWAYS") in
    let! should := shouldBuild (bool_decide (always = Some "1")) srcDir stamp index in
    if negb should then Ret tt
    else
      let! result := sys (HBuild (path_join [srcDir; "index.html"]) distDir) in
      let! success := of_result result in
      if negb success then sys (HLog "⚠️ Dev build failed")
      else
        let! now := sys HNow in
        let! r := sys (HWriteText stamp (to_iso now +:+ String (chr 10) "")) in of_result r.

Definition distDir (srcDir : string) : string := path_resolve srcDir [".."; "dist"].

(** What the module sets up before it serves. *)
Definition openSite (srcDir : string) : W site :=
  let! env := sys (HEnv "NODE_ENV") in
  let isProduction := bool_decide (env = Some "production") in
  let dist := distDir srcDir in
  let distIndex := path_join [dist; "index.html"] in
  ensureDevBuild isProduction srcDir dist (path_join [dist; ".devbuild-stamp"]) distIndex ;;!
  let! built := sys (HFileExists distIndex) in
  Ret {| si_production := isProduction; si_dist := dist;
         si_index := if built then distIndex else path_join [srcDir; "index.html"] |}.

(** ** Restarts in development *)

(** The nearest ancestor with the core package, or the root of the file system. *)
Fixpoint find_workspace (dirs : list string) (dir : string) : W string :=
  match dirs with
  | [] => Ret dir
  | parent :: dirs =>
      let! here := sys (HExists (path_join [dir; "packages"; "core"; "src"])) in
      if here : bool then Ret dir else find_workspace dirs parent
  end.

Definition workspaceRoot : W string :=
  let! cwd := sys HCwd in find_workspace (tail (ancestors cwd)) cwd.

(** Whether a change of a watched file ends the process. *)
Definition restarts (filename : string) : bool :=
  str_truthy filename && existsb (λ e, ends_with e filename) [".ts"; ".js"; ".mjs"; ".cjs"] &&
  negb (existsb (λ e, ends_with e filename) [".d.ts"; ".d.mts"; ".d.cts"]).

Definition watchPaths (srcDir : string) : W (list string) :=
  let! root := workspaceRoot in Ret [srcDir; path_join [root; "packages"; "core"; "src"]].
End Site.
