(* ===== verification/WebServerSpec.v ===== *)
(** * What the web server guarantees

    The files it serves and the headers of its responses ([servePage_spec]), the headers of every answer of the
    API ([secured_answers]), and when the pages are built at start-up ([openSite_spec]). *)

From S2P Require Export WebServer.

Local Open Scope string_scope.
Local Open Scope Z_scope.
Local Open Scope list_scope.

(** ** Headers *)

Lemma set_headers_get l h k v : NoDup (map (λ '(k, _), to_lower k) l) → (k, v) ∈ l →
  jget (to_lower k) (foldl (λ h '(k, v), set_header k v h) h l) = Some v.
Proof.
  revert h. induction l as [|[k' v'] l IH]; intros h Hnd Hin; [by apply not_elem_of_nil in Hin|].
  apply NoDup_cons in Hnd as [Hk' Hnd]. apply elem_of_cons in Hin as [[= -> ->]|Hin]; [|by apply IH].
  clear IH. cbn. assert (Hg : jget (to_lower k') (set_header k' v' h) = Some v') by apply jget_set_eq. revert Hg.
  generalize (set_header k' v' h). induction l as [|[k2 v2] l IH]; intros g Hg; [done|]. cbn in *.
  apply not_elem_of_cons in Hk' as [Hne Hk']. apply NoDup_cons in Hnd as [_ Hnd]. apply IH; [done..|].
  unfold set_header. by rewrite jget_set_ne by congruence.
Qed.

Lemma set_headers_other l h k : k ∉ map (λ '(k, _), to_lower k) l →
  jget k (foldl (λ h '(k, v), set_header k v h) h l) = jget k h.
Proof.
  revert h. induction l as [|[k' v'] l IH]; intros h Hk; [done|]. cbn in *.
  apply not_elem_of_cons in Hk as [Hne Hk]. rewrite IH by done. unfold set_header. by rewrite jget_set_ne by congruence.
Qed.

(** In production the response has the security headers. *)
Definition secured (isProduction : bool) (r : web_response) : Prop :=
  isProduction = true → ∀ k v, (k, v) ∈ security_headers → get_header k r = Some v.

Definition security_names : list string := map (λ '(k, _), to_lower k) security_headers.

Lemma security_names_NoDup : NoDup security_names.
Proof. apply (bool_decide_unpack _). by vm_compute. Qed.

Lemma apply_secured prod r : secured prod (applySecurityHeaders prod r).
Proof.
  intros -> k v Hin. apply set_headers_get; [apply security_names_NoDup|done].
Qed.

Lemma apply_keeps prod r : wr_status (applySecurityHeaders prod r) = wr_status r ∧ wr_body (applySecurityHeaders prod r) = wr_body r.
Proof. by destruct prod. Qed.

Lemma apply_header prod r k : bool_decide (to_lower k ∉ security_names) = true →
  get_header k (applySecurityHeaders prod r) = get_header k r.
Proof. intros Hk%bool_decide_eq_true_1. destruct prod; [|done]. by apply set_headers_other. Qed.

(** ** Paths of requests *)

Definition no_dots (s : string) : Prop := s ≠ ".." ∧ s ≠ ".".

Lemma single_dot_dot : single_dot "." = true.
Proof. done. Qed.

Lemma path_char_cases c : path_char c = String c "" ∨ ∃ s, path_char c = String "%" s ∧ slash_free s.
Proof.
  unfold path_char. destruct (_ || _ || _); [right|by left]. eexists. split; [reflexivity|].
  set (n := Z.of_nat (nat_of_ascii c)).
  assert (Hn : 0 <= n < 256) by (pose proof (ascii_nat_range c); subst n; lia).
  assert (Hhex : ∀ d, 0 <= d < 16 → Ascii.eqb slash (hex_upper d) = false).
  { intros d Hd. assert (Hall : forallb (λ d, negb (Ascii.eqb slash (hex_upper d))) (seqZ 0 16) = true) by by vm_compute.
    rewrite forallb_forall in Hall. apply negb_true_iff, Hall, list_elem_of_In, elem_of_seqZ. lia. }
  unfold slash_free. cbn [str_all]. rewrite !Hhex; [done|apply Z.mod_pos_bound; lia|].
  split; [apply Z.div_pos; lia|apply Z.div_lt_upper_bound; lia].
Qed.

Lemma encode_seg_free s : slash_free s → slash_free (encode_seg s).
Proof.
  unfold slash_free. induction s as [|c s IH]; [done|]. cbn [str_all encode_seg]. intros [Hc Hs]%andb_prop.
  rewrite str_all_app, IH, andb_true_r by done.
  destruct (path_char_cases c) as [->|(t & -> & Ht)]; cbn [str_all]; [by rewrite Hc|exact Ht].
Qed.

(** Encoding makes no dots. *)
Lemma encode_seg_dots s t : t = "." ∨ t = ".." → encode_seg s = t → s = t.
Proof.
  intros Ht. assert (Hdot : ∀ c u s, path_char c +:+ encode_seg s = String "." u → c = "."%char ∧ encode_seg s = u).
  { intros c u s'. destruct (path_char_cases c) as [->|(v & -> & _)]; [|by intros [= ?]].
    intros [= E1 E2]. by split. }
  destruct Ht as [-> | ->], s as [|c s]; try done; cbn [encode_seg]; intros [-> E]%Hdot.
  - destruct s as [|d s]; [done|]. cbn in E. by destruct (path_char_cases d) as [Ed|(v & Ed & _)]; rewrite Ed in E.
  - destruct s as [|d s]; [done|]. apply Hdot in E as [-> E]. destruct s as [|e s]; [done|]. cbn in E.
    by destruct (path_char_cases e) as [Ed|(v & Ed & _)]; rewrite Ed in E.
Qed.

Definition url_seg_ok (s : string) : Prop := slash_free s ∧ no_dots s.

Lemma url_segs_ok l acc : Forall slash_free l → Forall url_seg_ok acc → Forall url_seg_ok (url_segs acc l).
Proof.
  intros Hl. revert acc. induction Hl as [|s l Hs Hl IH]; intros acc Ha; cbn [url_segs]; [by apply Forall_rev|].
  assert (Hlast : Forall url_seg_ok (match l with [] => [""] | _ => [] end)) by (destruct l; by repeat constructor).
  destruct (double_dot s) eqn:Ed; [|destruct (single_dot s) eqn:Es]; apply IH.
  - apply Forall_app. split; [done|]. destruct acc; [done|]. by apply Forall_cons in Ha as [_ ?].
  - by apply Forall_app.
  - constructor; [|done]. split; [by apply encode_seg_free|].
    split; intros E; apply encode_seg_dots in E; auto; subst s; discriminate.
Qed.

Lemma drop_slashes_segs (P : string → Prop) s : Forall P (split_on slash s) → Forall P (split_on slash (drop_while is_slash s)).
Proof.
  induction s as [|c s IH]; [done|]. cbn [drop_while]. destruct (is_slash c) eqn:E; [|done].
  apply Ascii.eqb_eq in E as ->. change (split_on slash (String slash s)) with ("" :: split_on slash s).
  intros [_ Hs]%Forall_cons. by apply IH.
Qed.

Lemma drop_slashes_head s : str_truthy (drop_while is_slash s) = true →
  ∃ t l, split_on slash (drop_while is_slash s) = t :: l ∧ t ≠ "".
Proof.
  induction s as [|c s IH]; [done|]. cbn [drop_while]. destruct (is_slash c) eqn:E; [done|]. intros _.
  cbn [split_on]. unfold is_slash in E. rewrite Ascii.eqb_sym, E. pose proof (split_on_nonempty slash s).
  destruct (split_on slash s) as [|t l]; [done|]. by exists (String c t), l.
Qed.

(** The path of a request has no segment that climbs. *)
Lemma pathname_segs target : Forall no_dots (split_on slash (drop_while is_slash (pathname target))).
Proof.
  apply drop_slashes_segs. unfold pathname. set (l := tail _).
  assert (Hl : Forall slash_free l).
  { subst l. pose proof (split_on_segs (replace_char "\" "/" (fst (take_while
      (λ c, negb (Ascii.eqb c "?" || Ascii.eqb c "#")) target)))) as H. destruct H; [constructor|done]. }
  pose proof (url_segs_ok l [] Hl (Forall_nil_2 _)) as Hu.
  change ("/" +:+ join "/" (url_segs [] l)) with (String slash (join "/" (url_segs [] l))).
  change (split_on slash (String slash ?s)) with ("" :: split_on slash s). constructor; [done|].
  destruct (url_segs [] l) as [|s u] eqn:E; [by repeat constructor|]. rewrite split_on_join; [|done|].
  - eapply Forall_impl; [exact Hu|]. by intros ? [].
  - eapply Forall_impl; [exact Hu|]. by intros ? [].
Qed.

(** ** Serving a page *)

Section Serve.
Variable mimeType : string → string.
Abbreviation W := (prog unit unit hostE).

(** The directory of the built pages is a normal path, whatever the directory of the sources. *)
Lemma distDir_abs srcDir : ∃ root, Forall plain_seg root ∧ root ≠ [] ∧ distDir srcDir = abs_path root.
Proof.
  destruct (path_resolve_abs srcDir [".."; "dist"]) as (root & Hr & E). exists root. split_and!; [done| |done].
  unfold path_resolve, abs_path in E. intros ->.
  assert (Hl : join "/" (norm_segs false (split_on slash (resolve_from srcDir [".."; "dist"]))) = "").
  { change ("/" +:+ ?s) with (String "/" s) in E. by injection E. }
  assert (Hs : resolve_from srcDir [".."; "dist"] = (srcDir +:+ "/..") +:+ String slash "dist").
  { reflexivity. }
  rewrite Hs, split_on_append in Hl. change (split_on slash "dist") with ["dist"] in Hl.
  rewrite norm_segs_below in Hl by by apply Forall_singleton. change (List.filter kept_seg ["dist"]) with ["dist"] in Hl.
  clear E. destruct (norm_segs _ _) as [|s l] eqn:El; [done|].
  pose proof (norm_segs_plain _ (split_on_segs (srcDir +:+ "/.."))) as Hp. rewrite El in Hp.
  apply Forall_cons in Hp as [(_ & Hne & _) _]. destruct s as [|c s]; [done|]. by destruct l.
Qed.

(** What the module sets up, from the environment and from the index page it finds once it has built. *)
Lemma openSite_runs srcDir tr s : runs (openSite srcDir) tr (Ok s) →
  let index := path_join [distDir srcDir; "index.html"] in
  ∃ env before built,
    tr = Ev (HEnv "NODE_ENV") env :: before ++ [Ev (HFileExists index) built] ∧
    runs (ensureDevBuild (bool_decide (env = Some "production")) srcDir (distDir srcDir)
            (path_join [distDir srcDir; ".devbuild-stamp"]) index) before (Ok tt) ∧
    s = {| si_production := bool_decide (env = Some "production"); si_dist := distDir srcDir;
           si_index := if built then index else path_join [srcDir; "index.html"] |}.
Proof.
  intros (env & t1 & -> & Hr)%runs_sys index.
  apply runs_bind in Hr as [(before & t2 & [] & -> & Hb & Hr)|(e & _ & [=])].
  apply runs_sys in Hr as (built & t3 & -> & [-> [= ->]]). by exists env, before, built.
Qed.

(** A page is sent with the security headers in production, and with its type alone otherwise. *)
Lemma page_headers prod type body :
  let page := {| wr_status := 200; wr_statusText := ""; wr_headers := [("content-type", type)]; wr_body := body |} in
  let resp := applySecurityHeaders prod page in
  wr_status resp = 200 ∧ wr_body resp = body ∧ get_header "Content-Type" resp = Some type ∧ secured prod resp ∧
  (prod = false → wr_headers resp = [("content-type", type)]).
Proof.
  intros page resp. destruct (apply_keeps prod page) as [Hs Hb]. split_and!; [exact Hs|exact Hb| |apply apply_secured|by intros ->].
  unfold resp. rewrite apply_header by by vm_compute. reflexivity.
Qed.

(** C35: what the web server answers to any request that is no API call (apps/web/src/index.ts, the route
    [/*]), from what it set up at its start. Unless the path is only slashes it looks for one file, the one
    that the path names below the directory of the built pages, and the path of that file lies below this directory however
    the request spells it (dots, doubled slashes, percent-encoded dots, backslashes); where that file
    exists it is the answer, with the type of its name. Otherwise the answer is the index page: the built one
    where it existed at the start, and the one of the sources where it did not. The answer is never an
    error, and it has every security header in production, none outside of it. *)
Theorem servePage_spec srcDir tr0 s target tr r :
  runs (openSite srcDir) tr0 (Ok s) → runs (servePage mimeType s target) tr r →
  let dist := distDir srcDir in
  let clean := drop_while is_slash (pathname target) in
  ∃ env before built resp type,
    tr0 = Ev (HEnv "NODE_ENV") env :: before ++ [Ev (HFileExists (path_join [dist; "index.html"])) built] ∧
    r = Ok resp ∧ wr_status resp = 200 ∧ get_header "Content-Type" resp = Some type ∧
    (env = Some "production" → ∀ k v, (k, v) ∈ security_headers → get_header k resp = Some v) ∧
    (env ≠ Some "production" → wr_headers resp = [("content-type", type)]) ∧
    let index := if built then path_join [dist; "index.html"] else path_join [srcDir; "index.html"] in
    let html := "text/html; charset=utf-8" in
    ((tr = [] ∧ clean = "" ∧ wr_body resp = BodyFile index ∧ type = html) ∨
     ∃ found, let p := path_join [dist; clean] in
       tr = [Ev (HFileExists p) found] ∧ lies_below dist p ∧
       wr_body resp = BodyFile (if found then p else index) ∧ type = if found then mimeType p else html).
Proof.
  intros (env & before & built & -> & _ & ->)%openSite_runs Hr. cbv zeta.
  destruct (distDir_abs srcDir) as (root & Hroot & Hne & Hd).
  unfold servePage, tryServeDistAsset in Hr. cbn [si_dist si_production si_index] in Hr.
  set (prod := bool_decide _) in Hr. set (index := if built then _ else _) in Hr |- *.
  assert (Hsec : ∀ resp, secured prod resp → env = Some "production" → ∀ k v, (k, v) ∈ security_headers → get_header k resp = Some v)
    by (intros resp Hs He; apply Hs, bool_decide_eq_true_2, He).
  assert (Hdev : ∀ P, (prod = false → P) → env ≠ Some "production" → P)
    by (intros P HP He; apply HP, bool_decide_eq_false_2, He).
  destruct (str_truthy (drop_while is_slash (pathname target))) eqn:Et; cbn [negb] in Hr.
  - cbn [bind] in Hr. destruct Hr as (found & tr' & -> & [-> ->]).
    set (p := path_join [distDir srcDir; drop_while is_slash (pathname target)]).
    assert (Hp : lies_below (distDir srcDir) p).
    { subst p. rewrite Hd. destruct (drop_slashes_head _ Et) as (t & l & El & Ht).
      pose proof (pathname_segs target) as Hdots. eapply (path_join_below _ _ t); [done|done| | |].
      - eapply Forall_impl; [exact Hdots|]. by intros ? [].
      - rewrite El. left.
      - rewrite El in Hdots. apply Forall_cons in Hdots as [[_ Hdot] _]. unfold kept_seg. by rewrite !str_eqb_neq. }
    destruct found.
    + destruct (page_headers prod (mimeType p) (BodyFile p)) as (H1 & H2 & H3 & H4 & H5).
      eexists env, before, built, _, (mimeType p). split_and!; [done..|by apply Hsec|by apply Hdev|]. right. by exists true.
    + destruct (page_headers prod "text/html; charset=utf-8" (BodyFile index)) as (H1 & H2 & H3 & H4 & H5).
      eexists env, before, built, _, _. split_and!; [done..|by apply Hsec|by apply Hdev|]. right. by exists false.
  - destruct Hr as [-> ->].
    destruct (page_headers prod "text/html; charset=utf-8" (BodyFile index)) as (H1 & H2 & H3 & H4 & H5).
    eexists env, before, built, _, _. split_and!; [done..|by apply Hsec|by apply Hdev|]. left. split_and!; [done| |done|done].
    by destruct (drop_while is_slash (pathname target)).
Qed.
End Serve.

(** Every answer of the API (shared.ts, state-poller.ts) has the security headers in production, next to the
    headers of its own: JSON is sent as JSON with the status 200, the event stream as an event stream
    that nothing caches. *)
Theorem secured_answers prod a : let r := answer_response prod a in
  secured prod r ∧ wr_status r = 200 ∧
  match a with
  | Json resp => wr_body r = BodyJson (response_val resp) ∧ get_header "Content-Type" r = Some "application/json;charset=utf-8"
  | Stream id => wr_body r = BodyStream id ∧ get_header "Content-Type" r = Some "text/event-stream" ∧
      get_header "Cache-Control" r = Some "no-cache, no-transform"
  end.
Proof.
  destruct a as [resp|id]; cbv zeta; cbn [answer_response]; unfold jsonContent, eventStream;
    rewrite !apply_header by (by vm_compute); rewrite !(proj1 (apply_keeps _ _)), !(proj2 (apply_keeps _ _));
    (split; [apply apply_secured|by vm_compute]).
Qed.

(** ** The build at start-up *)

(** The time of a source file that affects the pages, outside of the directories that are skipped. *)
Inductive source_time : list fs_entry → Z → Prop :=
| st_file l name m : FsFile name (Some m) ∈ l → affects_ui name = true → source_time l m
| st_dir l name l' m : FsDir name (Some l') ∈ l → skipped_dir name = false → source_time l' m → source_time l m.

Definition newest_of (l : list fs_entry) : Z := foldr (λ e, Z.max (newest_entry e)) 0 l.

Lemma newest_of_cons e l : newest_of (e :: l) = Z.max (newest_entry e) (newest_of l).
Proof. done. Qed.

Lemma newest_of_le l : 0 <= newest_of l ∧ ∀ e, e ∈ l → newest_entry e <= newest_of l.
Proof.
  induction l as [|e l [IH0 IH]]; [split; [done|by intros e ?%not_elem_of_nil]|]. rewrite newest_of_cons.
  split; [lia|]. intros e' [->|He]%elem_of_cons; [lia|]. specialize (IH e' He). lia.
Qed.

Lemma newest_file name m : newest_entry (FsFile name (Some m)) = if affects_ui name then m else 0.
Proof. done. Qed.

Lemma newest_dir name l : newest_entry (FsDir name (Some l)) = if skipped_dir name then 0 else newest_of l.
Proof. done. Qed.

Lemma source_time_le l m : source_time l m → m <= newest_of l.
Proof.
  induction 1 as [l name m Hin Ha|l name l' m Hin Hs _ IH].
  - destruct (newest_of_le l) as [_ Hle]. specialize (Hle _ Hin). by rewrite newest_file, Ha in Hle.
  - destruct (newest_of_le l) as [_ Hle]. specialize (Hle _ Hin). rewrite newest_dir, Hs in Hle. lia.
Qed.

Lemma source_time_mono l l' m : l ⊆ l' → source_time l m → source_time l' m.
Proof. intros Hl Hm. destruct Hm as [l name m Hin|l name k m Hin]; [eapply st_file|eapply st_dir]; eauto. Qed.

(** Unless it is 0, the newest time is that of a source file. *)
Lemma newest_of_attained l : Forall (λ e, newest_entry e = 0 ∨ source_time [e] (newest_entry e)) l →
  newest_of l = 0 ∨ source_time l (newest_of l).
Proof.
  induction 1 as [|e l He _ IH]; [by left|]. rewrite newest_of_cons.
  destruct (Z.max_spec (newest_entry e) (newest_of l)) as [[_ ->]|[Hle ->]].
  - destruct IH as [IH|IH]; [by left|right]. eapply source_time_mono; [|exact IH]. set_solver.
  - destruct He as [He|He]; [by left|right]. eapply source_time_mono; [|exact He]. set_solver.
Qed.

Fixpoint newest_attained (e : fs_entry) : newest_entry e = 0 ∨ source_time [e] (newest_entry e).
Proof.
  destruct e as [name [m|]|name [l|]]; rewrite ?newest_dir; cbn [newest_entry].
  - destruct (affects_ui name) eqn:Ea; [|by left]. right. apply (st_file _ name); [left|done].
  - destruct (affects_ui name); by left.
  - destruct (skipped_dir name) eqn:Es; [by left|].
    assert (Hl : Forall (λ e, newest_entry e = 0 ∨ source_time [e] (newest_entry e)) l).
    { induction l as [|e l IH]; constructor; [apply newest_attained|apply IH]. }
    destruct (newest_of_attained l Hl) as [?|Hm]; [by left|right]. by eapply st_dir; [left| |].
  - destruct (skipped_dir name); by left.
Qed.

(** No source file is newer than the stamp. *)
Definition up_to_date (mtime : Z) (tree : option (list fs_entry)) : Prop :=
  0 <= mtime ∧ ∀ l m, tree = Some l → source_time l m → m <= mtime.

Lemma newestMtimeMs_le mtime tree : newestMtimeMs tree <= mtime ↔ up_to_date mtime tree.
Proof.
  unfold up_to_date. destruct tree as [l|]; cbn [newestMtimeMs]; [|split; [by intros ?; split|lia]]. fold (newest_of l).
  destruct (newest_of_le l) as [H0 _]. split.
  - intros Hle. split; [lia|]. intros ? m [= <-] Hm%source_time_le. lia.
  - intros [Ht Hall]. destruct (newest_of_attained l) as [->|Hm]; [|done|by eapply Hall].
    apply Forall_forall. intros e _. apply newest_attained.
Qed.

Section Build.
Variables srcDir stamp index : string.
Abbreviation W := (prog unit unit hostE).

(** What the check of the files sees when the built pages are used as they are, and when they are not. *)
Definition sees_fresh (seen : list (event hostE)) : Prop := ∃ mtime tree,
  seen = [Ev (HFileExists stamp) true; Ev (HFileExists index) true; Ev (HStat stamp) (Ok mtime); Ev (HTree srcDir) tree] ∧
  up_to_date mtime tree.

Definition sees_stale (seen : list (event hostE)) : Prop :=
  seen = [Ev (HFileExists stamp) false] ∨
  seen = [Ev (HFileExists stamp) true; Ev (HFileExists index) false] ∨
  (∃ e, seen = [Ev (HFileExists stamp) true; Ev (HFileExists index) true; Ev (HStat stamp) (Err e)]) ∨
  (∃ mtime tree, seen = [Ev (HFileExists stamp) true; Ev (HFileExists index) true; Ev (HStat stamp) (Ok mtime);
                         Ev (HTree srcDir) tree] ∧ ¬ up_to_date mtime tree).

Lemma shouldBuild_runs always tr r : runs (shouldBuild always srcDir stamp index : W bool) tr r →
  (always = true ∧ tr = [] ∧ r = Ok true) ∨
  (always = false ∧ ((sees_fresh tr ∧ r = Ok false) ∨ (sees_stale tr ∧ r = Ok true))).
Proof.
  unfold shouldBuild. destruct always; [intros [-> ->]; by left|]. intros Hr. right. split; [done|].
  apply runs_sys in Hr as (stamped & t1 & -> & Hr). destruct stamped; cbn [negb] in Hr.
  2:{ destruct Hr as [-> ->]. right. split; [by left|done]. }
  apply runs_sys in Hr as (built & t2 & -> & Hr). destruct built; cbn [negb] in Hr.
  2:{ destruct Hr as [-> ->]. right. split; [by right; left|done]. }
  apply runs_sys in Hr as ([mtime|e] & t3 & -> & Hr).
  2:{ destruct Hr as [-> ->]. right. split; [right; right; left; by exists e|done]. }
  apply runs_sys in Hr as (tree & t4 & -> & [-> ->]).
  destruct (Z.ltb_spec mtime (newestMtimeMs tree)) as [Hlt|Hle].
  - right. split; [|done]. right; right; right. exists mtime, tree. split; [done|]. rewrite <- newestMtimeMs_le. lia.
  - left. split; [|done]. exists mtime, tree. split; [done|]. by apply newestMtimeMs_le.
Qed.

(** How a build ends, given what the bundler answered. *)
Definition build_outcome (answer : result bool) (rest : list (event hostE)) (r : result unit) : Prop :=
  match answer with
  | Ok true => ∃ now w, rest = [Ev HNow now; Ev (HWriteText stamp (to_iso now +:+ String (chr 10) "")) w] ∧ r = w
  | Ok false => rest = [Ev (HLog "⚠️ Dev build failed") tt] ∧ r = Ok tt
  | Err e => rest = [] ∧ r = Err e
  end.

Lemma ensureDevBuild_runs prod dist tr r : runs (ensureDevBuild prod srcDir dist stamp index : W unit) tr r →
  (prod = true ∧ tr = [] ∧ r = Ok tt) ∨
  (prod = false ∧ ∃ env seen rest, tr = Ev (HEnv "DEV_BUILD_ALWAYS") env :: seen ++ rest ∧
    ((env ≠ Some "1" ∧ sees_fresh seen ∧ rest = [] ∧ r = Ok tt) ∨
     (((env = Some "1" ∧ seen = []) ∨ (env ≠ Some "1" ∧ sees_stale seen)) ∧ ∃ answer rest',
        rest = Ev (HBuild (path_join [srcDir; "index.html"]) dist) answer :: rest' ∧ build_outcome answer rest' r))).
Proof.
  unfold ensureDevBuild. destruct prod; [intros [-> ->]; by left|]. intros (env & t1 & -> & Hr)%runs_sys.
  right. split; [done|]. exists env.
  apply runs_bind in Hr as [(seen & rest & b & -> & Hs & Hr)|(e & Hs & ->)]; apply shouldBuild_runs in Hs.
  2:{ destruct Hs as [(_ & _ & [=])|(_ & [(_ & [=])|(_ & [=])])]. }
  exists seen, rest. split; [done|].
  destruct Hs as [(Ha%bool_decide_eq_true_1 & -> & [= ->])|(Ha%bool_decide_eq_false_1 & [(Hf & [= ->])|(Hs & [= ->])])]; cbn [negb] in Hr.
  2:{ left. by destruct Hr as [-> ->]. }
  all: right; split; [by (left + right)|]; apply runs_sys in Hr as (answer & rest' & -> & Hr); exists answer, rest';
    split; [done|]; destruct answer as [[]|e]; cbn in Hr |- *; [|by destruct Hr as ([] & ? & -> & -> & ->)|by destruct Hr as [-> ->]].
  all: destruct Hr as (now & t2 & -> & w & t3 & -> & Hr); exists now, w; destruct w as [[]|e]; destruct Hr as [-> ->]; split; reflexivity.
Qed.
End Build.

(** Starting the web server (apps/web/src/index.ts): in production it builds nothing; in development it runs the
    bundler once, into the directory it serves, exactly if it is told to or the pages are not fresh, and writes
    the stamp only after a success, so that a failed build is tried again; fresh means that stamp and index page
    exist and that no source file of the pages, outside of the skipped directories, is newer than the stamp. The index page
    is the built one exactly where it exists then. *)
Theorem openSite_spec srcDir tr s : runs (openSite srcDir) tr (Ok s) →
  let stamp := path_join [distDir srcDir; ".devbuild-stamp"] in
  let index := path_join [distDir srcDir; "index.html"] in
  ∃ env before built, tr = Ev (HEnv "NODE_ENV") env :: before ++ [Ev (HFileExists index) built] ∧
    si_production s = bool_decide (env = Some "production") ∧
    si_index s = (if built then index else path_join [srcDir; "index.html"]) ∧
    ((env = Some "production" ∧ before = []) ∨
     (env ≠ Some "production" ∧ ∃ always seen rest, before = Ev (HEnv "DEV_BUILD_ALWAYS") always :: seen ++ rest ∧
       ((always ≠ Some "1" ∧ sees_fresh srcDir stamp index seen ∧ rest = []) ∨
        (((always = Some "1" ∧ seen = []) ∨ (always ≠ Some "1" ∧ sees_stale srcDir stamp index seen)) ∧
         ((∃ now, rest = [Ev (HBuild (path_join [srcDir; "index.html"]) (distDir srcDir)) (Ok true); Ev HNow now;
                          Ev (HWriteText stamp (to_iso now +:+ String (chr 10) "")) (Ok tt)]) ∨
          rest = [Ev (HBuild (path_join [srcDir; "index.html"]) (distDir srcDir)) (Ok false);
                  Ev (HLog "⚠️ Dev build failed") tt]))))).
Proof.
  intros (env & before & built & -> & Hb & ->)%openSite_runs stamp index. exists env, before, built. split_and!; [done..|].
  apply ensureDevBuild_runs in Hb as [(Hp%bool_decide_eq_true_1 & -> & _)|(Hp%bool_decide_eq_false_1 & always & seen & rest & -> & Hb)];
    [by left|right]. split; [done|]. exists always, seen, rest. split; [done|].
  destruct Hb as [(? & ? & -> & _)|(Hwhy & answer & rest' & -> & Hend)]; [by left|right]. split; [done|].
  destruct answer as [[]|e]; cbn in Hend.
  - destruct Hend as (now & w & -> & <-). left. exists now. reflexivity.
  - destruct Hend as [-> _]. by right.
  - by destruct Hend as [_ [=]].
Qed.

(** ** Concrete runs *)

(** A host where the files of a list exist, nothing can be read, and every port is free. *)
Definition quiet_host (env : list (string * string)) (files : list string) (X : Type) (n : nat) (e : hostE X) : X :=
  match e in hostE X return X with
  | HEnv name => jget name env
  | HCwd => "/repo/apps/web"
  | HNow => 1700000000000
  | HIsTTY => false
  | HLog _ => tt
  | HExists p | HFileExists p => bool_decide (p ∈ files)
  | HStat _ => Ok 0
  | HTree _ => Some [FsFile "App.tsx" (Some 5); FsDir "dist" (Some [FsFile "old.css" (Some 9)])]
  | HReadText _ => Err (JsError "ENOENT")
  | HWriteText _ _ | HMkdir _ | HRemove _ | HListen _ => Ok tt
  | HBuild _ _ => Ok true
  | HServe port => inl {| sd_handle := n; sd_port := Some port; sd_url := "http://localhost/" |}
  | HStop _ | HCloseControl | HExit => tt
  | HControl _ _ => ControlError
  | HHealth _ _ => HealthResponse true 200
  end.

Definition host_run {A} (env : list (string * string)) (files : list string) (p : prog unit unit hostE A) :
    list (event hostE) * result A :=
  exec {| o_sys := quiet_host env files; o_state := tt; o_await := λ _, Ok tt |} 0 p.

Definition web_src : string := "/repo/apps/web/src".
Definition web_files : list string := ["/repo/apps/web/dist/index.html"; "/repo/apps/web/dist/a.js"].
Definition css_type (path : string) : string := "text/javascript;charset=utf-8".

(** In development without a stamp the pages are built. *)
Definition fresh_site : site :=
  {| si_production := false; si_dist := "/repo/apps/web/dist"; si_index := "/repo/apps/web/dist/index.html" |}.

Lemma fresh_site_opened : runs (openSite web_src) (fst (host_run [] web_files (openSite web_src))) (Ok fresh_site).
Proof.
  assert (Hs : snd (host_run [] web_files (openSite web_src)) = Ok fresh_site) by (vm_compute; reflexivity).
  rewrite <- Hs. apply exec_runs.
Defined.

Lemma openSite_spec_witness : ∃ env before built,
  fst (host_run [] web_files (openSite web_src)) =
    Ev (HEnv "NODE_ENV") env :: before ++ [Ev (HFileExists (path_join [distDir web_src; "index.html"])) built] ∧
  length before = 5%nat ∧ env ≠ Some "production".
Proof.
  destruct (openSite_spec web_src _ fresh_site fresh_site_opened) as (env & before & built & Htr & _ & _ & Hcase).
  exists env, before, built. split; [exact Htr|].
  apply (f_equal length) in Htr. cbn [length] in Htr. rewrite length_app in Htr. vm_compute in Htr.
  destruct Hcase as [[_ ->]|[He _]]; [discriminate|]. split; [|exact He].
  injection Htr. intros E. rewrite Nat.add_comm in E. injection E. intros E'. symmetry. exact E'.
Defined.

Definition production_site : site :=
  {| si_production := true; si_dist := "/repo/apps/web/dist"; si_index := "/repo/apps/web/dist/index.html" |}.

Definition production_env : list (string * string) := [("NODE_ENV", "production")].

Lemma production_opened : runs (openSite web_src) (fst (host_run production_env web_files (openSite web_src))) (Ok production_site).
Proof.
  assert (Hs : snd (host_run production_env web_files (openSite web_src)) = Ok production_site) by (vm_compute; reflexivity).
  rewrite <- Hs. apply exec_runs.
Defined.

(** A request that tries to climb out of the directory. *)
Definition climbing : string := "/..//%2E%2e/..\a.js?v=1".

Definition env_seen (ev : event hostE) : option string :=
  match ev with Ev e x => match e in hostE X return X → option string with HEnv _ => λ v, v | _ => λ _, None end x end.

Lemma servePage_spec_witness :
  ∃ resp, snd (host_run production_env web_files (servePage css_type production_site climbing)) = Ok resp ∧
    wr_body resp = BodyFile "/repo/apps/web/dist/a.js" ∧ get_header "X-Content-Type-Options" resp = Some "nosniff".
Proof.
  destruct (servePage_spec css_type web_src _ production_site climbing
    (fst (host_run production_env web_files (servePage css_type production_site climbing)))
    (snd (host_run production_env web_files (servePage css_type production_site climbing)))
    production_opened (exec_runs _ 0 _)) as (env & before & built & resp & type & Hopen & Hr & _ & _ & Hsec & _).
  exists resp. split; [exact Hr|].
  assert (He : env = Some "production").
  { apply (f_equal (λ l, head l ≫= env_seen)) in Hopen. symmetry. exact Hopen. }
  split; [|apply (Hsec He); left]. vm_compute in Hr. injection Hr as <-. reflexivity.
Defined.
