(* ===== verification/DevServer.v ===== *)
(** * Starting and controlling the web server

    apps/web/src/dev/serve-with-control.ts: the port a server gets, the control socket through which another process
    asks it who it is, restarts or stops it, and its shutdown. The variables [serveWithControl] closes over are
    the state its callbacks share; they run as threads over it. *)

From S2P Require Export Host Threads.
From coqutil Require Export Datatypes.RecordSettersUsingExistingGetters.

#[global] Arguments RecordSettersUsingExistingGetters.const {E} newValue _ /.

Local Open Scope string_scope.
Local Open Scope Z_scope.
Local Open Scope list_scope.

Definition DEFAULT_PORT : Z := 3000.
Definition MAX_PORT : Z := 65535.

(** ** The process *)

(** What [serveWithControl] works out once. *)
Record dev_setup := {
  ds_basePort : Z; ds_root : string; ds_id : string; ds_name : string; ds_shortName : string;
  ds_override : option string }.

(** What its callbacks share: the server, whether it replaced another one, the path of the control socket, and
    whether the control server and the cleanup are there. *)
Record dev := {
  dv_server : option served; dv_replacedExisting : bool; dv_controlSocket : string; dv_controlServer : bool;
  dv_cleanup : bool }.

Definition dev_start : dev :=
  {| dv_server := None; dv_replacedExisting := false; dv_controlSocket := ""; dv_controlServer := false; dv_cleanup := false |}.

Abbreviation D := (prog dev unit hostE).

Definition log (line : string) : D unit := sys (HLog line).

(** ** Ports *)

Definition parsePort (value : option string) (label : string) : D (option Z) :=
  match value ≫= nonempty with
  | None => Ret None
  | Some value =>
      match num_Z (str_to_num value) with
      | Some port => if (port <=? 0) || (MAX_PORT <? port) then log ("⚠️ Ignoring invalid " +:+ label +:+ ": " +:+ value) ;;! Ret None
                     else Ret (Some port)
      | None => log ("⚠️ Ignoring invalid " +:+ label +:+ ": " +:+ value) ;;! Ret None
      end
  end.

Definition isAddressInUse (e : serve_error) : bool :=
  bool_decide (se_code e = Some "EADDRINUSE") ||
  match se_message e with Some m => includes "EADDRINUSE" m | None => false end.

(** A port of 0 in the configuration counts as none. *)
Definition resolveBasePort (explicit : option Z) : D Z :=
  match (match explicit with Some port => if port =? 0 then None else Some port | None => None end) with
  | Some port => Ret port
  | None =>
      let! env := sys (HEnv "PORT") in
      let! port := parsePort env "PORT" in
      match port with
      | Some port => Ret port
      | None => let! env := sys (HEnv "PORT_OFFSET") in
                let! offset := parsePort env "PORT_OFFSET" in
                Ret (DEFAULT_PORT + (offset ?: 0))
      end
  end.

(** ** Names and places *)

Definition is_safe (c : ascii) : bool :=
  is_lower c || is_upper c || is_digit c || existsb (Ascii.eqb c) ["."; "_"; "-"]%char.

(** [s.replace(/-+/g, '-')] *)
Fixpoint collapse_dashes (s : string) : string :=
  match s with
  | String c s' =>
      if Ascii.eqb c "-" then
        match collapse_dashes s' with
        | String d _ as t => if Ascii.eqb d "-" then t else String c t
        | EmptyString => "-"
        end
      else String c (collapse_dashes s')
  | EmptyString => ""
  end.

(** [s.replace(/^-|-$/g, '')] *)
Definition strip_dash (s : string) : string :=
  let s := match s with String c s' => if Ascii.eqb c "-" then s' else s | EmptyString => "" end in
  if String.eqb (str_last 1 s) "-" then str_take (String.length s - 1) s else s.

Definition toSafeId (value : string) : string :=
  strip_dash (collapse_dashes (str_map (λ c, if is_safe c then c else "-"%char) value)).

Section Place.
(** [createHash('sha1')] in hexadecimal. *)
Variable sha1 : string → string.

Definition last_part (name : string) : string := default name (last (split_on slash name)).

(** The id, the name and the short name of the server. *)
Definition resolveServerInfo : D (string * string * string) :=
  let! cwd := sys HCwd in
  let! contents := sys (HReadText (path_resolve cwd ["package.json"])) in
  let pkg := match contents with Ok text => json_parse text ?: VNull | Err _ => VNull end in
  let name := match prop "name" pkg with VStr s => s | _ => path_basename cwd end in
  Ret (toSafeId name +:+ "-" +:+ str_take 6 (sha1 cwd), name, toSafeId (last_part name)).

(** The nearest ancestor whose package.json has workspaces. *)
Fixpoint find_root (dirs : list string) (cwd : string) : D string :=
  match dirs with
  | [] => Ret cwd
  | dir :: dirs =>
      let pkgPath := path_join [dir; "package.json"] in
      let! here := sys (HExists pkgPath) in
      if here : bool then
        let! contents := sys (HReadText pkgPath) in
        if match contents with Ok text => truthy (prop "workspaces" (json_parse text ?: VNull)) | Err _ => false end
        then Ret dir else find_root dirs cwd
      else find_root dirs cwd
  end.

Definition resolveProjectRoot : D string := let! cwd := sys HCwd in find_root (ancestors cwd) cwd.

(** The path of the control socket of the server on a port. *)
Definition createControlPaths (root shortName : string) (port : Z) (override : option string) : string :=
  match override ≫= nonempty with
  | Some socket => if isAbsolute socket then socket else path_resolve root [socket]
  | None => path_join [root; "." +:+ shortName +:+ "-" +:+ pretty port +:+ ".sock"]
  end.

(** ** Other servers *)

Definition sendControlCommand (socket message : string) : D (option string) :=
  let! e := sys (HControl socket message) in
  Ret (match e with ControlData s => Some (trim s) | ControlTimeout | ControlError => None end).

(** The name another server goes by, where it says a port. *)
Definition info_name (response : string) : option val :=
  match json_parse response with
  | Some info => match prop "port" info with VNum _ => Some (prop "name" info) | _ => None end
  | None => None
  end.

Definition resolveRunningServer (socket : string) : D (option val) :=
  let! here := sys (HExists socket) in
  if negb here then Ret None
  else
    let! response := sendControlCommand socket "info" in
    Ret (match response with Some text => if str_truthy text then info_name text else None | None => None end).

(** Whether a server of the same name was asked to stop and agreed. *)
Definition replace_known (s : dev_setup) (allow : bool) (port : Z) (socket : string) (known : option val) : D bool :=
  match known with
  | None => Ret false
  | Some name =>
      let isSame := match name with VStr n => String.eqb n (ds_name s) | _ => false end in
      log ((if isSame then "🟢" else "🔵") +:+ " Existing " +:+ quote +:+ to_str name +:+ quote +:+ " server detected on port " +:+
           pretty port +:+ ".") ;;!
      if allow && isSame then
        let! ack := sendControlCommand socket "stop" in
        match ack with
        | Some a => if str_truthy a && starts_with "ok" a then Ret true else log ("⚠️ Replace failed: " +:+ a) ;;! Ret false
        | None => log "⚠️ Replace failed: false" ;;! Ret false
        end
      else Ret false
  end.

Record start_result := { st_server : served; st_replacedExisting : bool; st_controlSocket : string }.

(** The loop [while (port <= MAX_PORT)], with a turn for each port left. *)
Fixpoint try_ports (s : dev_setup) (allow : bool) (startPort : Z) (turns : nat) (port : Z) (replaced : bool) : D start_result :=
  match turns with
  | O => Throw (JsError ("No available port found starting from " +:+ pretty startPort))
  | S turns =>
      let socket := createControlPaths (ds_root s) (ds_shortName s) port (ds_override s) in
      let! known := resolveRunningServer socket in
      let! stopped := replace_known s allow port socket known in
      let! r := sys (HServe port) in
      match r with
      | inl server => Ret {| st_server := server; st_replacedExisting := replaced || stopped; st_controlSocket := socket |}
      | inr e =>
          if isAddressInUse e then
            (match known with None => log ("⚫ Existing server detected on port " +:+ pretty port +:+ ".") | Some _ => Ret tt end) ;;!
            try_ports s allow startPort turns (port + 1) (replaced || stopped)
          else Throw (JsError (se_message e ?: ""))
      end
  end.

Definition startServerWithAwareness (s : dev_setup) (allow : bool) (startPort : Z) : D start_result :=
  try_ports s allow startPort (Z.to_nat (MAX_PORT + 1 - startPort)) startPort false.

(** ** The health check *)

Record health_labels := { hl_starting : string; hl_started : string; hl_errorPrefix : option string }.

Definition health_suffix (h : health) : string :=
  match h with
  | HealthTimeout => "timeout"
  | HealthResponse _ status => "status " +:+ pretty status
  | HealthError name message => if String.eqb name "AbortError" then "timeout" else message
  end.

(** On a terminal the line of the start is left out. *)
Definition logHealthCheck (name url : string) (labels : health_labels) : D unit :=
  let! tty := sys HIsTTY in
  (if tty : bool then Ret tt else log (hl_starting labels)) ;;!
  let! result := sys (HHealth url 2000) in
  match result with
  | HealthResponse true _ => log (hl_started labels)
  | _ => log (match hl_errorPrefix labels ≫= nonempty with
              | Some p => p +:+ " (" +:+ health_suffix result +:+ ")"
              | None => "⚠️ Health check failed for " +:+ quote +:+ name +:+ quote +:+ " at " +:+ url +:+ " (" +:+ health_suffix result +:+ ")"
              end)
  end.

Definition named (verb name url : string) : string := verb +:+ " " +:+ quote +:+ name +:+ quote +:+ " server at " +:+ url.

Definition start_labels (name url : string) : health_labels :=
  {| hl_starting := named "🚀 Starting" name url; hl_started := named "✅ Started" name url; hl_errorPrefix := None |}.

Definition restart_labels (name url : string) : health_labels :=
  {| hl_starting := named "🔁 Restarting" name url; hl_started := named "✅ Restarted" name url;
     hl_errorPrefix := Some ("⚠️ Restart failed for " +:+ quote +:+ name +:+ quote +:+ " at " +:+ url) |}.

(** ** The control server *)

(** [existsSync(path)] and then [rm(path, { force: true })]. *)
Definition remove_if_there (path : string) : D unit :=
  let! here := sys (HExists path) in
  if here : bool then let! r := sys (HRemove path) in of_result r else Ret tt.

Definition listenControlServer (socket : string) : D unit :=
  let! r := sys (HMkdir (path_dirname socket)) in
  of_result r ;;!
  let! here := sys (HExists socket) in
  (if here : bool then
     let! existing := sendControlCommand socket "info" in
     match existing with
     | Some (String _ _) => Ret tt
     | _ => let! r := sys (HRemove socket) in of_result r
     end
   else Ret tt) ;;!
  let! r := sys (HListen socket) in of_result r.

Definition relistenControlServer (socket : string) : D unit :=
  let! s := gets id in
  if negb (dv_controlServer s) || String.eqb (dv_controlSocket s) socket then Ret tt
  else
    sys HCloseControl ;;!
    remove_if_there (dv_controlSocket s) ;;!
    modify (λ s, s <| dv_controlSocket := socket |>) ;;!
    listenControlServer socket.

Definition server_url (s : dev) : string := match dv_server s with Some d => sd_url d | None => "" end.

Definition stopServer : D unit :=
  let! s := gets id in
  match dv_server s with Some server => sys (HStop server) | None => Ret tt end.

(** [controlCleanup] *)
Definition cleanup : D unit :=
  sys HCloseControl ;;!
  let! s := gets id in
  remove_if_there (dv_controlSocket s).

Definition shutdown : D unit :=
  stopServer ;;!
  let! s := gets id in
  (if dv_cleanup s then cleanup else Ret tt) ;;!
  sys HExit.

Definition adopt (st : start_result) (s : dev) : dev :=
  s <| dv_server := Some (st_server st) |> <| dv_replacedExisting := st_replacedExisting st |>.

Definition restartServer (setup : dev_setup) : D unit :=
  let! s := gets id in
  let preferredPort := (dv_server s ≫= sd_port) ?: ds_basePort setup in
  stopServer ;;!
  let! st := startServerWithAwareness setup false preferredPort in
  let! moved := atom (λ s, (adopt st s, negb (String.eqb (st_controlSocket st) (dv_controlSocket s)))) in
  (if moved : bool then relistenControlServer (st_controlSocket st) else Ret tt) ;;!
  let! s := gets id in
  logHealthCheck (ds_name setup) (server_url s) (restart_labels (ds_name setup) (server_url s)).

Definition server_info (setup : dev_setup) (s : dev) : val :=
  mk_obj [("id", VStr (ds_id setup)); ("name", VStr (ds_name setup));
          ("port", match dv_server s ≫= sd_port with Some p => VZ p | None => VUndef end); ("url", VStr (server_url s))].

(** What a client of the control socket is answered; a restart and a shutdown go on in the background. *)
Definition controlCommand (setup : dev_setup) (data : string) : D string :=
  let message := trim data in
  if String.eqb message "restart" then
    fork (restartServer setup) ;;!
    let! s := gets id in Ret ("ok:" +:+ server_url s)
  else if String.eqb message "stop" then
    fork shutdown ;;! Ret "ok"
  else if String.eqb message "info" then
    let! s := gets id in Ret (json_stringify (server_info setup s))
  else Ret "error:unknown-command".

(** ** Starting *)

Definition serveWithControl (port : option Z) (override : option string) : D (dev_setup * option served) :=
  let! basePort := resolveBasePort port in
  let! root := resolveProjectRoot in
  let! '(id_, name, shortName) := resolveServerInfo in
  let setup := {| ds_basePort := basePort; ds_root := root; ds_id := id_; ds_name := name; ds_shortName := shortName;
                  ds_override := override |} in
  let! st := startServerWithAwareness setup true basePort in
  modify (λ s, adopt st s <| dv_controlSocket := st_controlSocket st |> <| dv_controlServer := true |>) ;;!
  listenControlServer (st_controlSocket st) ;;!
  modify (λ s, s <| dv_cleanup := true |>) ;;!
  let! s := gets id in
  let url := server_url s in
  logHealthCheck name url (if dv_replacedExisting s then restart_labels name url else start_labels name url) ;;!
  let! s := gets id in Ret (setup, dv_server s).
End Place.
