(* ===== verification/DevServerSpec.v ===== *)
(** * What starting and controlling the web server guarantees

    The ports that are tried and who is asked to stop ([startServer_spec]), the range of the port ([resolveBasePort_spec]), and
    how a server takes over from one of the same name ([takeover]). *)

From S2P Require Export DevServer.

Local Open Scope string_scope.
Local Open Scope Z_scope.
Local Open Scope list_scope.

(** ** What a run does *)

Definition serve_of (ev : event hostE) : list (Z * (served + serve_error)) :=
  match ev with Ev e x => match e in hostE X return X → list (Z * (served + serve_error)) with
                          | HServe port => λ x, [(port, x)] | _ => λ _, [] end x end.

Definition exchange_of (ev : event hostE) : list (string * string * control_event) :=
  match ev with Ev e x => match e in hostE X return X → list (string * string * control_event) with
                          | HControl socket message => λ x, [(socket, message, x)] | _ => λ _, [] end x end.

(** The ports bound and the messages sent to other servers, in order, with what came back. *)
Definition serves (tr : list (event hostE)) : list (Z * (served + serve_error)) := flat_map serve_of tr.
Definition exchanges (tr : list (event hostE)) : list (string * string * control_event) := flat_map exchange_of tr.

Lemma serves_app t1 t2 : serves (t1 ++ t2) = serves t1 ++ serves t2.
Proof. apply flat_map_app. Qed.

Lemma exchanges_app t1 t2 : exchanges (t1 ++ t2) = exchanges t1 ++ exchanges t2.
Proof. apply flat_map_app. Qed.

(** The paths whose existence was asked, with the answers. *)
Definition existence_of (ev : event hostE) : list (string * bool) :=
  match ev with Ev e x => match e in hostE X return X → list (string * bool) with
                          | HExists path => λ x, [(path, x)] | _ => λ _, [] end x end.

Definition existence (tr : list (event hostE)) : list (string * bool) := flat_map existence_of tr.

(** What holds of the ports bound, of the messages sent and of the result. *)
Definition deals {A} (p : D A) (Q : list (Z * (served + serve_error)) → list (string * string * control_event) → result A → Prop) :
  Prop := wp p (λ tr r, Q (serves tr) (exchanges tr) r).

Section Deals.
Context {A B : Type}.

Lemma deals_runs (p : D A) Q tr r : deals p Q → runs p tr r → Q (serves tr) (exchanges tr) r.
Proof. intros Hp Hr. unfold deals in Hp. rewrite wp_runs in Hp. by apply Hp. Qed.

Lemma deals_mono (p : D A) (Q1 Q2 : _ → _ → result A → Prop) : (∀ l m r, Q1 l m r → Q2 l m r) → deals p Q1 → deals p Q2.
Proof. intros HQ. apply wp_mono. auto. Qed.

Lemma deals_bind (p : D A) (f : A → D B) Q :
  deals p (λ l m r, match r with
                    | Ok a => deals (f a) (λ l' m' r', Q (l ++ l') (m ++ m') r')
                    | Err e => Q l m (Err e)
                    end) → deals (bind p f) Q.
Proof.
  intros Hp. apply wp_bind. eapply wp_mono, Hp. intros tr [a|e]; [|done]. apply wp_mono.
  intros tr' r'. by rewrite serves_app, exchanges_app.
Qed.

Lemma deals_ret (a : A) (Q : _ → _ → result A → Prop) : Q [] [] (Ok a) → deals (Ret a) Q.
Proof. done. Qed.

Lemma deals_throw e (Q : _ → _ → result A → Prop) : Q [] [] (Err e) → deals (Throw e) Q.
Proof. done. Qed.
End Deals.

Lemma deals_log line (Q : _ → _ → result unit → Prop) : Q [] [] (Ok tt) → deals (log line) Q.
Proof. by intros HQ []. Qed.

Lemma deals_control socket message (Q : _ → _ → result (option string) → Prop) :
  (∀ e, Q [] [(socket, message, e)] (Ok (match e with ControlData s => Some (trim s) | _ => None end))) →
  deals (sendControlCommand socket message) Q.
Proof. intros HQ e. apply HQ. Qed.

Lemma deals_exists path (Q : _ → _ → result bool → Prop) : (∀ b, Q [] [] (Ok b)) → deals (sys (HExists path)) Q.
Proof. intros HQ b. apply HQ. Qed.

Lemma deals_serve port (Q : _ → _ → result (served + serve_error) → Prop) :
  (∀ x, Q [(port, x)] [] (Ok x)) → deals (sys (HServe port)) Q.
Proof. intros HQ x. apply HQ. Qed.

(** ** One port *)

Definition socket_of (s : dev_setup) (port : Z) : string := createControlPaths (ds_root s) (ds_shortName s) port (ds_override s).

Definition agreed (e : control_event) : bool :=
  match e with ControlData d => str_truthy (trim d) && starts_with "ok" (trim d) | _ => false end.

(** What is sent to the socket of a port: nothing, a question, or a question and, to a server of the same name
    where that is allowed, the request to stop, and whether it was granted. *)
Definition asked (s : dev_setup) (allow : bool) (port : Z) (l : list (string * string * control_event)) (stopped : bool) : Prop :=
  (l = [] ∧ stopped = false) ∨
  (∃ e, l = [(socket_of s port, "info", e)] ∧ stopped = false) ∨
  (∃ d e, allow = true ∧ l = [(socket_of s port, "info", ControlData d); (socket_of s port, "stop", e)] ∧
     info_name (trim d) = Some (VStr (ds_name s)) ∧ stopped = agreed e).

Lemma resolveRunning_deals socket : deals (resolveRunningServer socket) (λ l m r, l = [] ∧ ∃ known, r = Ok known ∧
  ((m = [] ∧ known = None) ∨ ∃ e, m = [(socket, "info", e)] ∧
     ∀ name, known = Some name → ∃ d, e = ControlData d ∧ info_name (trim d) = Some name)).
Proof.
  apply deals_bind, deals_exists. intros []; cbn [negb].
  2:{ split; [done|]. exists None. eauto. }
  apply deals_bind, deals_control. intros e. split; [done|]. eexists. split; [reflexivity|]. right. exists e. split; [done|].
  intros name. destruct e as [d| |]; try done. destruct (str_truthy (trim d)); [|done]. intros E. by exists d.
Qed.

Lemma replace_deals s allow port socket known : deals (replace_known s allow port socket known) (λ l m r, l = [] ∧ ∃ stopped, r = Ok stopped ∧
  ((m = [] ∧ stopped = false) ∨
   ∃ e, allow = true ∧ known = Some (VStr (ds_name s)) ∧ m = [(socket, "stop", e)] ∧ stopped = agreed e)).
Proof.
  unfold replace_known. destruct known as [name|]; [|split; [done|]; eauto 10].
  apply deals_bind, deals_log. set (same := match name with VStr n => _ | _ => _ end).
  assert (Hsame : same = true → name = VStr (ds_name s)).
  { subst same. destruct name; try done. by intros ->%String.eqb_eq. }
  destruct (allow && same) eqn:Ea; [|split; [done|]; eauto 10]. apply andb_prop in Ea as [-> ->%Hsame].
  apply deals_bind, deals_control. intros e.
  destruct e as [d| |]; [destruct (str_truthy (trim d) && starts_with "ok" (trim d)) eqn:Ed|..];
    [split; [done|]|apply deals_bind, deals_log; split; [done|]..]; eexists; (split; [reflexivity|]); right; eexists;
    (split_and!; [done..|]); cbn; by rewrite ?Ed.
Qed.

Lemma asked_turn s allow port m1 m2 known stopped :
  ((m1 = [] ∧ known = None) ∨ ∃ e, m1 = [(socket_of s port, "info", e)] ∧
     ∀ name, known = Some name → ∃ d, e = ControlData d ∧ info_name (trim d) = Some name) →
  ((m2 = [] ∧ stopped = false) ∨
   ∃ e, allow = true ∧ known = Some (VStr (ds_name s)) ∧ m2 = [(socket_of s port, "stop", e)] ∧ stopped = agreed e) →
  asked s allow port (m1 ++ m2) stopped.
Proof.
  intros [[-> ->]|(e & -> & Hk)] [[-> ->]|(e' & -> & Hn & -> & ->)]; try done.
  - by left.
  - right; left. by exists e.
  - destruct (Hk _ Hn) as (d & -> & Hd). right; right. by exists d, e'.
Qed.

(** ** The ports in order *)

Definition in_use (start : Z) (es : list serve_error) : list (Z * (served + serve_error)) :=
  imap (λ i e, (start + Z.of_nat i, inr e)) es.

Lemma in_use_cons start e es : in_use start (e :: es) = (start, inr e) :: in_use (start + 1) es.
Proof.
  unfold in_use. cbn [imap]. rewrite Z.add_0_r. f_equal. apply imap_ext. intros i e' _. cbn. f_equal. lia.
Qed.

(** The end of the search, [i] ports after the first one. *)
Definition search_end (s : dev_setup) (start first : Z) (i : nat) (rest : list (Z * (served + serve_error))) (replaced : bool)
    (r : result start_result) : Prop :=
  let port := first + Z.of_nat i in
  (∃ server, port <= MAX_PORT ∧ rest = [(port, inl server)] ∧
     r = Ok {| st_server := server; st_replacedExisting := replaced; st_controlSocket := socket_of s port |}) ∨
  (∃ e, port <= MAX_PORT ∧ isAddressInUse e = false ∧ rest = [(port, inr e)] ∧ r = Err (JsError (se_message e ?: ""))) ∨
  (MAX_PORT < port ∧ rest = [] ∧ r = Err (JsError ("No available port found starting from " +:+ pretty start))).

Definition search (s : dev_setup) (allow : bool) (start first : Z) (replaced : bool)
    (l : list (Z * (served + serve_error))) (m : list (string * string * control_event)) (r : result start_result) : Prop :=
  ∃ es rest (turns : list (list (string * string * control_event) * bool)),
    l = in_use first es ++ rest ∧ Forall (λ e, isAddressInUse e = true) es ∧ length turns = length l ∧
    m = concat (map fst turns) ∧
    (∀ i t, turns !! i = Some t → asked s allow (first + Z.of_nat i) t.1 t.2) ∧
    search_end s start first (length es) rest (replaced || existsb snd turns) r.

Lemma search_next s allow start first replaced t b e l m r : asked s allow first t b → isAddressInUse e = true →
  search s allow start (first + 1) (replaced || b) l m r →
  search s allow start first replaced ((first, inr e) :: l) (t ++ m) r.
Proof.
  intros Ht He (es & rest & turns & -> & Hes & Hlen & -> & Hturns & Hend).
  exists (e :: es), rest, ((t, b) :: turns). rewrite in_use_cons. split_and!; [done|by constructor|cbn; by rewrite Hlen|done| |].
  - intros [|i] u; cbn; [intros [= <-]; by rewrite Z.add_0_r|]. intros Hu. specialize (Hturns i u Hu).
    by replace (first + Z.of_nat (S i)) with (first + 1 + Z.of_nat i) by lia.
  - cbn [length existsb snd]. rewrite orb_assoc. unfold search_end in *.
    by replace (first + Z.of_nat (S (length es))) with (first + 1 + Z.of_nat (length es)) by lia.
Qed.

Lemma search_stop s allow start first replaced t b l r : asked s allow first t b → length l = 1%nat →
  search_end s start first 0 l (replaced || b) r → search s allow start first replaced l t r.
Proof.
  intros Ht Hl Hend. exists [], l, [(t, b)]. split_and!; [done|by constructor|by rewrite Hl|cbn; by rewrite app_nil_r| |].
  - intros [|i] u; cbn; [intros [= <-]; by rewrite Z.add_0_r|by destruct i].
  - cbn. by rewrite orb_false_r.
Qed.

Lemma try_ports_deals s allow start turns port replaced : turns = Z.to_nat (MAX_PORT + 1 - port) →
  deals (try_ports s allow start turns port replaced) (search s allow start port replaced).
Proof.
  revert port replaced. induction turns as [|turns IH]; intros port replaced Ht; cbn [try_ports].
  - exists [], [], []. split_and!; try done. right; right. change (Z.of_nat (length [])) with 0.
    rewrite Z.add_0_r. split_and!; [lia|done..].
  - apply deals_bind. eapply deals_mono, resolveRunning_deals. intros l m ? (-> & known & -> & Hm).
    apply deals_bind. eapply deals_mono, replace_deals. intros l m' ? (-> & stopped & -> & Hm').
    pose proof (asked_turn s allow port m m' known stopped Hm Hm') as Ha.
    apply deals_bind, deals_serve. intros [server|e]; cbn [app].
    + apply deals_ret. rewrite app_nil_r. apply (search_stop _ _ _ _ _ _ stopped); [done..|]. left. exists server.
      change (Z.of_nat 0) with 0. rewrite Z.add_0_r. split_and!; [lia|done..].
    + destruct (isAddressInUse e) eqn:Ee.
      * apply deals_bind. assert (Hrest : deals (try_ports s allow start turns (port + 1) (replaced || stopped))
          (λ l' m'', search s allow start port replaced ((port, inr e) :: l') (m ++ m' ++ m''))).
        { eapply deals_mono; [|apply IH; lia]. intros l' m'' r Hs. rewrite app_assoc. by eapply search_next. }
        destruct known; [apply deals_ret|apply deals_log]; exact Hrest.
      * apply deals_throw. rewrite app_nil_r. apply (search_stop _ _ _ _ _ _ stopped); [done..|]. right; left. exists e.
        change (Z.of_nat 0) with 0. rewrite Z.add_0_r. split_and!; [lia|done..].
Qed.

(** The search for a port (serve-with-control.ts, [startServerWithAwareness]) always ends: it binds the ports from the
    given one on, each once and in order, as long as they are in use, and never one above 65535; the first free port is
    the result, with the control socket of that port; any other error is thrown, and so is the lack of a free
    port. On the way it sends at most a question and a request to stop to the control socket of each port, the
    request only where restarting is allowed and to a server that has just given the same name, and
    says that a server was replaced exactly if one agreed. *)
Theorem startServer_spec s allow start tr r : runs (startServerWithAwareness s allow start) tr r →
  ∃ es rest (turns : list (list (string * string * control_event) * bool)),
    serves tr = in_use start es ++ rest ∧ Forall (λ e, isAddressInUse e = true) es ∧
    length turns = length (serves tr) ∧ exchanges tr = concat (map fst turns) ∧
    (∀ i t, turns !! i = Some t → asked s allow (start + Z.of_nat i) t.1 t.2) ∧
    let port := start + Z.of_nat (length es) in
    ((∃ server, port <= MAX_PORT ∧ rest = [(port, inl server)] ∧
        r = Ok {| st_server := server; st_replacedExisting := existsb snd turns; st_controlSocket := socket_of s port |}) ∨
     (∃ e, port <= MAX_PORT ∧ isAddressInUse e = false ∧ rest = [(port, inr e)] ∧ r = Err (JsError (se_message e ?: ""))) ∨
     (MAX_PORT < port ∧ rest = [] ∧ r = Err (JsError ("No available port found starting from " +:+ pretty start)))).
Proof.
  intros Hr. eapply deals_runs in Hr; [|by apply try_ports_deals].
  destruct Hr as (es & rest & turns & El & Hes & Hlen & Hm & Hturns & Hend). exists es, rest, turns. by split_and!.
Qed.

(** ** The first port *)

(** The port a variable of the environment means, if it is a port. *)
Definition port_of_text (value : option string) : option Z :=
  match value ≫= nonempty with
  | None => None
  | Some v => match num_Z (str_to_num v) with
              | Some port => if (port <=? 0) || (MAX_PORT <? port) then None else Some port
              | None => None
              end
  end.

Lemma port_of_text_range value port : port_of_text value = Some port → 1 <= port <= 65535.
Proof.
  unfold port_of_text. destruct (value ≫= nonempty) as [v|]; [|done]. destruct (num_Z _) as [q|]; [|done].
  destruct (_ || _) eqn:E; [done|]. intros [= ->]. apply orb_false_iff in E as [E1%Z.leb_gt E2%Z.ltb_ge]. unfold MAX_PORT in E2. lia.
Qed.

Lemma parsePort_runs value label tr r : runs (parsePort value label) tr r → serves tr = [] ∧ r = Ok (port_of_text value).
Proof.
  unfold parsePort, port_of_text. destruct (value ≫= nonempty) as [v|]; [|by intros [-> ->]].
  destruct (num_Z (str_to_num v)) as [port|]; [destruct (_ || _)|];
    (by intros [-> ->]) || (by intros ([] & t & -> & -> & ->)).
Qed.

(** The port a server starts from: the one of its configuration, or the one of PORT, or the default plus
    PORT_OFFSET; an offset that leads beyond the last port is accepted, and then no port is tried at all. *)
Theorem resolveBasePort_spec explicit tr r : runs (resolveBasePort explicit) tr r →
  ∃ env offset, r = Ok (match explicit with
    | Some port => if port =? 0 then port_of_text env ?: DEFAULT_PORT + (port_of_text offset ?: 0) else port
    | None => port_of_text env ?: DEFAULT_PORT + (port_of_text offset ?: 0)
    end) ∧
  ∀ s allow port tr' r', MAX_PORT < port → runs (startServerWithAwareness s allow port) tr' r' → serves tr' = [] ∧ ∃ e, r' = Err e.
Proof.
  intros Hr. assert (Hbeyond : ∀ s allow port tr' r', MAX_PORT < port → runs (startServerWithAwareness s allow port) tr' r' →
    serves tr' = [] ∧ ∃ e, r' = Err e).
  { intros s allow port tr' r' Hp Hs. unfold startServerWithAwareness in Hs.
    replace (Z.to_nat (MAX_PORT + 1 - port)) with 0%nat in Hs by lia. destruct Hs as [-> ->]. eauto. }
  assert (Henv : ∀ tr, runs (let! env := sys (HEnv "PORT") in let! port := parsePort env "PORT" in
      match port with Some port => Ret port | None => let! env := sys (HEnv "PORT_OFFSET") in
        let! offset := parsePort env "PORT_OFFSET" in Ret (DEFAULT_PORT + (offset ?: 0)) end : D Z) tr r →
    ∃ env offset, r = Ok (port_of_text env ?: DEFAULT_PORT + (port_of_text offset ?: 0))).
  { clear. intros tr (env & t1 & -> & Hr)%runs_sys. exists env.
    apply runs_bind in Hr as [(t2 & t3 & port & -> & Hp & Hr)|(e & Hp & _)]; apply parsePort_runs in Hp as [_ Hp]; [|done].
    injection Hp as ->. destruct (port_of_text env) as [port|]; [exists None; by destruct Hr as [-> ->]|].
    apply runs_sys in Hr as (offset & t4 & -> & Hr). exists offset.
    apply runs_bind in Hr as [(t5 & t6 & o & -> & Hp & [-> ->])|(e & Hp & _)]; apply parsePort_runs in Hp as [_ Hp]; [|done].
    by injection Hp as ->. }
  unfold resolveBasePort in Hr. destruct explicit as [port|]; [destruct (port =? 0)|].
  - destruct (Henv _ Hr) as (env & offset & ->). by exists env, offset.
  - destruct Hr as [-> ->]. by exists None, None.
  - destruct (Henv _ Hr) as (env & offset & ->). by exists env, offset.
Qed.

(** ** Taking over *)

(** A block of the control server [a], in the state [sa], answers the message. *)
Definition replies_with (a : dev_setup) (sa : dev) (message reply : string) : Prop :=
  ∃ s' l, adv host_sync (controlCommand a message) sa (Ret reply) s' l.

Lemma info_reply a sa reply : replies_with a sa "info" reply → reply = json_stringify (server_info a sa).
Proof. intros (s' & l & Ha). cbn in Ha. by destruct Ha as ([= ->] & _). Qed.

Lemma stop_reply a sa reply : replies_with a sa "stop" reply → reply = "ok".
Proof. intros (s' & l & q & s1 & l1 & l2 & _ & Ha & _). cbn in Ha. by destruct Ha as ([= ->] & _). Qed.

(** The messages to the control socket reach the server [a] in the state [sa], and its answers come back. *)
Definition wired (a : dev_setup) (sa : dev) (socket : string) (tr : list (event hostE)) : Prop :=
  (∀ b, (socket, b) ∈ existence tr → b = true) ∧
  (∀ message e, (socket, message, e) ∈ exchanges tr → ∃ reply, replies_with a sa message reply ∧ e = ControlData reply).

(** A development server takes over from one of the same name (serve-with-control.ts, both ends of the control
    socket): where the messages of the starting server reach the handler of the running one, its question is
    answered with the name and the port, its request to stop with [ok], and if the port is then free, it is bound at
    once and the new server says that it replaced the old one. *)
Theorem takeover a b sa port tr r :
  ds_name b = ds_name a → port <= MAX_PORT → (dv_server sa ≫= sd_port) = Some port →
  json_parse (trim (json_stringify (server_info a sa))) = Some (server_info a sa) →
  runs (startServerWithAwareness b true port) tr r → wired a sa (socket_of b port) tr →
  (∀ x, (port, x) ∈ serves tr → ∃ server, x = inl server) →
  ∃ server, r = Ok {| st_server := server; st_replacedExisting := true; st_controlSocket := socket_of b port |} ∧
    serves tr = [(port, inl server)] ∧
    exchanges tr = [(socket_of b port, "info", ControlData (json_stringify (server_info a sa)));
                    (socket_of b port, "stop", ControlData "ok")].
Proof.
  intros Hname Hport Hsa Hjson Hr [Hexists Hcontrol] Hserve. unfold startServerWithAwareness in Hr.
  destruct (Z.to_nat (MAX_PORT + 1 - port)) as [|turns] eqn:Et; [lia|]. clear Et. cbn [try_ports] in Hr.
  change (createControlPaths (ds_root b) (ds_shortName b) port (ds_override b)) with (socket_of b port) in Hr.
  set (socket := socket_of b port) in *. unfold resolveRunningServer in Hr.
  destruct Hr as (here & t1 & -> & Hr). assert (here = true) as -> by (apply Hexists; cbn; left). cbn [negb bind sys] in Hr.
  destruct Hr as (e1 & t2 & -> & Hr).
  destruct (Hcontrol "info" e1 ltac:(cbn; left)) as (reply & ->%info_reply & ->). cbn [bind] in Hr.
  assert (Hinfo : info_name (trim (json_stringify (server_info a sa))) = Some (VStr (ds_name b))).
  { unfold info_name. rewrite Hjson, Hname. unfold server_info. by rewrite Hsa. }
  assert (Htrue : str_truthy (trim (json_stringify (server_info a sa))) = true).
  { destruct (trim _); [discriminate Hjson|done]. }
  rewrite Htrue, Hinfo in Hr. cbn [replace_known bind] in Hr. rewrite String.eqb_refl in Hr. cbn [andb] in Hr.
  destruct Hr as ([] & t3 & -> & e2 & t4 & -> & Hr).
  destruct (Hcontrol "stop" e2 ltac:(cbn; right; left)) as (reply & ->%stop_reply & ->). cbn in Hr.
  destruct Hr as (x & t5 & -> & Hr). destruct (Hserve x ltac:(cbn; left)) as [server ->]. cbn in Hr. destruct Hr as [-> ->].
  by exists server.
Qed.

(** ** The control socket *)

Definition removal_of (ev : event hostE) : list string :=
  match ev with Ev e x => match e with HRemove path => [path] | _ => [] end end.

Definition removals (tr : list (event hostE)) : list string := flat_map removal_of tr.

Definition no_answer (e : control_event) : Prop := match e with ControlData d => trim d = "" | _ => True end.

(** The file of a control socket is removed only where it is there and no server answers on it; where one
    answers, it is left, and listening on it is tried all the same. *)
Theorem listenControlServer_spec socket tr r : runs (listenControlServer socket) tr r →
  (removals tr = [] ∨ (removals tr = [socket] ∧ ∃ e, exchanges tr = [(socket, "info", e)] ∧ no_answer e)) ∧
  (r = Ok tt → ∃ before, tr = before ++ [Ev (HListen socket) (Ok tt)]).
Proof.
  intros ([[]|e] & t1 & -> & Hr)%runs_sys; [|by destruct Hr as [-> ->]; split; [left|]]. cbn [of_result] in Hr.
  assert (Hlisten : ∀ before t, runs (let! r := sys (HListen socket) in of_result r : D unit) t r →
    (removals before = [] ∨ (removals before = [socket] ∧ ∃ e, exchanges before = [(socket, "info", e)] ∧ no_answer e)) →
    (removals (before ++ t) = [] ∨ (removals (before ++ t) = [socket] ∧ ∃ e, exchanges (before ++ t) = [(socket, "info", e)] ∧ no_answer e)) ∧
    (r = Ok tt → ∃ before', before ++ t = before' ++ [Ev (HListen socket) (Ok tt)])).
  { intros before t (x & t' & -> & Ht)%runs_sys Hb.
    assert (t' = []) as -> by (destruct x as [[]|]; by destruct Ht as [-> _]). split.
    - unfold removals, exchanges. rewrite !flat_map_app. cbn. rewrite !app_nil_r. exact Hb.
    - intros ->. exists before. destruct x as [[]|e]; [done|by destruct Ht as [_ [=]]]. }
  destruct Hr as (here & t2 & -> & Hr). destruct here; cbn in Hr.
  2:{ apply (Hlisten [Ev (HMkdir _) (Ok tt); Ev (HExists socket) false] t2 Hr). by left. }
  destruct Hr as (e & t3 & -> & Hr).
  assert (Hcase : (∃ t4 x, no_answer e ∧ t3 = Ev (HRemove socket) x :: t4 ∧
      runs (bind (of_result x) (λ _, let! r := sys (HListen socket) in of_result r) : D unit) t4 r) ∨
    runs (let! r := sys (HListen socket) in of_result r : D unit) t3 r).
  { destruct e as [d| |]; [destruct (trim d) as [|c d'] eqn:Ed|..]; cbn in Hr; rewrite ?Ed in Hr; [|by right|..];
      destruct Hr as (x & t4 & -> & Hr); left; by exists t4, x. }
  destruct Hcase as [(t4 & x & Hno & -> & Hr')|Hr'].
  - destruct x as [[]|e'].
    + apply (Hlisten [Ev (HMkdir _) (Ok tt); Ev (HExists socket) true; Ev (HControl socket "info") e; Ev (HRemove socket) (Ok tt)] t4 Hr').
      right. split; [done|]. by exists e.
    + destruct Hr' as [-> ->]. split; [|done]. right. split; [done|]. by exists e.
  - apply (Hlisten [Ev (HMkdir _) (Ok tt); Ev (HExists socket) true; Ev (HControl socket "info") e] t3 Hr'). by left.
Qed.

(** ** Concrete runs *)

Definition demo_setup : dev_setup :=
  {| ds_basePort := 3000; ds_root := "/repo"; ds_id := "web-abc123"; ds_name := "@repo/web"; ds_shortName := "web"; ds_override := None |}.

Definition demo_server (n : nat) (port : Z) : served := {| sd_handle := n; sd_port := Some port; sd_url := "http://localhost:3000/" |}.

Definition demo_dev : dev :=
  {| dv_server := Some (demo_server 0 3000); dv_replacedExisting := false; dv_controlSocket := "/repo/.web-3000.sock";
     dv_controlServer := true; dv_cleanup := true |}.

Definition demo_info : string := json_stringify (server_info demo_setup demo_dev).

(** A host with the control socket of port 3000, whose server answers, where the ports below [free] are taken. *)
Definition demo_host (ack : string) (free : Z) (X : Type) (n : nat) (e : hostE X) : X :=
  match e in hostE X return X with
  | HExists p => String.eqb p "/repo/.web-3000.sock"
  | HControl _ message => ControlData (if String.eqb message "info" then demo_info else ack)
  | HServe port => if port <? free then inr {| se_code := Some "EADDRINUSE"; se_message := None |} else inl (demo_server n port)
  | HFileExists p => false
  | HEnv _ => None
  | HCwd => "/repo"
  | HNow => 0
  | HIsTTY => true
  | HLog _ => tt
  | HStat _ => Err (JsError "ENOENT")
  | HTree _ => None
  | HReadText _ => Err (JsError "ENOENT")
  | HWriteText _ _ | HMkdir _ | HRemove _ | HListen _ => Ok tt
  | HBuild _ _ => Ok true
  | HStop _ | HCloseControl | HExit => tt
  | HHealth _ _ => HealthResponse true 200
  end.

Definition demo_run {A} (ack : string) (free : Z) (p : D A) : list (event hostE) * result A :=
  exec {| o_sys := demo_host ack free; o_state := demo_dev; o_await := λ _, Ok tt |} 0 p.

Definition busy_run := demo_run "busy" 3001 (startServerWithAwareness demo_setup true 3000).

(** The server of the same name does not stop, so the next port is taken, under another control socket. *)
Lemma startServer_spec_witness : ∃ turns,
  length turns = 2%nat ∧ exchanges (fst busy_run) = concat (map fst turns) ∧
  asked demo_setup true 3000 (turns !! 0%nat ?: ([], false)).1 (turns !! 0%nat ?: ([], false)).2 ∧
  (st_controlSocket <$> result_opt (snd busy_run)) = Some "/repo/.web-3001.sock".
Proof.
  destruct (startServer_spec demo_setup true 3000 (fst busy_run) (snd busy_run) (exec_runs _ 0 _))
    as (es & rest & turns & _ & _ & Hlen & Hex & Hasked & _).
  assert (Hs : length (serves (fst busy_run)) = 2%nat) by (vm_compute; reflexivity).
  rewrite Hs in Hlen. exists turns. split; [exact Hlen|]. split; [exact Hex|]. split; [|vm_compute; reflexivity].
  destruct turns as [|t turns]; [discriminate Hlen|]. exact (Hasked 0%nat t eq_refl).
Defined.

Definition takeover_run := demo_run "ok" 3000 (startServerWithAwareness demo_setup true 3000).

Lemma demo_replies : replies_with demo_setup demo_dev "info" demo_info ∧ replies_with demo_setup demo_dev "stop" "ok".
Proof.
  split; [by eexists _, []|]. eexists demo_dev, [_]. cbn. eexists _, _, [], []. split_and!; [|done..]. exists tt. by split_and!.
Qed.

Lemma demo_wired : wired demo_setup demo_dev "/repo/.web-3000.sock" (fst takeover_run).
Proof.
  split.
  - assert (E : existence (fst takeover_run) = [("/repo/.web-3000.sock", true)]) by (vm_compute; reflexivity).
    intros b Hb. rewrite E in Hb. by apply list_elem_of_singleton in Hb as [= ->].
  - assert (E : exchanges (fst takeover_run) = [("/repo/.web-3000.sock", "info", ControlData demo_info);
      ("/repo/.web-3000.sock", "stop", ControlData "ok")]) by (vm_compute; reflexivity).
    intros message e Hin. rewrite E in Hin.
    apply elem_of_cons in Hin as [[= -> ->]|[= -> ->]%list_elem_of_singleton]; eexists; (split; [apply demo_replies|done]).
Qed.

Lemma takeover_witness : ∃ server,
  snd takeover_run = Ok {| st_server := server; st_replacedExisting := true; st_controlSocket := "/repo/.web-3000.sock" |}.
Proof.
  destruct (takeover demo_setup demo_setup demo_dev 3000 (fst takeover_run) (snd takeover_run)) as (server & Hr & _).
  - reflexivity.
  - vm_compute. discriminate.
  - reflexivity.
  - vm_compute. reflexivity.
  - apply exec_runs.
  - exact demo_wired.
  - assert (E : serves (fst takeover_run) = [(3000, inl (demo_server 4 3000))]) by (vm_compute; reflexivity).
    intros x Hin. rewrite E in Hin. apply list_elem_of_singleton in Hin as [= ->]. by eexists.
  - exists server. exact Hr.
Defined.

(** Two restarts at the same time: the second one finds the port taken by the server the first one start_result, moves to
    the next port, and the server that nothing refers to any more keeps running. *)
Definition dev_call (free : Z) (q : D unit) (c : @threads dev unit hostE) : @threads dev unit hostE :=
  call_run host_sync (λ X e, demo_host "ok" free X 1 e) q c.
Definition dev_resume (free : Z) (i : nat) (c : @threads dev unit hostE) : @threads dev unit hostE :=
  resume_run host_sync (λ _ _, None) (λ X e, demo_host "ok" free X 2 e) i c.

Definition restart_command : D unit := let! _ := controlCommand demo_setup "restart" in Ret tt.

Definition two_restarts : @threads dev unit hostE :=
  dev_call 3000 restart_command (dev_call 3000 restart_command {| th_state := demo_dev; th_threads := [] |}).

Example restarts_leak :
  let first := dev_resume 3000 1 two_restarts in
  let second := dev_resume 3001 3 first in
  dv_server (th_state first) = Some (demo_server 2 3000) ∧ dv_server (th_state second) = Some (demo_server 2 3001).
Proof. by vm_compute. Qed.
