(* ===== verification/Build.v ===== *)
(** * The build script

    apps/web/build.ts: the flags that become the configuration of the bundler, the check of the output directory that
    is deleted first, and the build. The names a configuration object inherits ([__proto__]) are left out. *)

From S2P Require Export NodePath Eff.

Local Open Scope string_scope.
Local Open Scope Z_scope.
Local Open Scope list_scope.

(** ** Effects *)

(** What the bundler says of one output. *)
Record build_output := { bo_path : string; bo_kind : string; bo_size : num }.

Record table_row := { tr_file : string; tr_type : string; tr_size : string }.

(** [BRemoveTree] is [rm(path, { recursive: true, force: true })]; the path of both is as the flags give it. *)
Inductive buildE : Type → Type :=
| BLog (line : string) : buildE unit
| BWarn (line : string) : buildE unit
| BExists (path : val) : buildE bool
| BRemoveTree (path : val) : buildE (result unit)
| BNow : buildE num
| BGlob (pattern dir : string) : buildE (result (list string))
| BBundle (config : list (string * val)) : buildE (result (list build_output))
| BTable (rows : list table_row) : buildE unit.

Abbreviation B := (prog unit unit buildE).

(** ** Flags *)

(** [str.replace(/-([a-z])/g, (_, letter) => letter.toUpperCase())] *)
Fixpoint toCamelCase (s : string) : string :=
  match s with
  | EmptyString => ""
  | String c s1 =>
      if Ascii.eqb c "-" then
        match s1 with
        | String d s2 => if is_lower d then String (char_upper d) (toCamelCase s2) else String c (toCamelCase s1)
        | EmptyString => "-"
        end
      else String c (toCamelCase s1)
  end.

(** [/^\d+$/] and [/^\d*\.\d+$/] *)
Definition digits (s : string) : bool := str_truthy s && str_all is_digit s.

Definition decimal (s : string) : bool :=
  match split_on "." s with [a; b] => str_all is_digit a && digits b | _ => false end.

Definition parseValue (value : string) : val :=
  if String.eqb value "true" then VBool true
  else if String.eqb value "false" then VBool false
  else if digits value || decimal value then VNum (str_to_num value)
  else if includes "," value then VArr (map (λ v, VStr (trim v)) (split_on "," value))
  else VStr value.

Definition set_key (key : string) (v : val) (config : list (string * val)) : list (string * val) := jset key v config.

(** One value under a key of one or two parts; a warning for more. *)
Definition set_option (key value : string) (config : list (string * val)) : list (string * val) * list string :=
  if includes "." key then
    match split_on "." key with
    | [parentKey; childKey] =>
        let existing := match jget parentKey config with Some (VObj o) => VObj o | _ => VObj [] end in
        (set_key parentKey (set_prop childKey (parseValue value) existing) config, [])
    | _ =>
        (config, ["Warning: Deeply nested option " +:+ quote +:+ key +:+ quote +:+
                  " is not supported. Only single-level nesting (e.g., --minify.whitespace) is allowed."])
    end
  else (set_key key (parseValue value) config, []).

(** [arg.slice(2).split('=', 2)] of a flag with an equals sign: what follows a second one is dropped. *)
Definition key_value (arg : string) : string * string :=
  match split_on "=" (str_drop 2 arg) with
  | key :: value :: _ => (key, value)
  | key :: [] => (key, "")
  | [] => ("", "")
  end.

(** [parseArgs], with the warnings it gives. *)
Fixpoint parseArgs (args : list string) (config : list (string * val)) : list (string * val) * list string :=
  match args with
  | [] => (config, [])
  | arg :: rest =>
      if negb (starts_with "--" arg) then parseArgs rest config
      else if starts_with "--no-" arg then parseArgs rest (set_key (toCamelCase (str_drop 5 arg)) (VBool false) config)
      else if includes "=" arg then
        let '(key, value) := key_value arg in
        let '(config, w) := set_option (toCamelCase key) value config in
        let '(config, ws) := parseArgs rest config in (config, w ++ ws)
      else
        match rest with
        | [] => (set_key (toCamelCase (str_drop 2 arg)) (VBool true) config, [])
        | next :: rest' =>
            if starts_with "--" next then parseArgs rest (set_key (toCamelCase (str_drop 2 arg)) (VBool true) config)
            else
              let '(config, w) := set_option (toCamelCase (str_drop 2 arg)) next config in
              let '(config, ws) := parseArgs rest' config in (config, w ++ ws)
        end
  end.

(** ** Sizes *)

(** The units left, the current one first. *)
Fixpoint size_text (units : list string) (size : num) : string :=
  match units with
  | [] => to_fixed 2 size
  | [unit] => to_fixed 2 size +:+ " " +:+ unit
  | unit :: units =>
      if num_leb (num_of_Z 1024) size then size_text units (num_div size (num_of_Z 1024))
      else to_fixed 2 size +:+ " " +:+ unit
  end.

Definition formatFileSize (bytes : num) : string := size_text ["B"; "KB"; "MB"; "GB"] bytes.

(** ** The output directory *)

Section Build.
(** The working directory, and the plugin the bundler is given. *)
Variable cwd : string.
Variable plugin : val.

Definition build_resolve (p : string) : string := path_resolve cwd [p].

Definition assertSafeOutdir (outdir projectRoot : string) : result unit :=
  let resolved := build_resolve outdir in
  let resolvedRoot := build_resolve projectRoot in
  if negb (str_truthy (trim outdir)) then Err (JsError "Refusing to use empty outdir.")
  else if String.eqb resolved "/" || String.eqb resolved resolvedRoot then
    Err (JsError ("Refusing to delete unsafe outdir: " +:+ resolved))
  else
    let rootWithSep := if ends_with_slash resolvedRoot then resolvedRoot else resolvedRoot +:+ "/" in
    if negb (starts_with rootWithSep resolved) then Err (JsError ("Refusing to delete outdir outside project: " +:+ resolved))
    else Ok tt.

Definition outdir_of (config : list (string * val)) : val :=
  let v := jget "outdir" config ?: VUndef in
  if truthy v then v else VStr (path_join [cwd; "dist"]).

(** [{ ...defaults, ...cliConfig }] *)
Definition bundle_config (entrypoints : list string) (outdir : val) (config : list (string * val)) : list (string * val) :=
  jspread [("entrypoints", VArr (map VStr entrypoints)); ("outdir", outdir); ("plugins", VArr [plugin]); ("minify", VBool true);
           ("target", VStr "browser"); ("sourcemap", VStr "linked");
           ("define", VObj [("process.env.NODE_ENV", VStr (json_string "production"))])] config.

Definition output_row (o : build_output) : table_row :=
  {| tr_file := path_relative cwd cwd (bo_path o); tr_type := bo_kind o; tr_size := formatFileSize (bo_size o) |}.

Definition wants_help (args : list string) : bool := existsb (String.eqb "--help") args || existsb (String.eqb "-h") args.

Variable help_text : string.

(** The script; a build without help ends with the build or throws. *)
Definition build_script (args : list string) : B unit :=
  if wants_help args then sys (BLog help_text)
  else
    sys (BLog (String (chr 10) "🚀 Starting build process..." +:+ String (chr 10) "")) ;;!
    let '(cliConfig, warnings) := parseArgs args [] in
    for_each warnings (λ w, sys (BWarn w)) ;;!
    let outdir := outdir_of cliConfig in
    of_result (assertSafeOutdir (to_str outdir) cwd) ;;!
    let! here := sys (BExists outdir) in
    (if here : bool then
       sys (BLog ("🗑️ Cleaning previous build at " +:+ to_str outdir)) ;;!
       sys_try (BRemoveTree outdir)
     else Ret tt) ;;!
    let! start := sys BNow in
    let! found := sys_try (BGlob "**.html" "src") in
    let entrypoints := List.filter (λ p, negb (includes "node_modules" p)) (map (λ a, path_resolve cwd ["src"; a]) found) in
    sys (BLog ("📄 Found " +:+ pretty (length entrypoints) +:+ " HTML " +:+
               (if Nat.eqb (length entrypoints) 1 then "file" else "files") +:+ " to process" +:+ String (chr 10) "")) ;;!
    let! outputs := sys_try (BBundle (bundle_config entrypoints outdir cliConfig)) in
    let! end_ := sys BNow in
    sys (BTable (map output_row outputs)) ;;!
    sys (BLog (String (chr 10) "✅ Build completed in " +:+ to_fixed 2 (num_sub end_ start) +:+ "ms" +:+ String (chr 10) "")).
End Build.
