(* ===== verification/BuildSpec.v ===== *)
(** * What the build script deletes

    Whatever its flags, the script deletes at most one directory, before it builds, and that lies strictly inside the
    working directory. *)

From S2P Require Export Build.

Local Open Scope string_scope.
Local Open Scope Z_scope.
Local Open Scope list_scope.

(** ** Directories *)

Section Spec.
Variable cwd : string.
Variable plugin : val.
Variable help_text : string.

(** The segments of a path as the script resolves it. *)
Definition resolved_segs (p : string) : list string := norm_segs false (split_on slash (resolve_from cwd [p])).

Lemma build_resolve_segs p : build_resolve cwd p = abs_path (resolved_segs p) ∧ Forall plain_seg (resolved_segs p).
Proof. split; [done|apply norm_segs_plain, split_on_segs]. Qed.

(** The directory [p] is strictly inside the directory [root]. *)
Definition strictly_inside (root p : string) : Prop := ∃ l, l ≠ [] ∧ resolved_segs p = resolved_segs root ++ l.

Lemma abs_path_root l : Forall plain_seg l → ends_with_slash (abs_path l) = match l with [] => true | _ => false end.
Proof.
  intros Hl. destruct l as [|s l]; [done|]. unfold abs_path. revert s Hl. induction l as [|t l IH]; intros s [(Hs & Hne & _) Hl]%Forall_cons.
  - cbn [join]. by rewrite ends_with_slash_app, ends_with_slash_free.
  - change (join "/" (s :: t :: l)) with (s +:+ "/" +:+ join "/" (t :: l)). rewrite <- app_assoc_str.
    rewrite ends_with_slash_app; [by apply IH|done].
Qed.

Lemma assertSafeOutdir_inside outdir root : assertSafeOutdir cwd outdir root = Ok tt → strictly_inside root outdir.
Proof.
  unfold assertSafeOutdir. destruct (negb _); [done|]. destruct (build_resolve_segs outdir) as [-> Ho].
  destruct (build_resolve_segs root) as [-> Hr]. destruct (_ || _) eqn:E; [done|]. rewrite orb_false_iff, !String.eqb_neq in E.
  destruct E as [Hroot Hne]. rewrite abs_path_root by done. unfold strictly_inside. destruct (resolved_segs root) as [|s l] eqn:Es.
  - intros _. exists (resolved_segs outdir). split; [|done]. intros H. by rewrite H in Hroot.
  - rewrite <- Es in *. destruct (starts_with _ _) eqn:Hs; [intros _|done].
    apply starts_with_below in Hs as (t & Ht & E' & _); [by exists t|done|done|by rewrite Es].
Qed.

(** ** Runs *)

(** The deletions of a run. *)
Definition removals (tr : list (event buildE)) : list val :=
  omap (λ ev, match ev with @Ev _ X e x => match e with BRemoveTree p => Some p | _ => None end end) tr.

Lemma removals_app tr1 tr2 : removals (tr1 ++ tr2) = removals tr1 ++ removals tr2.
Proof. apply omap_app. Qed.

Lemma removals_cons ev tr : removals (ev :: tr) = removals [ev] ++ removals tr.
Proof. apply (removals_app [ev]). Qed.

Ltac count := repeat match goal with
  | |- context [removals (_ ++ _)] => rewrite removals_app
  | |- context [removals (?e :: ?t)] => lazymatch t with [] => fail | _ => rewrite (removals_cons e t) end
  | H : removals ?t = _ |- context [removals ?t] => rewrite H
  end; rewrite ?app_nil_l; cbn.

(** Programs that delete nothing. *)
Definition harmless {A} (p : B A) : Prop := wp p (λ tr _, removals tr = []).

Lemma harmless_bind {A C} (p : B A) (f : A → B C) : harmless p → (∀ a, harmless (f a)) → harmless (bind p f).
Proof.
  unfold harmless. rewrite wp_bind. intros Hp Hf. eapply wp_mono, Hp. intros tr [a|e] Htr; [|done].
  eapply wp_mono, Hf. intros tr' r' Htr'. by rewrite removals_app, Htr, Htr'.
Qed.

Lemma harmless_log line : harmless (sys (BLog line)). Proof. done. Qed.

Lemma harmless_warnings l : harmless (for_each l (λ w, sys (BWarn w))).
Proof. induction l as [|w l IH]; [done|]. by apply harmless_bind. Qed.

Lemma harmless_try {X} (e : buildE (result X)) : (∀ x, removals [Ev e x] = []) → harmless (sys_try e).
Proof. intros He x. cbn. specialize (He x). destruct x; cbn in *; by rewrite He. Qed.

Lemma harmless_build outdir config : harmless (
  let! start := sys BNow in
  let! found := sys_try (BGlob "**.html" "src") in
  let entrypoints := List.filter (λ p, negb (includes "node_modules" p)) (map (λ a, path_resolve cwd ["src"; a]) found) in
  sys (BLog ("📄 Found " +:+ pretty (length entrypoints) +:+ " HTML " +:+
             (if Nat.eqb (length entrypoints) 1 then "file" else "files") +:+ " to process" +:+ String (chr 10) "")) ;;!
  let! outputs := sys_try (BBundle (bundle_config plugin entrypoints outdir config)) in
  let! end_ := sys BNow in
  sys (BTable (map (output_row cwd) outputs)) ;;!
  sys (BLog (String (chr 10) "✅ Build completed in " +:+ to_fixed 2 (num_sub end_ start) +:+ "ms" +:+ String (chr 10) ""))).
Proof.
  repeat first [apply harmless_try; done | apply harmless_bind; [|intros ?] | done].
Qed.

(** C39: Whatever the flags and the answers of the system, the script deletes at most one tree, the output directory of
    the flags or [dist], and only one that lies strictly inside the working directory as the script resolves it: never
    the directory itself, one above it or one beside it. *)
Theorem build_deletes_inside args tr r : runs (build_script cwd plugin help_text args) tr r →
  removals tr = [] ∨ (∃ outdir, removals tr = [outdir] ∧ outdir = outdir_of cwd (fst (parseArgs args [])) ∧
                                strictly_inside cwd (to_str outdir)).
Proof.
  revert tr r. apply wp_runs. unfold build_script. destruct (wants_help args); [by left|].
  destruct (parseArgs args []) as [config warnings]. cbn [fst]. apply wp_bind. cbn [wp sys]. intros [].
  rewrite wp_bind. eapply wp_mono, harmless_warnings. intros tr1 [[]|e] H1; [|left; by count].
  rewrite wp_bind. destruct (assertSafeOutdir _ _ _) as [[]|e] eqn:Es; cbn [of_result wp]; [|left; by count].
  apply assertSafeOutdir_inside in Es. intros here. rewrite wp_bind. destruct here; cbn [wp bind].
  - intros [] r. destruct r as [[]|e]; cbn [of_result wp].
    + eapply wp_mono, harmless_build. intros tr2 r2 H2. cbn in H2. right. exists (outdir_of cwd config). by count.
    + right. exists (outdir_of cwd config). by count.
  - eapply wp_mono, harmless_build. intros tr2 r2 H2. cbn in H2. left. by count.
Qed.
End Spec.

(** ** On concrete flags *)

Example parse_flags :
  parseArgs ["--outdir=dist"; "--minify.whitespace"; "true"; "--no-source-map"; "--external=react, react-dom"; "--splitting"] [] =
  ([("outdir", VStr "dist"); ("minify", VObj [("whitespace", VBool true)]); ("sourceMap", VBool false);
    ("external", VArr [VStr "react"; VStr "react-dom"]); ("splitting", VBool true)], []).
Proof. by vm_compute. Qed.

(** What follows a second equals sign is lost, with the rest of a banner or a definition. *)
Example second_equals : fst (parseArgs ["--banner=let a=1"] []) = [("banner", VStr "let a")].
Proof. by vm_compute. Qed.

Example safe_outdirs : let safe d := is_ok (assertSafeOutdir "/app" d "/app") in
  map safe ["dist"; "a/b"; "../app/x"; "."; ""; ".."; "/"; "../app2"; "/app/../etc"; "dist/../.."] =
  [true; true; true; false; false; false; false; false; false; false].
Proof. by vm_compute. Qed.

(** A system where everything is there and succeeds. *)
Definition build_system : oracle unit unit buildE :=
  {| o_sys := λ X n e, match e in buildE X return X with
                       | BLog _ | BWarn _ | BTable _ => tt
                       | BExists _ => true
                       | BRemoveTree _ => Ok tt
                       | BNow => num_of_Z 0
                       | BGlob _ _ => Ok ["index.html"]
                       | BBundle _ => Ok []
                       end;
     o_state := tt; o_await := λ _, Ok tt |}.

Definition build_trace : list (event buildE) := fst (exec build_system 0 (build_script "/app" VNull "" ["--outdir=../app/out"])).

Lemma build_deletes_inside_witness : removals build_trace = [VStr "../app/out"] ∧
  (removals build_trace = [] ∨ ∃ outdir, removals build_trace = [outdir] ∧
    outdir = outdir_of "/app" (fst (parseArgs ["--outdir=../app/out"] [])) ∧ strictly_inside "/app" "/app" (to_str outdir)).
Proof.
  split; [by vm_compute|].
  apply (build_deletes_inside "/app" VNull "" ["--outdir=../app/out"] build_trace
    (snd (exec build_system 0 (build_script "/app" VNull "" ["--outdir=../app/out"])))).
  apply (exec_runs build_system 0).
Defined.
