(* ===== verification/Testkit.v ===== *)
(** * The test kit

    packages/qa/src/testkit: waiting for a condition (time.ts), the output of a child process (process.ts), servers
    under test (server.ts), requests (http.ts) and the files tests leave behind (artifacts.ts). A regular expression is
    one without the flags g and y, whose [test] keeps no state. *)

From S2P Require Export Files.

Local Open Scope string_scope.
Local Open Scope Z_scope.
Local Open Scope list_scope.

(** ** Effects *)

(** A response, with the body that [text()] gives or fails with. *)
Record response := { rs_status : Z; rs_body : result string }.

(** What [Bun.spawn] gives: the process and its output streams, which are there when they are piped. *)
Record spawned := { sp_proc : nat; sp_stdout : option nat; sp_stderr : option nat }.

Record spawn_request := {
  sr_command : list string; sr_cwd : option string; sr_env : option (list (string * string));
  sr_stdin : string; sr_stdout : string; sr_stderr : string }.

(** [TConnect] is the outcome of [createConnection], a connection or an error; [TAddress] the port of the listening
    server, when [address()] gives one; [TOutput] the text collected from a stream and [TDone] the end of it. *)
Inductive testE : Type → Type :=
| TNow : testE Z
| TPerfNow : testE num
| TSleep (ms : Z) : testE unit
| TEnv : testE (list (string * string))
| TConnect (host : string) (port : Z) : testE bool
| TListen (port : Z) (host : string) : testE unit
| TAddress : testE (option Z)
| TCloseServer (wait : bool) : testE unit
| TFetch (url : string) (init : val) : testE (result response)
| TSpawn (request : spawn_request) : testE (result spawned)
| TKill (proc : nat) (signal : option string) : testE unit
| TExited (proc : nat) : testE Z
| TDone (stream : nat) : testE unit
| TOutput (stream : nat) : testE string.

(** The promises of calls that run beside the caller: those made so far, and what they settled with. *)
Record promises (R : Type) := { pr_next : nat; pr_settled : list (nat * result R) }.
Arguments pr_next {R} _.
Arguments pr_settled {R} _.

Abbreviation T := (prog (promises (option response)) (option response) testE).

(** ** time.ts *)

Definition sleep (ms : Z) : T unit := sys (TSleep ms).

Definition isReady (value : val) : bool :=
  match value with VBool false | VUndef | VNull => false | _ => true end.

Definition formatLastError (lastError : option exn) : string :=
  match lastError with Some e => " Last error: " +:+ exn_message e | None => "" end.

Record PollOptions := { po_description : option string; po_intervalMs : option Z; po_timeoutMs : option Z }.

Definition poll_expired (timeoutMs : Z) (description : string) (lastError : option exn) : exn :=
  JsError ("Timed out after " +:+ pretty timeoutMs +:+ "ms waiting for " +:+ description +:+ "." +:+ formatLastError lastError).

Section Poll.
(** The condition, over the variables [V] its closure writes, and its result as a value; [fuel] bounds the attempts,
    [None] is that they are used up. *)
Context {A V : Type} (fn : V → T (result A * V)) (as_val : A → val) (description : string) (intervalMs timeoutMs : Z).

Fixpoint poll (fuel : nat) (start : Z) (lastError : option exn) (vars : V) : T (option A) :=
  match fuel with
  | O => Ret None
  | S fuel =>
      let again lastError vars :=
        let! now := sys TNow in
        if timeoutMs <=? now - start then Throw (poll_expired timeoutMs description lastError)
        else sleep intervalMs ;;! poll fuel start lastError vars in
      let! '(r, vars) := fn vars in
      match r with
      | Ok result => if isReady (as_val result) then Ret (Some result) else again lastError vars
      | Err e => again (Some e) vars
      end
  end.
End Poll.

Definition pollUntil_with {A V} (fuel : nat) (fn : V → T (result A * V)) (vars : V) (as_val : A → val) (o : PollOptions) : T (option A) :=
  let! start := sys TNow in
  poll fn as_val (po_description o ?: "condition") (po_intervalMs o ?: 100) (po_timeoutMs o ?: 5000) fuel start None vars.

(** The outcome of a call, as [try] sees it. *)
Definition tried {A} (p : T A) : T (result A) := catch (let! a := p in Ret (Ok a)) (λ e, Ret (Err e)).

(** For a condition without variables of its own. *)
Definition pollUntil {A} (fuel : nat) (fn : T A) (as_val : A → val) (o : PollOptions) : T (option A) :=
  pollUntil_with fuel (λ _, let! r := tried fn in Ret (r, tt)) tt as_val o.

(** ** server.ts *)

Definition getFreePort (host : string) : T Z :=
  sys (TListen 0 host) ;;!
  let! address := sys TAddress in
  match address with
  | None => sys (TCloseServer false) ;;! Throw (JsError "Unable to resolve free port.")
  | Some port => sys (TCloseServer true) ;;! Ret port
  end.

Definition waitForPort (fuel : nat) (port : Z) (host : option string) (intervalMs timeoutMs : option Z) : T (option bool) :=
  pollUntil fuel (sys (TConnect (host ?: "127.0.0.1") port)) VBool
    {| po_description := Some ("port " +:+ pretty port); po_intervalMs := Some (intervalMs ?: 100);
       po_timeoutMs := Some (timeoutMs ?: 5000) |}.

Definition response_ok (r : response) : bool := (200 <=? rs_status r) && (rs_status r <=? 299).

Definition fetch_ok (url : string) : T response :=
  let! response := sys_try (TFetch url VUndef) in
  if negb (response_ok response) then Throw (JsError ("Request failed with status " +:+ pretty (rs_status response) +:+ "."))
  else Ret response.

Definition waitForUrl (fuel : nat) (url : string) (intervalMs timeoutMs : option Z) : T (option response) :=
  pollUntil fuel (fetch_ok url) (λ _, VObj [])
    {| po_description := Some ("url " +:+ url); po_intervalMs := Some (intervalMs ?: 200);
       po_timeoutMs := Some (timeoutMs ?: 8000) |}.

(** *** process.ts, the processes *)

Record SpawnOptions := {
  so_cwd : option string; so_env : option (list (string * string));
  so_stdin : option string; so_stdout : option string; so_stderr : option string }.

Definition spawnProcess (command : string) (args : list string) (o : SpawnOptions) : T spawned :=
  sys_try (TSpawn {| sr_command := command :: args; sr_cwd := so_cwd o; sr_env := so_env o;
                     sr_stderr := so_stderr o ?: "pipe"; sr_stdin := so_stdin o ?: "ignore"; sr_stdout := so_stdout o ?: "pipe" |}).

Definition stream_done (s : option nat) : T unit := match s with Some s => sys (TDone s) | None => Ret tt end.

Definition stream_text (s : option nat) : T string := match s with Some s => sys (TOutput s) | None => Ret "" end.

Record exit_report := { ex_exitCode : Z; ex_stdout : string; ex_stderr : string }.

Definition waitForExit (p : spawned) : T exit_report :=
  let! exitCode := sys (TExited (sp_proc p)) in
  stream_done (sp_stdout p) ;;!
  stream_done (sp_stderr p) ;;!
  let! stderr := stream_text (sp_stderr p) in
  let! stdout := stream_text (sp_stdout p) in
  Ret {| ex_exitCode := exitCode; ex_stdout := stdout; ex_stderr := stderr |}.

Definition proc_kill (p : spawned) (signal : option string) : T unit := sys (TKill (sp_proc p) signal).

(** The condition of [waitForQuiet] over its variable [last]. *)
Definition is_quiet (stream : nat) (last : string) : T (result bool * string) :=
  let! current := sys (TOutput stream) in Ret (Ok (String.eqb current last), current).

Definition waitForQuiet (fuel : nat) (collector : option nat) (quietMs timeoutMs : option Z) : T (option string) :=
  match collector with
  | None => Ret (Some "")
  | Some s =>
      let! last := sys (TOutput s) in
      let! quiet := pollUntil_with fuel (is_quiet s) last VBool
        {| po_description := Some "quiet output"; po_intervalMs := Some (quietMs ?: 200); po_timeoutMs := Some (timeoutMs ?: 2000) |} in
      match quiet with
      | None => Ret None
      | Some _ => let! text := sys (TOutput s) in Ret (Some text)
      end
  end.

(** *** A server under test *)

Record StartServerOptions := {
  ts_command : string; ts_args : option (list string); ts_cwd : option string; ts_env : option (list (string * string));
  ts_host : option string; ts_port : option Z; ts_readyPath : option string; ts_readyUrl : option string;
  ts_readyTimeoutMs : option Z; ts_stdout : option string; ts_stderr : option string }.

(** [ready] is a promise. *)
Record RunningServer := {
  rv_proc : spawned; rv_host : string; rv_port : Z; rv_baseUrl : string; rv_readyUrl : string; rv_ready : nat }.

(** A call that runs beside the caller: its promise. *)
Definition new_promise : T nat := atom (λ s, ({| pr_next := S (pr_next s); pr_settled := pr_settled s |}, pr_next s)).

Definition settle_promise (pid : nat) (r : result (option response)) : T unit :=
  modify (λ s, {| pr_next := pr_next s; pr_settled := pr_settled s ++ [(pid, r)] |}).

Definition start_call (p : T (option response)) : T nat :=
  let! pid := new_promise in
  fork (let! r := tried p in settle_promise pid r) ;;!
  Ret pid.

Definition startServer (fuel : nat) (o : StartServerOptions) : T RunningServer :=
  let host := ts_host o ?: "127.0.0.1" in
  let! port := match ts_port o with Some port => Ret port | None => getFreePort host end in
  let readyPath := ts_readyPath o ?: "/" in
  let baseUrl := "http://" +:+ host +:+ ":" +:+ pretty port in
  let readyUrl := ts_readyUrl o ?: (baseUrl +:+ readyPath) in
  let! process_env := sys TEnv in
  let env := jset "PORT" (pretty port) (jspread process_env (ts_env o ?: [])) in
  let! proc := spawnProcess (ts_command o) (ts_args o ?: [])
    {| so_cwd := ts_cwd o; so_env := Some env; so_stdin := None; so_stderr := ts_stderr o; so_stdout := ts_stdout o |} in
  let! ready := start_call (waitForUrl fuel readyUrl None (ts_readyTimeoutMs o)) in
  Ret {| rv_baseUrl := baseUrl; rv_host := host; rv_port := port; rv_proc := proc; rv_ready := ready; rv_readyUrl := readyUrl |}.

Definition stop_server (server : RunningServer) : T unit :=
  proc_kill (rv_proc server) (Some "SIGTERM") ;;!
  let! _ := waitForExit (rv_proc server) in Ret tt.

(** [await server.ready; return await fn(server)]; [None] when the attempts of the readiness are used up. *)
Definition use_server {A} (fn : RunningServer → T A) (server : RunningServer) : T (option A) :=
  let! ready := await (rv_ready server) in
  match ready with
  | None => Ret None
  | Some _ => let! a := fn server in Ret (Some a)
  end.

Definition withServer {A} (fuel : nat) (o : StartServerOptions) (fn : RunningServer → T A) : T (option A) :=
  let! server := startServer fuel o in finally (use_server fn server) (stop_server server).

(** ** http.ts *)

Definition fetchText (url : string) (init : val) : T (response * string) :=
  let! response := sys_try (TFetch url init) in
  let! text := of_result (rs_body response) in
  Ret (response, text).

Definition fetchJson (url : string) (init : val) : T (val * response * string) :=
  let! response := sys_try (TFetch url init) in
  let! text := of_result (rs_body response) in
  Ret (json_parse text ?: VUndef, response, text).

Definition expectStatus (response : response) (expected : list Z) : result unit :=
  if negb (existsb (Z.eqb (rs_status response)) expected) then
    Err (JsError ("Expected status " +:+ JsStr.join ", " (map (pretty (A := Z)) expected) +:+ ", got " +:+ pretty (rs_status response)))
  else Ok tt.

Definition timedFetch (url : string) (init : val) : T (num * response) :=
  let! start := sys TPerfNow in
  let! response := sys_try (TFetch url init) in
  let! now := sys TPerfNow in
  Ret (num_sub now start, response).

(** ** process.ts, the output of a process *)

Section Collector.
(** The decoder of the platform: its state, a chunk, and what is left at the end; and regular expressions. *)
Context {D chunk regexp : Type} (decode : D → chunk → D * string) (flush : D → string) (test : regexp → string → bool).

Inductive OutputMatcher : Type := MatchText (s : string) | MatchRegExp (r : regexp).

Definition matchesOutput (output : string) (m : OutputMatcher) : bool :=
  match m with MatchText s => includes s output | MatchRegExp r => test r output end.

(** A waiter with its promise and its timer. *)
Record waiter := { wt_matcher : OutputMatcher; wt_promise : nat; wt_timeoutId : nat }.

(** The variables of a collector, and what the runtime holds for it: the timers that are pending, with the waiter each
    is for, and the promises that are settled. Promises and timers are numbered as they are made. *)
Record collector := {
  cl_buffer : string; cl_decoder : D; cl_done : bool; cl_waiters : list waiter;
  cl_timers : list (nat * (waiter * Z)); cl_settled : list (nat * result string); cl_next : nat }.

(** The first outcome of a promise is the one it keeps. *)
Definition settle_call (promise : nat) (r : result string) (c : collector) : collector :=
  if existsb (λ s, Nat.eqb s.1 promise) (cl_settled c) then c else c <| cl_settled := cl_settled c ++ [(promise, r)] |>.

Definition clearTimeout (id : nat) (c : collector) : collector :=
  c <| cl_timers := List.filter (λ t, negb (Nat.eqb t.1 id)) (cl_timers c) |>.

Definition delete_waiter (w : waiter) (c : collector) : collector :=
  c <| cl_waiters := List.filter (λ v, negb (Nat.eqb (wt_promise v) (wt_promise w))) (cl_waiters c) |>.

Definition resolve_waiter (c : collector) (w : waiter) : collector :=
  if matchesOutput (cl_buffer c) (wt_matcher w) then
    delete_waiter w (settle_call (wt_promise w) (Ok (cl_buffer c)) (clearTimeout (wt_timeoutId w) c))
  else c.

Definition resolveWaiters (c : collector) : collector := foldl resolve_waiter c (cl_waiters c).

Definition stream_ended : exn := JsError "Stream ended before output matched.".

Definition reject_waiter (c : collector) (w : waiter) : collector :=
  settle_call (wt_promise w) (Err stream_ended) (clearTimeout (wt_timeoutId w) c).

Definition rejectWaiters (c : collector) : collector := (foldl reject_waiter c (cl_waiters c)) <| cl_waiters := [] |>.

Definition onChunk (ch : chunk) (c : collector) : collector :=
  let '(d, text) := decode (cl_decoder c) ch in
  resolveWaiters (c <| cl_decoder := d |> <| cl_buffer := cl_buffer c +:+ text |>).

Definition onDone (c : collector) : collector :=
  rejectWaiters (c <| cl_buffer := cl_buffer c +:+ flush (cl_decoder c) |> <| cl_done := true |>).

Definition wait_timeout (ms : Z) : exn := JsError ("Timed out after " +:+ pretty ms +:+ "ms waiting for output.").

(** [waitFor], with its promise. *)
Definition waitFor (m : OutputMatcher) (timeoutMs : option Z) (c : collector) : nat * collector :=
  let promise := cl_next c in
  if matchesOutput (cl_buffer c) m then
    (promise, settle_call promise (Ok (cl_buffer c)) (c <| cl_next := S promise |>))
  else
    let ms := timeoutMs ?: 5000 in
    let w := {| wt_matcher := m; wt_promise := promise; wt_timeoutId := S promise |} in
    (promise, c <| cl_next := S (S promise) |> <| cl_timers := cl_timers c ++ [(S promise, (w, ms))] |>
                <| cl_waiters := cl_waiters c ++ [w] |>).

Definition on_timeout (id : nat) (w : waiter) (ms : Z) (c : collector) : collector :=
  settle_call (wt_promise w) (Err (wait_timeout ms)) (delete_waiter w (clearTimeout id c)).

(** What can happen to a collector: a chunk or the end of its stream, which failed or not; a call of [waitFor]; a timer
    that fires. *)
Inductive collector_event : Type :=
| Chunk (ch : chunk)
| StreamEnd
| WaitFor (m : OutputMatcher) (timeoutMs : option Z)
| Timeout (id : nat).

(** [None] when it cannot: the stream has ended, or no such timer is pending. *)
Definition collector_step (e : collector_event) (c : collector) : option collector :=
  match e with
  | Chunk ch => if cl_done c then None else Some (onChunk ch c)
  | StreamEnd => if cl_done c then None else Some (onDone c)
  | WaitFor m timeoutMs => Some (snd (waitFor m timeoutMs c))
  | Timeout id =>
      match List.find (λ t, Nat.eqb t.1 id) (cl_timers c) with
      | Some (_, (w, ms)) => Some (on_timeout id w ms c)
      | None => None
      end
  end.

Fixpoint collector_run (es : list collector_event) (c : collector) : option collector :=
  match es with
  | [] => Some c
  | e :: es => c' ← collector_step e c; collector_run es c'
  end.

Definition createStreamCollector (decoder : D) : collector :=
  {| cl_buffer := ""; cl_decoder := decoder; cl_done := false; cl_waiters := []; cl_timers := []; cl_settled := []; cl_next := 0 |}.

(** [waitForOutput] and [expectOutput] of a collector that is not there, and the check of what was waited for. *)
Definition no_stream : exn := JsError ("Output stream is not available (did you set stdout/stderr to " +:+ quote +:+ "pipe" +:+ quote +:+ "?)").

Definition waitForOutput (c : option collector) (m : OutputMatcher) (timeoutMs : option Z) : result (nat * collector) :=
  match c with
  | None => Err no_stream
  | Some c => Ok (waitFor m (Some (timeoutMs ?: 5000)) c)
  end.

Definition expect_check (m : OutputMatcher) (r : result string) : result string :=
  let? output := r in
  if negb (matchesOutput output m) then Err (JsError "Expected output was not found.") else Ok output.
End Collector.

(** ** artifacts.ts *)

Definition safe_char (c : ascii) : bool :=
  is_lower c || is_upper c || is_digit c || Ascii.eqb c "." || Ascii.eqb c "_" || Ascii.eqb c "-".

(** Every longest run of characters of [p] becomes one dash; [inside] is that the last character belongs to one. *)
Fixpoint dash_runs (p : ascii → bool) (inside : bool) (s : string) : string :=
  match s with
  | EmptyString => ""
  | String c s => if p c then (if inside then dash_runs p true s else String "-" (dash_runs p true s))
                  else String c (dash_runs p false s)
  end.

Definition safeSegment (input : string) : string :=
  dash_runs (Ascii.eqb "-") false (dash_runs (λ c, negb (safe_char c)) false input).



(** [pkg.workspaces] of a text that is no JSON, or of null, is no workspace either: the error is caught. *)
Definition has_workspaces (raw : string) : bool :=
  match json_parse raw with
  | Some (VNull | VUndef) | None => false
  | Some pkg => truthy (prop "workspaces" pkg)
  end.

Definition hasWorkspaceConfig (dir : string) : F bool :=
  let pkgPath := path_join [dir; "package.json"] in
  let! here := sys (FExists pkgPath) in
  if negb here then Ret false
  else catch (let! raw := sys_try (FRead pkgPath) in Ret (has_workspaces raw)) (λ _, Ret false).

Definition isRepoRoot (dir : string) : F bool :=
  let! lock := sys (FExists (path_join [dir; "bun.lock"])) in
  if lock : bool then Ret true else hasWorkspaceConfig dir.

(** The directories from the start upwards: the first that is a root, or the start as it was given. *)
Fixpoint first_root (dirs : list string) (start : string) : F string :=
  match dirs with
  | [] => Ret start
  | dir :: dirs => let! found := isRepoRoot dir in if found : bool then Ret dir else first_root dirs start
  end.

Definition findRepoRoot (start : string) : F string :=
  let! cwd := sys FCwd in first_root (ancestors (path_resolve cwd [start])) start.

Definition resolveOutputRoot (start : string) : F string :=
  let! root := findRepoRoot start in Ret (path_join [root; "output"]).

Definition artifactDir (type start : string) : F string :=
  let! root := resolveOutputRoot start in
  let dir := path_join [root; safeSegment type] in
  mkdir dir ;;! Ret dir.

Definition artifactPath (type filename start : string) : F string :=
  let! dir := artifactDir type start in Ret (path_join [dir; safeSegment filename]).

(** [start] defaults to the working directory. *)
Definition writeArtifact (type filename contents : string) (start : option string) : F string :=
  let! start := match start with Some s => Ret s | None => sys FCwd end in
  let! filePath := artifactPath type filename start in
  writeFile filePath contents ;;! Ret filePath.

Definition writeJsonArtifact (type filename : string) (data : val) (start : option string) : F string :=
  writeArtifact type filename (json_pretty data +:+ String (chr 10) "") start.

