(* ===== verification/TestkitSpec.v ===== *)
(** * What the test kit guarantees

    Waiting ends, with the condition or a timeout; the promises of a collector are settled once and with what they wait
    for; a server under test is stopped whatever the test does; an artifact is a file of the output directory, unless
    its names are dots. *)

From S2P Require Export Testkit.

Local Open Scope string_scope.
Local Open Scope Z_scope.
Local Open Scope list_scope.

(** ** The output of a process *)

Section Collector.
Context {D chunk regexp : Type} (decode : D → chunk → D * string) (flush : D → string) (test : regexp → string → bool).

Abbreviation cl := (@collector D regexp).
Abbreviation wt := (@waiter regexp).
Abbreviation matches := (matchesOutput test).

(** The calls that wait, oldest first, with their time. *)
Record waiting (c : cl) (pend : list (wt * Z)) : Prop := {
  wa_waiters : cl_waiters c = pend.*1;
  wa_timers : cl_timers c = (λ q, (wt_timeoutId q.1, q)) <$> pend;
  wa_ids : Forall (λ q, wt_timeoutId q.1 = S (wt_promise q.1)) pend;
  wa_nodup : NoDup ((λ q, wt_promise q.1) <$> pend) }.

Lemma filter_out {A} (key : A → nat) l1 x l2 : NoDup (key <$> l1 ++ x :: l2) →
  List.filter (λ v, negb (Nat.eqb (key v) (key x))) (l1 ++ x :: l2) = l1 ++ l2.
Proof.
  intros Hn. rewrite fmap_app, fmap_cons in Hn. apply NoDup_app in Hn as (_ & Hx & [Hx2 _]%NoDup_cons).
  assert (Hkeep : ∀ l, key x ∉ key <$> l → List.filter (λ v, negb (Nat.eqb (key v) (key x))) l = l).
  { induction l as [|y l IH]; [done|]. intros Hy. cbn [List.filter]. rewrite fmap_cons, not_elem_of_cons in Hy.
    destruct Hy as [Hy Hl]. assert (Nat.eqb (key y) (key x) = false) as -> by (apply Nat.eqb_neq; congruence). cbn.
    by rewrite IH. }
  rewrite List.filter_app. cbn [List.filter]. rewrite Nat.eqb_refl. cbn [negb]. rewrite !Hkeep; [done|done|].
  intros Hin. apply (Hx (key x)); [done|]. by left.
Qed.

Lemma waiting_remove c l1 q l2 : waiting c (l1 ++ q :: l2) → waiting (delete_waiter q.1 (clearTimeout (wt_timeoutId q.1) c)) (l1 ++ l2).
Proof.
  intros [Hw Ht Hi Hn]. assert (Hsub : sublist (l1 ++ l2) (l1 ++ q :: l2)) by (apply sublist_app; [done|by constructor]).
  split; cbn.
  - rewrite Hw, fmap_app, fmap_cons. rewrite (filter_out wt_promise).
    + by rewrite fmap_app.
    + rewrite <- (fmap_cons fst), <- fmap_app, <- list_fmap_compose. exact Hn.
  - rewrite Ht, fmap_app, fmap_cons. rewrite (filter_out fst _ (wt_timeoutId q.1, q)).
    + by rewrite fmap_app.
    + rewrite <- (fmap_cons (λ q, (wt_timeoutId q.1, q))), <- fmap_app, <- list_fmap_compose.
      erewrite list_fmap_ext with (g := S ∘ (λ q, wt_promise q.1)).
      * rewrite list_fmap_compose. by apply NoDup_fmap_2; [apply _|].
      * intros i x Hx. apply list_elem_of_lookup_2 in Hx. cbn. by rewrite Forall_forall in Hi; apply Hi.
  - rewrite Forall_app, Forall_cons in Hi. rewrite Forall_app. naive_solver.
  - eapply sublist_NoDup; [exact Hn|]. by apply fmap_sublist.
Qed.

(** The promises given out, with what each waits for: each is settled once or waits with its timer, and what it is
    settled with matches. *)
Record collector_ok (calls : list (nat * @OutputMatcher regexp)) (c : cl) (pend : list (wt * Z)) : Prop := {
  ok_waiting : waiting c pend;
  ok_calls : calls.*1 ≡ₚ (cl_settled c).*1 ++ ((λ q, wt_promise q.1) <$> pend);
  ok_once : NoDup calls.*1;
  ok_fresh : Forall (λ p, (p < cl_next c)%nat) calls.*1;
  ok_pend : Forall (λ q, (wt_promise q.1, wt_matcher q.1) ∈ calls) pend;
  ok_settled : ∀ p text, (p, Ok text) ∈ cl_settled c →
    ∃ m rest, (p, m) ∈ calls ∧ matches text m = true ∧ cl_buffer c = text +:+ rest }.

Lemma collector_not_settled calls c pend p : collector_ok calls c pend → p ∈ (λ q : wt * Z, wt_promise q.1) <$> pend →
  existsb (λ s, Nat.eqb s.1 p) (cl_settled c) = false.
Proof.
  intros Hok Hp. apply not_true_is_false. intros ([q r] & Hin & E%Nat.eqb_eq)%existsb_exists. cbn in E. subst q.
  pose proof (ok_once _ _ _ Hok) as Hn. rewrite (ok_calls _ _ _ Hok) in Hn. apply NoDup_app in Hn as (_ & Hd & _).
  apply (Hd p); [|done]. apply list_elem_of_fmap. exists (p, r). split; [done|]. by apply list_elem_of_In.
Qed.

(** The outcome of one waiter. *)
Definition settled_waiter (w : wt) (r : result string) (c : cl) : cl :=
  delete_waiter w (settle_call (wt_promise w) r (clearTimeout (wt_timeoutId w) c)).

Lemma settled_waiter_same w r c : let c' := settled_waiter w r c in
  cl_buffer c' = cl_buffer c ∧ cl_done c' = cl_done c ∧ cl_decoder c' = cl_decoder c ∧ cl_next c' = cl_next c.
Proof. unfold settled_waiter, settle_call. cbn. by destruct (existsb _ _). Qed.

Lemma settle_pending calls c l1 q l2 r : collector_ok calls c (l1 ++ q :: l2) →
  (∀ text, r = Ok text → matches text (wt_matcher q.1) = true ∧ ∃ rest, cl_buffer c = text +:+ rest) →
  cl_settled (settled_waiter q.1 r c) = cl_settled c ++ [(wt_promise q.1, r)] ∧
  collector_ok calls (settled_waiter q.1 r c) (l1 ++ l2).
Proof.
  intros Hok Hr. assert (Hq : q ∈ l1 ++ q :: l2) by set_solver. unfold settled_waiter, settle_call.
  assert (Hnot : existsb (λ s, Nat.eqb s.1 (wt_promise q.1)) (cl_settled c) = false).
  { apply (collector_not_settled _ _ _ _ Hok). apply list_elem_of_fmap. by exists q. }
  change (cl_settled (clearTimeout (wt_timeoutId q.1) c)) with (cl_settled c). rewrite Hnot. split; [done|]. destruct Hok as [Hw Hc Ho Hf Hp Hok].
  assert (Hqc : (wt_promise q.1, wt_matcher q.1) ∈ calls) by (by rewrite Forall_forall in Hp; apply Hp).
  pose proof (waiting_remove c l1 q l2 Hw) as [H1 H2 H3 H4]. split; cbn.
  - by split.
  - rewrite Hc, !fmap_app, fmap_cons. cbn. solve_Permutation.
  - done.
  - done.
  - rewrite Forall_app, Forall_cons in Hp. rewrite Forall_app. naive_solver.
  - intros p text [H|[= -> <-]%list_elem_of_singleton]%elem_of_app; [by apply Hok|].
    destruct (Hr text eq_refl) as [Hm [rest Hrest]]. by exists (wt_matcher q.1), rest.
Qed.

(** The loop over the waiters when the output has grown. *)
Lemma resolve_loop calls rest : ∀ kept c, collector_ok calls c (kept ++ rest) →
  let c' := foldl (resolve_waiter test) c rest.*1 in
  collector_ok calls c' (kept ++ List.filter (λ q, negb (matches (cl_buffer c) (wt_matcher q.1))) rest) ∧
  cl_buffer c' = cl_buffer c ∧ cl_done c' = cl_done c ∧ cl_decoder c' = cl_decoder c ∧ cl_next c' = cl_next c ∧
  cl_settled c' = cl_settled c ++ ((λ q, (wt_promise q.1, Ok (cl_buffer c))) <$> List.filter (λ q, matches (cl_buffer c) (wt_matcher q.1)) rest).
Proof.
  induction rest as [|q rest IH]; intros kept c Hok; [cbn; by rewrite (app_nil_r (cl_settled c))|]. rewrite fmap_cons. cbn [foldl List.filter].
  unfold resolve_waiter at 2 4 6 8 10 12. destruct (matches (cl_buffer c) (wt_matcher q.1)) eqn:Hm; cbn [negb].
  - destruct (settle_pending calls c kept q rest (Ok (cl_buffer c)) Hok) as [Hs Hok'].
    { intros text [= <-]. split; [done|]. exists "". by rewrite app_empty. }
    destruct (settled_waiter_same q.1 (Ok (cl_buffer c)) c) as (E1 & E2 & E3 & E4).
    destruct (IH kept _ Hok') as (H1 & H2 & H3 & H4 & H5 & H6). rewrite E1 in *. fold (settled_waiter q.1 (Ok (cl_buffer c)) c).
    split_and!; [done|congruence..|]. by rewrite H6, fmap_cons, Hs, <- app_assoc.
  - rewrite (cons_middle q), app_assoc in Hok. destruct (IH _ _ Hok) as (H1 & H2). by rewrite <- app_assoc in H1.
Qed.

Lemma reject_one calls c q rest : collector_ok calls (c <| cl_waiters := (q :: rest).*1 |>) (q :: rest) →
  collector_ok calls ((reject_waiter c q.1) <| cl_waiters := rest.*1 |>) rest ∧
  cl_settled (reject_waiter c q.1) = cl_settled c ++ [(wt_promise q.1, Err stream_ended)] ∧
  cl_buffer (reject_waiter c q.1) = cl_buffer c ∧ cl_done (reject_waiter c q.1) = cl_done c ∧ cl_next (reject_waiter c q.1) = cl_next c.
Proof.
  intros Hok. destruct (settle_pending calls _ [] q rest (Err stream_ended) Hok) as [Hs Hok']; [done|]. cbn [app] in Hok'.
  assert (E : settled_waiter q.1 (Err stream_ended) (c <| cl_waiters := (q :: rest).*1 |>) = (reject_waiter c q.1) <| cl_waiters := rest.*1 |>).
  { pose proof (wa_waiters _ _ (ok_waiting _ _ _ Hok')) as Hw.
    assert (Hf : cl_waiters (delete_waiter q.1 (c <| cl_waiters := (q :: rest).*1 |>)) = rest.*1).
    { rewrite <- Hw. unfold settled_waiter, settle_call. by destruct (existsb _ _). }
    clear Hs Hok' Hw. destruct c as [b d dn ws ts ss n]. rewrite <- Hf. unfold settled_waiter, reject_waiter, settle_call. cbn.
    by destruct (existsb _ ss). }
  rewrite E in *. split; [done|]. split; [exact Hs|]. unfold reject_waiter, settle_call. cbn. by destruct (existsb _ _).
Qed.

Lemma reject_loop calls rest : ∀ c, collector_ok calls (c <| cl_waiters := rest.*1 |>) rest →
  let c' := (foldl reject_waiter c rest.*1) <| cl_waiters := [] |> in
  collector_ok calls c' [] ∧ cl_buffer c' = cl_buffer c ∧ cl_done c' = cl_done c ∧ cl_next c' = cl_next c ∧
  cl_settled c' = cl_settled c ++ ((λ q, (wt_promise q.1, Err stream_ended)) <$> rest).
Proof.
  induction rest as [|q rest IH]; intros c Hok; [cbn; by rewrite app_nil_r|]. rewrite fmap_cons. cbn [foldl].
  destruct (reject_one calls c q rest Hok) as (Hok' & Hs & H2 & H3 & H4). destruct (IH _ Hok') as (H5 & H6 & H7 & H8 & H9).
  split_and!; [done|congruence..|]. by rewrite H9, Hs, fmap_cons, <- app_assoc.
Qed.

(** The promises that the calls of a run give out, with what they wait for. *)
Definition calls_of (e : @collector_event chunk regexp) (c : cl) : list (nat * @OutputMatcher regexp) :=
  match e with WaitFor m _ => [(cl_next c, m)] | _ => [] end.

Fixpoint issued (es : list (@collector_event chunk regexp)) (c : cl) : list (nat * @OutputMatcher regexp) :=
  match es with
  | [] => []
  | e :: es => calls_of e c ++ match collector_step decode flush test e c with Some c' => issued es c' | None => [] end
  end.

(** What waits is not yet there; the end leaves nothing waiting that waited. *)
Definition unmatched (c : cl) : Prop := Forall (λ w, matches (cl_buffer c) (wt_matcher w) = false) (cl_waiters c).

(** More output keeps what is settled. *)
Lemma collector_ok_grow calls c c' pend more : collector_ok calls c pend → cl_buffer c' = cl_buffer c +:+ more →
  cl_waiters c' = cl_waiters c → cl_timers c' = cl_timers c → cl_settled c' = cl_settled c → cl_next c' = cl_next c →
  collector_ok calls c' pend.
Proof.
  intros [[? ? ? ?] ? ? ? ? Hs] Hb Hw Ht Hse Hn. split; rewrite ?Hse, ?Hn; try done; [by split; rewrite ?Hw, ?Ht|].
  intros p text Hin. destruct (Hs p text Hin) as (m & rest & ? & ? & E). exists m, (rest +:+ more). split_and!; [done..|].
  by rewrite Hb, E, app_assoc_str.
Qed.

Lemma waitFor_ok calls c pend m timeoutMs : collector_ok calls c pend → unmatched c →
  ∃ pend', collector_ok (calls ++ [(cl_next c, m)]) (snd (waitFor test m timeoutMs c)) pend' ∧ unmatched (snd (waitFor test m timeoutMs c)).
Proof.
  intros Hok Hu. assert (Hok' := Hok). destruct Hok' as [[Hw Ht Hi Hn] Hc Ho Hf Hp Hs].
  assert (Hnew : cl_next c ∉ calls.*1). { intros Hin. rewrite Forall_forall in Hf. specialize (Hf _ Hin). lia. }
  assert (Honce : NoDup (calls ++ [(cl_next c, m)]).*1).
  { rewrite fmap_app. apply NoDup_app. split_and!; [done| |apply NoDup_singleton].
    intros x Hx ->%list_elem_of_singleton. done. }
  assert (Hfresh : ∀ n, (cl_next c < n)%nat → Forall (λ p, (p < n)%nat) (calls ++ [(cl_next c, m)]).*1).
  { intros n Hlt. rewrite fmap_app, Forall_app. split; [|by repeat constructor]. eapply Forall_impl; [exact Hf|]. cbn. lia. }
  assert (Hpend : Forall (λ q : wt * Z, (wt_promise q.1, wt_matcher q.1) ∈ calls ++ [(cl_next c, m)]) pend).
  { eapply Forall_impl; [exact Hp|]. set_solver. }
  assert (Hkeep : ∀ p text, (p, Ok text) ∈ cl_settled c → ∃ m' rest, (p, m') ∈ calls ++ [(cl_next c, m)] ∧ matches text m' = true ∧ cl_buffer c = text +:+ rest).
  { intros p text Hin. destruct (Hs p text Hin) as (m' & rest & ? & ?). exists m', rest. set_solver. }
  unfold waitFor. destruct (matchesOutput test (cl_buffer c) m) eqn:Hm; cbn [snd].
  - assert (Hnot : existsb (λ s, Nat.eqb s.1 (cl_next c)) (cl_settled c) = false).
    { apply not_true_is_false. intros ([q r] & Hin & E%Nat.eqb_eq)%existsb_exists. cbn in E. subst q. apply Hnew. rewrite Hc.
      apply elem_of_app. left. apply list_elem_of_fmap. exists (cl_next c, r). split; [done|]. by apply list_elem_of_In. }
    exists pend. unfold settle_call.
    change (cl_settled (c <| cl_next := S (cl_next c) |>)) with (cl_settled c). rewrite Hnot. split; [|done]. split; cbn.
    + by split.
    + rewrite !fmap_app, Hc. cbn. solve_Permutation.
    + exact Honce.
    + apply Hfresh. cbn. lia.
    + exact Hpend.
    + intros p text [H|[= -> ->]%list_elem_of_singleton]%elem_of_app; [by apply Hkeep|]. exists m, "".
      rewrite app_empty. set_solver.
  - eexists (pend ++ [({| wt_matcher := m; wt_promise := cl_next c; wt_timeoutId := S (cl_next c) |}, timeoutMs ?: 5000)]). split.
    + split; cbn.
      * split; cbn; rewrite ?fmap_app, ?Hw, ?Ht; [done..| |].
        -- rewrite Forall_app. split; [done|]. by repeat constructor.
        -- apply NoDup_app. split_and!; [done| |apply NoDup_singleton]. intros x Hx ->%list_elem_of_singleton. apply Hnew.
           rewrite Hc. apply elem_of_app. by right.
      * rewrite !fmap_app, Hc. cbn. solve_Permutation.
      * exact Honce.
      * apply Hfresh. lia.
      * rewrite Forall_app. split; [done|]. repeat constructor. set_solver.
      * exact Hkeep.
    + unfold unmatched. cbn. rewrite Forall_app. split; [done|]. by repeat constructor.
Qed.

Lemma on_timeout_settled w ms c : on_timeout (wt_timeoutId w) w ms c = settled_waiter w (Err (wait_timeout ms)) c.
Proof. unfold on_timeout, settled_waiter, settle_call. cbn. by destruct (existsb _ _). Qed.

Lemma chunk_ok calls c pend ch : collector_ok calls c pend → ∃ pend', collector_ok calls (onChunk decode test ch c) pend' ∧ unmatched (onChunk decode test ch c).
Proof.
  intros Hok. unfold onChunk. destruct (decode (cl_decoder c) ch) as [d text].
  set (c1 := c <| cl_decoder := d |> <| cl_buffer := cl_buffer c +:+ text |>).
  assert (Hok1 : collector_ok calls c1 ([] ++ pend)) by by eapply (collector_ok_grow _ c c1).
  unfold resolveWaiters. rewrite (wa_waiters _ _ (ok_waiting _ _ _ Hok1)). cbn [app].
  destruct (resolve_loop calls pend [] c1 Hok1) as (H1 & H2 & _). eexists. split; [exact H1|]. unfold unmatched.
  rewrite (wa_waiters _ _ (ok_waiting _ _ _ H1)), H2. apply Forall_fmap, Forall_forall. intros q Hq.
  apply list_elem_of_In, filter_In in Hq as [_ Hq%negb_true_iff]. exact Hq.
Qed.

Lemma done_ok calls c pend : collector_ok calls c pend → collector_ok calls (onDone flush c) [].
Proof.
  intros Hok. unfold onDone. set (c1 := c <| cl_buffer := cl_buffer c +:+ flush (cl_decoder c) |> <| cl_done := true |>).
  assert (Hok1 : collector_ok calls c1 pend) by by eapply (collector_ok_grow _ c c1).
  pose proof (wa_waiters _ _ (ok_waiting _ _ _ Hok1)) as Hw. unfold rejectWaiters. rewrite Hw.
  apply (reject_loop calls pend c1). rewrite <- Hw. by eapply (collector_ok_grow _ c1); [done|cbn; by rewrite app_empty|..].
Qed.

Lemma timeout_ok calls c pend id w ms : collector_ok calls c pend → unmatched c →
  List.find (λ t, Nat.eqb t.1 id) (cl_timers c) = Some (id, (w, ms)) →
  ∃ pend', collector_ok calls (on_timeout id w ms c) pend' ∧ unmatched (on_timeout id w ms c).
Proof.
  intros Hok Hu Hf. apply find_some in Hf as [Hin _]. apply list_elem_of_In in Hin.
  rewrite (wa_timers _ _ (ok_waiting _ _ _ Hok)) in Hin. apply list_elem_of_fmap in Hin as ([w' ms'] & [= -> <- <-] & Hin).
  apply list_elem_of_split in Hin as (l1 & l2 & ->). rewrite on_timeout_settled.
  destruct (settle_pending calls c l1 (w, ms) l2 (Err (wait_timeout ms)) Hok) as [_ Hok']; [done|]. cbn [fst] in Hok'.
  exists (l1 ++ l2). split; [done|]. unfold unmatched in *. destruct (settled_waiter_same w (Err (wait_timeout ms)) c) as (-> & _).
  rewrite (wa_waiters _ _ (ok_waiting _ _ _ Hok')). rewrite (wa_waiters _ _ (ok_waiting _ _ _ Hok)) in Hu.
  rewrite fmap_app, fmap_cons, Forall_app, Forall_cons in Hu. rewrite fmap_app, Forall_app. naive_solver.
Qed.

Lemma collector_step_ok e c c' calls pend : collector_ok calls c pend → unmatched c →
  collector_step decode flush test e c = Some c' → ∃ pend', collector_ok (calls ++ calls_of e c) c' pend' ∧ unmatched c'.
Proof.
  intros Hok Hu Hs. destruct e as [ch| |m t|id]; cbn in Hs; cbn [calls_of]; rewrite ?app_nil_r.
  - destruct (cl_done c); [done|]. injection Hs as <-. by eapply chunk_ok.
  - destruct (cl_done c); [done|]. injection Hs as <-. exists []. split; [by eapply done_ok|].
    unfold unmatched. rewrite (wa_waiters _ _ (ok_waiting _ _ _ (done_ok _ _ _ Hok))). constructor.
  - injection Hs as <-. by eapply waitFor_ok.
  - destruct (List.find _ _) as [[id' [w ms]]|] eqn:Hf; [|done]. injection Hs as <-.
    assert (id' = id) as -> by (apply find_some in Hf as [_ E%Nat.eqb_eq]; done). by eapply timeout_ok.
Qed.

Lemma collector_run_ok es : ∀ c c' calls pend, collector_ok calls c pend → unmatched c →
  collector_run decode flush test es c = Some c' → ∃ pend', collector_ok (calls ++ issued es c) c' pend' ∧ unmatched c'.
Proof.
  induction es as [|e es IH]; intros c c' calls pend Hok Hu Hr; cbn [collector_run issued] in *.
  - injection Hr as <-. rewrite app_nil_r. eauto.
  - destruct (collector_step decode flush test e c) as [c1|] eqn:Hs; [|done]. cbn in Hr.
    destruct (collector_step_ok _ _ _ _ _ Hok Hu Hs) as (pend1 & Hok1 & Hu1). rewrite app_assoc. by eapply IH.
Qed.

Lemma collector_start_ok d : collector_ok [] (createStreamCollector d) [] ∧ unmatched (createStreamCollector d).
Proof. split; [|constructor]. split; cbn; try done; [split; cbn; try done; constructor|constructor|by intros ? ? ?%elem_of_nil]. Qed.

(** What each thing that can happen does: output settles the waiters it matches with the whole text, the end of
    the stream rejects all of them, a call is answered at once by the text that is there or else waits with a timer of
    its own, a timer rejects its waiter. *)
Definition step_outcome (e : @collector_event chunk regexp) (c c' : cl) : Prop :=
  match e with
  | Chunk ch =>
      let text := cl_buffer c +:+ snd (decode (cl_decoder c) ch) in
      cl_buffer c' = text ∧
      cl_settled c' = cl_settled c ++ ((λ w, (wt_promise w, Ok text)) <$> List.filter (λ w, matches text (wt_matcher w)) (cl_waiters c)) ∧
      cl_waiters c' = List.filter (λ w, negb (matches text (wt_matcher w))) (cl_waiters c)
  | StreamEnd =>
      cl_buffer c' = cl_buffer c +:+ flush (cl_decoder c) ∧
      cl_settled c' = cl_settled c ++ ((λ w, (wt_promise w, Err stream_ended)) <$> cl_waiters c) ∧ cl_waiters c' = []
  | WaitFor m timeoutMs =>
      cl_buffer c' = cl_buffer c ∧
      if matches (cl_buffer c) m
      then cl_settled c' = cl_settled c ++ [(cl_next c, Ok (cl_buffer c))] ∧ cl_waiters c' = cl_waiters c
      else cl_settled c' = cl_settled c ∧
           ∃ w, wt_matcher w = m ∧ wt_promise w = cl_next c ∧ cl_waiters c' = cl_waiters c ++ [w] ∧
             cl_timers c' = cl_timers c ++ [(wt_timeoutId w, (w, timeoutMs ?: 5000))]
  | Timeout id =>
      cl_buffer c' = cl_buffer c ∧
      ∃ w ms before after, (id, (w, ms)) ∈ cl_timers c ∧ cl_waiters c = before ++ w :: after ∧ cl_waiters c' = before ++ after ∧
        cl_settled c' = cl_settled c ++ [(wt_promise w, Err (wait_timeout ms))]
  end.

Lemma filter_fst {A B} (f : A → bool) (l : list (A * B)) : (List.filter (λ q, f q.1) l).*1 = List.filter f l.*1.
Proof. induction l as [|q l IH]; [done|]. cbn. destruct (f q.1); cbn; by rewrite IH. Qed.

Lemma chunk_outcome calls c pend ch : collector_ok calls c pend → step_outcome (Chunk ch) c (onChunk decode test ch c).
Proof.
  intros Hok. cbn [step_outcome]. unfold onChunk. destruct (decode (cl_decoder c) ch) as [d text]. cbn [snd].
  set (c1 := c <| cl_decoder := d |> <| cl_buffer := cl_buffer c +:+ text |>).
  assert (Hok1 : collector_ok calls c1 ([] ++ pend)) by by eapply (collector_ok_grow _ c c1).
  pose proof (wa_waiters _ _ (ok_waiting _ _ _ Hok)) as Hw.
  unfold resolveWaiters. change (cl_waiters c1) with (cl_waiters c). rewrite Hw.
  destruct (resolve_loop calls pend [] c1 Hok1) as (H1 & H2 & _ & _ & _ & H6). split; [exact H2|].
  rewrite H6, (wa_waiters _ _ (ok_waiting _ _ _ H1)), <- !filter_fst, <- list_fmap_compose. done.
Qed.

Lemma end_outcome calls c pend : collector_ok calls c pend → step_outcome StreamEnd c (onDone flush c).
Proof.
  intros Hok. cbn [step_outcome]. unfold onDone.
  set (c1 := c <| cl_buffer := cl_buffer c +:+ flush (cl_decoder c) |> <| cl_done := true |>).
  assert (Hok1 : collector_ok calls c1 pend) by by eapply (collector_ok_grow _ c c1).
  pose proof (wa_waiters _ _ (ok_waiting _ _ _ Hok1)) as Hw. unfold rejectWaiters. rewrite Hw.
  destruct (reject_loop calls pend c1) as (_ & H2 & _ & _ & H5).
  { rewrite <- Hw. by eapply (collector_ok_grow _ c1); [done|cbn; by rewrite app_empty|..]. }
  split; [exact H2|]. split; [|done]. change (cl_waiters c) with (cl_waiters c1).
  rewrite Hw, <- list_fmap_compose. exact H5.
Qed.

Lemma call_outcome calls c pend m timeoutMs : collector_ok calls c pend →
  step_outcome (WaitFor m timeoutMs) c (snd (waitFor test m timeoutMs c)).
Proof.
  intros Hok. cbn [step_outcome]. unfold waitFor. destruct (matches (cl_buffer c) m) eqn:Hm; cbn [snd].
  - assert (Hnot : existsb (λ s, Nat.eqb s.1 (cl_next c)) (cl_settled c) = false).
    { apply not_true_is_false. intros ([q r] & Hin & E%Nat.eqb_eq)%existsb_exists. cbn in E. subst q.
      pose proof (ok_fresh _ _ _ Hok) as Hf. rewrite Forall_forall in Hf. specialize (Hf (cl_next c)).
      rewrite (ok_calls _ _ _ Hok), elem_of_app in Hf. cut (cl_next c < cl_next c)%nat; [lia|apply Hf]. left.
      apply list_elem_of_fmap. exists (cl_next c, r). split; [done|]. by apply list_elem_of_In. }
    unfold settle_call. change (cl_settled (c <| cl_next := S (cl_next c) |>)) with (cl_settled c). by rewrite Hnot.
  - split; [done|]. split; [done|]. eexists. split_and!; cbn; [| |reflexivity|reflexivity]; reflexivity.
Qed.

Lemma timeout_outcome calls c pend id w ms : collector_ok calls c pend →
  List.find (λ t, Nat.eqb t.1 id) (cl_timers c) = Some (id, (w, ms)) → step_outcome (Timeout id) c (on_timeout id w ms c).
Proof.
  intros Hok Hf. apply find_some in Hf as [Hin _]. apply list_elem_of_In in Hin. pose proof Hin as Htimer.
  rewrite (wa_timers _ _ (ok_waiting _ _ _ Hok)) in Hin. apply list_elem_of_fmap in Hin as ([w' ms'] & [= -> <- <-] & Hin).
  apply list_elem_of_split in Hin as (l1 & l2 & ->). rewrite on_timeout_settled.
  destruct (settle_pending calls c l1 (w, ms) l2 (Err (wait_timeout ms)) Hok) as [Hs Hok']; [done|]. cbn [fst] in *.
  split; [by destruct (settled_waiter_same w (Err (wait_timeout ms)) c) as (-> & _)|].
  exists w, ms, l1.*1, l2.*1. split_and!; [done| | |exact Hs].
  - by rewrite (wa_waiters _ _ (ok_waiting _ _ _ Hok)), fmap_app, fmap_cons.
  - by rewrite (wa_waiters _ _ (ok_waiting _ _ _ Hok')), fmap_app.
Qed.

Lemma step_outcome_holds e c c' calls pend : collector_ok calls c pend →
  collector_step decode flush test e c = Some c' → step_outcome e c c'.
Proof.
  intros Hok Hs. destruct e as [ch| |m t|id]; cbn [collector_step] in Hs.
  - destruct (cl_done c); [done|]. injection Hs as <-. by eapply chunk_outcome.
  - destruct (cl_done c); [done|]. injection Hs as <-. by eapply end_outcome.
  - injection Hs as <-. by eapply call_outcome.
  - destruct (List.find _ _) as [[id' [w ms]]|] eqn:Hf; [|done]. injection Hs as <-.
    assert (id' = id) as -> by (apply find_some in Hf as [_ E%Nat.eqb_eq]; done). by eapply timeout_outcome.
Qed.

(** C37: Whatever the output, the end of the stream, the calls and the timers do, every promise of a call of [waitFor] is
    settled once or still waits, never both; one that waits has its timer and no other timer is pending, and what it
    waits for is not in the output yet. In every state this reaches, a chunk of output settles exactly the waiters that
    match the whole output then, with this output, and leaves the others waiting; the end of the stream rejects all
    of them and says so; a call is settled at once with the output when it has what is waited for, and else waits
    with a timer of the given time or of five seconds; a timer rejects the one call it is for with a timeout. *)
Theorem waits_settle_once es d c : collector_run decode flush test es (createStreamCollector d) = Some c →
  let calls := issued es (createStreamCollector d) in
  NoDup calls.*1 ∧ calls.*1 ≡ₚ (cl_settled c).*1 ++ (wt_promise <$> cl_waiters c) ∧
  (λ t, t.2.1) <$> cl_timers c = cl_waiters c ∧ (cl_timers c).*1 = wt_timeoutId <$> cl_waiters c ∧
  (∀ w, w ∈ cl_waiters c → (wt_promise w, wt_matcher w) ∈ calls ∧ matches (cl_buffer c) (wt_matcher w) = false) ∧
  (∀ p text, (p, Ok text) ∈ cl_settled c →
     ∃ m rest, (p, m) ∈ calls ∧ matches text m = true ∧ cl_buffer c = text +:+ rest) ∧
  (∀ e c', collector_step decode flush test e c = Some c' → step_outcome e c c').
Proof.
  intros Hr. destruct (collector_start_ok d) as [H0 U0]. destruct (collector_run_ok es _ _ _ _ H0 U0 Hr) as (pend & Hok & Hu).
  cbn [app] in Hok. pose proof (λ e c', step_outcome_holds e c c' _ _ Hok) as Hstep.
  destruct Hok as [[Hw Ht Hi Hn] Hc Ho Hf Hp Hs]. split_and!; try done.
  - by rewrite Hc, Hw, <- list_fmap_compose.
  - by rewrite Ht, Hw, <- list_fmap_compose.
  - by rewrite Ht, Hw, <- !list_fmap_compose.
  - intros w Hin. split; [|by unfold unmatched in Hu; rewrite Forall_forall in Hu; apply Hu].
    rewrite Hw in Hin. apply list_elem_of_fmap in Hin as (q & -> & Hq). rewrite Forall_forall in Hp. by apply Hp.
Qed.
End Collector.

(** The text that a call is settled with passes the check of [expectOutput]: that error is never thrown. *)
Lemma expect_check_passes {regexp} (test : regexp → string → bool) m text : matchesOutput test text m = true →
  expect_check test m (Ok text) = Ok text.
Proof. unfold expect_check. cbn. by intros ->. Qed.

(** A decoder that keeps nothing, and expressions that search a text. *)
Definition ex_collector (es : list (@collector_event string string)) : option (@collector unit string) :=
  collector_run (λ _ ch, (tt, ch)) (λ _, "") includes es (createStreamCollector tt).

Definition ex_events : list (@collector_event string string) :=
  [WaitFor (MatchText "ready") None; Chunk "rea"; WaitFor (MatchRegExp "r") (Some 10); Chunk "dy"; WaitFor (MatchText "x") (Some 7); Timeout 4].

Lemma waits_settle_once_witness : ∃ c, collector_run (λ _ ch, (tt, ch)) (λ _, "") includes ex_events (createStreamCollector tt) = Some c ∧
  cl_settled c = [(2, Ok "rea"); (0, Ok "ready"); (3, Err (wait_timeout 7))]%nat ∧
  NoDup (issued (λ _ ch, (tt, ch)) (λ _, "") includes ex_events (createStreamCollector tt)).*1.
Proof.
  destruct (collector_run _ _ _ _ _) as [c|] eqn:E; [|by vm_compute in E]. exists c. split; [done|]. split; [by vm_compute in E; injection E as <-|].
  exact (proj1 (waits_settle_once (λ _ ch, (tt, ch)) (λ _, "") includes ex_events tt c E)).
Defined.

(** A call after the end of the stream is not told so: it waits for its whole time. *)
Example wait_after_end : ∃ c, ex_collector [Chunk "a"; StreamEnd; WaitFor (MatchText "b") None] = Some c ∧
  cl_timers c = [(1%nat, ({| wt_matcher := MatchText "b"; wt_promise := 0; wt_timeoutId := 1 |}, 5000))] ∧
  cl_settled <$> ex_collector [Chunk "a"; WaitFor (MatchText "b") None; StreamEnd] = Some [(0%nat, Err stream_ended)].
Proof. eexists. split; [by vm_compute|]. by vm_compute. Qed.

(** ** Waiting for a condition *)

(** A clock that does not go back, and goes on by the time slept: its readings in a trace are no less than [t]. *)
Fixpoint clock_ok (t : Z) (tr : list (event testE)) : Prop :=
  match tr with
  | [] => True
  | @Ev _ X e x :: tr =>
      match e in testE X return X → Prop with
      | TNow => λ now, t <= now ∧ clock_ok now tr
      | TSleep ms => λ _, clock_ok (t + Z.max 0 ms) tr
      | _ => λ _, clock_ok t tr
      end x
  end.

Lemma clock_ok_app tr1 tr2 : ∀ t, clock_ok t (tr1 ++ tr2) → ∃ t', t <= t' ∧ clock_ok t' tr2.
Proof.
  induction tr1 as [|[X e x] tr1 IH]; intros t H; [by exists t|]. cbn [app] in H.
  destruct e; cbn in H.
  all: try (destruct H as [Hx H]).
  all: apply IH in H as (t' & Ht & H); exists t'; split; [lia|done].
Qed.

Section Poll.
Context {A V : Type} (fn : V → T (result A * V)) (as_val : A → val) (description : string) (intervalMs timeoutMs : Z).
Context (Hfn : ∀ vars, wp (fn vars) (λ _ r, is_ok r = true)) (Hint : 0 < intervalMs).

Lemma poll_ends fuel : ∀ start lastError vars t, start + timeoutMs - t <= intervalMs * (Z.of_nat fuel - 1) → (0 < fuel)%nat →
  wp (poll fn as_val description intervalMs timeoutMs fuel start lastError vars) (λ tr r, clock_ok t tr →
    (∃ a, r = Ok (Some a) ∧ isReady (as_val a) = true) ∨
    (∃ tr' now e, tr = tr' ++ [Ev TNow now] ∧ r = Err (poll_expired timeoutMs description e) ∧ timeoutMs <= now - start)).
Proof.
  induction fuel as [|fuel IH]; intros start lastError vars t Hfuel Hpos; [lia|]. cbn [poll].
  assert (Hagain : ∀ le vs tr1, wp (let! now := sys TNow in
    if timeoutMs <=? now - start then Throw (poll_expired timeoutMs description le)
    else sleep intervalMs ;;! poll fn as_val description intervalMs timeoutMs fuel start le vs)
    (λ tr r, clock_ok t (tr1 ++ tr) → (∃ a, r = Ok (Some a) ∧ isReady (as_val a) = true) ∨
      (∃ tr' now e, tr1 ++ tr = tr' ++ [Ev TNow now] ∧ r = Err (poll_expired timeoutMs description e) ∧ timeoutMs <= now - start))).
  { intros le vs tr1. cbn [bind sys wp]. intros now. destruct (Z.leb_spec timeoutMs (now - start)) as [Hle|Hlt]; cbn [wp].
    - intros _. right. exists tr1, now, le. done.
    - unfold sleep. cbn [bind sys wp]. intros []. destruct (decide (fuel = 0%nat ∨ now < t)) as [Hf|Hf].
      + apply wp_runs. intros tr r _ (t' & Ht & H)%clock_ok_app. cbn in H. destruct Hf; lia.
      + eapply wp_mono; [|apply (IH start le vs (now + intervalMs)); [|lia]].
        * intros tr r H Hc. apply clock_ok_app in Hc as (t' & Ht & Hc). cbn in Hc. destruct Hc as [Hn Hc].
          replace (now + Z.max 0 intervalMs) with (now + intervalMs) in Hc by lia.
          destruct (H Hc) as [|(tr' & now' & e & -> & H2 & H3)]; [by left|]. right.
          exists (tr1 ++ Ev TNow now :: Ev (TSleep intervalMs) tt :: tr'), now', e. split; [by rewrite <- app_assoc|done].
        * lia. }
  rewrite wp_bind. eapply wp_mono, Hfn. intros tr1 [[r vs]|e] Hok; [|done].
  destruct r as [a|e]; [|apply Hagain]. destruct (isReady (as_val a)) eqn:Hr; [|apply Hagain].
  intros _. left. eauto.
Qed.
End Poll.

Lemma tried_ok {A} (p : T A) : wp (tried p) (λ _ r, is_ok r = true).
Proof.
  unfold tried. rewrite wp_catch, wp_bind. eapply (wp_mono p (λ _ _, True)); [|by apply wp_runs].
  intros tr [a|e] _; done.
Qed.

(** Waiting for a condition ends: when the clock goes on by the time slept and there are attempts for the time to run
    out at the interval, the result is a value that is ready, or the error of the timeout, which comes only when the
    time is over by the last reading of the clock. A condition that throws is one that does not hold. *)
Theorem pollUntil_ends {A} fuel (fn : T A) as_val o tr r t :
  0 < po_intervalMs o ?: 100 → (po_timeoutMs o ?: 5000) <= (po_intervalMs o ?: 100) * (Z.of_nat fuel - 1) → (0 < fuel)%nat →
  runs (pollUntil fuel fn as_val o) tr r → clock_ok t tr →
  (∃ a, r = Ok (Some a) ∧ isReady (as_val a) = true) ∨
  (∃ start tr' now e, tr = Ev TNow start :: tr' ++ [Ev TNow now] ∧ po_timeoutMs o ?: 5000 <= now - start ∧
     r = Err (poll_expired (po_timeoutMs o ?: 5000) (po_description o ?: "condition") e)).
Proof.
  intros Hi Hf Hpos. unfold pollUntil, pollUntil_with. cbn [bind sys runs]. intros (start & tr' & -> & Hr) [_ Hc].
  assert (Hfn : ∀ vars : unit, wp (let! r := tried fn in Ret (r, tt)) (λ _ r, is_ok r = true)).
  { intros _. rewrite wp_bind. eapply wp_mono, tried_ok. by intros tr2 [a|e]. }
  eapply wp_runs in Hr; [|apply (poll_ends _ as_val (po_description o ?: "condition") _ (po_timeoutMs o ?: 5000) Hfn Hi fuel start None tt start); lia].
  destruct (Hr Hc) as [|(tr'' & now & e & -> & -> & H)]; [by left|right]. by exists start, tr'', now, e.
Qed.

(** A clock and a port that opens at the third attempt. *)
Definition port_system : oracle (promises (option response)) (option response) testE :=
  {| o_sys := λ X n e, match e in testE X return X with
                       | TNow => 10 * Z.of_nat n
                       | TPerfNow => num_of_Z 0
                       | TEnv => []
                       | TConnect _ _ => Nat.leb 7 n
                       | TAddress => Some 3000
                       | TFetch _ _ => Ok {| rs_status := 500; rs_body := Ok "" |}
                       | TSpawn _ => Ok {| sp_proc := 7; sp_stdout := Some 1%nat; sp_stderr := None |}
                       | TExited _ => 0
                       | TOutput _ => ""
                       | TSleep _ | TListen _ _ | TCloseServer _ | TKill _ _ | TDone _ => tt
                       end;
     o_state := {| pr_next := 0; pr_settled := [] |}; o_await := λ _, Ok None |}.

Definition port_run := exec port_system 0 (waitForPort 6 3000 None (Some 20) (Some 100)).

Lemma pollUntil_ends_witness : snd port_run = Ok (Some true) ∧
  ((∃ a, snd port_run = Ok (Some a) ∧ isReady (VBool a) = true) ∨
   (∃ start tr' now e, fst port_run = Ev TNow start :: tr' ++ [Ev TNow now] ∧ 100 <= now - start ∧
      snd port_run = Err (poll_expired 100 ("port " +:+ pretty 3000) e))).
Proof.
  split; [by vm_compute|].
  apply (pollUntil_ends 6 (sys (TConnect "127.0.0.1" 3000)) VBool
    {| po_description := Some ("port " +:+ pretty 3000); po_intervalMs := Some 20; po_timeoutMs := Some 100 |}
    (fst port_run) (snd port_run) 0).
  1-3: cbn; lia.
  - apply (exec_runs port_system 0).
  - vm_compute. intuition discriminate.
Defined.

(** *** Waiting for quiet does not wait *)

(** The read_texts that [waitForQuiet] reads. *)
Definition read_texts (tr : list (event testE)) : list string :=
  omap (λ ev, match ev with @Ev _ X e x => match e in testE X return X → option string with TOutput _ => Some | _ => λ _, None end x end) tr.

Definition sleeps (ev : event testE) : bool := match ev with @Ev _ X e x => match e with TSleep _ => true | _ => false end end.

(** The first two read_texts are read with nothing in between, so they agree, and then it returns at once: it sleeps for no
    interval and finds out nothing about the output that follows. *)
Lemma waitForQuiet_at_once fuel s quietMs timeoutMs tr r t rest : runs (waitForQuiet fuel (Some s) quietMs timeoutMs) tr r →
  read_texts tr = t :: t :: rest → existsb sleeps tr = false.
Proof.
  destruct fuel as [|fuel]; [by intros (x & tr' & -> & y & tr2 & -> & -> & _)|].
  cbn. intros (x & tr' & -> & now & tr2 & -> & y & tr3 & -> & H). cbn. intros [= <- <- _].
  rewrite String.eqb_refl in H. cbn in H. destruct H as (z & tr4 & -> & -> & _). done.
Qed.

(** ** A server under test *)

(** The calls by which [withServer] stops a server. *)
Definition stops (p : spawned) (tr : list (event testE)) : Prop :=
  ∃ code rest, tr = Ev (TKill (sp_proc p) (Some "SIGTERM")) tt :: Ev (TExited (sp_proc p)) code :: rest.

Definition spawns (ev : event testE) : list spawned :=
  match ev with @Ev _ X e x => match e in testE X return X → list spawned with TSpawn _ => λ r, match r with Ok p => [p] | Err _ => [] end | _ => λ _, [] end x end.

Definition kills (ev : event testE) : list nat := match ev with @Ev _ X e x => match e with TKill p _ => [p] | _ => [] end end.

(** What starting a server leaves behind: one process, or none when it fails. *)
Lemma startServer_spawns fuel o : wp (startServer fuel o) (λ tr r,
  tr ≫= kills = [] ∧ match r with Ok server => tr ≫= spawns = [rv_proc server] | Err _ => tr ≫= spawns = [] end).
Proof.
  unfold startServer. assert (Hport : wp (match ts_port o with Some port => Ret port | None => getFreePort (ts_host o ?: "127.0.0.1") end)
    (λ tr _, tr ≫= kills = [] ∧ tr ≫= spawns = [])).
  { destruct (ts_port o); [done|]. unfold getFreePort. cbn [bind sys wp]. intros [] [a|]; by intros []. }
  rewrite wp_bind. eapply wp_mono, Hport. intros tr1 [port|e] [Hk Hs]; [|done].
  cbn. intros env [p|e]; cbn; [intros _|]; rewrite !bind_app, Hk, Hs; done.
Qed.

Lemma waitForExit_quiet p : wp (waitForExit p) (λ tr r, (∃ code rest, tr = Ev (TExited (sp_proc p)) code :: rest) ∧
  tr ≫= kills = [] ∧ tr ≫= spawns = [] ∧ is_ok r = true).
Proof.
  unfold waitForExit, stream_done, stream_text. destruct (sp_stdout p), (sp_stderr p); cbn.
  all: repeat intros ?; split_and!; eauto.
Qed.

(** The body of a [finally] and what it does in the end, which keeps the outcome. *)
Lemma runs_finally {A} (p : T A) c tr r : wp c (λ _ r, is_ok r = true) → runs (finally p c) tr r →
  ∃ tr1 tr2, tr = tr1 ++ tr2 ∧ runs p tr1 r ∧ runs c tr2 (Ok tt).
Proof.
  intros Hc. unfold finally. intros [(tr1 & tr2 & out & -> & Hp & H)|(e & Hp & _)]%runs_bind.
  - assert (Hr : runs p tr1 out).
    { apply runs_catch in Hp as [(a & Hp & [= ->])|(t1 & t2 & e & -> & Hp & [-> [= ->]])].
      - apply runs_bind in Hp as [(t1 & t2 & a' & -> & Hp & [-> [= ->]])|(e & _ & [=])]. by rewrite app_nil_r.
      - apply runs_bind in Hp as [(u1 & u2 & a' & -> & _ & [_ [=]])|(e' & Hp & [= ->])]. by rewrite app_nil_r. }
    apply runs_bind in H as [(t1 & t2 & [] & -> & Ht & H)|(e & H & ->)].
    + exists tr1, t1. destruct out; destruct H as [-> ->]; by rewrite app_nil_r.
    + by eapply wp_runs in H; [|exact Hc].
  - apply runs_catch in Hp as [(a & _ & [=])|(t1 & t2 & e' & _ & _ & [_ [=]])].
Qed.

Lemma stop_server_spec server : wp (stop_server server) (λ tr r, is_ok r = true ∧ stops (rv_proc server) tr ∧
  tr ≫= kills = [sp_proc (rv_proc server)] ∧ tr ≫= spawns = []).
Proof.
  unfold stop_server, proc_kill. cbn [bind sys wp]. intros []. rewrite wp_bind. eapply wp_mono, waitForExit_quiet.
  intros tr [x|e] ((code & rest & ->) & Hk & Hs & Hok); [|done]. cbn [wp app]. split_and!; [done|by eexists _, _|..].
  - rewrite app_nil_r. cbn in Hk |- *. by rewrite Hk.
  - rewrite app_nil_r. exact Hs.
Qed.

(** Once its process is started a server is stopped whatever happens: when it is never ready, when the test throws
    and when it returns. The process is asked to terminate and its end awaited, after everything the test did, whose
    outcome is the outcome; and when starting fails there is no process to stop. *)
Theorem withServer_stops {A} fuel o (fn : RunningServer → T A) tr r : runs (withServer fuel o fn) tr r →
  (∃ e, runs (startServer fuel o) tr (Err e) ∧ r = Err e ∧ tr ≫= spawns = []) ∨
  (∃ server tr1 tr2 tr3, tr = tr1 ++ tr2 ++ tr3 ∧ runs (startServer fuel o) tr1 (Ok server) ∧ runs (use_server fn server) tr2 r ∧
     tr1 ≫= spawns = [rv_proc server] ∧ tr1 ≫= kills = [] ∧ stops (rv_proc server) tr3 ∧ tr3 ≫= kills = [sp_proc (rv_proc server)] ∧
     tr3 ≫= spawns = []).
Proof.
  unfold withServer. assert (Hstart := startServer_spawns fuel o). rewrite wp_runs in Hstart.
  intros [(tr1 & tr2 & server & -> & H1 & H2)|(e & H & ->)]%runs_bind; [right|left; exists e; by destruct (Hstart _ _ H)].
  apply runs_finally in H2 as (tr2' & tr3 & -> & H2 & H3).
  - destruct (Hstart _ _ H1) as [Hk Hs]. eapply wp_runs in H3; [|apply stop_server_spec].
    destruct H3 as (_ & H3 & H4 & H5). by exists server, tr1, tr2', tr3.
  - eapply wp_mono, stop_server_spec. by intros tr' r' [Hok _].
Qed.

Definition ex_server_options : StartServerOptions :=
  {| ts_command := "bun"; ts_args := Some ["run"; "dev"]; ts_cwd := None; ts_env := None; ts_host := None; ts_port := None;
     ts_readyPath := None; ts_readyUrl := None; ts_readyTimeoutMs := None; ts_stdout := None; ts_stderr := None |}.

(** A test that throws, of a server that never gets ready. *)
Definition server_run : list (event testE) * result (option unit) :=
  exec port_system 0 (withServer 3 ex_server_options (λ _, Throw (JsError "test"))).

Lemma withServer_stops_witness : server_run.1 ≫= kills = [7%nat] ∧ server_run.1 ≫= spawns ≠ [] ∧
  ((∃ e, runs (startServer 3 ex_server_options) server_run.1 (Err e) ∧ server_run.2 = Err e ∧ server_run.1 ≫= spawns = []) ∨
   (∃ server tr1 tr2 tr3, server_run.1 = tr1 ++ tr2 ++ tr3 ∧ runs (startServer 3 ex_server_options) tr1 (Ok server) ∧
      runs (use_server (λ _, Throw (JsError "test")) server) tr2 server_run.2 ∧
      tr1 ≫= spawns = [rv_proc server] ∧ tr1 ≫= kills = [] ∧ stops (rv_proc server) tr3 ∧
      tr3 ≫= kills = [sp_proc (rv_proc server)] ∧ tr3 ≫= spawns = [])).
Proof.
  split; [by vm_compute|]. split; [by vm_compute|].
  apply (withServer_stops 3 ex_server_options (λ _, Throw (JsError "test"))). apply (exec_runs port_system 0).
Defined.

(** ** Artifacts *)

Lemma dash_runs_all p (q : ascii → bool) inside s : (∀ c, p c = false → q c = true) → q "-"%char = true → str_all q (dash_runs p inside s) = true.
Proof.
  intros Hp Hq. revert inside. induction s as [|c s IH]; intros inside; [done|]. cbn [dash_runs].
  destruct (p c) eqn:E; [destruct inside; [auto|]|]; cbn [str_all]; rewrite IH, ?Hq, ?Hp; done.
Qed.

Lemma dash_runs_keeps p inside s : str_all (λ c, negb (p c)) s = true → dash_runs p inside s = s.
Proof.
  revert inside. induction s as [|c s IH]; intros inside; [done|]. cbn [str_all dash_runs].
  intros [Hc%negb_true_iff Hs]%andb_prop. by rewrite Hc, IH.
Qed.

(** A second pass over the dashes changes nothing. *)
Lemma dash_runs_twice p inside s : p "-"%char = true → dash_runs p inside (dash_runs p inside s) = dash_runs p inside s.
Proof.
  intros Hp. revert inside. induction s as [|c s IH]; intros inside; [done|]. cbn [dash_runs].
  destruct (p c) eqn:E; [destruct inside; [done|]|]; cbn [dash_runs]; rewrite ?Hp, ?E, IH; done.
Qed.

Lemma safeSegment_safe s : str_all safe_char (safeSegment s) = true.
Proof.
  unfold safeSegment. set (t := dash_runs _ _ s).
  assert (Ht : str_all safe_char t = true) by (apply dash_runs_all; [by intros c ?%negb_false_iff|done]).
  clearbody t. enough (∀ inside, str_all safe_char (dash_runs (Ascii.eqb "-") inside t) = true) by auto.
  induction t as [|c t IH]; intros inside; [done|]. cbn [str_all] in Ht.
  apply andb_prop in Ht as [Hc Ht]. cbn [dash_runs]. destruct (Ascii.eqb _ c); [destruct inside; [auto|]|]; cbn [str_all]; rewrite ?Hc, (IH Ht); done.
Qed.

Lemma safeSegment_idemp s : safeSegment (safeSegment s) = safeSegment s.
Proof.
  unfold safeSegment at 1. rewrite (dash_runs_keeps (λ c, negb (safe_char c))).
  - unfold safeSegment. by apply dash_runs_twice.
  - eapply str_all_impl; [|apply safeSegment_safe]. cbn. intros c ->. done.
Qed.

Lemma safe_char_slash c : safe_char c = true → negb (Ascii.eqb slash c) = true.
Proof. intros Hc. destruct (Ascii.eqb_spec slash c) as [<-|]; [by vm_compute in Hc|done]. Qed.

Definition dash_free (s : string) : bool := str_all (λ c, negb (Ascii.eqb "-" c)) s.

Lemma dash_runs_free p s : dash_free (dash_runs p false s) = true → dash_runs p false s = s.
Proof.
  induction s as [|c s IH]; [done|]. unfold dash_free in *. cbn [dash_runs]. destruct (p c); [done|]. cbn [str_all].
  intros [_ Hs]%andb_prop. by rewrite IH.
Qed.

Lemma safeSegment_free s : dash_free (safeSegment s) = true → safeSegment s = s.
Proof. unfold safeSegment. intros H. pose proof (dash_runs_free _ _ H) as E. rewrite E in *. by apply dash_runs_free. Qed.

(** Only the empty name and the two names of dots name no entry of their directory. *)
Lemma safeSegment_plain s : s ≠ "" → s ≠ "." → s ≠ ".." → plain_seg (safeSegment s).
Proof.
  intros H1 H2 H3. split; [eapply str_all_impl; [apply safe_char_slash|apply safeSegment_safe]|].
  assert (Hne : ∀ t, dash_free t = true → s ≠ t → safeSegment s ≠ t).
  { intros t Ht Hs E. apply Hs. rewrite <- E. symmetry. apply safeSegment_free. by rewrite E. }
  split_and!; by apply Hne.
Qed.

(** *** The directories above a path *)

Lemma isAbsolute_cons c p : isAbsolute (String c p) = is_slash c.
Proof. unfold isAbsolute, is_slash. cbn [starts_with]. by rewrite andb_true_r, Ascii.eqb_sym. Qed.

Lemma dirname_absolute p : isAbsolute p = true → isAbsolute (path_dirname p) = true.
Proof.
  destruct p as [|c p]; [done|]. rewrite isAbsolute_cons. intros Hc. unfold path_dirname. rewrite Hc.
  destruct (drop_while _ _); [done|]. destruct (_ && _); [done|]. by rewrite isAbsolute_cons.
Qed.

Lemma ancestors_absolute p : isAbsolute p = true → Forall (λ d, isAbsolute d = true) (ancestors p).
Proof.
  unfold ancestors. generalize (String.length p). intros n. revert p. induction n as [|n IH]; intros p Hp; cbn [ancestors_fuel].
  - by repeat constructor.
  - destruct (String.eqb _ _); [by repeat constructor|]. constructor; [done|]. by apply IH, dirname_absolute.
Qed.

(** *** Where artifacts are written *)

(** The calls that change files. *)
Definition changes (ev : event fileE) : list (string * option string) :=
  match ev with @Ev _ X e x => match e with
    | FWrite p text => [(p, Some text)] | FMkdir p | FRemove p => [(p, None)] | FCopy _ p => [(p, None)] | _ => [] end end.

Lemma isRepoRoot_reads dir : wp (isRepoRoot dir) (λ tr r, tr ≫= changes = [] ∧ is_ok r = true).
Proof.
  unfold isRepoRoot, hasWorkspaceConfig. cbn. intros []; [done|]. intros []; [|done]. cbn. by intros [].
Qed.

Lemma first_root_spec dirs start : wp (first_root dirs start) (λ tr r, tr ≫= changes = [] ∧ ∃ root, r = Ok root ∧ (root ∈ dirs ∨ root = start)).
Proof.
  induction dirs as [|d dirs IH]; cbn [first_root]; [split; [done|]; eauto|]. rewrite wp_bind. eapply wp_mono, isRepoRoot_reads.
  intros tr [[]|e] [Htr Hok]; [|  |done].
  - cbn. rewrite app_nil_r. split; [done|]. exists d. split; [done|]. left. set_solver.
  - eapply wp_mono, IH. intros tr' r (H & root & -> & Hr). rewrite bind_app, Htr, H. split; [done|]. exists root. set_solver.
Qed.

Lemma findRepoRoot_spec start : isAbsolute start = true →
  wp (findRepoRoot start) (λ tr r, tr ≫= changes = [] ∧ ∃ root, r = Ok root ∧ isAbsolute root = true).
Proof.
  intros Hs. unfold findRepoRoot. cbn [bind sys wp]. intros cwd. eapply wp_mono, first_root_spec.
  intros tr r (Htr & root & -> & Hr). split; [by cbn|]. exists root. split; [done|]. destruct Hr as [Hr| ->]; [|done].
  assert (Ha : Forall (λ d, isAbsolute d = true) (ancestors (path_resolve cwd [start]))) by by apply ancestors_absolute.
  rewrite Forall_forall in Ha. by apply Ha.
Qed.

Ltac plain_segs := repeat first [assumption | apply Forall_app_2 | apply Forall_cons_2 | apply Forall_nil_2].

(** The directory of a kind of artifacts below a root. *)
Definition artifact_segs (root type : string) : list string := norm_segs false (split_on slash root) ++ ["output"; safeSegment type].

Lemma artifact_dir_path root type : isAbsolute root = true → plain_seg (safeSegment type) →
  path_join [path_join [root; "output"]; safeSegment type] = abs_path (artifact_segs root type) ∧ Forall plain_seg (artifact_segs root type).
Proof.
  intros Hr Ht. assert (Ho : plain_seg "output") by done.
  assert (Hn : Forall plain_seg (norm_segs false (split_on slash root))) by apply norm_segs_plain, split_on_segs.
  split; [|unfold artifact_segs; plain_segs].
  rewrite (path_join_name root "output") by done. rewrite path_join_name by done.
  rewrite norm_split_abs by plain_segs. unfold artifact_segs. by rewrite <- app_assoc.
Qed.

(** An artifact whose names are neither empty nor dots is one file, directly in the directory of its kind below the
    directory [output] of a root, and nothing else is written: the directory is made, then the file gets its contents,
    and its path is returned. *)
Theorem artifact_in_output type filename contents start tr r : isAbsolute start = true →
  type ∉ [""; "."; ".."] → filename ∉ [""; "."; ".."] → runs (writeArtifact type filename contents (Some start)) tr r →
  ∃ root, isAbsolute root = true ∧ let dir := artifact_segs root type in let file := dir ++ [safeSegment filename] in
    Forall plain_seg file ∧
    ((tr ≫= changes = [(abs_path dir, None)] ∧ is_ok r = false) ∨
     (tr ≫= changes = [(abs_path dir, None); (abs_path file, Some contents)] ∧ ∀ p, r = Ok p → p = abs_path file)).
Proof.
  intros Hs Ht Hf. rewrite !not_elem_of_cons in Ht, Hf. destruct Ht as (? & ? & ? & _). destruct Hf as (? & ? & ? & _).
  assert (Ht : plain_seg (safeSegment type)) by by apply safeSegment_plain.
  assert (Hf : plain_seg (safeSegment filename)) by by apply safeSegment_plain.
  revert tr r. apply wp_runs. unfold writeArtifact, artifactPath, artifactDir, resolveOutputRoot. cbn [bind].
  rewrite !wp_bind. eapply wp_mono, findRepoRoot_spec; [|done].
  intros tr r (Htr & root & -> & Hr). destruct (artifact_dir_path root type Hr Ht) as [Hd Hp]. cbn [bind wp].
  intros made. cbn. rewrite Hd.
  assert (Hfile : path_join [abs_path (artifact_segs root type); safeSegment filename] = abs_path (artifact_segs root type ++ [safeSegment filename])).
  { rewrite path_join_name, norm_split_abs by done. done. }
  assert (Hall : Forall plain_seg (artifact_segs root type ++ [safeSegment filename])) by plain_segs.
  destruct made as [[]|e]; cbn.
  - rewrite Hfile. intros written. destruct written as [[]|e]; cbn; exists root; (split; [done|]); (split; [done|]); right.
    all: rewrite !bind_app, Htr; cbn; rewrite ?Hd, ?Hfile; split; [done|]; intros p; by intros [= <-].
  - exists root. split; [done|]. split; [done|]. left. by rewrite !bind_app, Htr.
Qed.

(** Two names that safe characters do not tell apart, and a name that leaves the directory: a file beside it is written. *)
Example artifact_names :
  safeSegment "a b/c" = "a-b-c" ∧ safeSegment "a--b c" = "a-b-c" ∧ safeSegment "../x" = "..-x" ∧ safeSegment ".." = "..".
Proof. by vm_compute. Qed.

Definition artifact_system : oracle unit unit fileE :=
  {| o_sys := λ X n e, match e in fileE X return X with
                       | FCwd => "/repo/apps/web"
                       | FEnv _ => None
                       | FExists p => String.eqb p "/repo/bun.lock"
                       | FRead _ => Err (JsError "ENOENT")
                       | FWrite _ _ | FMkdir _ | FRemove _ | FCopy _ _ => Ok tt
                       | FReaddir _ => Ok []
                       | FSpawn _ _ _ => Ok 0
                       | FLog _ | FError _ => tt
                       end;
     o_state := tt; o_await := λ _, Ok tt |}.

Definition artifact_run (type filename : string) : list (event fileE) * result string :=
  exec artifact_system 0 (writeArtifact type filename "text" (Some "/repo/apps/web")).

Example artifact_outside : fst (artifact_run ".." "package.json") ≫= changes = [("/repo", None); ("/repo/package.json", Some "text")].
Proof. by vm_compute. Qed.

Lemma artifact_in_output_witness : snd (artifact_run "logs" "a b.txt") = Ok "/repo/output/logs/a-b.txt" ∧
  ∃ root, isAbsolute root = true ∧ Forall plain_seg (artifact_segs root "logs" ++ [safeSegment "a b.txt"]).
Proof.
  split; [by vm_compute|].
  destruct (artifact_in_output "logs" "a b.txt" "text" "/repo/apps/web" (fst (artifact_run "logs" "a b.txt"))
    (snd (artifact_run "logs" "a b.txt")) eq_refl) as (root & Hr & Hf & _).
  - by set_solver.
  - by set_solver.
  - apply (exec_runs artifact_system 0).
  - by exists root.
Defined.
