(* ===== verification/Logger.v ===== *)
(** * The logger of the tools

    packages/qa/src/logger: loggers and the lines they write (core.ts), the debug log with its namespaces (debug.ts),
    the shared logger and its options (index.ts, cli-init.ts), and the spinner (spinner.ts). The patterns of namespaces
    are matched on text without line ends. *)

From S2P Require Export Files.

Local Open Scope string_scope.
Local Open Scope Z_scope.
Local Open Scope list_scope.

(** ** core.ts *)

Inductive LogLevel : Type := LDebug | LInfo | LWarn | LError | LSilent.

#[export] Instance LogLevel_eq_dec : EqDecision LogLevel. Proof. solve_decision. Defined.

Definition LEVEL_ORDER (l : LogLevel) : Z :=
  match l with LDebug => 10 | LError => 40 | LInfo => 20 | LSilent => 50 | LWarn => 30 end.

Definition level_text (l : LogLevel) : string :=
  match l with LDebug => "debug" | LInfo => "info" | LWarn => "warn" | LError => "error" | LSilent => "silent" end.

Definition normalizeLevel (level : option string) : option LogLevel :=
  match level ≫= nonempty with
  | None => None
  | Some level => List.find (λ l, String.eqb (to_lower level) (level_text l)) [LDebug; LInfo; LWarn; LError; LSilent]
  end.

(** [LogMeta] *)
Abbreviation meta := (list (string * val)).

Definition stripMsg (m : option meta) : meta := match m with Some m => jdel "msg" m | None => [] end.

(** The text of a value in a template; [JSON.stringify] of undefined is undefined. *)
Definition meta_text (v : val) : string :=
  match v with VStr s => s | VUndef => "undefined" | _ => json_stringify v end.

Definition formatMeta (m : meta) : string := JsStr.join " " (map (λ '(k, v), k +:+ "=" +:+ meta_text v) m).

Definition escape (code : string) : string := String (chr 27) "[" +:+ code.

Definition color_reset : string := escape "0m".

Definition levelColor (l : LogLevel) : string :=
  match l with
  | LDebug => escape "2m"
  | LInfo => escape "36m"
  | LWarn => escape "33m"
  | LError => escape "31m"
  | LSilent => color_reset
  end.

Definition shouldLog (level configured : LogLevel) : bool := LEVEL_ORDER configured <=? LEVEL_ORDER level.

(** The object of a JSON line: the fields of [meta] come last. *)
Definition json_line (level : LogLevel) (msg : string) (now : val) (m : meta) : meta :=
  jspread [("level", VStr (level_text level)); ("msg", VStr msg); ("timestamp", now)] m.

Definition line_end : string := String (chr 10) "".

Definition formatMessage (isTTY json : bool) (level : LogLevel) (m : meta) (msg : string) (now : val) : string :=
  if json then json_stringify (VObj (json_line level msg now m)) +:+ line_end
  else
    let levelLabel := to_upper (level_text level) in
    let colored := if isTTY then levelColor level +:+ levelLabel +:+ color_reset else levelLabel in
    let metaText := formatMeta m in
    colored +:+ " " +:+ msg +:+ (if str_truthy metaText then " " +:+ metaText else "") +:+ line_end.

(** *** Loggers *)

(** A stream: its number, and whether it says that it is a terminal. *)
Record out_stream := { st_id : nat; st_isTTY : option bool }.

(** The state a logger closes over; its clock is left to the reader of the clock. *)
Record log_state := {
  lo_baseMeta : meta; lo_isTTY : option bool; lo_json : bool; lo_level : LogLevel; lo_stderr : out_stream; lo_stdout : out_stream }.

(** [LoggerInit] with [baseMeta]. *)
Record LoggerOptions := {
  op_baseMeta : option meta; op_isTTY : option bool; op_json : option bool; op_level : option LogLevel;
  op_stderr : option out_stream; op_stdout : option out_stream }.

(** A logger: its state, and the fields [level] and [json] of the object, which are read when it is made. *)
Record logger := { lr_state : log_state; lr_level : LogLevel; lr_json : bool }.

Section Process.
(** The streams of the process. *)
Variables (process_stdout process_stderr : out_stream).

Definition logger_of (s : log_state) : logger := {| lr_state := s; lr_level := lo_level s; lr_json := lo_json s |}.

Definition createLogger (o : LoggerOptions) : logger :=
  logger_of {| lo_baseMeta := stripMsg (op_baseMeta o); lo_isTTY := op_isTTY o; lo_json := op_json o ?: false;
               lo_level := op_level o ?: LInfo; lo_stderr := op_stderr o ?: process_stderr;
               lo_stdout := op_stdout o ?: process_stdout |}.

Definition child (m : meta) (l : logger) : logger :=
  let s := lr_state l in
  createLogger {| op_baseMeta := Some (jspread (lo_baseMeta s) (stripMsg (Some m))); op_isTTY := lo_isTTY s;
                  op_json := Some (lo_json s); op_level := Some (lo_level s); op_stderr := Some (lo_stderr s);
                  op_stdout := Some (lo_stdout s) |}.
End Process.

(** What is written: the stream and the text. *)
Definition log_write (level : LogLevel) (msg : string) (m : option meta) (now : val) (l : logger) : list (nat * string) :=
  let s := lr_state l in
  if negb (shouldLog level (lo_level s)) then []
  else
    let stream := match level with LWarn | LError => lo_stderr s | _ => lo_stdout s end in
    let isTTY := match lo_isTTY s with Some b => b | None => st_isTTY stream ?: false end in
    let mergedMeta := jspread (lo_baseMeta s) (stripMsg m) in
    [(st_id stream, formatMessage isTTY (lo_json s) level mergedMeta msg now)].

Definition applyInit (next : LoggerOptions) (l : logger) : logger :=
  let s := lr_state l in
  {| lr_state := {| lo_baseMeta := lo_baseMeta s;
                    lo_isTTY := match op_isTTY next with Some b => Some b | None => lo_isTTY s end;
                    lo_json := op_json next ?: lo_json s; lo_level := op_level next ?: lo_level s;
                    lo_stderr := op_stderr next ?: lo_stderr s; lo_stdout := op_stdout next ?: lo_stdout s |};
     lr_level := lr_level l; lr_json := lr_json l |}.

(** ** debug.ts *)

(** Some end of the text has the property. *)
Fixpoint any_suffix (f : string → bool) (s : string) : bool :=
  f s || match s with EmptyString => false | String _ s => any_suffix f s end.

(** A pattern as the expression it becomes: [*] is any text, every other character itself. *)
Fixpoint glob (pattern s : string) : bool :=
  match pattern with
  | EmptyString => match s with EmptyString => true | _ => false end
  | String c pattern =>
      if Ascii.eqb c "*" then
        any_suffix (glob pattern) s
      else match s with EmptyString => false | String d s => Ascii.eqb c d && glob pattern s end
  end.

Definition matchesNamespace (namespace : string) (patterns : list string) : bool := existsb (λ p, glob p namespace) patterns.

(** The variables of the module: the namespaces, [None] for none. *)
Definition setDebugNamespaces (namespaces : option (list string)) : option (list string) :=
  match namespaces with Some ((_ :: _) as l) => Some l | _ => None end.

(** Whether [debug(namespace)] logs. *)
Definition debug_on (namespaces : option (list string)) (namespace : string) : bool :=
  match namespaces with
  | Some ((_ :: _) as l) => matchesNamespace namespace l
  | _ => false
  end.

(** The message and the fields a debug log hands to the logger. *)
Definition debug_line (namespace msg : string) (m : option meta) : string * meta :=
  ("[" +:+ namespace +:+ "] " +:+ msg, jspread [("namespace", VStr namespace)] (m ?: [])).

(** What a task does: it throws before it returns a promise, or its promise settles. *)
Inductive task_result (A : Type) : Type :=
| ThrowsAtOnce (e : exn)
| Settles (r : result A).
Arguments ThrowsAtOnce {A} _.
Arguments Settles {A} _.

Definition task_outcome {A} (t : task_result A) : result A := match t with ThrowsAtOnce e => Err e | Settles r => r end.

(** [withDebug]: what it logs, and its outcome; the clock is read at the start and when the promise has settled. *)
Definition withDebug {A} (namespaces : option (list string)) (namespace : string) (start now : Z) (task : task_result A) :
    list string * result A :=
  if negb (debug_on namespaces namespace) then ([], task_outcome task)
  else
    let elapsed := " +" +:+ pretty (now - start) +:+ "ms" in
    match task with
    | ThrowsAtOnce e => (["start"], Err e)
    | Settles (Ok a) => (["start"; "done" +:+ elapsed], Ok a)
    | Settles (Err e) => (["start"; "fail" +:+ elapsed], Err e)
    end.

(** ** index.ts and cli-init.ts *)

(** The logger of the module and the namespaces of debug.ts, with those of the environment. *)
Record log_module := { mo_logger : logger; mo_namespaces : option (list string); mo_envDebug : list string }.

Definition split_names (s : string) : list string := List.filter str_truthy (split_on "," s).

(** [process.env.DEBUG ? process.env.DEBUG.split(',').filter(Boolean) : []] *)
Definition env_names (v : option string) : list string :=
  match v ≫= nonempty with Some s => split_names s | None => [] end.

Definition log_module_start (process_stdout process_stderr : out_stream) (LOG_LEVEL DEBUG : option string) : log_module :=
  let envDebug := env_names DEBUG in
  {| mo_logger := createLogger process_stdout process_stderr
       {| op_baseMeta := None; op_isTTY := None; op_json := None; op_level := Some (normalizeLevel LOG_LEVEL ?: LInfo);
          op_stderr := None; op_stdout := None |};
     mo_namespaces := setDebugNamespaces (Some envDebug); mo_envDebug := envDebug |}.

(** [logger.init], with the namespaces of the options. *)
Definition logger_init (o : LoggerOptions) (debugNamespaces : option (list string)) (m : log_module) : log_module :=
  m <| mo_logger := applyInit o (mo_logger m) |>
    <| mo_namespaces := setDebugNamespaces (Some (debugNamespaces ?: mo_envDebug m)) |>.

Record CliFlags := { fl_debug : option string; fl_logLevel : option string; fl_verbose : bool; fl_json : bool }.

Definition cli_init (flags : CliFlags) (m : log_module) : log_module :=
  let level := match normalizeLevel (fl_logLevel flags) with
               | Some l => Some l
               | None => if fl_verbose flags then Some LDebug else None
               end in
  let debugNamespaces := env_names (fl_debug flags) in
  logger_init {| op_baseMeta := None; op_isTTY := None; op_json := Some (fl_json flags); op_level := level;
                 op_stderr := None; op_stdout := None |} (Some debugNamespaces) m.

(** What a debug log writes: the logger of the module gets its line at the level debug. *)
Definition debug_write (namespace msg : string) (fields : option meta) (now : val) (m : log_module) : list (nat * string) :=
  if debug_on (mo_namespaces m) namespace then
    let '(line, all) := debug_line namespace msg fields in log_write LDebug line (Some all) now (mo_logger m)
  else [].

(** ** spinner.ts *)

(** The fields of a spinner, what it wrote, and the timers the runtime holds for it. *)
Record spinner := {
  sp_text : string; sp_isTTY : bool; sp_timer : option nat; sp_frameIndex : nat; sp_active : bool;
  sp_written : list string; sp_timers : list nat; sp_next : nat }.

Definition FRAMES : list string := ["-"; String (chr 92) ""; "|"; "/"].

Definition sp_write (text : string) (s : spinner) : spinner := s <| sp_written := sp_written s ++ [text] |>.

Definition sp_render (s : spinner) : spinner :=
  let frame := FRAMES !! (sp_frameIndex s mod length FRAMES)%nat ?: "undefined" in
  sp_write (String (chr 13) frame +:+ " " +:+ sp_text s) (s <| sp_frameIndex := S (sp_frameIndex s) |>).

Definition sp_start (s : spinner) : spinner :=
  if sp_active s then s
  else
    let s := s <| sp_active := true |> in
    if negb (sp_isTTY s) then sp_write (sp_text s +:+ "..." +:+ line_end) s
    else
      let s := sp_render s in
      s <| sp_timer := Some (sp_next s) |> <| sp_timers := sp_timers s ++ [sp_next s] |> <| sp_next := S (sp_next s) |>.

Definition sp_stop (s : spinner) : spinner :=
  if negb (sp_active s) then s
  else
    let s := s <| sp_active := false |> in
    let s := match sp_timer s with
             | Some t => s <| sp_timers := List.filter (λ u, negb (Nat.eqb u t)) (sp_timers s) |>
             | None => s
             end in
    if sp_isTTY s then sp_write (String (chr 13) (escape "2K")) s else s.

Definition sp_succeed (text : option string) (s : spinner) : spinner :=
  let s := sp_stop s in sp_write ("[ok] " +:+ (text ?: sp_text s) +:+ line_end) s.

Definition sp_fail (text : option string) (s : spinner) : spinner :=
  let s := sp_stop s in sp_write ("[fail] " +:+ (text ?: sp_text s) +:+ line_end) s.

(** What happens to a spinner: a call of one of its methods, or a timer that fires. *)
Inductive spinner_event : Type :=
| SpStart
| SpStop
| SpSucceed (text : option string)
| SpFail (text : option string)
| SpTick (timer : nat).

Definition spinner_step (e : spinner_event) (s : spinner) : option spinner :=
  match e with
  | SpStart => Some (sp_start s)
  | SpStop => Some (sp_stop s)
  | SpSucceed text => Some (sp_succeed text s)
  | SpFail text => Some (sp_fail text s)
  | SpTick t => if existsb (Nat.eqb t) (sp_timers s) then Some (sp_render s) else None
  end.

Fixpoint spinner_run (es : list spinner_event) (s : spinner) : option spinner :=
  match es with
  | [] => Some s
  | e :: es => s' ← spinner_step e s; spinner_run es s'
  end.

Definition new_spinner (text : string) (isTTY : bool) : spinner :=
  {| sp_text := text; sp_isTTY := isTTY; sp_timer := None; sp_frameIndex := 0; sp_active := false; sp_written := [];
     sp_timers := []; sp_next := 0 |}.
