(* ===== verification/LoggerSpec.v ===== *)
(** * What the logger guarantees

    A line is written exactly for the levels that are asked for, and a JSON line reads back as its fields
    ([log_write_spec]); a pattern of namespaces matches the texts it stands for ([glob_spec]); a spinner leaves no timer
    behind ([spinner_timers]). The examples at the end are what a user would not expect. *)

From S2P Require Export Logger.

Local Open Scope string_scope.
Local Open Scope Z_scope.
Local Open Scope list_scope.

(** ** Lines *)

(** The fields of a line. *)
Definition line_meta (m : option meta) (l : logger) : meta := jspread (lo_baseMeta (lr_state l)) (stripMsg m).

(** A message is written as one piece of text to one stream exactly when its level is not below that of the logger:
    never by a silent logger, to the error stream for warnings and errors, to the output stream for the rest. The text
    ends in one line end, and as JSON it reads back as the fields of the message with those of the logger and the call,
    which come last and win. *)
Theorem log_write_spec level msg m now l : let s := lr_state l in
  let written := log_write level msg m now l in
  (level ≠ LSilent → lo_level s = LSilent → written = []) ∧
  (LEVEL_ORDER level < LEVEL_ORDER (lo_level s) → written = []) ∧
  (LEVEL_ORDER (lo_level s) <= LEVEL_ORDER level → ∃ text,
     written = [(st_id (if decide (level = LWarn ∨ level = LError) then lo_stderr s else lo_stdout s), text +:+ line_end)] ∧
     (lo_json s = true → json_ok (VObj (json_line level msg now (line_meta m l))) = true →
      json_parse text = Some (VObj (json_line level msg now (line_meta m l))))).
Proof.
  intros s written. unfold written, log_write, shouldLog. fold s. split_and!.
  - intros Hl ->. destruct level; done.
  - intros Hlt. destruct (Z.leb_spec (LEVEL_ORDER (lo_level s)) (LEVEL_ORDER level)); [lia|done].
  - intros Hle. apply Z.leb_le in Hle as ->. cbn [negb]. unfold formatMessage. fold (line_meta m l). destruct (lo_json s).
    + exists (json_stringify (VObj (json_line level msg now (line_meta m l)))). split; [by destruct level|].
      intros _ Hok. by apply json_parse_stringify.
    + destruct level; eexists; (split; [rewrite <- !app_assoc_str; reflexivity|done]).
Qed.

Definition demo_streams : out_stream * out_stream := ({| st_id := 1; st_isTTY := Some false |}, {| st_id := 2; st_isTTY := None |}).

Definition demo_logger (json : bool) : logger :=
  createLogger demo_streams.1 demo_streams.2
    {| op_baseMeta := Some [("app", VStr "qa")]; op_isTTY := None; op_json := Some json; op_level := None; op_stderr := None; op_stdout := None |}.

Lemma log_write_spec_witness : ∃ text,
  log_write LWarn "slow" (Some [("ms", VZ 12)]) (VZ 5) (demo_logger true) = [(2%nat, text +:+ line_end)] ∧
  json_parse text = Some (VObj [("level", VStr "warn"); ("msg", VStr "slow"); ("timestamp", VZ 5); ("app", VStr "qa"); ("ms", VZ 12)]).
Proof.
  destruct (log_write_spec LWarn "slow" (Some [("ms", VZ 12)]) (VZ 5) (demo_logger true)) as (_ & _ & H).
  destruct H as (text & Hw & Hj); [by vm_compute|]. exists text. split; [exact Hw|].
  apply Hj; [done|]. by vm_compute.
Defined.

Example text_lines :
  log_write LInfo "hello" (Some [("n", VZ 1); ("msg", VStr "x"); ("a", VArr [VNull])]) VNull (demo_logger false) =
    [(1%nat, "INFO hello app=qa n=1 a=[null]" +:+ line_end)] ∧
  log_write LDebug "hello" None VNull (demo_logger false) = [].
Proof. by vm_compute. Qed.

(** The fields of a call replace the level of a JSON line. *)
Example meta_replaces_level :
  json_line LError "m" VNull (line_meta (Some [("level", VStr "info")]) (demo_logger true)) =
  [("level", VStr "info"); ("msg", VStr "m"); ("timestamp", VNull); ("app", VStr "qa")].
Proof. by vm_compute. Qed.

(** The field of the object keeps the level it was made with. *)
Example level_field_stale :
  let l := applyInit {| op_baseMeta := None; op_isTTY := None; op_json := None; op_level := Some LDebug; op_stderr := None; op_stdout := None |}
             (demo_logger false) in
  lr_level l = LInfo ∧ lo_level (lr_state l) = LDebug ∧ log_write LDebug "m" None VNull l ≠ [].
Proof. by vm_compute. Qed.

(** ** Namespaces *)

(** The texts a pattern stands for. *)
Inductive stands_for : string → string → Prop :=
| sf_end : stands_for "" ""
| sf_star p s t : stands_for p t → stands_for (String "*" p) (s +:+ t)
| sf_char c p s : c ≠ "*"%char → stands_for p s → stands_for (String c p) (String c s).

(** A namespace is matched exactly when one of the patterns stands for it: a star for any text, any other character,
    those with a meaning in expressions too, for itself. *)
Theorem glob_spec p s : glob p s = true ↔ stands_for p s.
Proof.
  split.
  - revert s. induction p as [|c p IH]; intros s; cbn [glob]; [by destruct s; [constructor|]|].
    destruct (Ascii.eqb_spec c "*") as [->|Hc].
    + intros H. assert (∃ a b, s = a +:+ b ∧ glob p b = true) as (a & b & -> & Hb); [|by constructor; apply IH].
      induction s as [|d s IHs]; [exists "", ""; cbn in H; by rewrite orb_false_r in H|].
      cbn [any_suffix] in H. apply orb_prop in H as [H|H]; [by exists "", (String d s)|]. destruct (IHs H) as (a & b & -> & Hb). by exists (String d a), b.
    + destruct s as [|d s]; [done|]. intros [<-%Ascii.eqb_eq Hs]%andb_prop. constructor; [done|]. by apply IH.
  - induction 1 as [|p s t _ IH|c p s Hc _ IH]; [done| |].
    + cbn [glob]. rewrite Ascii.eqb_refl. induction s as [|d s IHs].
      * change ("" +:+ t) with t. destruct t; cbn [any_suffix]; by rewrite IH.
      * change (String d s +:+ t) with (String d (s +:+ t)). cbn [any_suffix]. by rewrite IHs, orb_true_r.
    + cbn [glob]. destruct (Ascii.eqb_spec c "*"); [done|]. by rewrite Ascii.eqb_refl.
Qed.

Example namespaces :
  matchesNamespace "mycli:project:list" ["mycli:project:*"; "mycli:user"] = true ∧ matchesNamespace "mycliXuser" ["mycli.user"] = false ∧
  matchesNamespace "a.b" ["*.b"] = true ∧ matchesNamespace "ab" ["a"; "b"] = false.
Proof. by vm_compute. Qed.

(** The options of a command line decide the namespaces alone: those of the environment are forgotten, also without a
    flag. *)
Lemma cli_init_names flags m : mo_namespaces (cli_init flags m) = setDebugNamespaces (Some (env_names (fl_debug flags))).
Proof. done. Qed.

Example env_debug_forgotten :
  let m := log_module_start demo_streams.1 demo_streams.2 None (Some "batch") in
  mo_namespaces m = Some ["batch"] ∧
  mo_namespaces (cli_init {| fl_debug := None; fl_logLevel := None; fl_verbose := true; fl_json := false |} m) = None.
Proof. by vm_compute. Qed.

(** A task that throws before it returns a promise leaves no line of its end. *)
Example no_fail_line :
  withDebug (Some ["batch"]) "batch" 0 500 (ThrowsAtOnce (JsError "x") : task_result unit) = (["start"], Err (JsError "x")) ∧
  withDebug (Some ["batch"]) "batch" 0 500 (Settles (Err (JsError "x")) : task_result unit) = (["start"; "fail +500ms"], Err (JsError "x")).
Proof. by vm_compute. Qed.

(** ** The spinner *)

(** The runtime holds a timer for a spinner only while it runs on a terminal, and then one. *)
Record spinner_ok (s : spinner) : Prop := {
  sn_timers : sp_timers s = if sp_active s && sp_isTTY s then option_list (sp_timer s) else [];
  sn_timer : sp_active s = true → sp_isTTY s = true → is_Some (sp_timer s);
  sn_plain : sp_isTTY s = false → sp_timer s = None }.

Lemma sp_start_ok s : spinner_ok s → spinner_ok (sp_start s).
Proof.
  intros [H1 H2 H3]. unfold sp_start. destruct (sp_active s) eqn:Ea; [by split; rewrite ?Ea|]. cbn.
  destruct (sp_isTTY s) eqn:Et; cbn; split; cbn; rewrite ?Et; try done. by rewrite H1.
Qed.

Lemma sp_stop_ok s : spinner_ok s → spinner_ok (sp_stop s) ∧ sp_active (sp_stop s) = false ∧ sp_timers (sp_stop s) = [].
Proof.
  intros [H1 H2 H3]. unfold sp_stop. destruct (sp_active s) eqn:Ea; cbn; [|by split; [split; rewrite ?Ea|]].
  destruct (sp_isTTY s) eqn:Et; cbn in H1.
  - destruct (H2 eq_refl eq_refl) as [t Ht]. rewrite Ht in H1 |- *. cbn. rewrite Et. cbn.
    rewrite H1. cbn. rewrite Nat.eqb_refl. cbn. split_and!; try done. split; cbn; rewrite ?Et; try done.
  - rewrite H3 by done. cbn. rewrite Et. split_and!; [|done|done]. split; cbn; rewrite ?Et; done.
Qed.

Lemma sp_write_ok text s : spinner_ok s → spinner_ok (sp_write text s).
Proof. intros [H1 H2 H3]. by split. Qed.

Lemma spinner_step_ok e s s' : spinner_ok s → spinner_step e s = Some s' → spinner_ok s'.
Proof.
  intros Hs. destruct e as [| |text|text|t]; cbn; [| | | |destruct (existsb _ _); [|done]]; intros [= <-].
  - by apply sp_start_ok.
  - by apply sp_stop_ok.
  - by apply sp_write_ok, sp_stop_ok.
  - by apply sp_write_ok, sp_stop_ok.
  - destruct Hs as [H1 H2 H3]. by split.
Qed.

(** However it is started, stopped and ended, a spinner has at most one timer, only on a terminal and while it is
    active: none is left once it is stopped, has succeeded or has failed. *)
Theorem spinner_timers es text tty s : spinner_run es (new_spinner text tty) = Some s →
  (length (sp_timers s) <= 1)%nat ∧ (sp_timers s = [] ∨ sp_active s = true ∧ sp_isTTY s = true) ∧
  ∀ e s', (e = SpStop ∨ (∃ t, e = SpSucceed t) ∨ ∃ t, e = SpFail t) → spinner_step e s = Some s' → sp_timers s' = [].
Proof.
  assert (H : spinner_ok (new_spinner text tty)) by by split. revert H. generalize (new_spinner text tty). intros s0 H Hr.
  assert (Hs : spinner_ok s).
  { revert s0 H Hr. induction es as [|e es IH]; intros s0 H; cbn; [by intros [= <-]|].
    destruct (spinner_step e s0) as [s1|] eqn:E; [|done]. by eapply IH, spinner_step_ok. }
  destruct (sp_stop_ok s Hs) as (_ & _ & Hstop). destruct Hs as [H1 H2 H3]. split_and!.
  - rewrite H1. destruct (sp_active s && sp_isTTY s); [|cbn; lia]. destruct (sp_timer s); cbn; lia.
  - destruct (sp_active s), (sp_isTTY s); cbn in H1; auto.
  - intros e s' [->|[[t ->]|[t ->]]] [= <-]; done.
Qed.
