(* ===== verification/Service.v ===== *)
(** * The running service

    Every entry point of the server (the timer, the streams and the routes) under every interleaving:
    the invariants of PollerInv.v as theorems about reachable states. *)

From stdpp Require Import gmap.
From S2P Require Export PollerInv ScheduleApi.

Local Open Scope string_scope.
Local Open Scope Z_scope.
Local Open Scope list_scope.

#[export] Hint Resolve safe_lan_call safe_pollNow safe_tryResolveHost safe_createStreamResponse : safe.

Section Safe.
Context `{Runtime} (LOG_IDENTIFIER : string).

Lemma safe_ignore {A} (p : poller A) : safe p → safe (ignore p).
Proof. intros Hp. apply safe_bind; [done|]. intros. apply safe_ret. Qed.

Lemma safe_refresh b u : safe (refresh_after b u).
Proof.
  destruct b; [|apply safe_ret]. apply safe_bind; [apply safe_boostDevice|]. intros _.
  apply safe_fork, safe_catch; [apply safe_ignore, safe_pollNow|]. intros. apply safe_ret.
Qed.

Lemma safe_on_lan u f : (∀ host key, safe (f host key)) → safe (on_lan u f).
Proof.
  intros Hf. apply safe_catch; [|intros; apply safe_ret]. apply safe_bind; [apply safe_requireLanHost|].
  intros host. apply safe_bind; [apply safe_requireLanKey|]. intros key. apply Hf.
Qed.

Lemma safe_calls t : safe (getSystemAll t).
Proof. apply safe_lan_call. Qed.

Lemma safe_suggest : safe suggestCidrsNow ∧ safe defaultSuggestedCidrNow.
Proof. split; unfold suggestCidrsNow, defaultSuggestedCidrNow; safe_tac. Qed.

Lemma safe_default_cidr c : safe (default_cidr c).
Proof. unfold default_cidr, defaultSuggestedCidrNow. safe_tac. Qed.

Lemma safe_warm_up c : safe (warm_up c).
Proof. apply safe_catch; [apply safe_pingSweep|intros; apply safe_ret]. Qed.
End Safe.

#[export] Hint Resolve safe_refresh safe_default_cidr safe_warm_up : safe.

(** Proves a handler safe: the calls to a device are [lan_call]s. *)
Ltac handler_tac :=
  safe_tac; try solve [apply safe_lan_call | apply safe_suggest].

Section Routes.
Context `{Runtime} (LOG_IDENTIFIER : string) (TELEMETRY_INTERVAL_MS : Z).

Lemma safe_config_handlers (req : api_request) :
  safe getStatusHandler ∧ safe getCloudCreds ∧ safe getCloudDevices ∧ safe getHosts ∧ safe getNetworkCidr ∧
  safe (postNetworkCidr req) ∧ safe suggestLanCidr.
Proof.
  unfold getStatusHandler, getCloudCreds, getCloudDevices, getHosts, getNetworkCidr, postNetworkCidr, suggestLanCidr,
    apiOk, apiErr. cbv zeta. split_and!; handler_tac.
Qed.

(** *** The cloud *)

Lemma safe_authenticatedPost e params d o : safe (authenticatedPost e params d o).
Proof. unfold authenticatedPost. handler_tac. Qed.

Lemma safe_redirect_loop n e params d o : safe (redirect_loop n e params d o).
Proof.
  revert d. induction n as [|n IH]; intros d; cbn [redirect_loop]; (apply safe_bind; [apply safe_authenticatedPost|]);
    handler_tac.
Qed.

Lemma safe_login_loop params o l : safe (login_loop params o l).
Proof.
  induction l as [|c l IH]; cbn [login_loop]; [apply safe_ret|].
  apply safe_bind; [apply safe_redirect_loop|]. handler_tac.
Qed.

Lemma safe_merossCloudLogin params o : safe (merossCloudLogin LOG_IDENTIFIER params o).
Proof.
  unfold merossCloudLogin. apply safe_bind; [apply safe_sys|]. intros os.
  apply safe_bind; [apply safe_login_loop|]. handler_tac.
Qed.

Lemma safe_merossCloudListDevices c t : safe (merossCloudListDevices c t).
Proof. unfold merossCloudListDevices. apply safe_bind; [apply safe_redirect_loop|]. handler_tac. Qed.

Lemma safe_cloud_handlers req : safe (refreshCloudDevices req) ∧ safe (loginCloud LOG_IDENTIFIER req).
Proof.
  pose proof safe_merossCloudLogin. pose proof safe_merossCloudListDevices.
  unfold refreshCloudDevices, loginCloud, cloud_failure, mfa_answer, apiOk, apiErr. cbv zeta. split; handler_tac.
Qed.

(** *** Hosts *)

Lemma safe_scan_hosts u c k t m : safe (scan_hosts u c k t m).
Proof. unfold scan_hosts. handler_tac. Qed.

Lemma safe_search_by_mac u m c t : safe (search_by_mac u m c t).
Proof. pose proof safe_scan_hosts. unfold search_by_mac. cbv zeta. handler_tac. Qed.

Lemma safe_search_by_uuid u c t : safe (search_by_uuid u c t).
Proof. pose proof safe_scan_hosts. unfold search_by_uuid. handler_tac. Qed.

Lemma safe_host_handlers req : safe (discoverHosts req) ∧ safe (resolveHost req).
Proof.
  pose proof safe_search_by_mac. pose proof safe_search_by_uuid.
  unfold discoverHosts, resolveHost, missing_uuid, invalid_cidr, apiOk, apiErr. cbv zeta. split; handler_tac.
Qed.

(** *** Devices *)

Lemma safe_state_handlers b req : safe (getDeviceSystemAll req) ∧ safe (getDeviceState b req) ∧ safe (getDeviceStates req).
Proof.
  unfold getDeviceSystemAll, getDeviceState, getDeviceStates, polled_state, direct_state, missing_uuid,
    invalid_channel, state_answer, getSystemAll, apiOk, apiErr. cbv zeta.
  split_and!; repeat first [apply safe_on_lan | handler_tac].
Qed.

Lemma safe_toggle_call l t c o : safe (toggle_call l t c o).
Proof. unfold toggle_call, setLight, setToggleX. cbv zeta. handler_tac. Qed.

Lemma safe_command_handlers b req : safe (toggleDevice b req) ∧ safe (setDeviceLight b req).
Proof.
  pose proof safe_toggle_call.
  unfold toggleDevice, setDeviceLight, missing_uuid, invalid_channel, setLight, apiOk, apiErr. cbv zeta.
  split; repeat first [apply safe_on_lan | handler_tac].
Qed.

Lemma safe_on_channel body f : (∀ u c, safe (f u c)) → safe (on_channel body f).
Proof. intros Hf. unfold on_channel, missing_uuid, invalid_channel, apiErr. cbv zeta. handler_tac. Qed.

Lemma safe_telemetry_handlers req : safe (getDeviceElectricity req) ∧ safe (getDeviceConsumptionX req) ∧
  safe (getTelemetryPowerCurrent req) ∧ safe (getTelemetryPowerHistory req).
Proof.
  unfold getDeviceElectricity, getDeviceConsumptionX, getTelemetryPowerCurrent, getTelemetryPowerHistory,
    getElectricity, getConsumptionX, apiOk, apiErr. cbv zeta.
  split_and!; apply safe_on_channel; intros u c; repeat first [apply safe_on_lan | handler_tac].
Qed.

(** *** Schedules *)

Lemma safe_for_fold {A B} (l : list A) (acc : B) f : (∀ acc x, safe (f acc x)) → safe (for_fold l acc f).
Proof. intros Hf. revert acc. induction l as [|x l IH]; intros acc; [apply safe_ret|]. apply safe_bind; auto. Qed.

Lemma safe_list_handlers req : safe (getDeviceTimerX req) ∧ safe (getDeviceTriggerX req).
Proof.
  unfold getDeviceTimerX, getDeviceTriggerX, missing_uuid, getSystemAll, apiOk, apiErr. cbv zeta. split;
    repeat first [apply safe_on_lan | apply safe_for_fold | handler_tac].
  unfold list_timer, getTimerX. handler_tac.
Qed.

Lemma safe_set_rule b kind call req : (∀ t v, safe (call t v)) → safe (set_rule b kind call req).
Proof.
  intros Hc. unfold set_rule, missing_uuid, apiOk, apiErr. cbv zeta. repeat first [apply safe_on_lan | handler_tac].
Qed.

Lemma safe_patch b req : safe (patchDeviceTimerX b req).
Proof.
  unfold patchDeviceTimerX, missing_uuid, missing_id, getTimerX, setTimerX, apiOk, apiErr. cbv zeta.
  repeat first [apply safe_on_lan | handler_tac].
Qed.

Lemma safe_delete_answer b u h i l f call r : (∀ v, safe (call v)) → safe (delete_answer b u h i l f call r).
Proof. intros Hc. unfold delete_answer, delete_rule, apiOk. handler_tac. Qed.

Lemma safe_delete_handlers b req : safe (deleteDeviceTimerX b req) ∧ safe (deleteDeviceTriggerX b req).
Proof.
  unfold deleteDeviceTimerX, deleteDeviceTriggerX, missing_uuid, missing_id, getTimerX, getTriggerX, apiErr. cbv zeta.
  split; repeat first [apply safe_on_lan | apply safe_delete_answer | handler_tac].
Qed.

Lemma safe_json h : safe h → safe (json h).
Proof. intros Hh. apply safe_bind; [done|]. intros. apply safe_ret. Qed.

(** Every route. *)
Lemma safe_route path m f req : route LOG_IDENTIFIER path m = Some f → safe (f req).
Proof.
  intros Hf. apply jget_elem in Hf.
  destruct (safe_config_handlers req) as (? & ? & ? & ? & ? & ? & ?), (safe_cloud_handlers req),
    (safe_host_handlers req), (safe_state_handlers true req) as (? & ? & ?), (safe_command_handlers true req),
    (safe_telemetry_handlers req) as (? & ? & ? & ?), (safe_list_handlers req), (safe_delete_handlers true req).
  pose proof (safe_patch true req).
  assert (safe (setDeviceTimerX true req)) by (apply safe_set_rule; intros; apply safe_lan_call).
  assert (safe (setDeviceTriggerX true req)) by (apply safe_set_rule; intros; apply safe_lan_call).
  unfold apiRoutes in Hf. repeat (apply elem_of_cons in Hf as [Hf|Hf]; [injection Hf as _ _ ->; try by apply safe_json|]).
  - apply safe_bind; [apply safe_createStreamResponse|]. intros. apply safe_ret.
  - apply safe_json. unfold getEventsStatus, apiOk. handler_tac.
  - by apply elem_of_nil in Hf.
Qed.
End Routes.

(** ** Reachable states *)

Section Reachable.
Context `{Runtime} (LOG_IDENTIFIER : string) (TELEMETRY_INTERVAL_MS : Z).

(** What starts a thread: the timers, a request, a client that leaves. *)
Inductive service_entry : poller unit → Prop :=
| en_tick : service_entry (tick TELEMETRY_INTERVAL_MS)
| en_request path m f req : route LOG_IDENTIFIER path m = Some f → service_entry (ignore (f req))
| en_heartbeat id : service_entry (heartbeat id)
| en_cancel id : service_entry (cancelStream id).

Definition service_steps : @threads server pval sysE → @threads server pval sysE → Prop :=
  steps server_sync settled_as service_entry.

Definition service_start : @threads server pval sysE := {| th_state := initial_server; th_threads := [] |}.

Definition service_reaches (c : @threads server pval sysE) : Prop := service_steps service_start c.

Lemma service_entry_ok : entry_ok server_sync settled_as inv trans relies sv_next service_entry.
Proof.
  assert (Hs : ∀ (q : poller unit) s, safe q → inv s → rgp q any ∅ s) by (intros q s Hq Hi; eapply rg_mono, Hq, Hi; done).
  intros q s Hq Hi. apply Hs; [|done]. destruct Hq.
  - apply safe_tick.
  - apply safe_ignore. by eapply safe_route.
  - apply safe_heartbeat.
  - apply safe_cancel.
Qed.

Lemma inv_initial : inv initial_server.
Proof.
  split; cbn; try done; try (by intros ? ? ?%elem_of_nil); try (by split; constructor); try apply announced_nil; try by constructor.
  - intros u. split; [constructor|]. by intros v ?%elem_of_nil.
  - intros u. split; [constructor|]. by intros v ?%elem_of_nil.
Qed.

Abbreviation all_ok := (threads_ok server_sync settled_as inv trans relies sv_next).

Lemma service_moves c c' : all_ok c → service_steps c c' → all_ok c' ∧ inv (th_state c') ∧ trans (th_state c) (th_state c').
Proof.
  intros Hc Hs. eapply reachable_ok; [exact trans_refl|exact trans_trans|exact relies_refl|exact relies_trans
    |exact service_entry_ok|exact Hc|exact Hs].
Qed.

Lemma service_ok c : service_reaches c → all_ok c ∧ inv (th_state c).
Proof.
  intros Hc. destruct (service_moves service_start c) as (? & ? & _); [|done|done].
  apply threads_ok_init; [..|apply inv_initial]; eauto using trans_refl, trans_trans, relies_refl, relies_trans.
Qed.

Lemma service_inv c : service_reaches c → inv (th_state c).
Proof. intros Hc. by apply service_ok. Qed.

Lemma service_trans c c' : service_reaches c → service_steps c c' → trans (th_state c) (th_state c').
Proof. intros Hc Hs. destruct (service_ok c Hc) as [Hok _]. by apply (service_moves c c' Hok Hs). Qed.

(** A poll that has started and not ended. *)
Definition running (polls : list (nat * string)) (s : server) (uuid : string) (pid : nat) : Prop :=
  (pid, uuid) ∈ polls ∧ settled_as s pid = None.

(** C1: however the timer, the requests and the polls they start interleave, a device has at most one
    poll of its state running at any time, and at most one of its telemetry, and it is the one that
    the in-flight table holds, so that every caller waits for the same poll. *)
Theorem single_flight c uuid : service_reaches c →
  let s := th_state c in
  (∀ p1 p2, running (sv_polls s) s uuid p1 → running (sv_polls s) s uuid p2 → p1 = p2) ∧
  (∀ p, running (sv_polls s) s uuid p → jget uuid (sv_inFlight s) = Some p) ∧
  (∀ p1 p2, running (sv_telPolls s) s uuid p1 → running (sv_telPolls s) s uuid p2 → p1 = p2) ∧
  (∀ p, running (sv_telPolls s) s uuid p → jget uuid (sv_telInFlight s) = Some p).
Proof.
  intros Hi%service_inv. cbv zeta.
  assert (H1 : ∀ p, running (sv_polls (th_state c)) (th_state c) uuid p → jget uuid (sv_inFlight (th_state c)) = Some p).
  { intros p [Hp Hn]. by apply (in_polls _ Hi). }
  assert (H2 : ∀ p, running (sv_telPolls (th_state c)) (th_state c) uuid p → jget uuid (sv_telInFlight (th_state c)) = Some p).
  { intros p [Hp Hn]. by apply (in_telPolls _ Hi). }
  split_and!; [|done| |done]; intros p1 p2 Hp1 Hp2.
  - apply H1 in Hp1. apply H1 in Hp2. congruence.
  - apply H2 in Hp1. apply H2 in Hp2. congruence.
Qed.

Lemma versions_lookup uuid (l : list (string * Z)) i j v w :
  l !! i = Some (uuid, v) → l !! j = Some (uuid, w) → (i < j)%nat → StronglySorted Z.lt (versions uuid l) → v < w.
Proof.
  revert i j. induction l as [|[u x] l IH]; intros i j Hi Hj Hij; [done|].
  unfold versions. simpl. fold (versions uuid l). destruct i as [|i].
  - injection Hi as -> ->. rewrite decide_True by done. inversion 1 as [|? ? Hs Hf]; subst.
    destruct j as [|j]; [lia|]. rewrite Forall_forall in Hf. apply Hf.
    apply list_elem_of_omap. exists (uuid, w). split; [by eapply list_elem_of_lookup_2|]. simpl. by rewrite decide_True.
  - destruct j as [|j]; [lia|]. simpl in *. case_decide; [inversion 1; subst|intros]; eapply (IH i j); eauto; lia.
Qed.

Lemma msgs_lookup (f : sse_message → option (string * Z)) (log : list sse_message) (i j : nat) m n p q :
  log !! i = Some m → log !! j = Some n → f m = Some p → f n = Some q → (i < j)%nat →
  ∃ a b, (a < b)%nat ∧ omap f log !! a = Some p ∧ omap f log !! b = Some q.
Proof.
  revert i j. induction log as [|x log IH]; intros i j Hi Hj Hm Hn Hij; [done|]. destruct j as [|j]; [lia|].
  destruct i as [|i]; simpl in *; simplify_eq.
  - rewrite Hm. assert (q ∈ omap f log) as [b Hb]%list_elem_of_lookup_1.
    { apply list_elem_of_omap. exists n. split; [by eapply list_elem_of_lookup_2|done]. }
    exists 0%nat, (S b). split_and!; [lia|done|done].
  - destruct (IH i j Hi Hj Hm Hn ltac:(lia)) as (a & b & ? & Ha & Hb).
    destruct (f x); [exists (S a), (S b)|exists a, b]; split_and!; try done; lia.
Qed.

(** The state or the reading that a message is about, a notice included. *)
Definition state_sent (m : sse_message) : option DeviceStateDto :=
  match m with MsgState d | MsgStale d => Some d | _ => None end.
Definition power_sent (m : sse_message) : option DevicePowerDto :=
  match m with MsgPower p | MsgPowerStale p => Some p | _ => None end.

(** The message itself, or the one a notice repeats. *)
Definition base_of (m : sse_message) : sse_message := notice_of m ?: m.

Lemma announced_base log i m : announced log → log !! i = Some m →
  ∃ b, log !! b = Some (base_of m) ∧ ((b = i ∧ notice_of m = None) ∨ (i = S b ∧ notice_of m = Some (base_of m))).
Proof.
  intros Ha Hm. unfold base_of. destruct (notice_of m) as [m'|] eqn:En; [|exists i; by auto].
  destruct (Ha i m m' Hm En) as (b & -> & Hb). exists b. by auto.
Qed.

(** Of two messages the later one repeats the earlier one, or they repeat messages in the same order. *)
Lemma announced_order log (i j : nat) m n : announced log → log !! i = Some m → log !! j = Some n → (i < j)%nat →
  (j = S i ∧ notice_of n = Some m) ∨
  ∃ a b, (a < b)%nat ∧ log !! a = Some (base_of m) ∧ log !! b = Some (base_of n).
Proof.
  intros Ha Hm Hn Hij. destruct (announced_base _ _ _ Ha Hm) as (a & Hla & Hca), (announced_base _ _ _ Ha Hn) as (b & Hlb & Hcb).
  destruct (decide (a < b)%nat) as [|Hle]; [right; eauto 10|left].
  destruct Hca as [[-> Hnone]|[-> _]]; [|lia]. destruct Hcb as [[-> _]|[-> En]]; [lia|]. assert (b = i) as -> by lia. split; [done|].
  congruence.
Qed.

(** The versions of the messages a projection selects, when those that are no notices increase. *)
Lemma versions_order (f : sse_message → option (string * Z)) log i j m n u v w :
  announced log → StronglySorted Z.lt (versions u (omap f log)) → log !! i = Some m → log !! j = Some n → (i < j)%nat →
  f (base_of m) = Some (u, v) → f (base_of n) = Some (u, w) → v < w ∨ (j = S i ∧ notice_of n = Some m).
Proof.
  intros Ha Hs Hm Hn Hij Hv Hw. destruct (announced_order _ _ _ _ _ Ha Hm Hn Hij) as [?|(a & b & Hab & Hla & Hlb)]; [by right|left].
  destruct (msgs_lookup f log a b _ _ _ _ Hla Hlb Hv Hw Hab) as (x & y & Hxy & Hx & Hy). by eapply versions_lookup.
Qed.

Lemma versions_kept (f : sse_message → option (string * Z)) ver log i m u v : announced log → versioned ver (omap f log) →
  log !! i = Some m → f (base_of m) = Some (u, v) → ∃ w, ver u = Some w ∧ v <= w.
Proof.
  intros Ha Hv Hm Hf. destruct (announced_base _ _ _ Ha Hm) as (b & Hb & _). apply (proj2 (Hv u)).
  apply list_elem_of_omap. exists (u, v). split; [|simpl; by rewrite decide_True].
  apply list_elem_of_omap. exists (base_of m). split; [by eapply list_elem_of_lookup_2|done].
Qed.

Definition state_version (m : sse_message) : option (string * Z) :=
  match m with MsgState d => Some (ds_uuid d, ds_updatedAt d) | _ => None end.
Definition power_version (m : sse_message) : option (string * Z) :=
  match m with MsgPower p => Some (dp_uuid p, dp_updatedAt p) | _ => None end.

Lemma state_sent_base m d : state_sent m = Some d → state_version (base_of m) = Some (ds_uuid d, ds_updatedAt d).
Proof. by destruct m; intros [= ->]. Qed.

Lemma power_sent_base m p : power_sent m = Some p → power_version (base_of m) = Some (dp_uuid p, dp_updatedAt p).
Proof. by destruct m; intros [= ->]. Qed.

(** C2: no state that the server sent, as such or in a stale notice, is newer than the one it keeps for the device. Of two
    messages about one device the later one has the greater version, or it is the stale notice that
    repeats the state of the message directly before it; so are the readings of its power. Every notice
    directly follows the message it repeats, in all that was sent and in what each subscriber got. *)
Theorem versions_increase c : service_reaches c →
  let s := th_state c in let log := sv_log s in
  (∀ m d, m ∈ log → state_sent m = Some d →
     ∃ kept, jget (ds_uuid d) (sv_state s) = Some kept ∧ ds_updatedAt d <= ds_updatedAt kept) ∧
  (∀ m p, m ∈ log → power_sent m = Some p →
     ∃ kept, jget (dp_uuid p) (sv_power s) = Some kept ∧ dp_updatedAt p <= dp_updatedAt kept) ∧
  (∀ i j m n d d', log !! i = Some m → log !! j = Some n → (i < j)%nat →
     state_sent m = Some d → state_sent n = Some d' → ds_uuid d = ds_uuid d' →
     ds_updatedAt d < ds_updatedAt d' ∨ (j = S i ∧ notice_of n = Some m)) ∧
  (∀ i j m n p p', log !! i = Some m → log !! j = Some n → (i < j)%nat →
     power_sent m = Some p → power_sent n = Some p' → dp_uuid p = dp_uuid p' →
     dp_updatedAt p < dp_updatedAt p' ∨ (j = S i ∧ notice_of n = Some m)) ∧
  announced log ∧ ∀ id, announced (sent_to id s).
Proof.
  intros Hi%service_inv s log. pose proof (in_notices _ Hi) as Ha. split_and!.
  - intros m d [i Hm]%list_elem_of_lookup_1 Hd%state_sent_base.
    destruct (versions_kept _ _ _ _ _ _ _ Ha (in_states _ Hi) Hm Hd) as (w & Hw & Hle).
    unfold ver_state in Hw. apply fmap_Some in Hw as (k & Hk & ->). by exists k.
  - intros m p [i Hm]%list_elem_of_lookup_1 Hp%power_sent_base.
    destruct (versions_kept _ _ _ _ _ _ _ Ha (in_powers _ Hi) Hm Hp) as (w & Hw & Hle).
    unfold ver_power in Hw. apply fmap_Some in Hw as (k & Hk & ->). by exists k.
  - intros i j m n d d' Hm Hn Hij Hd%state_sent_base Hd'%state_sent_base Hu. rewrite <- Hu in Hd'.
    eapply versions_order; [exact Ha|apply (in_states _ Hi)|exact Hm|exact Hn|exact Hij|exact Hd|exact Hd'].
  - intros i j m n p p' Hm Hn Hij Hp%power_sent_base Hp'%power_sent_base Hu. rewrite <- Hu in Hp'.
    eapply versions_order; [exact Ha|apply (in_powers _ Hi)|exact Hm|exact Hn|exact Hij|exact Hp|exact Hp'].
  - exact Ha.
  - apply (in_sent _ Hi).
Qed.

(** No subscriber is there twice. *)
Lemma subs_distinct c : service_reaches c → NoDup (sv_subs (th_state c)).
Proof. intros Hi%service_inv. apply (in_subs _ Hi). Qed.

(** C3: what the server keeps only moves forward: a state or a reading once kept for a device stays,
    with versions that never decrease; a promise keeps its outcome; what was sent stays sent. *)
Theorem states_forward c c' : service_reaches c → service_steps c c' →
  let s := th_state c in let s' := th_state c' in
  (∀ uuid d, jget uuid (sv_state s) = Some d → ∃ d', jget uuid (sv_state s') = Some d' ∧ ds_updatedAt d <= ds_updatedAt d') ∧
  (∀ uuid p, jget uuid (sv_power s) = Some p → ∃ p', jget uuid (sv_power s') = Some p' ∧ dp_updatedAt p <= dp_updatedAt p') ∧
  (∀ pid r, settled_as s pid = Some r → settled_as s' pid = Some r) ∧ sv_log s `prefix_of` sv_log s'.
Proof.
  intros Hc Hs. destruct (service_trans c c' Hc Hs) as [Hst Hpw Hlog Hset _ _ _]. cbv zeta. split_and!; [| |done|done].
  - intros u d Hd. destruct (Hst u (ds_updatedAt d)) as (w & Hw & Hle); [unfold ver_state; by rewrite Hd|].
    unfold ver_state in Hw. apply fmap_Some in Hw as (d' & ? & ->). eauto.
  - intros u d Hd. destruct (Hpw u (dp_updatedAt d)) as (w & Hw & Hle); [unfold ver_power; by rewrite Hd|].
    unfold ver_power in Hw. apply fmap_Some in Hw as (d' & ? & ->). eauto.
Qed.

(** C4: a state kept or sent carries an error exactly when it is stale, and belongs to the device it
    is kept for; only stale states are announced as stale. *)
Theorem stale_has_error c : service_reaches c →
  let s := th_state c in
  (∀ uuid d, jget uuid (sv_state s) = Some d → ds_uuid d = uuid ∧ (ds_stale d = true ↔ is_Some (ds_error d))) ∧
  (∀ uuid p, jget uuid (sv_power s) = Some p → dp_uuid p = uuid ∧ (dp_stale p = true ↔ is_Some (dp_error p))) ∧
  (∀ d, MsgState d ∈ sv_log s → ds_stale d = true ↔ is_Some (ds_error d)) ∧
  (∀ d, MsgStale d ∈ sv_log s → ds_stale d = true ∧ is_Some (ds_error d)).
Proof.
  intros Hi%service_inv. cbv zeta. pose proof (in_msgs _ Hi) as Hm. rewrite Forall_forall in Hm. split_and!.
  - apply (in_state_ok _ Hi).
  - apply (in_power_ok _ Hi).
  - intros d Hd. by apply (Hm _ Hd).
  - intros d Hd. destruct (Hm _ Hd) as [[_ Hs] Hst]. split; [done|by apply Hs].
Qed.
End Reachable.

(** ** A run of the service *)

Definition demo_config : MerossConfig :=
  {| cf_cloud := Some ({| cc_domain := "iot.meross.com"; cc_mqttDomain := None; cc_token := "t"; cc_key := "k";
                          cc_userId := "1"; cc_userEmail := "a@b" |}, "now");
     cf_devices := None;
     cf_hosts := Some [("u1", {| he_host := "10.0.0.9"; he_updatedAt := "now"; he_mac := None |})];
     cf_network := None |}.

Definition demo_reply (onoff : Z) : val :=
  VObj [("payload", VObj [("all", VObj [("digest", VObj
    [("togglex", VArr [VObj [("channel", VZ 0); ("onoff", VZ onoff)]])])])])].

(** The network answers with the device switched on. *)
Definition demo_answer (onoff : Z) (X : Type) (e : sysE X) : X :=
  test_answer (ConfigText demo_config) (λ _ _, json_response (demo_reply onoff)) X 0 e.

Abbreviation service := (@threads server pval sysE).

Definition demo_call (onoff : Z) (q : poller unit) (c : service) : service :=
  call_run server_sync (demo_answer onoff) q c.
Definition demo_resume (onoff : Z) (i : nat) (c : service) : service :=
  resume_run server_sync settled_as (demo_answer onoff) i c.

Lemma demo_resumes log i onoff l c :
  service_steps (H := test_runtime) log i c (fold_left (λ c i, demo_resume onoff i c) l c).
Proof.
  revert c. induction l as [|k l IH]; intros c; [apply rtc_refl|]. simpl.
  eapply steps_trans; [apply resume_run_steps|apply IH].
Qed.

(** The timer starts a poll of the state and one of the power of the only device. *)
Definition demo_running : service :=
  fold_left (λ c i, demo_resume 1 i c) [0%nat] (demo_call 1 (tick (H := test_runtime) 10000) service_start).

(** The device answers. *)
Definition demo_polled : service := fold_left (λ c i, demo_resume 1 i c) [2; 2; 2; 1]%nat demo_running.

Definition demo_request : api_request :=
  {| rb_contentType := Some "application/json"; rb_body := json_stringify (VObj [("uuid", VStr "u1")]) |}.

Definition demo_handler : poller api_answer := json (getDeviceState (H := test_runtime) true demo_request).

(** Then it is switched off, and a request asks for its state. *)
Definition demo_end : service :=
  fold_left (λ c i, demo_resume 0 i c) [5; 6; 6; 7; 7; 7; 8; 8; 8; 7; 6; 5]%nat
    (demo_call 0 (ignore demo_handler) demo_polled).

Lemma demo_running_reached : service_reaches (H := test_runtime) "log" 10000 demo_running.
Proof. eapply steps_trans; [|apply demo_resumes]. apply rtc_once, call_run_step, en_tick. Qed.

Lemma demo_polled_reached : service_reaches (H := test_runtime) "log" 10000 demo_polled.
Proof. eapply steps_trans; [apply demo_running_reached|apply demo_resumes]. Qed.

Lemma demo_end_steps : service_steps (H := test_runtime) "log" 10000 demo_polled demo_end.
Proof.
  eapply steps_trans; [|apply demo_resumes]. apply rtc_once, call_run_step.
  by apply (en_request _ _ "/api/device/state" POST (λ req, json (getDeviceState (H := test_runtime) true req)) demo_request).
Qed.

Lemma demo_end_reached : service_reaches (H := test_runtime) "log" 10000 demo_end.
Proof. eapply steps_trans; [apply demo_polled_reached|apply demo_end_steps]. Qed.

Lemma single_flight_witness :
  sv_polls (th_state demo_running) = [(0%nat, "u1")] ∧ settled_as (th_state demo_running) 0 = None ∧
  jget "u1" (sv_inFlight (th_state demo_running)) = Some 0%nat.
Proof.
  destruct (@single_flight test_runtime "log" 10000 demo_running "u1" demo_running_reached) as (_ & Hr & _).
  assert (Hp : sv_polls (th_state demo_running) = [(0%nat, "u1")]) by (vm_compute; reflexivity).
  assert (Hn : settled_as (th_state demo_running) 0 = None) by (vm_compute; reflexivity).
  split; [exact Hp|]. split; [exact Hn|]. apply Hr. split; [rewrite Hp; left|exact Hn].
Defined.

(** The [i]-th message of the run, a state. *)
Definition demo_state (i : nat) : DeviceStateDto :=
  match sv_log (th_state demo_end) !! i with
  | Some (MsgState d) => d
  | _ => stale_state "" None None 0 RPoller ""
  end.

Lemma versions_increase_witness :
  sv_log (th_state demo_end) !! 1%nat = Some (MsgState (demo_state 1)) ∧
  sv_log (th_state demo_end) !! 2%nat = Some (MsgState (demo_state 2)) ∧
  ds_updatedAt (demo_state 1) < ds_updatedAt (demo_state 2).
Proof.
  assert (H1 : sv_log (th_state demo_end) !! 1%nat = Some (MsgState (demo_state 1))) by (vm_compute; reflexivity).
  assert (H2 : sv_log (th_state demo_end) !! 2%nat = Some (MsgState (demo_state 2))) by (vm_compute; reflexivity).
  split; [exact H1|]. split; [exact H2|].
  destruct (@versions_increase test_runtime "log" 10000 demo_end demo_end_reached) as (_ & _ & Hv & _).
  destruct (Hv 1%nat 2%nat _ _ _ _ H1 H2 (le_n 2) eq_refl eq_refl) as [Hlt|[_ Hn]]; [vm_compute; reflexivity|exact Hlt|discriminate Hn].
Defined.

Lemma states_forward_witness : ∃ d d',
  jget "u1" (sv_state (th_state demo_polled)) = Some d ∧ jget "u1" (sv_state (th_state demo_end)) = Some d' ∧
  ds_updatedAt d <= ds_updatedAt d'.
Proof.
  destruct (jget "u1" (sv_state (th_state demo_polled))) as [d|] eqn:Ed; [|vm_compute in Ed; discriminate Ed].
  destruct (@states_forward test_runtime "log" 10000 _ _ demo_polled_reached demo_end_steps) as (Hs & _).
  destruct (Hs "u1" d Ed) as (d' & Hd' & Hle). exists d, d'. auto.
Defined.

Lemma stale_has_error_witness : ∃ d,
  jget "u1" (sv_state (th_state demo_polled)) = Some d ∧ ds_uuid d = "u1" ∧ (ds_stale d = true ↔ is_Some (ds_error d)).
Proof.
  destruct (jget "u1" (sv_state (th_state demo_polled))) as [d|] eqn:Ed; [|vm_compute in Ed; discriminate Ed].
  destruct (@stale_has_error test_runtime "log" 10000 _ demo_polled_reached) as (Hs & _).
  exists d. split; [reflexivity|]. exact (Hs "u1" d Ed).
Defined.
