(* ===== verification/PollerSpec.v ===== *)
(** * What one block of the poller does

    The parts of state-poller.ts that run without suspending are single changes of the server's
    state; their effect on every field is stated here: the bookkeeping of a failed poll, the start of
    the due polls, the first messages of a stream. *)

From S2P Require Export Poller.

Local Open Scope string_scope.
Local Open Scope Z_scope.
Local Open Scope list_scope.

Abbreviation block := (adv server_sync).
Abbreviation blkp := (blk server_sync).

(** ** One operation before the rest *)

Lemma blk_modify {A} (f : server → server) (k : poller A) Q s : blkp k Q (f s) → blkp (modify f ;;! k) Q s.
Proof. done. Qed.

Lemma blk_gets {A B} (f : server → B) (k : B → poller A) Q s : blkp (k (f s)) Q s → blkp (let! x := gets f in k x) Q s.
Proof. done. Qed.

Lemma blk_now {A} (k : Z → poller A) Q s : (∀ t, blkp (k t) Q s) → blkp (let! t := sys Now in k t) Q s.
Proof. intros Hk. by split. Qed.

Lemma blk_version {A} (prev : option DeviceStateDto) (k : Z → poller A) Q s :
  (∀ t, blkp (k (next_version t (ds_updatedAt <$> prev))) Q s) → blkp (let! v := nextUpdatedAt prev in k v) Q s.
Proof. intros Hk. by split. Qed.

Lemma blk_then {A B} (p : poller A) (k : A → poller B) Q s :
  blkp p (λ r s' l, ∃ a, r = Ok a ∧ l = [] ∧ blkp (k a) Q s') s → blkp (bind p k) Q s.
Proof.
  intros Hp. apply blk_bind. eapply blk_mono, Hp. intros r s' l (a & -> & -> & Hk). done.
Qed.

Lemma block_gets {A B} (f : server → B) (k : B → poller A) s p' s' l :
  block (let! x := gets f in k x) s p' s' l → block (k (f s)) s p' s' l.
Proof. done. Qed.

Lemma block_modify {A} (f : server → server) (k : poller A) s p' s' l :
  block (modify f ;;! k) s p' s' l → block k (f s) p' s' l.
Proof. done. Qed.

Lemma block_now {A} (k : Z → poller A) s p' s' l :
  block (let! t := sys Now in k t) s p' s' l → ∃ t, block (k t) s p' s' l.
Proof. done. Qed.

(** ** Messages *)

(** A message to the subscribers: it is recorded and sent to those whose connection takes it, in the order they
    subscribed; the others are no longer subscribed. Nothing else changes. *)
Definition delivered (m : sse_message) (taken : list Z) (s : server) : server :=
  s <| sv_subs := taken |> <| sv_sent := sv_sent s ++ map (λ id, (id, m)) taken |>.

Definition broadcasts (m : sse_message) (s s' : server) : Prop :=
  ∃ taken, taken `sublist_of` sv_subs s ∧ s' = delivered m taken (s <| sv_log := sv_log s ++ [m] |>).

(** Messages one after the other. *)
Fixpoint sends (ms : list sse_message) (s s' : server) : Prop :=
  match ms with
  | [] => s' = s
  | m :: ms => ∃ s1, broadcasts m s s1 ∧ sends ms s1 s'
  end.

Lemma sends_app ms1 ms2 s s1 s2 : sends ms1 s s1 → sends ms2 s1 s2 → sends (ms1 ++ ms2) s s2.
Proof.
  revert s. induction ms1 as [|m ms1 IH]; intros s; cbn; [by intros ->|]. intros (s' & Hb & Hs) H2. eauto.
Qed.

(** Messages and the metadata do not touch each other. *)
Lemma sends_meta ms metas s s' : sends ms s s' → sends ms (s <| sv_meta := metas |>) (s' <| sv_meta := metas |>).
Proof.
  revert s. induction ms as [|m ms IH]; intros s; cbn; [by intros ->|].
  intros (s1 & (taken & Ht & ->) & Hs). eexists. split; [|exact (IH _ Hs)]. by exists taken.
Qed.

Lemma sends_same ms s s' : sends ms s s' →
  sv_meta s' = sv_meta s ∧ sv_state s' = sv_state s ∧ (NoDup (sv_subs s) → NoDup (sv_subs s')).
Proof.
  revert s. induction ms as [|m ms IH]; intros s; cbn; [by intros ->|].
  intros (s1 & (taken & Ht & ->) & Hs). destruct (IH _ Hs) as (-> & -> & Hn). split_and!; [done..|].
  intros Hd. apply Hn. by eapply sublist_NoDup.
Qed.

(** A delivery to a subscriber that is there, and to one that is gone. *)
Lemma blk_deliver m id s (Q : result unit → server → list (poller unit) → Prop) : id ∈ sv_subs s →
  Q (Ok tt) (s <| sv_sent ::= λ l, l ++ [(id, m)] |>) [] →
  Q (Ok tt) (s <| sv_subs ::= List.filter (λ i, negb (i =? id)) |>) [] → blkp (pushToSubscriber m id) Q s.
Proof.
  intros Hin H1 H2. unfold pushToSubscriber. apply blk_gets. rewrite bool_decide_eq_true_2 by done.
  split; [done|]. by intros [|].
Qed.

Lemma blk_gone m id s (Q : result unit → server → list (poller unit) → Prop) : id ∉ sv_subs s →
  Q (Ok tt) s [] → blkp (pushToSubscriber m id) Q s.
Proof. intros Hin HQ. unfold pushToSubscriber. apply blk_gets. by rewrite bool_decide_eq_false_2. Qed.

Lemma blk_pushes m ids kept s (Q : result unit → server → list (poller unit) → Prop) :
  sv_subs s = kept ++ ids → NoDup (kept ++ ids) →
  (∀ taken, taken `sublist_of` ids →
     Q (Ok tt) (s <| sv_subs := kept ++ taken |> <| sv_sent := sv_sent s ++ map (λ id, (id, m)) taken |>) []) →
  blkp (for_each ids (pushToSubscriber m)) Q s.
Proof.
  revert kept s. induction ids as [|id ids IH]; intros kept s Hs Hn HQ; cbn [for_each].
  - specialize (HQ [] sublist_nil). rewrite <- Hs in HQ. cbn [map] in HQ. rewrite app_nil_r in HQ. destruct s. exact HQ.
  - apply blk_then. apply blk_deliver; [rewrite Hs; set_solver| |]; (exists tt; split_and!; [done..|]).
    + apply (IH (kept ++ [id])); cbn; [by rewrite Hs, <- app_assoc|by rewrite <- app_assoc|].
      intros taken Ht. specialize (HQ (id :: taken) (sublist_skip id _ _ Ht)). cbn [map] in HQ.
      rewrite <- !app_assoc. exact HQ.
    + assert (Hrest : List.filter (λ i, negb (i =? id)) (sv_subs s) = kept ++ ids) by (rewrite Hs; by apply filter_middle).
      apply (IH kept); cbn; [done| |].
      * apply NoDup_app in Hn as (H1 & H2 & [_ H3]%NoDup_cons). apply NoDup_app. split_and!; [done|set_solver|done].
      * intros taken Ht. exact (HQ taken (sublist_cons id _ _ Ht)).
Qed.

Lemma blk_last_broadcast m s (Q : result unit → server → list (poller unit) → Prop) : NoDup (sv_subs s) →
  (∀ s1, broadcasts m s s1 → NoDup (sv_subs s1) → Q (Ok tt) s1 []) → blkp (broadcast m) Q s.
Proof.
  intros Hn HQ. unfold broadcast. apply blk_modify, blk_gets, (blk_pushes _ _ []); [done|done|].
  intros taken Ht. cbn [app]. specialize (HQ (delivered m taken (s <| sv_log := sv_log s ++ [m] |>))
    (ex_intro _ taken (conj Ht eq_refl)) (sublist_NoDup _ _ Hn Ht)). destruct s. exact HQ.
Qed.

Lemma blk_broadcast {A} m (k : poller A) s Q : NoDup (sv_subs s) →
  (∀ s1, broadcasts m s s1 → NoDup (sv_subs s1) → blkp k Q s1) → blkp (broadcast m ;;! k) Q s.
Proof. intros Hn Hk. apply blk_then, blk_last_broadcast; [done|]. intros s1 Hb Hn1. exists tt. split_and!; eauto. Qed.

(** ** Metadata *)

Lemma meta_of_set u m s u' : meta_of u' (s <| sv_meta ::= jset u m |>) = if decide (u = u') then m else meta_of u' s.
Proof. unfold meta_of. cbn. rewrite jget_set. by case_decide. Qed.

Lemma blk_schedule {A} u now (k : poller A) s Q :
  (∀ random, blkp k Q (s <| sv_meta ::= jset u ((meta_of u s) <| pm_nextDueAt := Z.add now <$> interval_of (meta_of u s) now random |>) |>)) →
  blkp (schedule_next u now ;;! k) Q s.
Proof.
  intros Hk. unfold schedule_next, nextIntervalMs. apply blk_then, blk_gets, blk_then.
  destruct (0 <? pm_failureCount (meta_of u s)) eqn:E.
  - exists (Some (failureBackoffMs (pm_failureCount (meta_of u s)))). split_and!; [done..|]. exists tt. split_and!; [done..|].
    specialize (Hk num_nan). unfold interval_of in Hk. rewrite E in Hk. exact Hk.
  - split; [done|]. intros random. exists (interval_of (meta_of u s) now random). split_and!; [done..|].
    exists tt. split_and!; [done..|]. apply Hk.
Qed.

Section Spec.
Context `{Runtime} (TELEMETRY_INTERVAL_MS : Z).

(** ** The start of a host recovery *)

Lemma waits_readConfig : waits server_sync (readConfig : poller MerossConfig).
Proof. unfold readConfig, configPath, env_or. cbn. intros [v|]; [destruct (str_truthy v)|]; done. Qed.

Lemma waits_finally {A} (p : poller A) c : waits server_sync p → waits server_sync (finally p c).
Proof. intros Hp. by apply waits_bind, waits_catch, waits_bind. Qed.

(** [tryResolveHost] starts nothing before its first [await]. *)
Lemma recovery_start u s q s' l : block (tryResolveHost u) s q s' l → l = [].
Proof.
  intros Hadv. apply block_gets in Hadv. destruct (jhas u (sv_resolving s)); [by destruct Hadv as (_ & _ & ->)|].
  apply block_now in Hadv as [now Hadv]. apply block_modify in Hadv. apply block_gets in Hadv. cbv zeta in Hadv.
  destruct (match truthy_time _ with Some _ => _ | None => _ end); [by destruct Hadv as (_ & _ & ->)|].
  apply block_modify, block_modify, waits_adv in Hadv as [-> ->]; [done|].
  apply waits_finally, waits_catch. unfold recovery. apply waits_bind, waits_readConfig.
Qed.

(** ** A failed poll *)

Definition was_fresh (prev : option DeviceStateDto) : bool :=
  match prev with Some p => negb (ds_stale p) | None => true end.

(** The messages of a failure: the new state where it can be told apart, and its going stale once. *)
Definition failure_messages (prev : option DeviceStateDto) (stale : DeviceStateDto) : list sse_message :=
  (if hasMaterialStateChange prev stale then [MsgState stale] else []) ++ (if was_fresh prev then [MsgStale stale] else []).

(** The state is stored and sent when it differs. *)
Lemma blk_failure_state {A} u prev stale (k : poller A) s Q :
  (prev = None → hasMaterialStateChange prev stale = true) → NoDup (sv_subs s) →
  (∀ s2, sends (failure_messages prev stale)
           (s <| sv_state := if hasMaterialStateChange prev stale then jset u stale (sv_state s) else sv_state s |>) s2 →
         blkp k Q s2) →
  blkp ((if hasMaterialStateChange prev stale then put_state u stale ;;! broadcast (MsgState stale)
         else match prev with None => put_state u stale | Some _ => Ret tt end) ;;!
        (if was_fresh prev then broadcast (MsgStale stale) else Ret tt) ;;! k) Q s.
Proof.
  intros Hnone Hn Hk. unfold failure_messages in Hk.
  assert (Hsecond : ∀ s1, NoDup (sv_subs s1) → (∀ s2, sends (if was_fresh prev then [MsgStale stale] else []) s1 s2 → blkp k Q s2) →
    blkp ((if was_fresh prev then broadcast (MsgStale stale) else Ret tt) ;;! k) Q s1).
  { intros s1 Hn1 H1. destruct (was_fresh prev); [|exact (H1 s1 eq_refl)].
    apply blk_broadcast; [done|]. intros s2 Hb _. apply H1. cbn. eauto. }
  destruct (hasMaterialStateChange prev stale); apply blk_then.
  - apply blk_modify, blk_last_broadcast; [done|]. intros s1 Hb Hn1. exists tt. split_and!; [done..|].
    apply (Hsecond s1 Hn1). intros s2 Hs2. apply Hk. by exists s1.
  - destruct prev as [p|]; [|by specialize (Hnone eq_refl)]. exists tt. split_and!; [done..|].
    apply (Hsecond s Hn). intros s2 Hs2. apply Hk. destruct s. exact Hs2.
Qed.

(** The outcome of a failed poll. The state [s1] has the failure counted, the next poll scheduled and the stale state
    stored where it can be told apart; [s2] is [s1] after the messages; [s'] is [s2] after the first block of a host
    recovery, the one call that is started, or [s2] itself where none is. *)
Definition failure_outcome (u : string) (r : poll_reason) (now : Z) (e : exn) (s : server)
    (res : result PollResult) (s' : server) (started : list (poller unit)) : Prop :=
  let prev := jget u (sv_state s) in
  let m := (meta_of u s) <| pm_failureCount := pm_failureCount (meta_of u s) + 1 |> in
  ∃ at_ clock random s2,
    let stale := stale_state u prev (jget u (sv_known s)) (next_version clock (ds_updatedAt <$> prev)) r (exn_message e) in
    let s1 := s <| sv_meta := jset u (m <| pm_nextDueAt := Z.add now <$> interval_of m now random |>) (sv_meta s) |>
                <| sv_state := if hasMaterialStateChange prev stale then jset u stale (sv_state s) else sv_state s |> in
    res = Ok {| pr_state := None;
                pr_error := Some {| pe_uuid := u; pe_code := pollCodeFromError (exn_message e);
                                    pe_message := exn_message e; pe_at := to_iso at_ |} |} ∧
    sends (failure_messages prev stale) s1 s2 ∧
    (if 3 <=? pm_failureCount m then ∃ q, started = [q] ∧ block (tryResolveHost u) s2 q s' []
     else started = [] ∧ s' = s2).

Lemma poll_failed_blk u r now e s : NoDup (sv_subs s) → blkp (poll_failed u r now e) (failure_outcome u r now e s) s.
Proof.
  intros Hn. set (m := (meta_of u s) <| pm_failureCount := pm_failureCount (meta_of u s) + 1 |>).
  unfold poll_failed. cbv zeta. apply blk_modify. fold m. apply blk_schedule. intros random.
  apply blk_gets, blk_gets, blk_version. intros t. cbn [sv_state sv_known set].
  apply blk_failure_state; [by intros ->|exact Hn|]. intros s2 Hs2. apply blk_gets.
  rewrite meta_of_set, decide_True in Hs2 by done.
  set (m' := m <| pm_nextDueAt := Z.add now <$> interval_of m now random |>) in *.
  set (stale := stale_state _ _ _ _ _ _) in *. set (s1 := set sv_state _ _) in Hs2.
  assert (Es1 : s1 = s <| sv_meta := jset u m' (sv_meta s) |>
    <| sv_state := if hasMaterialStateChange (jget u (sv_state s)) stale then jset u stale (sv_state s) else sv_state s |>).
  { rewrite <- (jset_jset u m' m (sv_meta s)). reflexivity. }
  clearbody s1. subst s1. destruct (sends_same _ _ _ Hs2) as (Hmeta & _ & _).
  assert (Hm : meta_of u s2 = m') by (unfold meta_of; rewrite Hmeta; cbn; by rewrite jget_set_eq). rewrite Hm.
  change (pm_failureCount m') with (pm_failureCount m).
  assert (Hend : ∀ s' started at_,
    (if 3 <=? pm_failureCount m then ∃ q, started = [q] ∧ block (tryResolveHost u) s2 q s' [] else started = [] ∧ s' = s2) →
    failure_outcome u r now e s (Ok {| pr_state := None; pr_error := Some
      {| pe_uuid := u; pe_code := pollCodeFromError (exn_message e); pe_message := exn_message e; pe_at := to_iso at_ |} |}) s' started).
  { intros s' started at_ Hend. exists at_, t, random, s2. cbv zeta. fold m m' stale. split_and!; done. }
  destruct (3 <=? pm_failureCount m).
  - intros q s' l Hq. pose proof (recovery_start _ _ _ _ _ Hq) as ->. split; [done|]. intros at_.
    exact (Hend s' [q] at_ (ex_intro _ q (conj eq_refl Hq))).
  - split; [done|]. intros at_. exact (Hend s2 [] at_ (conj eq_refl eq_refl)).
Qed.

(** C5: a failed poll, from any state that has each subscriber once (as every state the server reaches has, by
    [subs_distinct] of Service.v), counts one more failure and schedules the next poll by the back-off of
    the new count; it keeps the last known state, marked stale with the error and the next version, and
    sends it exactly when it can be told apart from the one before, with a stale notice exactly when the
    device was not stale; each message is recorded and reaches the subscribers whose connection takes it,
    the others are dropped; from the third failure in a row it starts the recovery of this device's host
    and nothing else, up to its first wait; nothing else of the server's state changes; the caller gets the
    classified error. *)
Theorem poll_failed_spec u r now e s p' s' l : NoDup (sv_subs s) → block (poll_failed u r now e) s p' s' l →
  ∃ res, p' = of_result res ∧ failure_outcome u r now e s res s' l.
Proof. intros Hn Hadv. eapply blk_adv, Hadv. by apply poll_failed_blk. Qed.

(** ** A successful poll *)

(** The outcome of a poll that read [reading]: the state after the writes, then after the message. *)
Definition success_outcome (u : string) (r : poll_reason) (now : Z) (reading : DeviceStateDto) (s : server)
    (res : result PollResult) (s' : server) (started : list (poller unit)) : Prop :=
  let prev := jget u (sv_state s) in
  ∃ clock random,
    let next := with_version (next_version clock (ds_updatedAt <$> prev)) reading in
    let changed := hasMaterialStateChange prev next in
    let stored := if changed then next else match prev with Some p => p <| ds_source := r |> | None => next end in
    let m := (meta_of u s) <| pm_lastChangeAt := (if changed then Some now else pm_lastChangeAt (meta_of u s)) |>
                           <| pm_failureCount := 0 |> <| pm_lastSuccessAt := Some now |> in
    let s1 := s <| sv_meta := jset u (m <| pm_nextDueAt := Z.add now <$> interval_of m now random |>) (sv_meta s) |>
                <| sv_state := jset u stored (sv_state s) |> in
    res = Ok {| pr_state := Some stored; pr_error := None |} ∧
    sends (if changed then [MsgState next] else []) s1 s' ∧ started = [].

Lemma poll_store_blk u r now reading s : NoDup (sv_subs s) →
  blkp (poll_store u r now reading) (success_outcome u r now reading s) s.
Proof.
  intros Hn. unfold poll_store. apply blk_gets, blk_version. intros t. cbv zeta.
  set (prev := jget u (sv_state s)). set (next := with_version (next_version t (ds_updatedAt <$> prev)) reading).
  set (changed := hasMaterialStateChange prev next).
  set (stored := if changed then next else match prev with Some p => p <| ds_source := r |> | None => next end).
  set (m := (meta_of u s) <| pm_lastChangeAt := (if changed then Some now else pm_lastChangeAt (meta_of u s)) |>
                          <| pm_failureCount := 0 |> <| pm_lastSuccessAt := Some now |>).
  apply blk_then.
  assert (Hrest : ∀ s1, (meta_of u s1) <| pm_failureCount := 0 |> <| pm_lastSuccessAt := Some now |> = m →
    (∀ x, jset u x (sv_meta s1) = jset u x (sv_meta s)) → sv_state s1 = jset u stored (sv_state s) →
    sends (if changed then [MsgState next] else []) (s <| sv_state := jset u stored (sv_state s) |>) (s1 <| sv_meta := sv_meta s |>) →
    blkp (up_meta u (λ m, m <| pm_failureCount := 0 |> <| pm_lastSuccessAt := Some now |>) ;;!
          schedule_next u now ;;!
          let! stored := gets (λ s, jget u (sv_state s)) in
          Ret {| pr_state := stored; pr_error := None |}) (success_outcome u r now reading s) s1).
  { intros s1 Hm Hmetas Hst Hsends. apply blk_modify. rewrite Hm. apply blk_schedule. intros random. apply blk_gets.
    rewrite meta_of_set, decide_True by done.
    set (m' := m <| pm_nextDueAt := Z.add now <$> interval_of m now random |>).
    exists t, random. cbv zeta. fold prev next changed stored m m'. cbn [sv_state set]. rewrite Hst, jget_set_eq.
    split_and!; [done| |done]. apply (sends_meta _ (jset u m' (sv_meta s))) in Hsends.
    rewrite <- (Hmetas m') in Hsends at 2. rewrite <- (jset_jset u m' m (sv_meta s1)) in Hsends. exact Hsends. }
  assert (Hquiet : changed = false → blkp (match prev with None => put_state u next | Some p => put_state u (p <| ds_source := r |>) end)
    (λ res s1 l, res = Ok tt ∧ l = [] ∧ s1 = s <| sv_state := jset u stored (sv_state s) |>) s).
  { intros Hc. subst stored. rewrite Hc. by destruct prev. }
  destruct changed eqn:Ec.
  - apply blk_modify, blk_modify, blk_last_broadcast; [exact Hn|]. intros s1 Hb Hn1. exists tt. split_and!; [done..|].
    set (s0 := set sv_state _ _) in Hb. assert (Hs : sends [MsgState next] s0 s1) by (exists s1; by split).
    destruct (sends_same _ _ _ Hs) as (Hmeta & Hstate & _). apply Hrest.
    + unfold meta_of at 1. rewrite Hmeta. subst s0. cbn. by rewrite jget_set_eq.
    + intros x. rewrite Hmeta. subst s0. cbn. by rewrite jset_jset.
    + rewrite Hstate. subst s0. cbn. reflexivity.
    + apply (sends_meta _ (sv_meta s)) in Hs. subst s0. destruct s. exact Hs.
  - eapply blk_mono, (Hquiet eq_refl). intros res s1 l (-> & -> & ->). exists tt. split_and!; [done..|]. apply Hrest; [|done..|].
    + reflexivity.
    + destruct s. reflexivity.
Qed.

(** C6: a successful poll, from any state that has each subscriber once, clears the failures and schedules the next poll by
    the interval class that then applies; it stores the new state with the next version and sends it exactly
    when it can be told apart from the stored one, and otherwise keeps the stored one with the reason of
    this poll; the message is recorded and reaches the subscribers whose connection takes it, the others are
    dropped; it starts nothing and nothing else of the server's state changes; the caller gets what is
    stored. *)
Theorem poll_store_spec u r now reading s p' s' l : NoDup (sv_subs s) → block (poll_store u r now reading) s p' s' l →
  ∃ res, p' = of_result res ∧ success_outcome u r now reading s res s' l.
Proof. intros Hn Hadv. eapply blk_adv, Hadv. by apply poll_store_blk. Qed.

(** ** The due polls *)

(** The first block of a poll: the in-flight poll is joined, or a new one is registered. *)
Lemma poll_due_start u s q s' l : block (poll_due u) s q s' l →
  (is_Some (jget u (sv_inFlight s)) ∧ sv_inFlight s' = sv_inFlight s) ∨
  (jget u (sv_inFlight s) = None ∧ sv_inFlight s' = jset u (sv_next s) (sv_inFlight s)).
Proof.
  intros Hadv. unfold poll_due, ignore, pollDevice in Hadv.
  change (block (let! _ := (match jget u (sv_inFlight s) with
    | Some pid => await_poll pid
    | None => let! pid := atom (start_poll u) in
              fork (promise_task pid PvPoll (poll_task u RPoller None)) ;;!
              finally (await_poll pid) (modify (upd sv_inFlight (jdel u)))
    end) in Ret tt) s q s' l) in Hadv.
  destruct (jget u (sv_inFlight s)) as [pid|] eqn:E; [left|right].
  - apply waits_adv in Hadv as [-> ->]; [|done]. eauto.
  - destruct Hadv as (q' & s1 & l1 & l2 & Hq & Hk & ->). split; [done|].
    apply waits_adv in Hk as [-> ->]; [|done].
    unfold promise_task, attempt, poll_task in Hq.
    destruct Hq as [now Hq]. cbn [bind catch ensureMeta modify adv fst snd] in Hq.
    apply waits_adv in Hq as [-> ->]; [by destruct (jget u (sv_meta _))|].
    apply waits_bind, waits_catch, waits_bind, waits_catch. unfold poll_attempt. apply waits_bind, waits_readConfig.
Qed.

(** C7: the timer starts due polls in the order of the list it sorted, most overdue first, only while
    fewer than six polls run, and leaves one out only because six run: after it, the polls in flight
    are those before and a prefix of the list. *)
Theorem start_due_spec due s p' s' l : Forall (λ u, u ≠ "") due →
  block (start_due (λ r, length (sv_inFlight r)) POLL_MAX_CONCURRENCY poll_due due) s p' s' l →
  p' = Ret tt ∧
  (length (sv_inFlight s') <= Nat.max 6 (length (sv_inFlight s)))%nat ∧
  ∃ started rest, due = started ++ rest ∧
    (∀ u, u ∈ jkeys (sv_inFlight s') ↔ u ∈ jkeys (sv_inFlight s) ∨ u ∈ started) ∧
    (rest ≠ [] → (6 <= length (sv_inFlight s'))%nat).
Proof.
  revert s l. induction due as [|u due IH]; intros s l Hne.
  { intros (-> & -> & ->). split_and!; [done|lia|]. exists [], []. split_and!; [done| |done]. set_solver. }
  cbn [start_due]. intros Hadv. apply block_gets in Hadv. inversion Hne as [|? ? Hu Hne']; subst.
  destruct (Z.of_nat (length (sv_inFlight s)) <? POLL_MAX_CONCURRENCY) eqn:Elt.
  2:{ destruct Hadv as (-> & -> & ->). apply Z.ltb_ge in Elt. unfold POLL_MAX_CONCURRENCY in Elt.
      split_and!; [done|lia|]. exists [], (u :: due). split_and!; [done| |intros _; lia]. set_solver. }
  apply Z.ltb_lt in Elt. unfold POLL_MAX_CONCURRENCY in Elt.
  rewrite (proj2 (str_truthy_spec u) Hu) in Hadv. destruct Hadv as (q' & s1 & l1 & l2 & Hq & Hk & ->).
  destruct (IH s1 l2 Hne' Hk) as (-> & Hlen & started & rest & -> & Hin & Hrest).
  assert (Hstart : (∀ x, x ∈ jkeys (sv_inFlight s1) ↔ x ∈ jkeys (sv_inFlight s) ∨ x = u) ∧
                   (length (sv_inFlight s1) <= S (length (sv_inFlight s)))%nat).
  { destruct (poll_due_start u s q' s1 l1 Hq) as [(Hs & ->) | (Hn & ->)].
    - split; [|lia]. intros x. split; [by left|]. intros [Hx | ->]; [done|]. by apply jget_keys.
    - split; [|apply jset_length_le]. intros x. rewrite elem_of_jkeys_set. tauto. }
  destruct Hstart as [Hk1 Hl1]. split_and!; [done|lia|]. exists (u :: started), rest. split_and!; [done| |done].
  intros x. rewrite Hin, Hk1, elem_of_cons. tauto.
Qed.

(** ** The event stream *)

(** The messages a new subscriber gets at once. *)
Definition welcome (s : server) : list sse_message :=
  [MsgSnapshot (js_sort (λ a b, localeCompare (ds_uuid a) (ds_uuid b)) (jvalues (sv_state s)));
   MsgPowerSnapshot (js_sort (λ a b, localeCompare (dp_uuid a) (dp_uuid b)) (jvalues (sv_power s)));
   MsgHealth (stats_of (s <| sv_subs ::= λ l, l ++ [sv_nextSubscriberId s] |>))].

(** The end of a stream's start, once [k] of its messages are delivered. *)
Definition stream_outcome (s : server) (res : result Z) (s' : server) (started : list (poller unit)) : Prop :=
  let id := sv_nextSubscriberId s in
  ∃ k, res = Ok id ∧ started = [] ∧ (k <= 3)%nat ∧
    sv_sent s' = sv_sent s ++ map (pair id) (take k (welcome s)) ∧
    (k = 3%nat → sv_subs s' = sv_subs s ++ [id]) ∧ ((k < 3)%nat → id ∉ sv_subs s') ∧
    sv_nextSubscriberId s' = id + 1 ∧ sv_log s' = sv_log s ∧ sv_state s' = sv_state s ∧ sv_power s' = sv_power s.

Lemma createStream_blk s : blkp createStreamResponse (stream_outcome s) s.
Proof.
  set (id := sv_nextSubscriberId s).
  assert (Hin : id ∈ sv_subs s ++ [id]) by (apply elem_of_app; right; by left).
  unfold createStreamResponse. apply (blk_bind _ (atom new_subscriber)).
  change (blkp (let! states := gets (λ s, js_sort (λ a b, localeCompare (ds_uuid a) (ds_uuid b)) (jvalues (sv_state s))) in
    pushToSubscriber (MsgSnapshot states) id ;;!
    let! readings := gets (λ s, js_sort (λ a b, localeCompare (dp_uuid a) (dp_uuid b)) (jvalues (sv_power s))) in
    pushToSubscriber (MsgPowerSnapshot readings) id ;;!
    let! stats := getStatus in
    pushToSubscriber (MsgHealth stats) id ;;! Ret id) (stream_outcome s) (fst (new_subscriber s))).
  assert (Hout : ∀ k s', (k <= 3)%nat → sv_sent s' = sv_sent s ++ map (pair id) (take k (welcome s)) →
    (k = 3%nat → sv_subs s' = sv_subs s ++ [id]) → ((k < 3)%nat → id ∉ sv_subs s') →
    sv_nextSubscriberId s' = id + 1 → sv_log s' = sv_log s → sv_state s' = sv_state s → sv_power s' = sv_power s →
    stream_outcome s (Ok id) s' []) by (intros k s' ????????; exists k; split_and!; done).
  apply blk_gets, blk_then. apply blk_deliver; [exact Hin| |]; (exists tt; split_and!; [done..|]; apply blk_gets, blk_then).
  2:{ apply blk_gone; [apply filter_gone|]. exists tt. split_and!; [done..|]. apply blk_gets, blk_then.
      apply blk_gone; [apply filter_gone|]. exists tt. split_and!; [done..|].
      apply (Hout 0%nat); try done; [lia|by rewrite app_nil_r|intros _; apply filter_gone]. }
  apply blk_deliver; [exact Hin| |]; (exists tt; split_and!; [done..|]; apply blk_gets, blk_then).
  2:{ apply blk_gone; [apply filter_gone|]. exists tt. split_and!; [done..|].
      apply (Hout 1%nat); try done; [lia|intros _; apply filter_gone]. }
  apply blk_deliver; [exact Hin| |]; exists tt; (split_and!; [done..|]).
  - apply (Hout 3%nat); try done; [|lia]. cbn. by rewrite <- !app_assoc.
  - apply (Hout 2%nat); try done; [lia| |intros _; apply filter_gone]. cbn. by rewrite <- !app_assoc.
Qed.

(** Opening a stream is one step: the new subscriber has a fresh id and gets, before anything
    else, the snapshot of all states, then that of all readings, then the health of the poller, as
    far as its connection takes them; it is subscribed exactly when it took all three. *)
Theorem createStream_spec s p' s' l : block createStreamResponse s p' s' l →
  ∃ res, p' = of_result res ∧ stream_outcome s res s' l.
Proof. intros Hadv. eapply blk_adv, Hadv. apply createStream_blk. Qed.
End Spec.

(** ** Examples *)

Definition quiet_run {A} (p : poller A) (s : server) : poller A * server * list (poller unit) :=
  run server_sync (λ X e, quiet_answer X 0 e) p s.

Lemma quiet_block {A} (p : poller A) s : block p s (fst (fst (quiet_run p s))) (snd (fst (quiet_run p s))) (snd (quiet_run p s)).
Proof.
  unfold quiet_run. pose proof (run_adv server_sync (λ X e, quiet_answer X 0 e) p s) as Hr.
  destruct (run _ _ _ _) as [[? ?] ?]. exact Hr.
Qed.

(** A device that failed twice. *)
Definition failing_server : server :=
  initial_server <| sv_meta := [("u1", (createMeta 0) <| pm_failureCount := 2 |>); ("u2", createMeta 0)] |>.

(** It has two subscribers. *)
Definition followed_server : server := failing_server <| sv_subs := [1; 2] |> <| sv_nextSubscriberId := 3 |>.

Lemma followed_distinct : NoDup (sv_subs followed_server).
Proof. apply (bool_decide_unpack _). vm_compute. exact I. Qed.

Definition failing_run := quiet_run (poll_failed (H := test_runtime) "u1" RPoller 0 no_host) followed_server.

Lemma poll_failed_spec_witness : length (snd failing_run) = 1%nat ∧ length (sv_sent (snd (fst failing_run))) = 4%nat ∧
  ∃ res, fst (fst failing_run) = of_result res ∧
    failure_outcome (H := test_runtime) "u1" RPoller 0 no_host followed_server res (snd (fst failing_run)) (snd failing_run).
Proof.
  split; [vm_compute; reflexivity|]. split; [vm_compute; reflexivity|].
  exact (@poll_failed_spec test_runtime "u1" RPoller 0 no_host followed_server _ _ _ followed_distinct
    (quiet_block (poll_failed (H := test_runtime) "u1" RPoller 0 no_host) followed_server)).
Defined.

Definition demo_reading : DeviceStateDto :=
  {| ds_uuid := "u1"; ds_host := "10.0.0.9"; ds_kind := KTogglex; ds_channel := 0; ds_onoff := true;
     ds_channels := [{| tx_channel := 0; tx_onoff := true |}]; ds_lights := []; ds_light := None;
     ds_timerxDigest := []; ds_triggerxDigest := []; ds_updatedAt := 0; ds_source := RPoller; ds_stale := false;
     ds_error := None |}.

Definition reading_run := quiet_run (poll_store "u1" RPoller 0 demo_reading) followed_server.

Lemma poll_store_spec_witness : length (sv_log (snd (fst reading_run))) = 1%nat ∧ length (sv_sent (snd (fst reading_run))) = 2%nat ∧
  ∃ res, fst (fst reading_run) = of_result res ∧
    success_outcome "u1" RPoller 0 demo_reading followed_server res (snd (fst reading_run)) (snd reading_run).
Proof.
  split; [vm_compute; reflexivity|]. split; [vm_compute; reflexivity|].
  exact (poll_store_spec "u1" RPoller 0 demo_reading followed_server _ _ _ followed_distinct
    (quiet_block (poll_store "u1" RPoller 0 demo_reading) followed_server)).
Defined.

Definition due_run := quiet_run (start_due (λ r, length (sv_inFlight r)) POLL_MAX_CONCURRENCY
  (poll_due (H := test_runtime)) ["u1"; "u2"]) failing_server.

Lemma start_due_spec_witness : jkeys (sv_inFlight (snd (fst due_run))) = ["u1"; "u2"] ∧
  (length (sv_inFlight (snd (fst due_run))) <= Nat.max 6 (length (sv_inFlight failing_server)))%nat.
Proof.
  split; [vm_compute; reflexivity|].
  assert (Hne : Forall (λ u, u ≠ "") ["u1"; "u2"]) by (repeat constructor; discriminate).
  exact (proj1 (proj2 (@start_due_spec test_runtime ["u1"; "u2"] failing_server _ _ _ Hne (quiet_block _ _)))).
Defined.

Definition stream_run := quiet_run (createStreamResponse (H := test_runtime)) failing_server.

Lemma createStream_spec_witness : sv_subs (snd (fst stream_run)) = [1] ∧
  ∃ res, fst (fst stream_run) = of_result res ∧
    stream_outcome (H := test_runtime) failing_server res (snd (fst stream_run)) (snd stream_run).
Proof. split; [vm_compute; reflexivity|]. 
  exact (@createStream_spec test_runtime failing_server _ _ _
    (quiet_block (createStreamResponse (H := test_runtime)) failing_server)).
Defined.
