(* ===== verification/HandlersSpec.v ===== *)
(** * What the handlers promise

    Theorems about every run of the handlers of Handlers.v, DeviceApi.v and ScheduleApi.v: which
    requests they accept, which messages they send to a device, what they write to the configuration
    file. *)

From S2P Require Export ScheduleApi.

Local Open Scope string_scope.
Local Open Scope Z_scope.
Local Open Scope list_scope.

(** ** Calls that neither talk to the network nor write *)

Definition silent (ev : sys_event) : Prop := is_network ev = false ∧ is_save ev = false.

(** Nothing of interest happened. *)
Definition quiet (tr : list sys_event) : Prop := Forall silent tr.

Lemma quiet_fetched tr : quiet tr → fetched tr = [].
Proof.
  induction 1 as [|ev tr [Hn _] H IH]; [done|]. destruct ev as [X [] x]; try done; exact IH.
Qed.

Lemma quiet_saved tr : quiet tr → saved tr = [].
Proof.
  induction 1 as [|ev tr [_ Hs] H IH]; [done|]. destruct ev as [X [] x]; try done; exact IH.
Qed.

Lemma saved_app tr1 tr2 : saved (tr1 ++ tr2) = saved tr1 ++ saved tr2.
Proof. unfold saved. by rewrite omap_app. Qed.

Section Quiet.
Context {St R : Type} `{Runtime}.
Abbreviation M := (prog St R sysE).

Lemma calls_ret P {A} (a : A) : calls P (Ret a : M A).
Proof. constructor. Qed.

Lemma calls_throw P {A} e : calls P (Throw e : M A).
Proof. constructor. Qed.

Lemma calls_of_result P {A} (r : result A) : calls P (of_result r : M A).
Proof. destruct r; constructor. Qed.

Lemma calls_atom P {A} (f : St → St * A) : calls P (atom f : M A).
Proof. intros s. constructor. Qed.

Lemma calls_fork P q : calls P (fork q : M unit).
Proof. constructor. Qed.

Lemma calls_sys (P : sys_event → Prop) {X} (e : sysE X) : (∀ x, P (Ev e x)) → calls P (sys e : M X).
Proof. intros He x. apply Forall_cons_2; [apply He|constructor]. Qed.

Lemma calls_if P {A} (b : bool) (p q : M A) : calls P p → calls P q → calls P (if b then p else q).
Proof. by destruct b. Qed.
End Quiet.

#[export] Hint Resolve @calls_ret @calls_throw @calls_of_result @calls_atom @calls_fork @calls_if : calls.

Ltac quiet_tac :=
  repeat first
    [ progress intros
    | match goal with |- calls _ (match ?x with _ => _ end) => destruct x end
    | solve [eauto 2 with calls nocore]
    | apply calls_sys; by intros
    | apply calls_bind | apply calls_catch | apply calls_if
    | progress cbv zeta ].

Section QuietCalls.
Context {St R : Type} `{Runtime}.
Abbreviation M := (prog St R sysE).

Lemma quiet_nowIso : calls silent (nowIso : M _).
Proof. unfold nowIso. quiet_tac. Qed.

Lemma quiet_configPath : calls silent (configPath : M _).
Proof. unfold configPath, env_or, defaultMerossConfigPath. quiet_tac. Qed.

Lemma quiet_readConfig : calls silent (readConfig : M _).
Proof. pose proof quiet_configPath. unfold readConfig, loadMerossConfig. quiet_tac. Qed.

Lemma quiet_requireLanHost u : calls silent (requireLanHost u : M _).
Proof. pose proof quiet_readConfig. unfold requireLanHost. quiet_tac. Qed.

Lemma quiet_requireLanKey : calls silent (requireLanKey : M _).
Proof. pose proof quiet_readConfig. unfold requireLanKey. quiet_tac. Qed.

Lemma quiet_default_cidr c : calls silent (default_cidr c : M _).
Proof. unfold default_cidr, defaultSuggestedCidrNow. quiet_tac. Qed.

Lemma quiet_runs {A} (p : M A) tr r : calls silent p → runs p tr r → quiet tr.
Proof. intros Hp Hr. unfold calls in Hp. rewrite wp_runs in Hp. by apply Hp in Hr. Qed.
End QuietCalls.

#[export] Hint Resolve quiet_nowIso quiet_configPath quiet_readConfig quiet_requireLanHost quiet_requireLanKey
  quiet_default_cidr : calls.

Section Facts.
Context `{Runtime}.

Lemma quiet_refresh b u : calls silent (refresh_after b u).
Proof.
  unfold refresh_after, boostDevice, ensureMeta, up_meta. quiet_tac; apply (calls_atom _ (λ s, (_ s, tt))).
Qed.

(** A handler found the host of a device and the key in the configuration, or misses one of them. *)
Definition lan_found (uuid host key : string) (tr : list sys_event) : Prop :=
  ∃ t1 t2, tr = t1 ++ t2 ∧ runs (requireLanHost uuid : poller string) t1 (Ok host) ∧
    runs (requireLanKey : poller string) t2 (Ok key).

Definition lan_missing (uuid : string) (tr : list sys_event) (e : exn) : Prop :=
  runs (requireLanHost uuid : poller string) tr (Err e) ∨
  ∃ t1 t2 host, tr = t1 ++ t2 ∧ runs (requireLanHost uuid : poller string) t1 (Ok host) ∧
    runs (requireLanKey : poller string) t2 (Err e).

(** A handler that needs the host and the key: it finds both and runs, or answers with the error. *)
Lemma on_lan_runs u f tr r : runs (on_lan u f) tr r →
  (∃ e, quiet tr ∧ lan_missing u tr e ∧ r = Ok (ApiErr (exn_message e) "lan_error" VUndef)) ∨
  (∃ host key tr1 tr2 r2, tr = tr1 ++ tr2 ∧ quiet tr1 ∧ lan_found u host key tr1 ∧ runs (f host key) tr2 r2 ∧
     r = match r2 with Ok a => Ok a | Err e => Ok (ApiErr (exn_message e) "lan_error" VUndef) end).
Proof.
  assert (Hq : ∀ t1 t2 r1 r2, runs (requireLanHost u : poller _) t1 r1 → runs (requireLanKey : poller _) t2 r2 → quiet (t1 ++ t2))
    by (intros; apply Forall_app; split; (eapply quiet_runs; [|done]); eauto with calls).
  intros [(a & Hr & ->)|(tr1 & tr2 & e & -> & Hr & [-> ->])]%runs_catch; rewrite ?app_nil_r.
  - right. apply runs_bind in Hr as [(t1 & t2 & host & -> & H1 & H2)|(e & _ & [=])].
    apply runs_bind in H2 as [(t3 & t4 & key & -> & H3 & H4)|(e & _ & [=])].
    exists host, key, (t1 ++ t3), t4, (Ok a). rewrite app_assoc. split_and!; try done; [by eapply Hq|]. by exists t1, t3.
  - apply runs_bind in Hr as [(t1 & t2 & host & -> & H1 & H2)|(e' & H1 & [= <-])].
    2:{ left. exists e. split_and!; [|by left|done]. eapply quiet_runs; [|done]. eauto with calls. }
    apply runs_bind in H2 as [(t3 & t4 & key & -> & H3 & H4)|(e' & H3 & [= <-])].
    + right. exists host, key, (t1 ++ t3), t4, (Err e). rewrite app_assoc. split_and!; try done; [by eapply Hq|]. by exists t1, t3.
    + left. exists e. split_and!; [by eapply Hq| |done]. right. by exists t1, t2, host.
Qed.
End Facts.

(** A call to a device and what follows it. *)
Section LanThen.
Context {St R : Type} `{Runtime}.
Abbreviation M := (prog St R sysE).

Lemma fetched_lan t ns m payload tr (r : result val) :
  runs (lan_call t ns m payload : M val) tr r →
  ∃ rq, fetched tr = [rq] ∧ saved tr = [] ∧ signed_request t ns m payload rq.
Proof.
  intros (now & uuid & rq & ans & -> & Hs & _)%lan_call_runs. by exists rq.
Qed.

Lemma lan_then {A} t ns m payload (k : val → M A) tr r :
  runs (bind (lan_call t ns m payload) k) tr r →
  ∃ rq tr1 tr2, tr = tr1 ++ tr2 ∧ fetched tr1 = [rq] ∧ saved tr1 = [] ∧ signed_request t ns m payload rq ∧
    ((∃ v, runs (lan_call t ns m payload : M val) tr1 (Ok v) ∧ runs (k v) tr2 r) ∨
     (tr2 = [] ∧ ∃ e, runs (lan_call t ns m payload : M val) tr1 (Err e) ∧ r = Err e)).
Proof.
  intros [(tr1 & tr2 & v & -> & H1 & H2)|(e & H1 & ->)]%runs_bind;
    destruct (fetched_lan _ _ _ _ _ _ H1) as (rq & Hf & Hs & Hr).
  - exists rq, tr1, tr2. eauto 10.
  - exists rq, tr, []. rewrite app_nil_r. eauto 10.
Qed.
End LanThen.

(** The refresh after a command does not fail. *)
Lemma refresh_ok `{Runtime} b u tr r : runs (refresh_after b u) tr r → r = Ok tt.
Proof.
  revert tr r. apply (proj1 (wp_runs _ (λ _ r, r = Ok tt))). unfold refresh_after, boostDevice. destruct b; [|done].
  apply wp_bind. destruct (str_truthy u); [|done]. apply wp_bind. intros now. cbn [wp ensureMeta modify up_meta bind].
  intros s s'. done.
Qed.

(** The end of a command: the refresh, which talks to nobody before the answer, then the answer. *)
Lemma after_command `{Runtime} b u a tr r :
  runs (refresh_after b u ;;! Ret a) tr r → fetched tr = [] ∧ saved tr = [] ∧ r = (Ok a : result api_response).
Proof.
  intros [(tr1 & tr2 & v & -> & H1 & [-> ->])|(e & H1 & ->)]%runs_bind; rewrite ?app_nil_r.
  - apply (quiet_runs _ _ _ (quiet_refresh b u)) in H1. auto using quiet_fetched, quiet_saved.
  - by apply refresh_ok in H1.
Qed.

(** ** Commands *)

Lemma channel_of_nonneg body c : channel_of body = Some c → 0 <= c.
Proof. unfold channel_of. intros Hc. destruct (prop "channel" body); repeat case_match; simplify_eq; lia. Qed.

(** [m] is [n] moved into the range. *)
Definition clamped (lo hi n m : Z) : Prop := (n < lo → m = lo) ∧ (hi < n → m = hi) ∧ (lo <= n <= hi → m = n).

(** The number sent for the key [k] of the body: none without the key, else the rounded number of the body, moved
    into the range. *)
Definition sent_for (k : string) (hi : Z) (body : val) (o : option Z) : Prop :=
  match o with
  | Some m => wants k body = true ∧ ∃ n, asFiniteInt (prop k body) = Some n ∧ clamped 0 hi n m
  | None => wants k body = false
  end.

Lemma light_number_sent k hi m c body o : 0 <= hi → light_number k hi m c body = Go o → sent_for k hi body o.
Proof.
  intros Hhi. unfold light_number, sent_for, wants, clampInt, clamped.
  destruct (prop k body) as [| | | | | |] eqn:E; [by intros [= <-]|..];
    (destruct (asFiniteInt _) as [z|]; cbn; [intros [= <-]|done]); (split; [done|]; exists z; split; [done|lia]).
Qed.

(** The fields of a light command follow its request. *)
Definition fields_match (body : val) (f : light_fields) : Prop :=
  lf_onoff f = (if wants "onoff" body then Some (coerce01 (prop "onoff" body)) else None) ∧
  sent_for "luminance" 100 body (lf_luminance f) ∧ sent_for "temperature" 100 body (lf_temperature f) ∧
  sent_for "rgb" 16777215 body (lf_rgb f) ∧
  (is_Some (lf_onoff f) ∨ is_Some (lf_luminance f) ∨ is_Some (lf_temperature f) ∨ is_Some (lf_rgb f)).

(** A light command with nothing to send: without a field, or with one that is no finite number. *)
Definition bad_light (body : val) : Prop :=
  (∀ k, k ∈ ["onoff"; "luminance"; "temperature"; "rgb"] → wants k body = false) ∨
  ∃ k, k ∈ ["luminance"; "temperature"; "rgb"] ∧ wants k body = true ∧ asFiniteInt (prop k body) = None.

Lemma light_number_refused k hi m c body m' c' :
  light_number k hi m c body = Refuse m' c' → wants k body = true ∧ asFiniteInt (prop k body) = None.
Proof.
  unfold light_number, wants, clampInt. destruct (prop k body); try done;
    (destruct (asFiniteInt _); [done|by split]).
Qed.

Lemma light_request_refused body m c : light_request body = Refuse m c → bad_light body.
Proof.
  unfold light_request, bad_light.
  destruct (light_number "luminance" _ _ _ body) as [l|] eqn:El; [|apply light_number_refused in El; right; exists "luminance"; set_solver].
  destruct (light_number "temperature" _ _ _ body) as [t|] eqn:Et; [|apply light_number_refused in Et; right; exists "temperature"; set_solver].
  destruct (light_number "rgb" _ _ _ body) as [n|] eqn:En; [|apply light_number_refused in En; right; exists "rgb"; set_solver].
  cbn [obind]. intros Hc. left. apply light_number_sent in El, Et, En; [|done..].
  destruct l, t, n; try (by destruct (prop "onoff" body)). cbn in El, Et, En.
  assert (wants "onoff" body = false) by (unfold wants; by destruct (prop "onoff" body)). set_solver.
Qed.

Lemma light_request_match body f : light_request body = Go f → fields_match body f.
Proof.
  unfold light_request, fields_match.
  destruct (light_number "luminance" _ _ _ body) as [l|] eqn:El; [|done].
  destruct (light_number "temperature" _ _ _ body) as [t|] eqn:Et; [|done].
  destruct (light_number "rgb" _ _ _ body) as [c|] eqn:Ec; [|done]. cbn [obind].
  apply light_number_sent in El, Et, Ec; [|done..].
  assert (Ho : match prop "onoff" body with VUndef => None | v => Some (coerce01 v) end
             = if wants "onoff" body then Some (coerce01 (prop "onoff" body)) else None)
    by (unfold wants; by destruct (prop "onoff" body)).
  rewrite Ho. destruct (wants "onoff" body), l, t, c; intros [= <-]; cbn; repeat (split; [done|]); eauto.
Qed.

(** A refusal: an error answer. *)
Definition refused (r : result api_response) : Prop := ∃ m c d, r = Ok (ApiErr m c d).

(** The first branches of the handlers of one device. *)
Definition refusal (tr : list sys_event) (r : result api_response) : Prop :=
  fetched tr = [] ∧ saved tr = [] ∧ refused r.

Lemma refusal_err `{Runtime} m c tr r : runs (apiErr m c) tr r → refusal tr r.
Proof. intros [-> ->]. by repeat eexists. Qed.

(** What a handler of one device does once it has the host and the key, whatever they are. *)
Lemma on_lan_split `{Runtime} u f tr r : runs (on_lan u f) tr r →
  (refusal tr r ∧ ∃ e, lan_missing u tr e) ∨
  (∃ host key tr1 tr2 r2, tr = tr1 ++ tr2 ∧ lan_found u host key tr1 ∧ fetched tr = fetched tr2 ∧ saved tr = saved tr2 ∧
     runs (f host key) tr2 r2 ∧
     r = match r2 with Ok a => Ok a | Err e => Ok (ApiErr (exn_message e) "lan_error" VUndef) end).
Proof.
  intros [(e & Hq & Hm & ->)|(host & key & tr1 & tr2 & r2 & -> & Hq & Hfound & Hr & ->)]%on_lan_runs.
  - left. split; [|eauto]. split_and!; auto using quiet_fetched, quiet_saved. by repeat eexists.
  - right. exists host, key, tr1, tr2, r2. rewrite fetched_app, saved_app, (quiet_fetched tr1), (quiet_saved tr1); auto 10.
Qed.

Section Commands.
Context `{Runtime}.

(** C18: the light handler (set-device-light.ts) refuses without any message a body without a uuid, with a bad
    channel, with a field that is no number or without fields, and a device without a known host or a key;
    otherwise it sends exactly one: a signed SET of the Light namespace to the known host, for the channel of
    the request, carrying a field for each one the request has and no other, every number rounded and moved into
    its range; it never writes the configuration, and it answers with the reply of the device, or its failure. *)
Theorem setDeviceLight_spec hasPoller req tr r : runs (setDeviceLight hasPoller req) tr r →
  let body := body_of req in
  let uuid := str_or_empty (prop "uuid" body) in
  (refusal tr r ∧ (str_truthy uuid = false ∨ channel_of body = None ∨ bad_light body ∨
                   ∃ e, lan_missing uuid tr e)) ∨
  ∃ channel fields host key before sent after answer rq,
    channel_of body = Some channel ∧ 0 <= channel ∧ fields_match body fields ∧
    tr = before ++ sent ++ after ∧ lan_found uuid host key before ∧
    runs (setLight (to_device host key) channel fields : poller val) sent answer ∧
    fetched tr = [rq] ∧ saved tr = [] ∧
    signed_request (to_device host key) NAMESPACE_LIGHT "SET" (light_payload channel fields) rq ∧
    r = Ok (match answer with
            | Ok resp => ApiOk (VObj [("host", VStr host); ("channel", VZ channel); ("resp", resp)])
            | Err e => ApiErr (exn_message e) "lan_error" VUndef
            end).
Proof.
  intros Hr body uuid. unfold setDeviceLight in Hr. fold body uuid in Hr. cbv zeta in Hr.
  destruct (str_truthy uuid) eqn:Eu; cbn [negb] in Hr; [|left; split; [by eapply refusal_err|by left]].
  destruct (channel_of body) as [c|] eqn:Ec; [|left; split; [by eapply refusal_err|by right; left]].
  destruct (light_request body) as [f|m c'] eqn:Ef; [|left; split; [by eapply refusal_err|right; right; left; by eapply light_request_refused]].
  apply on_lan_split in Hr as [[? Hm]|(host & key & tr1 & tr2 & r2 & -> & Hfound & -> & -> & Hr & ->)]; [left; eauto 10|]. right.
  apply channel_of_nonneg in Ec as Hc. apply light_request_match in Ef.
  unfold setLight in Hr. apply lan_then in Hr as (rq & t1 & t2 & -> & Hf & Hs & Hsig & [(v & Hv & Hr)|(-> & e & He & ->)]).
  - apply after_command in Hr as (H1 & H2 & ->). exists c, f, host, key, tr1, t1, t2, (Ok v), rq.
    rewrite fetched_app, saved_app, Hf, Hs, H1, H2. done.
  - exists c, f, host, key, tr1, t1, [], (Err e), rq. rewrite app_nil_r, Hf, Hs. done.
Qed.

(** The messages of a toggle. *)
Definition toggle_message (light : bool) (t : lan_target) (channel : Z) (onoff : bool) (rq : http_request) : Prop :=
  if light then signed_request t NAMESPACE_LIGHT "SET" (light_payload channel (only_onoff onoff)) rq
  else signed_request t NAMESPACE_TOGGLEX "SET" (togglex_payload channel onoff) rq.

(** One attempt to switch, in one of the two namespaces. *)
Definition toggle_attempt (light : bool) (t : lan_target) (channel : Z) (onoff : bool) : poller val :=
  if light then setLight t channel (only_onoff onoff) else setToggleX t channel onoff.

Lemma toggle_attempt_runs light t channel onoff tr r : runs (toggle_attempt light t channel onoff) tr r →
  saved tr = [] ∧ ∃ rq, fetched tr = [rq] ∧ toggle_message light t channel onoff rq.
Proof. destruct light; intros (rq & Hf & Hs & Hm)%fetched_lan; eauto. Qed.

Lemma toggle_call_runs light t channel onoff tr r : runs (toggle_call light t channel onoff : poller val) tr r →
  ∃ first rest r1, tr = first ++ rest ∧ runs (toggle_attempt light t channel onoff) first r1 ∧
    match r1 with
    | Ok _ => rest = [] ∧ r = r1
    | Err _ => runs (toggle_attempt (negb light) t channel onoff) rest r
    end.
Proof.
  unfold toggle_call, toggle_attempt.
  destruct light; cbn [negb]; (intros [(v & Hr & ->)|(tr1 & tr2 & e & -> & Hr & Hr2)]%runs_catch;
    [exists tr, [], (Ok v); by rewrite app_nil_r|by exists tr1, tr2, (Err e)]).
Qed.

(** The configuration [cfg] was read during [tr]. *)
Definition file_config (f : config_file) : MerossConfig := match f with ConfigText c => c | _ => empty_config end.

Definition config_read (tr : list sys_event) (cfg : MerossConfig) : Prop :=
  ∃ p f, Ev (LoadFile p) f ∈ tr ∧ cfg = file_config f.

Lemma config_read_app tr1 tr2 cfg : config_read tr1 cfg ∨ config_read tr2 cfg → config_read (tr1 ++ tr2) cfg.
Proof. intros [(p & f & Hin & ->)|(p & f & Hin & ->)]; exists p, f; set_solver. Qed.

Lemma readConfig_runs {St R} tr r : runs (readConfig : prog St R sysE _) tr r →
  fetched tr = [] ∧ saved tr = [] ∧ ∃ cfg, r = Ok cfg ∧ config_read tr cfg.
Proof.
  intros Hr. assert (Hq : quiet tr) by (eapply quiet_runs, Hr; auto with calls).
  split_and!; [by apply quiet_fetched|by apply quiet_saved|]. clear Hq.
  revert tr r Hr. apply (proj1 (wp_runs _ (λ tr r, ∃ cfg, r = Ok cfg ∧ config_read tr cfg))).
  assert (Hload : ∀ tr p (f : config_file), config_read (tr ++ [Ev (LoadFile p) f]) (file_config f))
    by (intros tr p f; exists p, f; set_solver).
  unfold readConfig, loadMerossConfig, configPath, env_or, defaultMerossConfigPath.
  apply wp_bind, wp_bind. intros [v|]; cbn [wp bind sys app]; [destruct (str_truthy v)|];
    cbn [wp bind sys app]; intros; (eexists; split; [reflexivity|]).
  - apply (Hload [_]).
  - apply (Hload [_; _]).
  - apply (Hload [_; _]).
Qed.

(** C19: the toggle handler (toggle-device.ts) refuses without any message a body without a uuid or with a bad
    channel, and a device without a known host or a key; otherwise it sends the command first in the
    namespace the model of the device asks for: when that attempt succeeds it is the only message and the
    answer carries its reply, and only when it fails a second message goes out, in the other namespace, and
    the answer carries its reply or its failure. Every message switches the requested channel to the
    requested state, and nothing is written. *)
Theorem toggleDevice_spec hasPoller req tr r : runs (toggleDevice hasPoller req) tr r →
  let body := body_of req in
  let onoff := coerce01 (prop "onoff" body) in
  let uuid := str_or_empty (prop "uuid" body) in
  (refusal tr r ∧ (str_truthy uuid = false ∨ channel_of body = None ∨ ∃ e, lan_missing uuid tr e)) ∨
  ∃ channel cfg host key found before first rest r1 rq, let light := prefers_light cfg uuid in
    let t := to_device host key in
    channel_of body = Some channel ∧ 0 <= channel ∧ saved tr = [] ∧
    tr = (found ++ before) ++ first ++ rest ∧ lan_found uuid host key found ∧ config_read before cfg ∧
    runs (toggle_attempt light t channel onoff) first r1 ∧ toggle_message light t channel onoff rq ∧
    let answer (a : result val) : result api_response := Ok (match a with
      | Ok resp => ApiOk (VObj [("host", VStr host); ("channel", VZ channel); ("onoff", bit_val onoff); ("resp", resp)])
      | Err e => ApiErr (exn_message e) "lan_error" VUndef
      end) in
    match r1 with
    | Ok _ => fetched tr = [rq] ∧ r = answer r1
    | Err _ => ∃ second after r2 rq', rest = second ++ after ∧
        runs (toggle_attempt (negb light) t channel onoff) second r2 ∧ toggle_message (negb light) t channel onoff rq' ∧
        fetched tr = [rq; rq'] ∧ r = answer r2
    end.
Proof.
  intros Hr body onoff uuid. unfold toggleDevice in Hr. fold body uuid onoff in Hr. cbv zeta in Hr.
  destruct (str_truthy uuid) eqn:Eu; cbn [negb] in Hr; [|left; split; [by eapply refusal_err|by left]].
  destruct (channel_of body) as [c|] eqn:Ec; [|left; split; [by eapply refusal_err|by right; left]].
  apply channel_of_nonneg in Ec as Hc.
  apply on_lan_split in Hr as [[? Hm]|(host & key & found & tr2 & r2 & -> & Hfound & -> & -> & Hr & ->)]; [left; eauto 10|]. right.
  apply runs_bind in Hr as [(t1 & t2 & cfg & -> & Hcfg & Hr)|(e & Hcfg & ->)];
    apply readConfig_runs in Hcfg as (Hf1 & Hs1 & ? & [= <-] & Hcfg).
  rewrite fetched_app, saved_app, Hf1, Hs1. cbn [app]. simpl.
  apply runs_bind in Hr as [(t3 & t4 & resp & -> & Ht & Hr)|(e & Ht & ->)];
    apply toggle_call_runs in Ht as (first & rest & r1 & -> & Hfirst & Hend);
    destruct (toggle_attempt_runs _ _ _ _ _ _ Hfirst) as (Hs & rq & Hf & Hm).
  - apply after_command in Hr as (Hf4 & Hs4 & ->). exists c, cfg, host, key, found, t1, first, (rest ++ t4), r1, rq.
    rewrite !fetched_app, !saved_app, Hf, Hs, Hf4, Hs4, !app_nil_r, <- !app_assoc. cbn [app]. destruct r1 as [v|e].
    + destruct Hend as [-> [= ->]]. done.
    + destruct (toggle_attempt_runs _ _ _ _ _ _ Hend) as (Hs2 & rq' & Hf2 & Hm2). rewrite Hs2, Hf2.
      split_and!; try done. exists rest, t4, (Ok resp), rq'. done.
  - destruct r1 as [v|e1]; [by destruct Hend|]. exists c, cfg, host, key, found, t1, first, rest, (Err e1), rq.
    destruct (toggle_attempt_runs _ _ _ _ _ _ Hend) as (Hs2 & rq' & Hf2 & Hm2).
    rewrite !fetched_app, !saved_app, Hf, Hs, Hs2, Hf2, <- !app_assoc. cbn [app].
    split_and!; try done. exists rest, [], (Err e), rq'. by rewrite app_nil_r.
Qed.
(** ** Patching a rule *)

(** The value that the field [k] takes for the value [v] of the patch. *)
Definition patched_value (k : string) (v w : val) : Prop :=
  if decide (k = "enable") then w = bit01 v
  else if decide (k = "alias") then w = VStr (str_or_empty v)
  else ∃ n, asFiniteInt v = Some n ∧ w = VZ n ∧ (k = "channel" → 0 <= n).

Definition rule_fields : list string := ["enable"; "alias"; "channel"; "type"; "week"; "time"; "sunOffset"; "duration"].

(** From [rule] to [rule'], the fields [ks] follow the patch and every other one is kept. *)
Definition follows (patch : val) (ks : list string) (rule rule' : record) : Prop :=
  ∀ k, if decide (k ∈ ks ∧ wants k patch = true)
       then ∃ w, jget k rule' = Some w ∧ patched_value k (prop k patch) w
       else jget k rule' = jget k rule.

Lemma follows_nil patch rule : follows patch [] rule rule.
Proof. intros k. by rewrite decide_False by set_solver. Qed.

Lemma follows_cons patch k ks rule1 rule2 rule3 :
  k ∉ ks → follows patch [k] rule1 rule2 → follows patch ks rule2 rule3 → follows patch (k :: ks) rule1 rule3.
Proof.
  intros Hk H1 H2 k'. specialize (H1 k'). specialize (H2 k').
  destruct (decide (k' ∈ ks ∧ wants k' patch = true)) as [Hin|Hout].
  - rewrite decide_True by set_solver. done.
  - destruct (decide (k' ∈ [k] ∧ wants k' patch = true)).
    + rewrite decide_True by set_solver. rewrite H2. done.
    + rewrite decide_False by set_solver. congruence.
Qed.

Lemma follows_write patch k w rule :
  wants k patch = true → patched_value k (prop k patch) w → follows patch [k] rule (jset k w rule).
Proof.
  intros Hw Hv k'. destruct (decide _) as [[->%list_elem_of_singleton _]|Hn].
  - exists w. by rewrite jget_set_eq.
  - apply jget_set_ne. intros ->. set_solver.
Qed.

Lemma follows_skip patch k rule : wants k patch = false → follows patch [k] rule rule.
Proof. intros Hw k'. rewrite decide_False; [done|]. intros [->%list_elem_of_singleton Hk]. congruence. Qed.

Lemma patch_field_follows k f patch rule :
  (∀ v, patched_value k v (f v)) → follows patch [k] rule (patch_field k f patch rule).
Proof.
  intros Hf. unfold patch_field. destruct (wants k patch) eqn:Hw; [by apply follows_write|by apply follows_skip].
Qed.

Lemma patch_int_follows k ok m c patch rule rule' :
  k ≠ "enable" → k ≠ "alias" → (k = "channel" → ∀ n, ok n = true → 0 <= n) →
  patch_int k ok m c patch rule = Go rule' → follows patch [k] rule rule'.
Proof.
  intros He Ha Hok. unfold patch_int. destruct (wants k patch) eqn:Hw; [|intros [= <-]; by apply follows_skip].
  destruct (asFiniteInt _) as [n|] eqn:En; [|done]. destruct (ok n) eqn:Eo; [|done]. intros [= <-].
  apply follows_write; [done|]. unfold patched_value. rewrite !decide_False by done. eauto.
Qed.

(** The action of the rule: its [extend.toggle.onoff], which only [toggleOnoff] changes, where there is one; the
    rest of [extend] and of its [toggle] is kept. *)
Definition action_follows (patch : val) (rule rule' : record) : Prop :=
  if wants "toggleOnoff" patch
  then ∃ extend toggle extend' toggle',
    jget "extend" rule = Some (VObj extend) ∧ jget "toggle" extend = Some (VObj toggle) ∧
    prop "onoff" (VObj toggle) ≠ VUndef ∧
    jget "extend" rule' = Some (VObj extend') ∧ jget "toggle" extend' = Some (VObj toggle') ∧
    (∀ k, jget k extend' = if decide (k = "toggle") then Some (VObj toggle') else jget k extend) ∧
    (∀ k, jget k toggle' = if decide (k = "onoff") then Some (bit01 (prop "toggleOnoff" patch)) else jget k toggle)
  else jget "extend" rule' = jget "extend" rule.

Lemma prop_obj k o v : prop k (VObj o) = v → v ≠ VUndef → jget k o = Some v.
Proof. cbn. destruct (jget k o); cbn; congruence. Qed.

Lemma jget_set' {V} (k k' : string) (v : V) o : jget k' (jset k v o) = if decide (k' = k) then Some v else jget k' o.
Proof. rewrite jget_set. repeat case_decide; congruence. Qed.

Lemma patch_toggle_follows patch rule rule' : patch_toggle patch rule = Go rule' →
  action_follows patch rule rule' ∧ ∀ k, k ≠ "extend" → jget k rule' = jget k rule.
Proof.
  unfold patch_toggle, action_follows. destruct (wants "toggleOnoff" patch); [|intros [= <-]; done].
  destruct (prop "extend" (VObj rule)) as [| | | | | |e] eqn:Ee; try done.
  destruct (prop "toggle" (VObj e)) as [| | | | | |t] eqn:Et; try done.
  destruct (is_undef (prop "onoff" (VObj t))) eqn:Eo; [done|]. intros [= <-]. split.
  - exists e, t. eexists _, _. split_and!; [by apply prop_obj|by apply prop_obj|by intros E; rewrite E in Eo
      |apply jget_set_eq|apply jget_set_eq|intros k; apply jget_set'..].
  - intros k Hk. by apply jget_set_ne.
Qed.

(** What a patch makes of a rule. *)
Definition rule_patched (patch : val) (rule rule' : record) : Prop :=
  action_follows patch rule rule' ∧
  ∀ k, k ≠ "extend" → if decide (k ∈ rule_fields ∧ wants k patch = true)
                      then ∃ w, jget k rule' = Some w ∧ patched_value k (prop k patch) w
                      else jget k rule' = jget k rule.

Lemma apply_patch_follows patch rule rule' : apply_patch patch rule = Go rule' → rule_patched patch rule rule'.
Proof.
  unfold apply_patch, rule_patched. cbv zeta.
  set (r1 := patch_field "enable" bit01 patch rule).
  set (r2 := patch_field "alias" _ patch r1).
  assert (F1 : follows patch ["enable"] rule r1) by by apply patch_field_follows.
  assert (F2 : follows patch ["alias"] r1 r2) by by apply patch_field_follows.
  destruct (patch_int "channel" _ _ _ patch r2) as [r3|] eqn:F3; [|done]. cbn [obind].
  destruct (patch_int "type" _ _ _ patch r3) as [r4|] eqn:F4; [|done]. cbn [obind].
  destruct (patch_int "week" _ _ _ patch r4) as [r5|] eqn:F5; [|done]. cbn [obind].
  destruct (patch_int "time" _ _ _ patch r5) as [r6|] eqn:F6; [|done]. cbn [obind].
  destruct (patch_int "sunOffset" _ _ _ patch r6) as [r7|] eqn:F7; [|done]. cbn [obind].
  destruct (patch_int "duration" _ _ _ patch r7) as [r8|] eqn:F8; [|done]. cbn [obind].
  apply patch_int_follows in F3, F4, F5, F6, F7, F8; try done; [|intros _ n; lia].
  assert (F : follows patch rule_fields rule r8)
    by (unfold rule_fields; repeat (eapply follows_cons;
          [apply (bool_decide_unpack _); vm_compute; exact I|eassumption|]); apply follows_nil).
  intros [Ha Hk]%patch_toggle_follows. split.
  - specialize (F "extend"). rewrite decide_False in F by set_solver. revert Ha. unfold action_follows. by rewrite F.
  - intros k Hne. specialize (F k). rewrite (Hk k Hne). done.
Qed.
(** A patch that is refused: a number that is none, a negative channel, or an action for a rule without one. *)
Definition bad_patch (patch : val) (rule : record) : Prop :=
  (∃ k, k ∈ ["channel"; "type"; "week"; "time"; "sunOffset"; "duration"] ∧ wants k patch = true ∧
        match asFiniteInt (prop k patch) with None => True | Some n => k = "channel" ∧ n < 0 end) ∨
  (wants "toggleOnoff" patch = true ∧
   ¬ ∃ extend toggle, jget "extend" rule = Some (VObj extend) ∧ jget "toggle" extend = Some (VObj toggle) ∧
                      prop "onoff" (VObj toggle) ≠ VUndef).

Lemma patch_int_refused k ok m c patch rule m' c' : patch_int k ok m c patch rule = Refuse m' c' →
  wants k patch = true ∧ match asFiniteInt (prop k patch) with None => True | Some n => ok n = false end.
Proof.
  unfold patch_int. destruct (wants k patch); [|done]. destruct (asFiniteInt _) as [n|]; [|done]. by destruct (ok n).
Qed.

Lemma patch_int_extend k ok m c patch rule rule' :
  k ≠ "extend" → patch_int k ok m c patch rule = Go rule' → jget "extend" rule' = jget "extend" rule.
Proof.
  intros Hk. unfold patch_int. repeat case_match; intros; simplify_eq; [by apply jget_set_ne|done].
Qed.

Lemma patch_toggle_refused patch rule m c : patch_toggle patch rule = Refuse m c →
  wants "toggleOnoff" patch = true ∧
  ¬ ∃ extend toggle, jget "extend" rule = Some (VObj extend) ∧ jget "toggle" extend = Some (VObj toggle) ∧
                     prop "onoff" (VObj toggle) ≠ VUndef.
Proof.
  unfold patch_toggle. destruct (wants "toggleOnoff" patch); [|done]. intros Hc. split; [done|].
  intros (e & t & He & Ht & Ho). revert Hc.
  assert (prop "extend" (VObj rule) = VObj e) as -> by (cbn; by rewrite He).
  assert (prop "toggle" (VObj e) = VObj t) as -> by (cbn; by rewrite Ht).
  destruct (is_undef (prop "onoff" (VObj t))) eqn:Eo; [|done]. by destruct (prop "onoff" (VObj t)).
Qed.

Lemma no_fields_all patch : no_fields patch = true → ∀ k, k ∈ "toggleOnoff" :: rule_fields → wants k patch = false.
Proof.
  unfold no_fields. rewrite forallb_forall. intros Hn k Hk. apply negb_true_iff, Hn, list_elem_of_In.
  unfold patch_fields. unfold rule_fields in Hk. set_solver.
Qed.

(** A field that accepts every number refuses what is none. *)
Ltac bad_number k H :=
  apply patch_int_refused in H as [Hw Hn]; intros _; left; exists k; split_and!;
  [set_solver|done|by destruct (asFiniteInt _)].

Lemma apply_patch_refused patch rule m c : apply_patch patch rule = Refuse m c → bad_patch patch rule.
Proof.
  unfold apply_patch, bad_patch. cbv zeta.
  set (r2 := patch_field "alias" _ patch _).
  assert (H2 : jget "extend" r2 = jget "extend" rule)
    by (unfold r2, patch_field; repeat case_match; rewrite ?jget_set_ne by done; done).
  destruct (patch_int "channel" _ _ _ patch r2) as [r3|] eqn:F3.
  2:{ apply patch_int_refused in F3 as [Hw Hn]. intros _. left. exists "channel". split_and!; [set_solver|done|].
      destruct (asFiniteInt _); [|done]. split; [done|lia]. }
  cbn [obind].
  destruct (patch_int "type" _ _ _ patch r3) as [r4|] eqn:F4; [|bad_number "type" F4]. cbn [obind].
  destruct (patch_int "week" _ _ _ patch r4) as [r5|] eqn:F5; [|bad_number "week" F5]. cbn [obind].
  destruct (patch_int "time" _ _ _ patch r5) as [r6|] eqn:F6; [|bad_number "time" F6]. cbn [obind].
  destruct (patch_int "sunOffset" _ _ _ patch r6) as [r7|] eqn:F7; [|bad_number "sunOffset" F7]. cbn [obind].
  destruct (patch_int "duration" _ _ _ patch r7) as [r8|] eqn:F8; [|bad_number "duration" F8]. cbn [obind].
  apply patch_int_extend in F3, F4, F5, F6, F7, F8; [|done..].
  intros Ht%patch_toggle_refused. right. by rewrite F8, F7, F6, F5, F4, F3, H2 in Ht.
Qed.

(** A call that reads a rule fails, or its reply holds none. *)
Definition no_rule (kind : string) (got : result val) : Prop :=
  match got with Err _ => True | Ok reply => as_rule_record kind (path ["payload"; kind] reply) = None end.

(** C16: the patch of a timer (patch-device-timerx.ts) refuses without a message a request without a uuid, an id or
    a field, and a device without a known host or a key; otherwise it first reads the rule of the device. It
    writes a rule exactly when the reply holds one, every number of the patch is a finite one (of the channel, not
    negative) and an action is patched only where the rule has one, and then in one SET message whose rule is the one read with the fields of the patch replaced: an absent field, everything else
    the device keeps in the rule, and the rest of the rule's action go back as they came. The answer carries
    the reply of the device, or its failure. *)
Theorem patchDeviceTimerX_spec hasPoller req tr r : runs (patchDeviceTimerX hasPoller req) tr r →
  let body := body_of req in
  let uuid := str_or_empty (prop "uuid" body) in
  let id := trim (str_or_empty (prop "id" body)) in
  let patch := match as_record (prop "patch" body) with Some o => VObj o | None => VObj [] end in
  (refusal tr r ∧ (str_truthy uuid = false ∨ str_truthy id = false ∨ (∀ k, k ∈ "toggleOnoff" :: rule_fields → wants k patch = false) ∨ ∃ e, lan_missing uuid tr e)) ∨
  ∃ host key pre trg post got get, let t := to_device host key in
    tr = pre ++ trg ++ post ∧ lan_found uuid host key pre ∧ runs (getTimerX t id : poller val) trg got ∧ saved tr = [] ∧
    signed_request t NAMESPACE_TIMERX "GET" (VObj [("timerx", VObj [("id", VStr id)])]) get ∧
    ((fetched tr = [get] ∧ refused r ∧
      (no_rule "timerx" got ∨ ∃ reply rule, got = Ok reply ∧
         as_rule_record "timerx" (path ["payload"; "timerx"] reply) = Some rule ∧ bad_patch patch rule)) ∨
     ∃ reply rule rule' put trp rest answer,
       got = Ok reply ∧ as_rule_record "timerx" (path ["payload"; "timerx"] reply) = Some rule ∧
       rule_patched patch rule rule' ∧
       post = trp ++ rest ∧ runs (setTimerX t (VObj rule') : poller val) trp answer ∧
       fetched tr = [get; put] ∧ signed_request t NAMESPACE_TIMERX "SET" (VObj [("timerx", VObj rule')]) put ∧
       r = Ok (match answer with
               | Ok resp => ApiOk (VObj [("host", VStr host); ("id", VStr id); ("updated", updated_rule rule'); ("resp", resp)])
               | Err e => ApiErr (exn_message e) "lan_error" VUndef
               end)).
Proof.
  intros Hr body uuid id patch. unfold patchDeviceTimerX in Hr. cbv zeta in Hr. fold body uuid id patch in Hr.
  destruct (str_truthy uuid) eqn:Eu; cbn [negb] in Hr; [|left; split; [by eapply refusal_err|by left]].
  destruct (str_truthy id) eqn:Ei; cbn [negb] in Hr; [|left; split; [by eapply refusal_err|by right; left]].
  destruct (no_fields patch) eqn:En; [left; split; [by eapply refusal_err|right; right; left; by apply no_fields_all]|].
  apply on_lan_split in Hr as [[? Hm]|(host & key & pre & tr2 & r2 & -> & Hfound & -> & -> & Hr & ->)]; [left; eauto 10|]. right.
  unfold getTimerX in Hr.
  apply lan_then in Hr as (get & t1 & t2 & -> & Hf & Hs & Hsig & [(reply & Hget & Hr)|(-> & e & Hget & ->)]).
  2:{ exists host, key, pre, t1, [], (Err e), get. rewrite app_nil_r, Hf, Hs. split_and!; try done. left.
      split_and!; [done|by repeat eexists|by left]. }
  exists host, key, pre, t1, t2, (Ok reply), get. rewrite saved_app, Hs, !fetched_app, Hf. cbn [app].
  assert (Hrefuse : ∀ m c, runs (apiErr m c) t2 r2 → saved t2 = [] ∧ fetched t2 = [] ∧ ∃ m c d, r2 = Ok (ApiErr m c d))
    by (intros m c (-> & -> & Hd)%refusal_err; eauto).
  destruct (as_rule_record _ _) as [rule|] eqn:Erule.
  2:{ destruct (Hrefuse _ _ Hr) as (-> & -> & m & c & d & ->). split_and!; try done. left.
      split_and!; [done|by repeat eexists|by left]. }
  destruct (apply_patch patch rule) as [rule'|m c] eqn:Ep.
  2:{ destruct (Hrefuse _ _ Hr) as (-> & -> & m' & c' & d & ->). split_and!; try done. left.
      split_and!; [done|by repeat eexists|right]. exists reply, rule. split_and!; [done..|by eapply apply_patch_refused]. }
  apply apply_patch_follows in Ep. unfold setTimerX in Hr.
  apply lan_then in Hr as (put & t3 & t4 & -> & Hf3 & Hs3 & Hput & Hr). rewrite saved_app, fetched_app, Hs3, Hf3. cbn [app].
  destruct Hr as [(resp & Hset & Hr)|(-> & e & Hset & ->)].
  - apply after_command in Hr as (-> & -> & ->). split_and!; try done. right. by exists reply, rule, rule', put, t3, t4, (Ok resp).
  - split_and!; try done. right. by exists reply, rule, rule', put, t3, [], (Err e).
Qed.
(** ** Deleting a rule *)

(** The answer of a deletion: [deleted] or else [disabled]. *)
Definition delete_reply (host id : string) (deleted : bool) (resp : val) : result api_response :=
  Ok (ApiOk (VObj [("host", VStr host); ("id", VStr id); ("deleted", VBool deleted); ("disabled", VBool (negb deleted));
                   ("resp", resp)])).

(** A message that sets [enable] and keeps the rest of the rule, and what the device answered. *)
Definition enables (t : lan_target) (ns kind : string) (rule : record) (z : Z) (rq : http_request) (tr : list sys_event)
    (answer : result val) : Prop :=
  ∃ rule', (∀ k, jget k rule' = if decide (k = "enable") then Some (VZ z) else jget k rule) ∧
    runs (lan_call t ns "SET" (VObj [(kind, VObj rule')]) : poller val) tr answer ∧
    fetched tr = [rq] ∧ saved tr = [] ∧ signed_request t ns "SET" (VObj [(kind, VObj rule')]) rq.

(** The device does not refuse: its reply has no error code, or the code 0. *)
Definition agrees (resp : val) : bool := match lanErrorCode resp with Some c => bool_decide (c = 0) | None => true end.

Lemma accepted_agrees resp : accepted resp = agrees resp.
Proof. unfold accepted, agrees. destruct (lanErrorCode resp) as [c|]; [|done]. case_bool_decide; lia. Qed.

(** The messages of a deletion: the second one goes out exactly when the device answers the first with a refusal.
    [ok] is the end for a deleted or disabled rule, [no] for a second refusal. *)
Definition deletes {A} (t : lan_target) (ns kind : string) (rule : record) (ok : bool → val → result A)
    (no : val → result A → Prop) (tr : list sys_event) (r : result A) : Prop :=
  ∃ del first rest answer, tr = first ++ rest ∧ enables t ns kind rule (-1) del first answer ∧
    match answer with
    | Err e => fetched tr = [del] ∧ r = Err e
    | Ok resp =>
        if agrees resp then fetched tr = [del] ∧ r = ok true resp
        else ∃ dis second after answer', rest = second ++ after ∧ enables t ns kind rule 0 dis second answer' ∧
          fetched tr = [del; dis] ∧
          match answer' with
          | Err e => r = Err e
          | Ok resp' => if agrees resp' then r = ok false resp' else no resp' r
          end
    end.

(** The two ends of [delete_rule]. *)
Definition rule_outcome (deleted : bool) (resp : val) : result (val * (bool + Z)) := Ok (resp, inl deleted).

Definition rule_refused (resp : val) (r : result (val * (bool + Z))) : Prop :=
  ∃ code, lanErrorCode resp = Some code ∧ r = Ok (resp, inr code).

Lemma delete_rule_runs t ns kind rule tr r :
  runs (delete_rule (λ v, lan_call t ns "SET" (VObj [(kind, v)])) rule) tr r →
  saved tr = [] ∧ deletes t ns kind rule rule_outcome rule_refused tr r.
Proof.
  assert (Hdel : ∀ k, jget k (jset "enable" (VZ (-1)) rule) = if decide (k = "enable") then Some (VZ (-1)) else jget k rule)
    by (intros k; apply jget_set').
  assert (Hdis : ∀ k, jget k (jset "enable" (VZ 0) (jset "enable" (VZ (-1)) rule)) = if decide (k = "enable") then Some (VZ 0) else jget k rule)
    by (intros k; rewrite jget_set', Hdel; by repeat case_decide).
  unfold delete_rule, deletes.
  intros (del & t1 & t2 & -> & Hf & Hs & Hsig & [(resp & Hset & Hr)|(-> & e & Hset & ->)])%lan_then;
    rewrite saved_app, fetched_app, Hs, Hf; cbn [app].
  2:{ split; [done|]. exists del, t1, [], (Err e). split_and!; try done. by eexists. }
  assert (Hfirst : enables t ns kind rule (-1) del t1 (Ok resp)) by (by eexists).
  rewrite accepted_agrees in Hr. destruct (agrees resp) eqn:Ea.
  { destruct Hr as [-> ->]. split; [done|]. exists del, t1, [], (Ok resp). by rewrite Ea. }
  apply lan_then in Hr as (dis & t3 & t4 & -> & Hf3 & Hs3 & Hsig3 & Hr).
  rewrite saved_app, fetched_app, Hs3, Hf3. cbn [app].
  destruct Hr as [(resp' & Hset' & Hr)|(-> & e & Hset' & ->)].
  - assert (Hsecond : enables t ns kind rule 0 dis t3 (Ok resp')) by (by eexists).
    assert (t4 = [] ∧ if agrees resp' then r = rule_outcome false resp' else rule_refused resp' r) as [-> Hend].
    { unfold rule_refused. rewrite <- accepted_agrees; unfold accepted in *. destruct (lanErrorCode resp') as [c|]; [destruct (c =? 0)|]; destruct Hr as [-> ->]; eauto. }
    split; [done|]. exists del, t1, (t3 ++ []), (Ok resp). rewrite Ea. split_and!; [done..|]. by exists dis, t3, [], (Ok resp').
  - split; [done|]. exists del, t1, (t3 ++ []), (Ok resp). rewrite Ea. split_and!; [done..|]. exists dis, t3, [], (Err e).
    split_and!; try done. by eexists.
Qed.

Lemma delete_answer_runs hasPoller uuid t host id label failure ns kind rule tr r :
  runs (delete_answer hasPoller uuid host id label failure (λ v, lan_call t ns "SET" (VObj [(kind, v)])) rule) tr r →
  saved tr = [] ∧ deletes t ns kind rule (delete_reply host id) (λ _, refused) tr r.
Proof.
  unfold delete_answer. intros [(t1 & t2 & [resp o] & -> & Hd & Hr)|(e & Hd & ->)]%runs_bind;
    apply delete_rule_runs in Hd as (Hs & del & first & rest & answer & -> & Hdel & Hd).
  - assert (Hend : ∀ deleted, o = inl deleted → fetched t2 = [] ∧ saved t2 = [] ∧ r = delete_reply host id deleted resp)
      by (intros b ->; by apply after_command in Hr).
    assert (Hno : ∀ code, o = inr code → fetched t2 = [] ∧ saved t2 = [] ∧ refused r)
      by (intros code ->; destruct Hr as [-> ->]; by repeat eexists).
    rewrite saved_app, Hs. cbn [app]. unfold deletes.
    destruct answer as [resp1|e]; [destruct (agrees resp1) eqn:Ea|by destruct Hd].
    + destruct Hd as [Hf [= -> ->]]. destruct (Hend _ eq_refl) as (Hf2 & -> & ->). split; [done|].
      exists del, first, (rest ++ t2), (Ok resp1). by rewrite Ea, fetched_app, Hf, Hf2, <- app_assoc.
    + destruct Hd as (dis & second & after & answer' & -> & Hdis & Hf & Hd).
      destruct answer' as [resp2|e]; [|done]. assert (saved t2 = [] ∧ fetched t2 = [] ∧
        if agrees resp2 then r = delete_reply host id false resp2 else refused r) as (-> & Hf2 & Hans).
      { destruct (agrees resp2); [injection Hd as -> ->; by destruct (Hend _ eq_refl) as (? & ? & ?)|].
        destruct Hd as (code & _ & [= -> ->]). by destruct (Hno _ eq_refl) as (? & ? & ?). }
      split; [done|]. exists del, first, ((second ++ after) ++ t2), (Ok resp1). rewrite Ea, fetched_app, Hf, Hf2, <- !app_assoc.
      split_and!; [done..|]. by exists dis, second, (after ++ t2), (Ok resp2).
  - split; [done|]. exists del, first, rest, answer. split_and!; [done..|].
    destruct answer as [resp1|e1]; [destruct (agrees resp1)|]; [by destruct Hd|..|naive_solver].
    destruct Hd as (dis & second & after & answer' & -> & Hdis & Hf & Hd). exists dis, second, after, answer'. split_and!; [done..|].
    destruct answer' as [resp2|e2]; [destruct (agrees resp2); [done|by destruct Hd as (? & _ & ?)]|by injection Hd as ->].
Qed.

(** C17: the deletion of a timer (delete-device-timerx.ts) refuses without a message a request without a uuid or an
    id, and a device without a known host or a key; otherwise it first reads the rule of the device, and where the
    reply holds one it asks to delete it with [enable = -1], the rest of the rule as it was read. That is the only
    message when the device accepts it, or when it fails; exactly when the device answers it with a refusal, it
    asks to disable the rule with [enable = 0]. The answer says [deleted] after an accepted deletion,
    [disabled] after an accepted disabling, and a second refusal is an error. *)
Theorem deleteDeviceTimerX_spec hasPoller req tr r : runs (deleteDeviceTimerX hasPoller req) tr r →
  let body := body_of req in
  let uuid := str_or_empty (prop "uuid" body) in
  let id := trim (str_or_empty (prop "id" body)) in
  (refusal tr r ∧ (str_truthy uuid = false ∨ str_truthy id = false ∨ ∃ e, lan_missing uuid tr e)) ∨
  ∃ host key pre trg post got get, let t := to_device host key in
    tr = pre ++ trg ++ post ∧ lan_found uuid host key pre ∧ runs (getTimerX t id : poller val) trg got ∧ saved tr = [] ∧
    signed_request t NAMESPACE_TIMERX "GET" (VObj [("timerx", VObj [("id", VStr id)])]) get ∧
    ((fetched tr = [get] ∧ refused r ∧ no_rule "timerx" got) ∨
     ∃ reply rule r', got = Ok reply ∧ as_rule_record "timerx" (path ["payload"; "timerx"] reply) = Some rule ∧
       fetched tr = get :: fetched post ∧
       deletes t NAMESPACE_TIMERX "timerx" rule (delete_reply host id) (λ _, refused) post r' ∧
       r = match r' with Ok a => Ok a | Err e => Ok (ApiErr (exn_message e) "lan_error" VUndef) end).
Proof.
  intros Hr body uuid id. unfold deleteDeviceTimerX in Hr. cbv zeta in Hr. fold body uuid id in Hr.
  destruct (str_truthy uuid) eqn:Eu; cbn [negb] in Hr; [|left; split; [by eapply refusal_err|by left]].
  destruct (str_truthy id) eqn:Ei; cbn [negb] in Hr; [|left; split; [by eapply refusal_err|by right; left]].
  apply on_lan_split in Hr as [[? Hm]|(host & key & pre & tr2 & r2 & -> & Hfound & -> & -> & Hr & ->)]; [left; eauto 10|]. right.
  unfold getTimerX in Hr.
  apply lan_then in Hr as (get & t1 & t2 & -> & Hf & Hs & Hsig & [(reply & Hget & Hr)|(-> & e & Hget & ->)]).
  2:{ exists host, key, pre, t1, [], (Err e), get. rewrite app_nil_r, Hf, Hs. split_and!; try done. left.
      split_and!; [done|by repeat eexists|done]. }
  exists host, key, pre, t1, t2, (Ok reply), get. rewrite saved_app, Hs, !fetched_app, Hf. cbn [app].
  destruct (as_rule_record _ _) as [rule|] eqn:Erule.
  2:{ destruct (refusal_err _ _ _ _ Hr) as (-> & -> & m & c & d & ->). split_and!; try done. left.
      split_and!; [done|by repeat eexists|done]. }
  unfold setTimerX in Hr. apply delete_answer_runs in Hr as (-> & Hd). split_and!; try done. right.
  by exists reply, rule, r2.
Qed.
End Commands.

(** ** Finding hosts *)

Definition unsaved (ev : sys_event) : Prop := is_save ev = false.

Lemma unsaved_saved tr : Forall unsaved tr → saved tr = [].
Proof.
  induction 1 as [|ev tr Hs H IH]; [done|]. destruct ev as [X [] x]; try done; exact IH.
Qed.

Section Finding.
Context `{Runtime}.

Lemma silent_unsaved {St R A} (p : prog St R sysE A) : calls silent p → calls unsaved p.
Proof. apply calls_mono. by intros ev [_ ?]. Qed.

Lemma unsaved_runs {St R A} (p : prog St R sysE A) tr r : calls unsaved p → runs p tr r → saved tr = [].
Proof. intros Hp Hr. unfold calls in Hp. rewrite wp_runs in Hp. apply unsaved_saved. by eapply Hp. Qed.

Lemma unsaved_warm_up {St R} cidr : calls unsaved (warm_up cidr : prog St R sysE _).
Proof. unfold warm_up, pingSweep. quiet_tac. Qed.

Lemma unsaved_scan {St R} uuid cidr key ms c mac :
  calls unsaved (resolveHostByUuidScan uuid cidr key ms c mac : prog St R sysE _).
Proof. unfold resolveHostByUuidScan. quiet_tac. Qed.

Lemma silent_resolveIpv4FromMac {St R} mac : calls silent (resolveIpv4FromMac mac : prog St R sysE _).
Proof. unfold resolveIpv4FromMac. quiet_tac. Qed.

Lemma unsaved_scan_hosts {St R} uuid cidr key ms mac : calls unsaved (scan_hosts uuid cidr key ms mac : prog St R sysE _).
Proof.
  unfold scan_hosts. apply calls_bind; [apply unsaved_warm_up|]. intros _.
  apply calls_bind; [apply unsaved_scan|]. quiet_tac.
Qed.

(** Writing the configuration is one write, which may fail. *)
Lemma writeConfig_runs {St R} c tr r : runs (writeConfig c : prog St R sysE _) tr r → saved tr = [c] ∧ fetched tr = [].
Proof.
  intros [(t1 & t2 & p & -> & Hp & Hr)|(e & Hp & ->)]%runs_bind.
  - apply (quiet_runs _ _ _ quiet_configPath) in Hp. rewrite saved_app, fetched_app, quiet_saved, quiet_fetched by done.
    destruct Hr as (x & tr' & -> & Hr). assert (tr' = []) as -> by (destruct x; apply Hr). done.
  - exfalso. revert Hp. unfold configPath, env_or, defaultMerossConfigPath.
    intros [(? & ? & v & -> & _ & Hr)|(e' & (? & ? & _ & _ & [=]) & _)]%runs_bind.
    destruct v as [v|]; [destruct (str_truthy v); [by destruct Hr|]|]; destruct Hr as (? & ? & _ & _ & [=]).
Qed.

(** The end of a handler that writes: the write, then the answer unless it fails. *)
Lemma write_then {St R A} c (a : A) tr r : runs (writeConfig c ;;! Ret a : prog St R sysE _) tr r →
  saved tr = [c] ∧ fetched tr = [] ∧ (r = Ok a ∨ ∃ e, r = Err e).
Proof.
  intros [(t1 & t2 & u & -> & Hw & [-> ->])|(e & Hw & ->)]%runs_bind; apply writeConfig_runs in Hw as [Hs Hf];
    rewrite ?app_nil_r; eauto.
Qed.

(** The address [ip] came out of a neighbour table under the MAC. *)
Definition in_neighbours (mac : string) (tr : list sys_event) (ip : string) : Prop :=
  ∃ cmd out target, Ev (RunCmd cmd) out ∈ tr ∧ normalizeMac mac = Ok target ∧
    (arp_lookup target out = Some ip ∨ neigh_lookup target out = Some ip).

(** The address [ip] came out of [tr]: from a scan that looked for the uuid, or from a neighbour table
    under the MAC. *)
Definition host_source (uuid mac : string) (tr : list sys_event) (ip : string) : Prop :=
  (∃ s t m, Ev (ScanUuid s uuid t) (Some (ip, m)) ∈ tr) ∨ in_neighbours mac tr ip.

Lemma in_neighbours_mono mac tr tr' ip : tr ⊆ tr' → in_neighbours mac tr ip → in_neighbours mac tr' ip.
Proof. unfold in_neighbours. set_solver. Qed.

Lemma host_source_mono uuid mac tr tr' ip : tr ⊆ tr' → host_source uuid mac tr ip → host_source uuid mac tr' ip.
Proof. unfold host_source, in_neighbours. set_solver. Qed.

Lemma scan_source {St R} uuid mac cidr key ms m tr ip m' :
  runs (scan_hosts uuid cidr key ms m : prog St R sysE _) tr (Ok (Some ip, m')) → host_source uuid mac tr ip.
Proof.
  intros [(t1 & t2 & _ & -> & _ & Hr)|(e & _ & [=])]%runs_bind.
  apply runs_bind in Hr as [(t3 & t4 & res & -> & Hs & [-> Hres])|(e & _ & [=])].
  destruct res as [[h found]|]; [|done]. injection Hres as -> _.
  left. unfold resolveHostByUuidScan in Hs. destruct (listHostsInCidr cidr) as [[|i ips]|]; [by destruct Hs| |by destruct Hs].
  destruct Hs as (x & tr' & -> & -> & [= <-]). eexists _, m, found. rewrite !elem_of_app, list_elem_of_singleton. eauto.
Qed.

Lemma neighbour_source {St R} mac tr ip :
  runs (resolveIpv4FromMac mac : prog St R sysE _) tr (Ok (Some ip)) → in_neighbours mac tr ip.
Proof.
  intros [(t1 & t2 & target & -> & Hn & Hr)|(e & _ & [=])]%runs_bind.
  destruct (normalizeMac mac) as [g|] eqn:En; [|by destruct Hn]. destruct Hn as [-> [= <-]].
  destruct Hr as (out & tr' & -> & Hr). cbn [bind sys] in Hr. destruct (arp_lookup target out) as [i|] eqn:Ea.
  - destruct Hr as [-> [= <-]]. eexists _, out, target. split; [by apply list_elem_of_here|]. auto.
  - destruct Hr as (out2 & tr2 & -> & -> & [= Hl]). eexists _, out2, target. split; [by apply list_elem_of_further, list_elem_of_here|]. auto.
Qed.

Lemma table_source {St R} uuid mac tr ip :
  runs (resolveIpv4FromMac mac : prog St R sysE _) tr (Ok (Some ip)) → host_source uuid mac tr ip.
Proof. right. by eapply neighbour_source. Qed.

Lemma unsaved_search_by_uuid {St R} uuid cidr ms : calls unsaved (search_by_uuid uuid cidr ms : prog St R sysE _).
Proof.
  unfold search_by_uuid. apply calls_bind; [apply silent_unsaved, quiet_requireLanKey|]. intros key.
  apply calls_bind; [apply unsaved_scan_hosts|]. quiet_tac.
Qed.

Lemma unsaved_search_by_mac {St R} uuid mac cidr ms : calls unsaved (search_by_mac uuid mac cidr ms : prog St R sysE _).
Proof.
  unfold search_by_mac. apply calls_bind; [destruct (str_truthy cidr); [apply unsaved_warm_up|constructor]|]. intros _.
  apply calls_bind; [apply silent_unsaved, silent_resolveIpv4FromMac|]. intros ip. cbv zeta.
  destruct (ip ≫= nonempty); [constructor|].
  apply calls_bind; [apply silent_unsaved, quiet_default_cidr|]. intros c. destruct (str_truthy c); [|constructor].
  apply calls_bind; [apply silent_unsaved, quiet_requireLanKey|]. intros key.
  apply calls_bind; [apply unsaved_scan_hosts|]. quiet_tac.
Qed.

Lemma search_by_uuid_source {St R} uuid mac cidr ms tr s ip :
  runs (search_by_uuid uuid cidr ms : prog St R sysE _) tr (Ok s) → hs_ip s ≫= nonempty = Some ip →
  host_source uuid mac tr ip.
Proof.
  intros [(t1 & t2 & key & -> & _ & Hr)|(e & _ & [=])]%runs_bind.
  apply runs_bind in Hr as [(t3 & t4 & [h m] & -> & Hs & [-> [= ->]])|(e & _ & [=])].
  destruct h as [h|]; [|done]. intros Hh; apply nonempty_Some in Hh as [<- _]. eapply host_source_mono, scan_source, Hs. set_solver.
Qed.

Lemma search_by_mac_source {St R} uuid mac cidr ms tr s ip :
  runs (search_by_mac uuid mac cidr ms : prog St R sysE _) tr (Ok s) → hs_ip s ≫= nonempty = Some ip →
  host_source uuid mac tr ip.
Proof.
  intros [(t1 & t2 & u & -> & _ & Hr)|(e & _ & [=])]%runs_bind.
  apply runs_bind in Hr as [(t3 & t4 & found & -> & Hm & Hr)|(e & _ & [=])]. cbv zeta in Hr.
  destruct (found ≫= nonempty) as [i|] eqn:Ei.
  - destruct Hr as [-> [= ->]]. cbn [hs_ip]. rewrite Ei. intros [= ->].
    destruct found as [f|]; [|done]. apply nonempty_Some in Ei as [-> _].
    eapply host_source_mono, table_source, Hm. set_solver.
  - apply runs_bind in Hr as [(t5 & t6 & c & -> & _ & Hr)|(e & _ & [=])].
    destruct (str_truthy c); [|destruct Hr as [_ [= ->]]; cbn [hs_ip]; rewrite Ei; done].
    apply runs_bind in Hr as [(t7 & t8 & key & -> & _ & Hr)|(e & _ & [=])].
    apply runs_bind in Hr as [(t9 & t10 & [h m] & -> & Hs & [-> [= ->]])|(e & _ & [=])].
    cbn [hs_ip fst]. destruct h as [h|]; [|rewrite Ei; done]. intros Hh; apply nonempty_Some in Hh as [<- _].
    eapply host_source_mono, scan_source, Hs. set_solver.
Qed.

(** C20: resolving a host (resolve-host.ts) writes the configuration at most once, and only when it
    found an address: one that a scan for this uuid or a neighbour table under the given MAC
    produced; the new configuration is the one read after the search with the entry of this device
    replaced: its address, the time, and a MAC, where the stored MAC stays unless the search found
    one. An [ok] answer reports what was written. *)
Theorem resolveHost_spec req tr r : runs (resolveHost req) tr r →
  let uuid := str_or_empty (prop "uuid" (body_of req)) in
  let mac := str_or_empty (coalesce (prop "mac" (body_of req)) (prop "macAddress" (body_of req))) in
  (saved tr = [] ∧ ∀ data, r ≠ Ok (ApiOk data)) ∨
  ∃ search rest cfg ip found at_,
    tr = search ++ rest ∧ saved search = [] ∧ host_source uuid mac search ip ∧ config_read rest cfg ∧
    let entry := recovered_entry (jget uuid (hosts_of cfg)) ip found at_ in
    saved tr = [with_hosts (jset uuid entry (hosts_of cfg)) cfg] ∧
    (r = Ok (ApiOk (mk_obj [("uuid", VStr uuid); ("host", VStr ip); ("mac", opt_val VStr found)])) ∨ ∃ e, r = Err e).
Proof.
  intros Hr uuid mac. unfold resolveHost in Hr. cbv zeta in Hr. fold uuid mac in Hr.
  set (cidr := opt_text _ ?: "") in Hr. set (ms := opt_number _) in Hr.
  destruct (negb (str_truthy uuid)); [left; destruct Hr as [-> ->]; done|].
  apply runs_bind in Hr as [(t1 & t2 & eff & -> & He & Hr)|(e & He & ->)];
    (assert (Hse : saved _ = []) by (eapply unsaved_runs, He; destruct (str_truthy mac);
       [constructor|apply silent_unsaved, quiet_default_cidr])); [|by left].
  destruct (negb (str_truthy mac) && negb (str_truthy eff)).
  { left. destruct Hr as [-> ->]. by rewrite app_nil_r. }
  apply runs_bind in Hr as [(t3 & t4 & s & -> & Hs & Hr)|(e & Hs & ->)];
    (assert (Hss : saved _ = []) by (eapply unsaved_runs, Hs; destruct (str_truthy mac);
       [apply unsaved_search_by_mac|apply unsaved_search_by_uuid])); [|left; by rewrite saved_app, Hse, Hss].
  destruct (hs_ip s ≫= nonempty) as [ip|] eqn:Eip.
  2:{ left. rewrite !saved_app, Hse, Hss.
      apply runs_bind in Hr as [(t5 & t6 & sug & -> & Hd & [-> ->])|(e & Hd & ->)];
        (assert (Hsd : saved _ = []) by (eapply unsaved_runs, Hd; destruct (str_truthy mac);
          [constructor|apply silent_unsaved; unfold defaultSuggestedCidrNow; quiet_tac]));
        rewrite ?app_nil_r, Hsd; done. }
  right. exists (t1 ++ t3), t4.
  assert (Hsrc : host_source uuid mac t3 ip)
    by (destruct (str_truthy mac); [eapply search_by_mac_source|eapply search_by_uuid_source]; eassumption).
  apply runs_bind in Hr as [(t5 & t6 & cfg & -> & Hc & Hr)|(e & Hc & ->)];
    apply readConfig_runs in Hc as (Hf5 & Hs5 & ? & [= <-] & Hc).
  apply runs_bind in Hr as [(t7 & t8 & at_ & -> & Ha & Hr)|(e & Ha & ->)];
    [|by destruct Ha as (? & ? & _ & _ & [=])].
  assert (Hs7 : saved t7 = []) by (eapply unsaved_runs, Ha; apply silent_unsaved, quiet_nowIso).
  apply write_then in Hr as (Hs8 & _ & Hr).
  exists cfg, ip, (hs_mac s ≫= nonempty), at_. rewrite <- !app_assoc, !saved_app, Hse, Hss, Hs5, Hs7, Hs8.
  split_and!; try done; [|by apply config_read_app; left].
  eapply host_source_mono, Hsrc. set_solver.
Qed.

(** The scans of a run, by their replies. *)
Definition scan_replies (ev : sys_event) : option (list (string * (result val * string))) :=
  match ev with @Ev _ _ (ScanAll _) replies => Some replies | _ => None end.


Definition unscanned (ev : sys_event) : Prop := scan_replies ev = None ∧ unsaved ev.

(** Nothing of [tr] reads the configuration, writes it or scans. *)
Definition is_load (ev : sys_event) : bool := match ev with @Ev _ _ (LoadFile _) _ => true | _ => false end.
Definition unread (ev : sys_event) : Prop := is_load ev = false ∧ unscanned ev.

Lemma unread_saved tr : Forall unread tr → saved tr = [].
Proof. intros Htr. apply unsaved_saved. eapply Forall_impl; [exact Htr|]. by intros ev (_ & _ & ?). Qed.

Lemma unread_runs {St R A} (p : prog St R sysE A) tr r : calls unread p → runs p tr r → Forall unread tr.
Proof. intros Hp Hr. unfold calls in Hp. rewrite wp_runs in Hp. by eapply Hp. Qed.

Lemma unread_redirect {St R} n endpoint params domain opts :
  calls unread (redirect_loop n endpoint params domain opts : prog St R sysE _).
Proof.
  assert (Hfetch : ∀ rq, calls unread (sys_try (Fetch rq) : prog St R sysE _))
    by (intros rq x; apply wp_mono with (Q1 := λ tr _, Forall unread tr);
        [intros tr r Htr; by apply Forall_cons_2 | by destruct x; constructor]).
  assert (Hpost : ∀ d, calls unread (authenticatedPost endpoint params d opts : prog St R sysE _)).
  { intros d. unfold authenticatedPost. do 2 (apply calls_bind; [by apply calls_sys|intros ?]).
    apply calls_bind; [apply Hfetch|]. intros res. destruct (cloud_json res); constructor. }
  revert domain. induction n as [|n IH]; intros domain; cbn [redirect_loop];
    (apply calls_bind; [apply Hpost|intros resp]); [constructor|].
  destruct (status_is 1030 resp); [|constructor]. destruct (path _ _); try constructor.
  destruct (str_truthy s); [apply IH|constructor].
Qed.

Lemma unread_login {St R} log params options : calls unread (merossCloudLogin log params options : prog St R sysE _).
Proof.
  unfold merossCloudLogin. apply calls_bind; [by apply calls_sys|]. intros os. apply calls_bind; [|quiet_tac].
  set (opts := {| co_token := _ |}). generalize (sign_in_params log params os) as ps. intros ps.
  induction (domainCandidates (cl_domain options)) as [|d l IH]; cbn [login_loop]; [constructor|].
  apply calls_bind; [apply unread_redirect|]. intros [d' resp]. cbn [snd].
  destruct (status_is 0 resp); [constructor|]. destruct l; [constructor|].
  destruct (status_is 1004 resp); [exact IH|constructor].
Qed.

Lemma unread_list {St R} creds ms : calls unread (merossCloudListDevices creds ms : prog St R sysE _).
Proof.
  unfold merossCloudListDevices. apply calls_bind; [apply unread_redirect|]. quiet_tac.
Qed.

(** An answer that is not [ok], or an exception. *)
Definition not_ok (r : result api_response) : Prop := ∀ data, r ≠ Ok (ApiOk data).

(** The refusals of a cloud handler write nothing. *)
Lemma cloud_failure_runs e tr r : runs (cloud_failure e) tr r → saved tr = [] ∧ not_ok r.
Proof. destruct e; intros [-> ->]; done. Qed.

(** Refreshing the device list (refresh-cloud-devices.ts) reads the configuration once, before it
    asks the cloud, and not again. It writes only after a device list arrived, and what it writes is
    that first snapshot with the list and its time replaced: a host or credential that another request
    saves in the meantime is overwritten with the older value. *)
Theorem refreshCloudDevices_spec req tr r : runs (refreshCloudDevices req) tr r →
  (saved tr = [] ∧ not_ok r) ∨
  ∃ before list after cfg creds at0 ms devices at_,
    tr = before ++ list ++ after ∧ config_read before cfg ∧ cf_cloud cfg = Some (creds, at0) ∧
    runs (merossCloudListDevices creds ms : poller _) list (Ok devices) ∧ Forall unread list ∧
    saved tr = [with_devices at_ devices cfg] ∧
    ((∃ n, n = Z.of_nat (length devices) ∧ r = Ok (ApiOk (VObj [("count", VZ n); ("list", VArr devices)]))) ∨ not_ok r).
Proof.
  intros [(t1 & t2 & cfg & -> & Hc & Hr)|(e & Hc & ->)]%runs_bind;
    apply readConfig_runs in Hc as (_ & Hs1 & ? & [= <-] & Hc).
  destruct (cf_cloud cfg) as [[creds at0]|] eqn:Ecloud.
  2:{ left. destruct Hr as [-> ->]. by rewrite app_nil_r. }
  set (ms := finite_only _) in Hr.
  assert (Hbody : ∀ tb rb, runs (let! devices := merossCloudListDevices creds ms in let! at_ := nowIso in
      writeConfig (with_devices at_ devices cfg) ;;!
      apiOk (VObj [("count", VZ (Z.of_nat (length devices))); ("list", VArr devices)]) : handler) tb rb →
    (saved tb = [] ∧ ∃ e, rb = Err e) ∨
    ∃ list after devices at_, tb = list ++ after ∧ runs (merossCloudListDevices creds ms : poller _) list (Ok devices) ∧
      Forall unread list ∧ saved tb = [with_devices at_ devices cfg] ∧
      (rb = Ok (ApiOk (VObj [("count", VZ (Z.of_nat (length devices))); ("list", VArr devices)])) ∨ ∃ e, rb = Err e)).
  { intros tb rb [(t3 & t4 & devices & -> & Hl & Hb)|(e & Hl & ->)]%runs_bind;
      pose proof (unread_runs _ _ _ (unread_list _ _) Hl) as Hu;
      [|left; split; [by apply unread_saved|eauto]].
    apply runs_bind in Hb as [(t5 & t6 & at_ & -> & Ha & Hb)|(e & Ha & ->)]; [|by destruct Ha as (? & ? & _ & _ & [=])].
    assert (Hs5 : saved t5 = []) by (eapply unsaved_runs, Ha; apply silent_unsaved, quiet_nowIso).
    apply write_then in Hb as (Hs6 & _ & Hb). right. exists t3, (t5 ++ t6), devices, at_.
    rewrite !saved_app, (unread_saved t3), Hs5, Hs6 by done. done. }
  apply runs_catch in Hr as [(a & Hb & ->)|(tb & th & e & -> & Hb & Hh)]; apply Hbody in Hb.
  - destruct Hb as [[_ [e [=]]]|(list & after & devices & at_ & -> & Hl & Hu & Hs & Hb)].
    right. exists t1, list, after, cfg, creds, at0, ms, devices, at_. rewrite saved_app, Hs1, Hs.
    repeat (split; [done|]). destruct Hb as [->|[e [=]]]. eauto.
  - apply cloud_failure_runs in Hh as [Hsh Hno].
    destruct Hb as [[Hs _]|(list & after & devices & at_ & -> & Hl & Hu & Hs & Hb)].
    + left. by rewrite !saved_app, Hs1, Hs, Hsh.
    + right. exists t1, list, (after ++ th), cfg, creds, at0, ms, devices, at_.
      rewrite saved_app, (saved_app (list ++ after)), Hs1, Hs, Hsh, <- app_assoc. eauto 10.
Qed.

(** The [try] block of the sign-in. *)
Lemma login_body_runs log params options tb rb :
  runs (let! creds := merossCloudLogin log params options in let! cfg := readConfig in
      let! at_ := nowIso in writeConfig (with_cloud creds at_ cfg) ;;!
      apiOk (VObj [("cloud", summary_val (summarizeCloud creds))]) : handler) tb rb →
    (saved tb = [] ∧ ∃ e, rb = Err e) ∨
    ∃ login after creds cfg at_, tb = login ++ after ∧ runs (merossCloudLogin log params options : poller _) login (Ok creds) ∧
      config_read after cfg ∧ saved tb = [with_cloud creds at_ cfg] ∧
      (rb = Ok (ApiOk (VObj [("cloud", summary_val (summarizeCloud creds))])) ∨ ∃ e, rb = Err e).
Proof.
  intros [(t7 & t8 & creds & -> & Hl & Hb)|(e & Hl & ->)]%runs_bind;
    pose proof (unread_saved _ (unread_runs _ _ _ (unread_login _ _ _) Hl)) as Hs7; [|left; eauto].
  apply runs_bind in Hb as [(t9 & t10 & cfg & -> & Hc & Hb)|(e & Hc & ->)];
    apply readConfig_runs in Hc as (_ & Hs9 & ? & [= <-] & Hc).
  apply runs_bind in Hb as [(t11 & t12 & at_ & -> & Ha & Hb)|(e & Ha & ->)]; [|by destruct Ha as (? & ? & _ & _ & [=])].
  assert (Hs11 : saved t11 = []) by (eapply unsaved_runs, Ha; apply silent_unsaved, quiet_nowIso).
  apply write_then in Hb as (Hs12 & _ & Hb). right. exists t7, (t9 ++ t11 ++ t12), creds, cfg, at_.
  rewrite !saved_app, Hs7, Hs9, Hs11, Hs12. split_and!; try done. by apply config_read_app; left.
Qed.

(** Every run of the handler. *)
Lemma loginCloud_runs log req tr r : runs (loginCloud log req) tr r →
  (saved tr = [] ∧ not_ok r) ∨
  ∃ before login after params options creds cfg at_,
    tr = before ++ login ++ after ∧ quiet before ∧
    lp_email params = str_or_empty (prop "email" (body_of req)) ∧ str_truthy (lp_email params) = true ∧
    lp_password params = str_or_empty (prop "password" (body_of req)) ∧ str_truthy (lp_password params) = true ∧
    runs (merossCloudLogin log params options : poller _) login (Ok creds) ∧ config_read after cfg ∧
    saved tr = [with_cloud creds at_ cfg] ∧
    (r = Ok (ApiOk (VObj [("cloud", summary_val (summarizeCloud creds))])) ∨ not_ok r).
Proof.
  intros [(t1 & t2 & dbg & -> & Hdbg & Hr)|(e & (? & ? & _ & _ & [=]) & _)]%runs_bind.
  apply runs_bind in Hr as [(t3 & t4 & rid & -> & Hrid & Hr)|(e & (? & ? & _ & _ & [=]) & _)].
  set (email := str_or_empty (prop "email" _)) in Hr |- *. set (password := str_or_empty (prop "password" _)) in Hr |- *.
  assert (Hq1 : quiet t1) by (eapply quiet_runs, Hdbg; by apply calls_sys).
  assert (Hq3 : quiet t3) by (eapply quiet_runs, Hrid; by apply calls_sys).
  destruct (str_truthy email) eqn:Eemail, (str_truthy password) eqn:Epw; cbn [negb orb] in Hr;
    try by (left; destruct Hr as [-> ->]; rewrite app_nil_r, saved_app, !quiet_saved).
  apply runs_bind in Hr as [(t5 & t6 & now & -> & Hnow & Hr)|(e & (? & ? & _ & _ & [=]) & _)].
  assert (Hq5 : quiet t5) by (eapply quiet_runs, Hnow; by apply calls_sys).
  set (params := {| lp_email := email |}) in Hr. set (options := {| cl_domain := _ |}) in Hr.
  assert (Hhead : saved (t1 ++ t3 ++ t5 ++ t6) = saved t6) by (by rewrite !saved_app, (quiet_saved t1), (quiet_saved t3), (quiet_saved t5)).
  rewrite Hhead.
  assert (Hq : quiet (t1 ++ t3 ++ t5)) by (unfold quiet; by rewrite !Forall_app).
  apply runs_catch in Hr as [(a & Hb & ->)|(tb & th & e & -> & Hb & Hh)]; apply login_body_runs in Hb.
  - destruct Hb as [[_ [e [=]]]|(login & after & creds & cfg & at_ & -> & Hl & Hc & Hs & Hb)].
    right. exists (t1 ++ t3 ++ t5), login, after, params, options, creds, cfg, at_. rewrite Hs, <- !app_assoc.
    repeat (split; [done|]). destruct Hb as [->|[e [=]]]. eauto.
  - assert (Hend : saved th = [] ∧ not_ok r).
    { apply runs_bind in Hh as [(u1 & u2 & mfa & -> & Hi & Hh)|(e' & Hi & ->)].
      - assert (u1 = []) as -> by (by destruct (inferMfaRequired e); destruct Hi).
        destruct mfa; [|by apply cloud_failure_runs in Hh]. destruct e; by destruct Hh as [-> ->].
      - assert (th = []) as -> by (by destruct (inferMfaRequired e); destruct Hi). done. }
    destruct Hend as [Hsh Hno].
    destruct Hb as [[Hs _]|(login & after & creds & cfg & at_ & -> & Hl & Hc & Hs & Hb)].
    + left. by rewrite !saved_app, Hs, Hsh.
    + right. exists (t1 ++ t3 ++ t5), login, (after ++ th), params, options, creds, cfg, at_.
      rewrite (saved_app (login ++ after)), Hs, Hsh, <- !app_assoc. repeat (split; [done|]).
      split; [by apply config_read_app; left|]. eauto.
Qed.

(** C22: signing in (login-cloud.ts) writes the configuration only after the cloud accepted the email
    and the password of the request; it then reads the configuration and replaces its credentials and
    their time, nothing else, so that hosts found and devices listed during the sign-in stay. An [ok]
    answer carries the summary of the credentials, with the token shortened. *)
Theorem loginCloud_spec log req tr r : runs (loginCloud log req) tr r →
  (saved tr = [] ∧ not_ok r) ∨
  ∃ before login after params options creds cfg at_,
    tr = before ++ login ++ after ∧ quiet before ∧
    lp_email params = str_or_empty (prop "email" (body_of req)) ∧ str_truthy (lp_email params) = true ∧
    lp_password params = str_or_empty (prop "password" (body_of req)) ∧ str_truthy (lp_password params) = true ∧
    runs (merossCloudLogin log params options : poller _) login (Ok creds) ∧ config_read after cfg ∧
    saved tr = [with_cloud creds at_ cfg] ∧
    (r = Ok (ApiOk (VObj [("cloud", summary_val (summarizeCloud creds))])) ∨ not_ok r).
Proof. apply loginCloud_runs. Qed.










End Finding.

Section History.
Context `{Runtime}.

Definition history_of (ev : sys_event) : option (history_query * result (list bucket_point)) :=
  match ev with @Ev _ _ (DbHistory q) x => Some (q, x) | _ => None end.

Lemma history_elem q points (tr : list sys_event) : Ev (DbHistory q) points ∈ tr → (q, points) ∈ omap history_of tr.
Proof. intros Hin. apply list_elem_of_omap. by exists (Ev (DbHistory q) points). Qed.

(** The query of an accepted request. *)
Lemma history_request_ok uuid channel now body q : history_request uuid channel now body = Go q →
  hq_uuid q = uuid ∧ hq_channel q = channel ∧ 0 <= hq_toMs q - hq_fromMs q <= 30 * 24 * 60 * 60 * 1000 ∧
  1000 <= hq_bucketMs q.
Proof.
  unfold history_request. cbv zeta. destruct (Z.ltb_spec (query_number "toMs" 0 now body) (query_number "fromMs" 0 (now - 6 * 60 * 60 * 1000) body)) as [|E1]; [done|].
  case_match eqn:E2; [done|]. intros [= <-]. cbn [hq_uuid hq_channel hq_fromMs hq_toMs hq_bucketMs].
  apply Z.ltb_ge in E2. repeat (split; [done || lia|]).
  unfold query_number. destruct (prop "bucketMs" body); try destruct (num_floor _); lia.
Qed.

Definition thirty_days : Z := 30 * 24 * 60 * 60 * 1000.

(** The history handler (get-telemetry-power-history.ts) asks the database only for a range that
    does not end before it begins and spans at most thirty days, in buckets of at least one second, of
    the requested device and channel; so the range touches at most 2592002 buckets. Everything
    else is refused without a query. *)
Theorem getTelemetryPowerHistory_spec req tr r q points :
  runs (getTelemetryPowerHistory req) tr r → Ev (DbHistory q) points ∈ tr →
  hq_uuid q = trim (str_or_empty (prop "uuid" (body_of req))) ∧ str_truthy (hq_uuid q) = true ∧
  channel_of (body_of req) = Some (hq_channel q) ∧
  0 <= hq_toMs q - hq_fromMs q <= thirty_days ∧ 1000 <= hq_bucketMs q ∧
  (hq_toMs q - hq_fromMs q) / hq_bucketMs q + 2 <= 2592002 ∧
  r = match points with
      | Ok l => Ok (ApiOk (VObj [("fromMs", VZ (hq_fromMs q)); ("toMs", VZ (hq_toMs q)); ("bucketMs", VZ (hq_bucketMs q));
                                 ("points", VArr (map point_val l))]))
      | Err e => Err e
      end.
Proof.
  unfold getTelemetryPowerHistory, on_channel. cbv zeta. set (uuid := trim _).
  destruct (str_truthy uuid) eqn:Eu; cbn [negb]; [|intros [-> _] Hin; by apply not_elem_of_nil in Hin].
  destruct (channel_of (body_of req)) as [c|]; [|intros [-> _] Hin; by apply not_elem_of_nil in Hin].
  intros (now & t1 & -> & Hr) Hin. cbn [sys bind] in Hr.
  destruct (history_request uuid c now (body_of req)) as [q'|] eqn:Eq.
  2:{ destruct Hr as [-> _]. apply list_elem_of_singleton in Hin. discriminate Hin. }
  destruct Hr as (x & t2 & -> & Hr). apply history_request_ok in Eq as (Hu & Hch & Hrange & Hb).
  assert (t2 = [] ∧ r = match x with
    | Ok l => Ok (ApiOk (VObj [("fromMs", VZ (hq_fromMs q')); ("toMs", VZ (hq_toMs q')); ("bucketMs", VZ (hq_bucketMs q'));
                               ("points", VArr (map point_val l))]))
    | Err e => Err e
    end) as [-> ->] by (by destruct x).
  apply history_elem in Hin. cbn in Hin. apply list_elem_of_singleton in Hin as [= -> ->].
  rewrite Hu, Hch. unfold thirty_days. split_and!; try done; try lia.
  assert ((hq_toMs q' - hq_fromMs q') / hq_bucketMs q' <= 2592000); [|lia].
  apply Z.div_le_upper_bound; [lia|]. nia.
Qed.
End History.

(** ** Concrete runs *)

(** A device and a cloud that answer every request with [v]. *)
Definition handler_run (file : config_file) (net : nat → http_request → result http_response) (h : poller api_response)
    : list sys_event * result api_response :=
  exec (test_oracle initial_server (λ _, Err (JsError "dropped")) file net) 0 h.

Lemma handler_runs file net h : runs h (fst (handler_run file net h)) (snd (handler_run file net h)).
Proof. apply exec_runs. Qed.

Definition known_config : MerossConfig :=
  {| cf_cloud := Some ({| cc_domain := "iot.meross.com"; cc_mqttDomain := None; cc_token := "t"; cc_key := "k";
                          cc_userId := "1"; cc_userEmail := "a@b" |}, "now");
     cf_devices := None;
     cf_hosts := Some [("u1", {| he_host := "10.0.0.9"; he_updatedAt := "now"; he_mac := None |})];
     cf_network := None |}.

Definition post_body (v : val) : api_request :=
  {| rb_contentType := Some "application/json"; rb_body := json_stringify v |}.

Definition replies (v : val) (n : nat) (rq : http_request) : result http_response := json_response v.

Definition device_run (v : val) (h : api_request → poller api_response) (body : val) :=
  handler_run (ConfigText known_config) (replies v) (h (post_body body)).

Abbreviation rt := test_runtime.

Definition light_run := device_run (VObj []) (@setDeviceLight rt true)
  (VObj [("uuid", VStr "u1"); ("luminance", VZ 250)]).

Lemma setDeviceLight_spec_witness : ∃ rq, fetched (fst light_run) = [rq] ∧ saved (fst light_run) = [].
Proof.
  destruct (@setDeviceLight_spec rt true (post_body (VObj [("uuid", VStr "u1"); ("luminance", VZ 250)]))
    (fst light_run) (snd light_run) (handler_runs _ _ _))
    as [[[Hf _] _]|(c & f & host & key & t1 & t2 & t3 & a & rq & _ & _ & _ & _ & _ & _ & Hf & Hs & _)].
  - vm_compute in Hf. discriminate.
  - exists rq. split; assumption.
Defined.

Definition toggle_run := device_run (VObj []) (@toggleDevice rt true) (VObj [("uuid", VStr "u1"); ("onoff", VZ 1)]).

Lemma toggleDevice_spec_witness : ∃ rq rest, fetched (fst toggle_run) = rq :: rest ∧ saved (fst toggle_run) = [].
Proof.
  destruct (@toggleDevice_spec rt true (post_body (VObj [("uuid", VStr "u1"); ("onoff", VZ 1)]))
    (fst toggle_run) (snd toggle_run) (handler_runs _ _ _))
    as [[[Hf _] _]|(c & cfg & host & key & t1 & t2 & t3 & t4 & r1 & rq & _ & _ & Hs & _ & _ & _ & _ & _ & Hend)].
  - vm_compute in Hf. discriminate.
  - destruct r1 as [v|e]; [destruct Hend as [Hf _]; exists rq, []|destruct Hend as (? & ? & r2 & rq' & _ & _ & _ & Hf & _); exists rq, [rq']];
      split; assumption.
Defined.

(** The rule "t1" of a device, with a field the patch does not name. *)
Definition timer_reply : val :=
  VObj [("payload", VObj [("timerx", VObj [("id", VStr "t1"); ("enable", VZ 1); ("week", VZ 127); ("extra", VStr "x")])])].

Definition patch_body : val :=
  VObj [("uuid", VStr "u1"); ("id", VStr "t1"); ("patch", VObj [("enable", VZ 0); ("time", VStr "480")])].

Definition patch_run := device_run timer_reply (@patchDeviceTimerX rt true) patch_body.

Lemma patchDeviceTimerX_spec_witness : ∃ get set, fetched (fst patch_run) = [get; set] ∧ saved (fst patch_run) = [].
Proof.
  destruct (@patchDeviceTimerX_spec rt true (post_body patch_body) (fst patch_run) (snd patch_run) (handler_runs _ _ _))
    as [[[Hf _] _]|(host & key & pre & trg & post & got & get & _ & _ & _ & Hs & _ &
        [[Hf _]|(reply & rule & rule' & put & trp & rest & answer & _ & _ & _ & _ & _ & Hf & _)])].
  - vm_compute in Hf. discriminate.
  - vm_compute in Hf. discriminate.
  - exists get, put. split; assumption.
Defined.

Definition delete_body : val := VObj [("uuid", VStr "u1"); ("id", VStr "t1")].

Definition delete_run := device_run timer_reply (@deleteDeviceTimerX rt true) delete_body.

Lemma deleteDeviceTimerX_spec_witness : ∃ get reqs, fetched (fst delete_run) = get :: reqs ∧ length reqs = 1%nat.
Proof.
  destruct (@deleteDeviceTimerX_spec rt true (post_body delete_body) (fst delete_run) (snd delete_run) (handler_runs _ _ _))
    as [[[Hf _] _]|(host & key & pre & trg & post & got & get & _ & _ & _ & Hs & _ &
        [[Hf _]|(reply & rule & r' & _ & _ & Hf & _)])].
  - vm_compute in Hf. discriminate.
  - vm_compute in Hf. discriminate.
  - exists get, (fetched post). split; [exact Hf|].
    assert (Hl : length (fetched (fst delete_run)) = 2%nat) by (vm_compute; reflexivity).
    rewrite Hf in Hl. by injection Hl.
Defined.

(** The cloud answers with one device. *)
Definition list_reply : val :=
  VObj [("apiStatus", VZ 0); ("data", VArr [VObj [("uuid", VStr "u7")]])].

Definition refresh_run := device_run list_reply (@refreshCloudDevices rt) (VObj []).

Lemma refreshCloudDevices_spec_witness : ∃ at_ devices cfg, saved (fst refresh_run) = [with_devices at_ devices cfg] ∧
  length devices = 1%nat.
Proof.
  destruct (@refreshCloudDevices_spec rt (post_body (VObj [])) (fst refresh_run) (snd refresh_run) (handler_runs _ _ _))
    as [[Hs _]|(before & list & after & cfg & creds & at0 & ms & devices & at_ & _ & _ & _ & _ & _ & Hs & _)].
  - vm_compute in Hs. discriminate.
  - exists at_, devices, cfg. split; [exact Hs|].
    apply (f_equal (λ l, head l ≫= cf_devices)) in Hs. vm_compute in Hs. injection Hs as _ <-. reflexivity.
Defined.

Definition sign_in_reply : val :=
  VObj [("apiStatus", VZ 0); ("data", VObj [("token", VStr "secret-token"); ("key", VStr "k2"); ("userid", VStr "7")])].

Definition sign_in_body : val := VObj [("email", VStr "a@b"); ("password", VStr "p")].

Definition sign_in_run := device_run sign_in_reply (@loginCloud rt "log") sign_in_body.

Lemma loginCloud_spec_witness : ∃ creds at_ cfg, saved (fst sign_in_run) = [with_cloud creds at_ cfg] ∧ cc_key creds = "k2".
Proof.
  destruct (@loginCloud_spec rt "log" (post_body sign_in_body) (fst sign_in_run) (snd sign_in_run) (handler_runs _ _ _))
    as [[Hs _]|(before & login & after & params & options & creds & cfg & at_ & _ & _ & _ & _ & _ & _ & _ & _ & Hs & _)].
  - vm_compute in Hs. discriminate.
  - exists creds, at_, cfg. split; [exact Hs|].
    apply (f_equal (λ l, head l ≫= cf_cloud)) in Hs. vm_compute in Hs. injection Hs as <- _. reflexivity.
Defined.

(** A home with two addresses, where the device "u2" answers at the second one. *)
Definition u2_reply : val :=
  VObj [("payload", VObj [("all", VObj [("system", VObj [("hardware", VObj [("uuid", VStr "u2")])])])])].

Definition home_replies : list (string * (result val * string)) :=
  [("10.0.0.10", (Ok u2_reply, "now")); ("10.0.0.9", (Err (JsError "timeout"), "now"))].

Definition home_answer (X : Type) (n : nat) (e : sysE X) : X :=
  match e in sysE X return X with
  | LoadFile _ => ConfigText known_config
  | ScanUuid _ _ _ => Some ("10.0.0.10", None)
  | ScanAll _ => home_replies
  | e => quiet_answer _ n e
  end.

Definition home_oracle : oracle server pval sysE :=
  {| o_sys := home_answer; o_state := initial_server; o_await := λ _, Err (JsError "dropped") |}.

Definition home_run (h : api_request → poller api_response) (body : val) : list sys_event * result api_response :=
  exec home_oracle 0 (h (post_body body)).

Lemma home_runs h body : runs (h (post_body body)) (fst (home_run h body)) (snd (home_run h body)).
Proof. apply exec_runs. Qed.

Definition resolve_body : val := VObj [("uuid", VStr "u2"); ("cidr", VStr "10.0.0.8/30")].

Lemma resolveHost_spec_witness : ∃ ip found at_,
  saved (fst (home_run (@resolveHost rt) resolve_body)) =
    [with_hosts (jset "u2" (recovered_entry None ip found at_) (hosts_of known_config)) known_config].
Proof.
  destruct (@resolveHost_spec rt (post_body resolve_body) (fst (home_run (@resolveHost rt) resolve_body))
    (snd (home_run (@resolveHost rt) resolve_body)) (home_runs _ _))
    as [[Hs _]|(search & rest & cfg & ip & found & at_ & _ & _ & _ & _ & Hs & _)].
  - vm_compute in Hs. discriminate.
  - exists "10.0.0.10", None, "2023-11-14T22:13:20.000Z". vm_compute. reflexivity.
Defined.





Definition history_body : val :=
  VObj [("uuid", VStr "u1"); ("fromMs", VZ 1699999000000); ("toMs", VZ 1700000000000)].

Definition history_asked : history_query :=
  {| hq_uuid := "u1"; hq_channel := 0; hq_fromMs := 1699999000000; hq_toMs := 1700000000000; hq_bucketMs := 60000 |}.

Lemma getTelemetryPowerHistory_spec_witness :
  (hq_toMs history_asked - hq_fromMs history_asked) / hq_bucketMs history_asked + 2 <= 2592002 ∧
  snd (home_run getTelemetryPowerHistory history_body) =
    Ok (ApiOk (VObj [("fromMs", VZ 1699999000000); ("toMs", VZ 1700000000000); ("bucketMs", VZ 60000); ("points", VArr [])])).
Proof.
  destruct (@getTelemetryPowerHistory_spec (post_body history_body) (fst (home_run getTelemetryPowerHistory history_body))
    (snd (home_run getTelemetryPowerHistory history_body)) history_asked (Ok []) (home_runs _ _))
    as (_ & _ & _ & _ & _ & Hn & Hr).
  - vm_compute. right. left.
  - split; [exact Hn|exact Hr].
Defined.
