(* ===== verification/WebApi.v ===== *)
(** * The web client's calls to the server

    apps/web/src/lib/api.ts: [apiGet] and [apiPost] over the browser's [fetch], and the effects of the
    client. The answers they read are the envelopes that Handlers.v writes. *)

From S2P Require Export Handlers.

Local Open Scope string_scope.
Local Open Scope Z_scope.
Local Open Scope list_scope.

(** ** Effects of the browser *)

Record web_request := {
  wq_path : string; wq_method : string; wq_headers : list (string * string); wq_body : option string }.

(** [None] from the storage: the browser has none. The last two are [Date.now()] and
    [Math.random().toString(36)]. *)
Inductive webE : Type → Type :=
| WFetch (rq : web_request) : webE (result http_response)
| WGetItem (key : string) : webE (option (result (option string)))
| WSetItem (key value : string) : webE (option (result unit))
| WNow : webE Z
| WRandom36 : webE string.

(** Only a request suspends the code that makes it. *)
Definition browser_sync (X : Type) (e : webE X) : bool := match e with WFetch _ => false | _ => true end.

Abbreviation web := (prog unit unit webE).

(** The requests of a run. *)
Definition web_requests (tr : list (event webE)) : list web_request :=
  omap (λ ev, match ev with @Ev _ _ (WFetch rq) _ => Some rq | _ => None end) tr.

(** ** Reading an answer *)

(** [null] where there is no JSON text. *)
Definition parseJson (res : http_response) : val :=
  match nonempty (rs_text res ?: "") ≫= json_parse with Some v => v | None => VNull end.

(** [new ApiError(message, ...)]: an absent message is the empty one. *)
Definition error_text (message : val) : string := if is_undef message then "" else to_str message.

(** [json.error.message] and the like: reading from an absent [error] throws. *)
Definition envelope_error (json : val) (status : Z) : exn :=
  let error := prop "error" json in
  if nullish error then JsError "Cannot read properties of undefined"
  else ApiError (error_text (prop "message" error)) (prop "code" error) (prop "details" error) status.

(** [json && !json.ok] *)
Definition is_failure (json : val) : bool := truthy json && negb (truthy (prop "ok" json)).

Definition api_data (res : http_response) : result val :=
  let json := parseJson res in
  let status := rs_status res in
  if negb (rs_ok res) then
    Err (if is_failure json then envelope_error json status
         else ApiError (pretty status +:+ " " +:+ rs_statusText res) VUndef VUndef status)
  else if negb (truthy json) then Err (ApiError "Invalid JSON response" (VStr "invalid_json") VUndef status)
  else if is_failure json then Err (envelope_error json status)
  else Ok (prop "data" json).

(** ** The calls *)

Definition apiGet {St R} (path : string) : prog St R webE val :=
  let! res := sys_try (WFetch {| wq_path := path; wq_method := "GET"; wq_headers := [("accept", "application/json")];
                                 wq_body := None |}) in
  of_result (api_data res).

Definition apiPost {St R} (path : string) (body : val) : prog St R webE val :=
  let! res := sys_try (WFetch {| wq_path := path; wq_method := "POST";
                                 wq_headers := [("content-type", "application/json"); ("accept", "application/json")];
                                 wq_body := Some (if is_undef body then "{}" else json_stringify body) |}) in
  of_result (api_data res).

(** [const res = await apiGet(...); return res.k]: reading from an absent answer throws. *)
Definition member (k : string) (v : val) : result val :=
  if nullish v then Err (JsError ("Cannot read properties of " +:+ to_str v)) else Ok (prop k v).

(** ** Properties *)

(** The client's view of a server's answer. *)
Definition client_result (a : api_response) (status : Z) : result val :=
  match a with
  | ApiOk data => Ok data
  | ApiErr message code details => Err (ApiError message (VStr code) details status)
  end.

(** The client reads exactly what a handler of the server answered: the text of an [ok] envelope
    gives its data, that of an error envelope throws its message, code and details with the status of
    the response, whatever that status is. *)
Theorem api_data_response_val (a : api_response) res :
  nonempty (rs_text res ?: "") ≫= json_parse = Some (response_val a) →
  (rs_ok res = false → ∃ m c d, a = ApiErr m c d) →
  api_data res = client_result a (rs_status res).
Proof.
  intros Htext Hok. assert (Hj : parseJson res = response_val a).
  { unfold parseJson. by rewrite Htext. }
  unfold api_data. rewrite Hj. destruct a as [data|m c d]; cbn [client_result].
  - destruct (rs_ok res); [done|]. by destruct (Hok eq_refl) as (? & ? & ? & ?).
  - unfold is_failure, envelope_error. cbn -[mk_obj pretty].
    destruct (rs_ok res); cbn -[pretty]; destruct d; reflexivity.
Qed.

Definition demo_response (ok : bool) (a : api_response) : http_response :=
  {| rs_ok := ok; rs_status := if ok then 200 else 500; rs_statusText := "";
     rs_text := Some (json_stringify (response_val a)) |}.

Lemma api_data_response_val_witness :
  api_data (demo_response true (ApiOk (VObj [("count", VZ 3)]))) = Ok (VObj [("count", VZ 3)]) ∧
  api_data (demo_response false (ApiErr "boom" "unknown" VUndef)) = Err (ApiError "boom" (VStr "unknown") VUndef 500).
Proof.
  split.
  - exact (api_data_response_val (ApiOk (VObj [("count", VZ 3)])) (demo_response true (ApiOk (VObj [("count", VZ 3)])))
      ltac:(vm_compute; reflexivity) ltac:(discriminate)).
  - refine (api_data_response_val (ApiErr "boom" "unknown" VUndef) (demo_response false (ApiErr "boom" "unknown" VUndef))
      ltac:(vm_compute; reflexivity) _). intros _. exists "boom", "unknown", VUndef. reflexivity.
Defined.

(** A call makes one request and ends with the data of the answer or an exception. *)
Lemma apiPost_runs path body tr r : runs (apiPost path body : web val) tr r →
  ∃ rq ans, tr = [Ev (WFetch rq) ans] ∧ wq_path rq = path ∧ wq_method rq = "POST" ∧
    wq_body rq = Some (if is_undef body then "{}" else json_stringify body) ∧
    r = match ans with Ok res => api_data res | Err e => Err e end.
Proof.
  intros (ans & tr' & -> & Hr). eexists _, ans.
  assert (tr' = [] ∧ r = match ans with Ok res => api_data res | Err e => Err e end) as [-> ->]
    by (destruct ans as [res|]; [cbn in Hr; by destruct (api_data res)|done]).
  split; [reflexivity|]. done.
Qed.
