(* ===== verification/WebAuth.v ===== *)
(** * Signing in from the web client

    apps/web/src/state/authMachine.ts and appMachine.ts as step functions on their context, with the
    promises they invoke, and views/auth/loginRegion.ts. A machine handles one event at a time; the end
    of an invoked promise is an event of its own, and an event that no transition names is dropped. *)

From S2P Require Export WebApi.

Local Open Scope string_scope.
Local Open Scope Z_scope.
Local Open Scope list_scope.

(** ** Regions (loginRegion.ts) *)

Inductive LoginRegion : Type := RAuto | RGlobal | RUs | REu | RAp.

#[export] Instance LoginRegion_eq_dec : EqDecision LoginRegion.
Proof. solve_decision. Defined.

Definition region_text (r : LoginRegion) : string :=
  match r with RAuto => "auto" | RGlobal => "global" | RUs => "us" | REu => "eu" | RAp => "ap" end.

(** [isLoginRegion], with the region it recognises. *)
Definition isLoginRegion (v : string) : option LoginRegion :=
  js_find (λ r, String.eqb v (region_text r)) [RAuto; RGlobal; RUs; REu; RAp].

Definition LOGIN_REGION_STORAGE_KEY : string := "merossity.loginRegion".

(** [s] begins with one of the codes, followed by a character that belongs to no word. *)
Definition code_here (codes : list string) (s : string) : bool :=
  existsb (λ code, starts_with code s && negb (match str_head (str_drop (String.length code) s) with
                                                | Some c => is_word c | None => false end)) codes.

(** [/-(A|B|...)\b/i.test(s)]; the codes and [s] are in lower case. *)
Fixpoint has_country (codes : list string) (s : string) : bool :=
  match s with
  | EmptyString => false
  | String c s' => (Ascii.eqb c "-" && code_here codes s') || has_country codes s'
  end.

Definition us_codes : list string := ["us"; "ca"; "mx"].
Definition eu_codes : list string :=
  ["gb"; "ie"; "fr"; "de"; "es"; "it"; "nl"; "be"; "se"; "no"; "dk"; "fi"; "pl"; "pt"; "at"; "ch"].
Definition ap_codes : list string := ["au"; "nz"; "jp"; "kr"; "sg"; "hk"; "tw"].

(** The time zone and the languages are the browser's. *)
Definition getLikelyLoginRegion (timezone : string) (navigator_languages : option (list string)) (language : option string)
    : LoginRegion * string :=
  let languages := join ", " (List.filter str_truthy ((navigator_languages ?: []) ++ match language with Some l => [l] | None => [] end)) in
  let by_timezone := "timezone: " +:+ timezone in
  let by_language := "language: " +:+ languages in
  let country codes := has_country codes (to_lower languages) in
  if starts_with "America/" timezone then (RUs, by_timezone)
  else if starts_with "Europe/" timezone then (REu, by_timezone)
  else if starts_with "Asia/" timezone || starts_with "Australia/" timezone || starts_with "Pacific/" timezone
       then (RAp, by_timezone)
  else if country us_codes then (RUs, by_language)
  else if country eu_codes then (REu, by_language)
  else if country ap_codes then (RAp, by_language)
  else (RGlobal, if str_truthy timezone then by_timezone else "default").

(** [try { ... } catch { return null }]: no storage and a failing one read as nothing. *)
Definition getStoredLoginRegion {St R} : prog St R webE (option LoginRegion) :=
  let! stored := sys (WGetItem LOGIN_REGION_STORAGE_KEY) in
  match stored with
  | Some (Ok raw) => Ret (isLoginRegion (raw ?: ""))
  | _ => Ret None
  end.

Definition persistLoginRegion {St R} (region : LoginRegion) : prog St R webE unit :=
  let! _ := sys (WSetItem LOGIN_REGION_STORAGE_KEY (region_text region)) in Ret tt.

(** ** The sign-in form (authMachine.ts) *)

Definition domainForRegion (r : LoginRegion) : option string :=
  match r with
  | RGlobal => Some "iotx.meross.com"
  | RUs => Some "iotx-us.meross.com"
  | REu => Some "iotx-eu.meross.com"
  | RAp => Some "iotx-ap.meross.com"
  | RAuto => None
  end.

(** [/^[0-9]{6}$/] *)
Definition isTotpValid (s : string) : bool :=
  let t := trim s in Nat.eqb (String.length t) 6 && str_all is_digit t.

Definition formatAuthError (error : exn) : string :=
  match error with
  | ApiError message code details _ =>
      let info := match prop "info" details with VStr s => trim s | _ => "" end in
      let apiStatus := match prop "apiStatus" details with VNum n => Some n | _ => None end in
      let status n := " (Meross status " +:+ num_to_str n +:+ ")." in
      match code with
      | VStr "mfa_required" => "MFA required. Enter a current 6-digit TOTP code and try again."
      | _ =>
          match apiStatus with
          | Some n => (if str_truthy info then info else message) +:+ status n
          | None => if str_truthy info then info else message
          end
      end
  | e => exn_message e
  end.

Record AuthContext := {
  au_email : string; au_password : string; au_totp : string; au_region : LoginRegion;
  au_cloud : val; au_error : option string }.

Inductive auth_state : Type := Editing | Submitting | Success.

Record auth := { am_state : auth_state; am_context : AuthContext }.

Definition auth_start : auth :=
  {| am_state := Editing;
     am_context := {| au_email := ""; au_password := ""; au_totp := ""; au_region := RAuto; au_cloud := VNull; au_error := None |} |}.

(** The input of [loginFlow], and the body it posts. *)
Record login_input := { ln_email : string; ln_password : string; ln_totp : string; ln_region : LoginRegion }.

Definition login_body (i : login_input) : val :=
  VObj ([("email", VStr (trim (ln_email i))); ("password", VStr (ln_password i)); ("mfaCode", VStr (trim (ln_totp i)))] ++
        opt_prop "domain" VStr (domainForRegion (ln_region i))).

Definition loginFlow {St R} (i : login_input) : prog St R webE val :=
  let! res := apiPost "/api/cloud/login" (login_body i) in of_result (member "cloud" res).

Inductive auth_event : Type :=
| SetEmail (email : string)
| SetPassword (password : string)
| SetTotp (totp : string)
| SetRegion (region : LoginRegion)
| Submit
| LoginDone (r : result val).

Definition canSubmit (c : AuthContext) : bool :=
  isTotpValid (au_totp c) && str_truthy (trim (au_email c)) && str_truthy (au_password c).

(** The context after an edit: the error goes away. *)
Definition edit (e : auth_event) (c : AuthContext) : AuthContext :=
  let c := c <| au_error := None |> in
  match e with
  | SetEmail v => c <| au_email := v |>
  | SetPassword v => c <| au_password := v |>
  | SetTotp v => c <| au_totp := v |>
  | SetRegion v => c <| au_region := v |>
  | _ => c
  end.

Definition input_of (c : AuthContext) : login_input :=
  {| ln_email := au_email c; ln_password := au_password c; ln_totp := au_totp c; ln_region := au_region c |}.

(** One event: the next state, and the sign-in it starts. A machine that reached its final state
    handles no event. *)
Definition auth_step (e : auth_event) (m : auth) : auth * option login_input :=
  let c := am_context m in
  match am_state m, e with
  | Success, _ => (m, None)
  | s, (SetEmail _ | SetPassword _ | SetTotp _ | SetRegion _) => ({| am_state := s; am_context := edit e c |}, None)
  | Editing, Submit =>
      if canSubmit c then ({| am_state := Submitting; am_context := c |}, Some (input_of c)) else (m, None)
  | Submitting, LoginDone (Ok cloud) =>
      ({| am_state := Success;
          am_context := c <| au_cloud := coalesce cloud VNull |> <| au_error := None |>
                          <| au_password := "" |> <| au_totp := "" |> |}, None)
  | Submitting, LoginDone (Err error) =>
      ({| am_state := Editing; am_context := c <| au_error := Some (formatAuthError error) |> |}, None)
  | _, _ => (m, None)
  end.

(** ** The application (appMachine.ts) *)

Inductive app_view : Type := AuthView | DevicesView.

Inductive app_state : Type := Booting | Active (v : app_view).

Record merossityApp := { ap_state : app_state; ap_cloud : val }.

Definition app_start : merossityApp := {| ap_state := Booting; ap_cloud := VNull |}.

Definition hasCloudKey (cloud : val) : bool := truthy (prop "key" cloud).

Definition checkCloudCreds {St R} : prog St R webE val :=
  catch (let! res := apiGet "/api/cloud/creds" in of_result (member "cloud" res)) (λ _, Ret VNull).

Inductive app_event : Type :=
| CredsDone (cloud : val)
| LoginSuccess (cloud : val)
| Logout.

(** The state [determiningView] has only transitions that are taken at once. *)
Definition determiningView (cloud : val) : app_view := if hasCloudKey cloud then DevicesView else AuthView.

Definition app_step (e : app_event) (a : merossityApp) : merossityApp :=
  match ap_state a, e with
  | Booting, CredsDone cloud => {| ap_state := Active (determiningView cloud); ap_cloud := cloud |}
  | Active AuthView, LoginSuccess cloud => {| ap_state := Active DevicesView; ap_cloud := cloud |}
  | Active DevicesView, Logout => {| ap_state := Active AuthView; ap_cloud := VNull |}
  | _, _ => a
  end.
