(* ===== verification/WebSpec.v ===== *)
(** * What the web client promises

    Theorems about every sequence of events of the client's machines, alone and against the handlers
    of the server. *)

From S2P Require Export WebAuth HandlersSpec.

Local Open Scope string_scope.
Local Open Scope Z_scope.
Local Open Scope list_scope.

(** ** The sign-in form *)

(** A run: the machine after the events and the sign-ins it started. *)
Fixpoint auth_run (es : list auth_event) (m : auth) : auth * list login_input :=
  match es with
  | [] => (m, [])
  | e :: es' => let '(m1, o) := auth_step e m in let '(m2, os) := auth_run es' m1 in (m2, option_list o ++ os)
  end.

(** A sign-in the form may start. *)
Definition complete_input (i : login_input) : Prop :=
  isTotpValid (ln_totp i) = true ∧ trim (ln_email i) ≠ "" ∧ ln_password i ≠ "".

(** What holds of the form between events. *)
Definition auth_ok (m : auth) : Prop :=
  let c := am_context m in
  match am_state m with
  | Success => au_password c = "" ∧ au_totp c = "" ∧ au_error c = None
  | Submitting => au_cloud c = VNull
  | Editing => au_cloud c = VNull
  end.

Lemma edit_cloud e c : au_cloud (edit e c) = au_cloud c.
Proof. by destruct e. Qed.

Lemma canSubmit_complete c : canSubmit c = true → complete_input (input_of c).
Proof.
  unfold canSubmit, complete_input. rewrite !andb_true_iff, !str_truthy_spec. cbn. tauto.
Qed.

(** The state after a step and the sign-in it starts. *)
Lemma auth_step_ok e m : auth_ok m →
  auth_ok (fst (auth_step e m)) ∧
  ∀ i, snd (auth_step e m) = Some i → complete_input i ∧ am_state m = Editing ∧ am_state (fst (auth_step e m)) = Submitting.
Proof.
  destruct m as [s c]. unfold auth_ok, auth_step. cbn [am_state am_context].
  destruct s, e as [v|v|v|v| |[cl|er]]; cbn [am_state am_context fst snd]; intros Hm;
    try (split; [exact Hm || by rewrite edit_cloud|done]).
  - destruct (canSubmit c) eqn:E; cbn [fst snd am_state am_context]; (split; [done|]); [|done].
    intros i [= <-]. split; [by apply canSubmit_complete|done].
  - split; [by cbn|done].
Qed.

(** How often the form waited for an answer: the starts that have ended. *)
Fixpoint answers (es : list auth_event) (m : auth) : nat :=
  match es with
  | [] => 0
  | e :: es' =>
      (match am_state m, e with Submitting, LoginDone _ => 1 | _, _ => 0 end + answers es' (fst (auth_step e m)))%nat
  end.

Definition in_flight (m : auth) : nat := match am_state m with Submitting => 1 | _ => 0 end.

Lemma auth_step_count e m :
  (in_flight m + length (option_list (snd (auth_step e m))) =
   match am_state m, e with Submitting, LoginDone _ => 1 | _, _ => 0 end + in_flight (fst (auth_step e m)))%nat.
Proof.
  destruct m as [s c]. unfold auth_step, in_flight. cbn [am_state am_context].
  destruct s, e as [v|v|v|v| |[cl|er]]; cbn; try done. by destruct (canSubmit c).
Qed.

Lemma auth_run_ok es m : auth_ok m →
  auth_ok (fst (auth_run es m)) ∧ Forall complete_input (snd (auth_run es m)) ∧
  (in_flight m + length (snd (auth_run es m)) = answers es m + in_flight (fst (auth_run es m)))%nat.
Proof.
  revert m. induction es as [|e es IH]; intros m Hm; cbn [auth_run answers]; [cbn; split_and!; [done|constructor|lia]|].
  destruct (auth_step_ok e m Hm) as [H1 H2]. pose proof (auth_step_count e m) as H3.
  destruct (auth_step e m) as [m1 o]. cbn [fst snd] in *. destruct (IH m1 H1) as (I1 & I2 & I3).
  destruct (auth_run es m1) as [m2 os]. cbn [fst snd] in *. rewrite length_app.
  split_and!; [done| |lia]. apply Forall_app. split; [|done].
  destruct o as [i|]; [|constructor]. constructor; [by apply H2|constructor].
Qed.

(** Whatever the user types and whenever answers arrive, the form starts a sign-in only with a
    six-digit code, an email and a password, and waits for at most one at a time: the sign-ins started
    are those answered and, while it waits, one more. Once it succeeds it holds neither password nor
    code nor error; before, it holds no credentials. *)
Theorem auth_form es :
  let '(m, starts) := auth_run es auth_start in
  Forall complete_input starts ∧ length starts = (answers es auth_start + in_flight m)%nat ∧ auth_ok m.
Proof.
  destruct (auth_run_ok es auth_start eq_refl) as (H1 & H2 & H3).
  destruct (auth_run es auth_start) as [m starts]. done.
Qed.

(** ** The application *)

(** The view of every state the application reaches. *)
Lemma app_views es :
  let a := foldl (λ a e, app_step e a) app_start es in
  match ap_state a with
  | Booting => ap_cloud a = VNull
  | Active AuthView => hasCloudKey (ap_cloud a) = false
  | Active DevicesView => hasCloudKey (ap_cloud a) = true ∨ LoginSuccess (ap_cloud a) ∈ es
  end.
Proof.
  induction es as [|e es IH] using rev_ind; [done|]. rewrite foldl_app. cbn [foldl].
  destruct (foldl (λ a e, app_step e a) app_start es) as [st cl]. unfold app_step. cbn [ap_state ap_cloud] in *.
  destruct st as [|[|]], e as [c|c|]; cbn [ap_state ap_cloud]; try done; try (set_solver).
  unfold determiningView. destruct (hasCloudKey c) eqn:E; [by left|done].
Qed.

Lemma checkCloudCreds_ok tr r : runs (checkCloudCreds : web val) tr r → ∃ cloud, r = Ok cloud.
Proof.
  intros [(cl & _ & ->)|(tr1 & tr2 & e & -> & _ & [-> ->])]%runs_catch; eauto.
Qed.

(** Signing in against the server: the sign-in form of the client, the handler of the server and the
    shell of the application in one round. *)
Section SignIn.
Context `{Runtime}.

(** The event the form gets for an answer of the server. *)
Definition sign_in_event (a : api_response) (status : Z) : auth_event :=
  LoginDone (let? data := client_result a status in member "cloud" data).

Lemma summary_has_key creds : cc_key creds ≠ "" → hasCloudKey (summary_val (summarizeCloud creds)) = true.
Proof.
  intros Hk. unfold hasCloudKey, summary_val, mk_obj, summarizeCloud. cbn.
  destruct (cc_mqttDomain creds); cbn; by apply str_truthy_spec.
Qed.

Lemma login_complete log params options tr creds :
  runs (merossCloudLogin log params options : poller _) tr (Ok creds) → cc_key creds ≠ "".
Proof.
  intros (os & tr' & r' & -> & _ & Hr)%merossCloudLogin_runs. symmetry in Hr.
  apply rbind_Ok in Hr as ([[d resp]|] & _ & Hr); [|done].
  destruct (status_is 0 resp); [|done]. by destruct (login_creds_ok _ _ _ _ Hr) as (_ & ? & _).
Qed.

(** C14: A sign-in through the web client. The form waits with the input it posted, the server runs the
    handler on that body and answers. When the form then succeeds, the server has saved credentials
    that the cloud accepted for the trimmed email and the password typed, the form holds their summary
    and forgets the secrets, and the application shows the devices; when it does not, the form is back
    for editing with an error, the typed password and code are kept, and the configuration is
    unchanged unless the one write itself failed. *)
Theorem sign_in_round log i req tr a status m app0 :
  body_of req = login_body i →
  am_state m = Submitting → ap_state app0 = Active AuthView →
  runs (loginCloud log req) tr (Ok a) →
  let m' := fst (auth_step (sign_in_event a status) m) in
  let c' := am_context m' in
  (am_state m' = Success ∧ au_password c' = "" ∧ au_totp c' = "" ∧
   ∃ params options creds cfg at_ login,
     lp_email params = trim (ln_email i) ∧ lp_password params = ln_password i ∧
     runs (merossCloudLogin log params options : poller _) login (Ok creds) ∧
     saved tr = [with_cloud creds at_ cfg] ∧ au_cloud c' = summary_val (summarizeCloud creds) ∧
     ap_state (app_step (LoginSuccess (au_cloud c')) app0) = Active DevicesView ∧
     hasCloudKey (au_cloud c') = true) ∨
  (am_state m' = Editing ∧ is_Some (au_error c') ∧ au_password c' = au_password (am_context m) ∧
   au_totp c' = au_totp (am_context m) ∧ (length (saved tr) <= 1)%nat ∧
   (saved tr ≠ [] → ∃ m c d, a = ApiErr m c d)).
Proof.
  intros Hbody Hm Happ Hr. cbv zeta. unfold auth_step. rewrite Hm.
  assert (Hfail : (∀ data, Ok a ≠ Ok (ApiOk data)) → ∃ e, sign_in_event a status = LoginDone (Err e)).
  { intros Ha. destruct a as [d|? ? ?]; [by destruct (Ha d)|]. eexists. reflexivity. }
  apply loginCloud_runs in Hr as [[Hs Hno]|(before & login & after & params & options & creds & cfg & at_ & _ & _ &
    He & _ & Hp & _ & Hl & _ & Hs & [[= ->]|Hno])].
  - right. destruct (Hfail Hno) as [e ->]. cbn. rewrite Hs. cbn. split_and!; eauto; try lia; try done.
  - left. rewrite Hbody in He, Hp. assert (hasCloudKey (summary_val (summarizeCloud creds)) = true).
    { apply summary_has_key. by eapply login_complete. }
    cbn -[summary_val]. split_and!; [done..|]. exists params, options, creds, cfg, at_, login.
    unfold app_step. rewrite Happ. split_and!; try done.
  - right. destruct (Hfail Hno) as [e ->]. cbn. rewrite Hs. cbn. split_and!; eauto.
    intros _. destruct a as [d|]; [by destruct (Hno d)|eauto].
Qed.
End SignIn.

Definition typed : login_input := {| ln_email := " a@b "; ln_password := "p"; ln_totp := "123456"; ln_region := REu |}.

Definition waiting_form : auth :=
  fst (auth_run [SetEmail (ln_email typed); SetPassword (ln_password typed); SetTotp (ln_totp typed); SetRegion REu; Submit]
         auth_start).

Definition round_run := device_run sign_in_reply (@loginCloud rt "log") (login_body typed).

Definition round_answer : api_response :=
  match snd round_run with Ok a => a | Err _ => ApiErr "" "" VUndef end.

Lemma sign_in_round_witness :
  am_state (fst (auth_step (sign_in_event round_answer 200) waiting_form)) = Success ∧
  length (saved (fst round_run)) = 1%nat.
Proof.
  destruct (@sign_in_round rt "log" typed (post_body (login_body typed)) (fst round_run) round_answer 200 waiting_form
    {| ap_state := Active AuthView; ap_cloud := VNull |} ltac:(vm_compute; reflexivity) ltac:(vm_compute; reflexivity)
    eq_refl (handler_runs _ _ _))
    as [(Hs & _ & _ & params & options & creds & cfg & at_ & login & _ & _ & _ & Hsaved & _)|(He & _)].
  - split; [exact Hs|]. rewrite Hsaved. reflexivity.
  - vm_compute in He. discriminate.
Defined.
