(* ===== verification/StreamClient.v ===== *)
(** * The event stream in the web client

    The parsers of apps/web/src/state/devicesMachine.ts and its callback actor [streamEvents], which
    keeps one [EventSource] open to the server and turns its messages into events of the devices
    machine. The messages are those that Server.v sends. *)

From S2P Require Export Server Handlers.
From S2P Require Import JsonText.

Local Open Scope string_scope.
Local Open Scope Z_scope.
Local Open Scope list_scope.

(** ** Data *)

Record light_channel := {
  lc_channel : Z; lc_onoff : bool; lc_luminance : option num; lc_temperature : option num; lc_rgb : option num }.

(** [updatedAt] is any positive finite number; channels and counts are integers. *)
Record StreamDeviceState := {
  ss_uuid : string; ss_host : string; ss_kind : option string; ss_channel : Z; ss_onoff : bool;
  ss_channels : list LanToggleXState; ss_lights : list light_channel; ss_light : option light_channel;
  ss_timerxDigest : list LanScheduleDigestEntry; ss_triggerxDigest : list LanScheduleDigestEntry;
  ss_updatedAt : num; ss_stale : bool; ss_source : option string; ss_error : option string }.

Record DevicePower := {
  dw_uuid : string; dw_host : string; dw_channel : Z;
  dw_voltageV : option num; dw_currentA : option num; dw_powerW : option num;
  dw_updatedAt : num; dw_stale : bool; dw_error : option string }.

Inductive monitor_event : Type :=
| StreamConnected
| StreamDisconnected
| StateReceived (s : StreamDeviceState)
| DeviceStale (s : StreamDeviceState)
| Snapshot (l : list StreamDeviceState)
| PowerSnapshot (l : list DevicePower)
| PowerReceived (p : DevicePower).

(** ** Parsers *)

(** [isObjectRecord(v) ? v : null] *)
Definition isObjectRecord (v : val) : bool := is_object v.
Definition record_of (v : val) : val := if isObjectRecord v then v else VNull.

(** [Number.isFinite(Number(v)) ? Number(v) : undefined] *)
Definition finite_number (v : val) : option num := let n := to_num v in if is_finite n then Some n else None.

Definition parse_channel (item : val) : option LanToggleXState :=
  let entry := record_of item in
  match nonneg_integer (to_num (prop "channel" entry)) with
  | Some channel => Some {| tx_channel := channel; tx_onoff := is_one (prop "onoff" entry) |}
  | None => None
  end.

Definition parseChannels (v : val) : list LanToggleXState :=
  js_sort (λ a b, tx_channel a - tx_channel b) (omap parse_channel (arr_items v)).

Definition light_of_entry (entry : val) : option light_channel :=
  match nonneg_integer (to_num (prop "channel" entry)) with
  | Some channel =>
      Some {| lc_channel := channel; lc_onoff := is_one (prop "onoff" entry);
              lc_luminance := finite_number (prop "luminance" entry);
              lc_temperature := finite_number (prop "temperature" entry); lc_rgb := finite_number (prop "rgb" entry) |}
  | None => None
  end.

Definition parseLights (v : val) : list light_channel :=
  js_sort (λ a b, lc_channel a - lc_channel b) (omap (λ item, light_of_entry (record_of item)) (arr_items v)).

Definition parseLight (v : val) : option light_channel := if isObjectRecord v then light_of_entry v else None.

Section Parsers.
(** [localeCompare] of the browser. *)
Variable localeCompare : string → string → Z.

Definition parse_schedule (item : val) : option LanScheduleDigestEntry :=
  let entry := record_of item in
  let id := trim (str_or_empty (prop "id" entry)) in
  match nonneg_integer (to_num (prop "channel" entry)) with
  | Some channel =>
      if str_truthy id then
        Some {| sd_channel := channel; sd_id := id;
                sd_count := match num_round (to_num (prop "count" entry)) with Some c => Z.max 0 c | None => 0 end |}
      else None
  | None => None
  end.

Definition parseScheduleDigest (v : val) : list LanScheduleDigestEntry :=
  js_sort (schedule_cmp localeCompare) (omap parse_schedule (arr_items v)).

(** [!Number.isFinite(n) || n <= 0], negated. *)
Definition positive_time (n : num) : bool := is_finite n && negb (num_leb n (num_of_Z 0)).

Definition parseStreamState (raw : val) : option StreamDeviceState :=
  if negb (isObjectRecord raw) then None
  else
    let uuid := trim (str_or_empty (prop "uuid" raw)) in
    let updatedAt := to_num (prop "updatedAt" raw) in
    if negb (str_truthy uuid) then None
    else match nonneg_integer (to_num (prop "channel" raw)) with
         | None => None
         | Some channel =>
             if negb (positive_time updatedAt) then None
             else Some {| ss_uuid := uuid; ss_host := str_or_empty (prop "host" raw); ss_kind := as_str (prop "kind" raw);
                          ss_channel := channel; ss_onoff := is_one (prop "onoff" raw);
                          ss_channels := parseChannels (prop "channels" raw);
                          ss_lights := parseLights (prop "lights" raw); ss_light := parseLight (prop "light" raw);
                          ss_timerxDigest := parseScheduleDigest (prop "timerxDigest" raw);
                          ss_triggerxDigest := parseScheduleDigest (prop "triggerxDigest" raw);
                          ss_updatedAt := updatedAt; ss_stale := truthy (prop "stale" raw);
                          ss_source := as_str (prop "source" raw); ss_error := as_str (prop "error" raw) |}
         end.

Definition parseSnapshotStates (raw : val) : list StreamDeviceState :=
  omap parseStreamState (arr_items (prop "states" (record_of raw))).

Definition parsePower (raw : val) : option DevicePower :=
  if negb (isObjectRecord raw) then None
  else
    let uuid := trim (str_or_empty (prop "uuid" raw)) in
    let updatedAt := to_num (prop "updatedAt" raw) in
    if negb (str_truthy uuid) then None
    else match nonneg_integer (to_num (prop "channel" raw)) with
         | None => None
         | Some channel =>
             if negb (positive_time updatedAt) then None
             else Some {| dw_uuid := uuid; dw_host := str_or_empty (prop "host" raw); dw_channel := channel;
                          dw_voltageV := finite_number (prop "voltageV" raw);
                          dw_currentA := finite_number (prop "currentA" raw);
                          dw_powerW := finite_number (prop "powerW" raw); dw_updatedAt := updatedAt;
                          dw_stale := truthy (prop "stale" raw); dw_error := as_str (prop "error" raw) |}
         end.

Definition parsePowerSnapshot (raw : val) : list DevicePower :=
  omap parsePower (arr_items (prop "readings" (record_of raw))).

(** ** The connection (streamEvents) *)

(** The variables of the actor, and what the browser holds for it: the sources that are open and the
    timers that are pending, numbered as they are created. *)
Record stream := {
  sc_retryIndex : nat; sc_source : option nat; sc_timer : option nat; sc_closed : bool;
  br_sources : list nat; br_timers : list (nat * Z); br_next : nat }.

Definition reconnectDelaysMs : list Z := [1000; 2000; 5000; 10000; 30000].

Definition reconnect_delay (retryIndex : nat) : Z :=
  reconnectDelaysMs !! Nat.min retryIndex (length reconnectDelaysMs - 1) ?: 0.

Definition closeSource (st : stream) : stream :=
  match sc_source st with
  | None => st
  | Some id => st <| br_sources := filter (λ i, i ≠ id) (br_sources st) |> <| sc_source := None |>
  end.

Definition scheduleReconnect (st : stream) : stream :=
  if sc_closed st || match sc_timer st with Some _ => true | None => false end then st
  else let delay := reconnect_delay (sc_retryIndex st) in
       st <| sc_retryIndex := S (sc_retryIndex st) |> <| sc_timer := Some (br_next st) |>
          <| br_timers := br_timers st ++ [(br_next st, delay)] |> <| br_next := S (br_next st) |>.

Definition openStream (st : stream) : stream :=
  if sc_closed st then st
  else let st := closeSource st in
       st <| sc_source := Some (br_next st) |> <| br_sources := br_sources st ++ [br_next st] |>
          <| br_next := S (br_next st) |>.

Definition clearTimer (id : nat) (st : stream) : stream :=
  st <| br_timers := filter (λ t, t.1 ≠ id) (br_timers st) |>.

Definition clearReconnect (st : stream) : stream :=
  match sc_timer st with Some t => clearTimer t st <| sc_timer := None |> | None => st end.

(** What the browser runs: the handlers of an open source, a timer that is due, or the actor's own
    cleanup. *)
Inductive stream_event : Type :=
| SourceOpen (id : nat)
| SourceError (id : nat)
| SourceMessage (id : nat) (type data : string)
| TimerFires (id : nat)
| Cleanup.

(** A closed source dispatches nothing, a cleared timer does not fire, and the cleanup runs once. *)
Definition possible (e : stream_event) (st : stream) : bool :=
  match e with
  | SourceOpen id | SourceError id | SourceMessage id _ _ => bool_decide (id ∈ br_sources st)
  | TimerFires id => bool_decide (id ∈ (br_timers st).*1)
  | Cleanup => negb (sc_closed st)
  end.

(** [null] for a text that is no JSON. *)
Definition parseMessage (data : string) : val := json_parse data ?: VNull.

(** The listeners, by the type of the message. *)
Definition on_message (type data : string) : list monitor_event :=
  let payload := parseMessage data in
  if String.eqb type "snapshot" then [Snapshot (parseSnapshotStates payload)]
  else if String.eqb type "power_snapshot" then [PowerSnapshot (parsePowerSnapshot payload)]
  else if String.eqb type "device_state" then
    match parseStreamState payload with Some s => [StateReceived s] | None => [] end
  else if String.eqb type "device_power" then
    match parsePower payload with Some p => [PowerReceived p] | None => [] end
  else if String.eqb type "device_stale" then
    match parseStreamState payload with Some s => [DeviceStale s] | None => [] end
  else [].

(** One callback, with the events it sends to the machine. *)
Definition stream_step (e : stream_event) (st : stream) : stream * list monitor_event :=
  match e with
  | SourceOpen _ => (st <| sc_retryIndex := 0%nat |>, [StreamConnected])
  | SourceError _ => (scheduleReconnect (closeSource st), [StreamDisconnected])
  | SourceMessage _ type data => (st, on_message type data)
  | TimerFires id => (openStream (clearTimer id st <| sc_timer := None |>), [])
  | Cleanup => (closeSource (clearReconnect (st <| sc_closed := true |>)), [])
  end.

Definition stream_start : stream :=
  openStream {| sc_retryIndex := 0; sc_source := None; sc_timer := None; sc_closed := false;
                br_sources := []; br_timers := []; br_next := 0 |}.

(** A sequence of callbacks; [None] when the browser cannot run them. *)
Fixpoint stream_exec (es : list stream_event) (st : stream) : option (stream * list monitor_event) :=
  match es with
  | [] => Some (st, [])
  | e :: es =>
      if possible e st then
        let '(st', out) := stream_step e st in
        '(st'', out') ← stream_exec es st'; Some (st'', out ++ out')
      else None
  end.
End Parsers.

(** ** The connection is never lost *)

(** The handlers the browser holds are exactly those of the actor, and an actor that runs has either a
    source or a timer. *)
Record stream_ok (st : stream) : Prop := {
  so_sources : br_sources st = option_list (sc_source st);
  so_timers : (br_timers st).*1 = option_list (sc_timer st);
  so_live : sc_closed st = false → is_Some (sc_source st) ↔ sc_timer st = None;
  so_dead : sc_closed st = true → sc_source st = None ∧ sc_timer st = None }.

(** The failures since the last time a source opened. *)
Definition count_failure (n : nat) (e : stream_event) : nat :=
  match e with SourceOpen _ => 0%nat | SourceError _ => S n | _ => n end.

Definition failures (es : list stream_event) : nat := foldl count_failure 0%nat es.

Lemma filter_self (id : nat) : filter (λ i, i ≠ id) [id] = [].
Proof. by rewrite filter_cons_False by naive_solver. Qed.

Lemma closeSource_none st : stream_ok st →
  br_sources (closeSource st) = [] ∧ sc_source (closeSource st) = None.
Proof.
  intros [Hs _ _ _]. unfold closeSource. destruct (sc_source st) as [id|] eqn:E.
  - cbn. rewrite Hs. split; [apply filter_self|done].
  - by rewrite Hs.
Qed.

Lemma closeSource_same st : sc_timer (closeSource st) = sc_timer st ∧ sc_closed (closeSource st) = sc_closed st ∧
  br_timers (closeSource st) = br_timers st ∧ sc_retryIndex (closeSource st) = sc_retryIndex st.
Proof. unfold closeSource. by destruct (sc_source st). Qed.

(** What a possible callback finds: a source that is open, a timer that is pending. *)
Lemma possible_source id st : stream_ok st → id ∈ br_sources st →
  sc_source st = Some id ∧ sc_timer st = None ∧ sc_closed st = false ∧ br_timers st = [].
Proof.
  intros [Hs Ht Hl Hd] Hin. rewrite Hs in Hin. destruct (sc_source st) as [s|]; [|by apply elem_of_nil in Hin].
  apply list_elem_of_singleton in Hin as ->. destruct (sc_closed st); [by destruct (Hd eq_refl)|].
  assert (sc_timer st = None) as Hn by (apply Hl; eauto). rewrite Hn in Ht. split_and!; try done.
  by apply fmap_nil_inv in Ht.
Qed.

Lemma possible_timer id st : stream_ok st → id ∈ (br_timers st).*1 →
  sc_timer st = Some id ∧ sc_source st = None ∧ sc_closed st = false ∧ br_sources st = [] ∧ br_timers (clearTimer id st) = [].
Proof.
  intros [Hs Ht Hl Hd] Hin. rewrite Ht in Hin. destruct (sc_timer st) as [t|] eqn:E; [|by apply elem_of_nil in Hin].
  apply list_elem_of_singleton in Hin as ->. destruct (sc_closed st); [by destruct (Hd eq_refl)|].
  destruct (sc_source st) as [s|]; [by discriminate (proj1 (Hl eq_refl) ltac:(eauto))|].
  split_and!; try done. unfold clearTimer. cbn.
  destruct (br_timers st) as [|[t' d] [|]]; try done. injection Ht as ->. cbn. by rewrite decide_False by naive_solver.
Qed.

Lemma cleanup_ok st : stream_ok st → stream_ok (closeSource (clearReconnect (st <| sc_closed := true |>))).
Proof.
  intros Hst. pose proof (so_timers _ Hst) as Hn. pose proof (so_sources _ Hst) as Hs.
  assert (Hbt : ∀ t, sc_timer st = Some t → filter (λ x : nat * Z, x.1 ≠ t) (br_timers st) = []).
  { intros t Ht. apply (possible_timer t st Hst). rewrite Hn, Ht. by apply list_elem_of_singleton. }
  unfold clearReconnect. cbn. destruct (sc_timer st) as [t|] eqn:Et; [specialize (Hbt t eq_refl)|apply fmap_nil_inv in Hn].
  all: unfold closeSource; cbn; destruct (sc_source st) as [s|] eqn:Es.
  all: split; cbn; rewrite ?Hs, ?Hbt, ?Hn, ?Et, ?Es; try done; apply filter_self.
Qed.

Section Connection.
Context (localeCompare : string → string → Z).

Lemma stream_step_ok e st : stream_ok st → possible e st = true → stream_ok (fst (stream_step localeCompare e st)).
Proof.
  intros Hst Hp. destruct e as [id|id|id ty data|id|]; cbn in Hp.
  - destruct Hst; split; done.
  - apply bool_decide_eq_true in Hp. destruct (possible_source id st Hst Hp) as (Hsrc & Ht & Hc & Htm).
    destruct (closeSource_none st Hst) as [H1 H2]. destruct (closeSource_same st) as (H3 & H4 & H5 & H6).
    cbn. unfold scheduleReconnect. rewrite H4, Hc, H3, Ht. cbn.
    split; cbn; rewrite ?H1, ?H2, ?H5, ?Htm, ?H4, ?Hc; done.
  - done.
  - apply bool_decide_eq_true in Hp. destruct (possible_timer id st Hst Hp) as (Ht & Hsrc & Hc & Hbs & Hbt).
    cbn in Hbt. cbn. unfold openStream, closeSource. cbn. rewrite Hc, Hsrc.
    split; cbn; rewrite ?Hbt, ?Hbs, ?Hc; done.
  - by apply cleanup_ok.
Qed.

Lemma stream_start_ok : stream_ok stream_start.
Proof. split; cbn; done. Qed.

(** The retry counter counts the failures in a row, and a pending timer waits for the last one. *)
Definition retry_ok (n : nat) (st : stream) : Prop :=
  sc_retryIndex st = n ∧ ∀ t d, (t, d) ∈ br_timers st → d = reconnect_delay (n - 1).

Lemma stream_step_retry e n st : stream_ok st → possible e st = true → retry_ok n st →
  retry_ok (count_failure n e) (fst (stream_step localeCompare e st)).
Proof.
  intros Hst Hp [Hn Ht]. pose proof (stream_step_ok e st Hst Hp) as Hok.
  destruct e as [id|id|id ty data|id|]; cbn in Hp; cbn [count_failure].
  - apply bool_decide_eq_true in Hp. destruct (possible_source id st Hst Hp) as (_ & _ & _ & Htm).
    split; [done|]. cbn. rewrite Htm. by intros ? ? ?%elem_of_nil.
  - apply bool_decide_eq_true in Hp. destruct (possible_source id st Hst Hp) as (_ & Htn & Hc & Htm).
    destruct (closeSource_same st) as (H3 & H4 & H5 & H6).
    unfold retry_ok. cbn. unfold scheduleReconnect. rewrite H4, Hc, H3, Htn, H5, H6, Htm. cbn. rewrite Hn.
    split; [done|]. intros t d [= -> ->]%list_elem_of_singleton. by rewrite Nat.sub_0_r.
  - done.
  - apply bool_decide_eq_true in Hp. destruct (possible_timer id st Hst Hp) as (_ & Hs & Hc & _ & Hbt).
    cbn in Hbt. unfold retry_ok. cbn. unfold openStream, closeSource. cbn. rewrite Hc, Hs. cbn. rewrite Hbt.
    split; [done|]. by intros ? ? ?%elem_of_nil.
  - assert (sc_closed (closeSource (clearReconnect (st <| sc_closed := true |>))) = true) as Hcl.
    { destruct (closeSource_same (clearReconnect (st <| sc_closed := true |>))) as (_ & -> & _).
      unfold clearReconnect. cbn. by destruct (sc_timer st). }
    destruct (so_dead _ Hok Hcl) as [_ Htn]. pose proof (so_timers _ Hok) as Htm. rewrite Htn in Htm.
    apply fmap_nil_inv in Htm. split; [|rewrite Htm; by intros ? ? ?%elem_of_nil].
    cbn. destruct (closeSource_same (clearReconnect (st <| sc_closed := true |>))) as (_ & _ & _ & ->).
    unfold clearReconnect. cbn. by destruct (sc_timer st).
Qed.

Lemma dead_stream e st : stream_ok st → sc_closed st = true → possible e st = false.
Proof.
  intros [Hs Ht _ Hd] Hc. destruct (Hd Hc) as [Hs' Ht']. rewrite Hs' in Hs. rewrite Ht' in Ht.
  destruct e; cbn; rewrite ?Hs, ?Ht, ?Hc; try done; apply bool_decide_eq_false; apply not_elem_of_nil.
Qed.

Lemma stream_step_closed e st : possible e st = true → sc_closed (fst (stream_step localeCompare e st)) = true →
  e = Cleanup ∨ sc_closed st = true.
Proof.
  intros Hp Hc. destruct e as [id|id|id ty data|id|]; [by right| |by right| |by left]; right.
  - cbn in Hc. unfold scheduleReconnect in Hc. destruct (closeSource_same st) as (E3 & E4 & _). rewrite E3, E4 in Hc.
    destruct (sc_closed st); [done|]. destruct (sc_timer st); cbn in Hc; congruence.
  - cbn in Hc. unfold openStream in Hc. cbn in Hc. destruct (sc_closed st) eqn:E; [done|].
    unfold closeSource in Hc. cbn in Hc. destruct (sc_source st); cbn in Hc; congruence.
Qed.

Lemma stream_exec_ok es n st st' out : stream_ok st → retry_ok n st → stream_exec localeCompare es st = Some (st', out) →
  stream_ok st' ∧ retry_ok (foldl count_failure n es) st' ∧
  (sc_closed st' = true → sc_closed st = true ∨ ∃ es', es = es' ++ [Cleanup]).
Proof.
  revert n st out. induction es as [|e es IH]; intros n st out Hst Hn He; cbn in He.
  { injection He as <- <-. auto. }
  destruct (possible e st) eqn:Hp; [|done].
  pose proof (stream_step_ok e st Hst Hp) as Hst1. pose proof (stream_step_retry e n st Hst Hp Hn) as Hn1.
  pose proof (stream_step_closed e st Hp) as Hc1.
  destruct (stream_step localeCompare e st) as [st1 out1].
  destruct (stream_exec localeCompare es st1) as [[st2 out2]|] eqn:He2; [|done]. injection He as <- <-.
  destruct (IH _ _ _ Hst1 Hn1 He2) as (H1 & H2 & H3). split_and!; [done..|]. intros [Hc|[es' ->]]%H3; [|].
  - destruct es as [|e' es']; cbn in He2; [|by rewrite (dead_stream e' st1 Hst1 Hc) in He2].
    destruct (Hc1 Hc) as [->|]; [right; by exists []|by left].
  - right. by exists (e :: es').
Qed.

Lemma reconnect_delay_range n : 1000 <= reconnect_delay n <= 30000.
Proof.
  unfold reconnect_delay, reconnectDelaysMs. cbn [length].
  destruct n as [|[|[|[|n]]]]; [cbn; lia..|]. rewrite Nat.min_r by lia. cbn. lia.
Qed.

(** C12: Whatever the browser runs, the actor holds at most one source and one timer, they are all the
    browser still has open for it (no source and no timer leaks), and while it has not been cleaned up
    it has exactly one of the two: the connection is never lost for good. A pending reconnection waits
    for the delay of the number of failures in a row, at most thirty seconds. Once cleaned up it has
    nothing open, and the cleanup is the last callback to run. *)
Theorem stream_connection es st out : stream_exec localeCompare es stream_start = Some (st, out) →
  stream_ok st ∧ sc_retryIndex st = failures es ∧
  (∀ t d, (t, d) ∈ br_timers st → d = reconnect_delay (failures es - 1) ∧ 1000 <= d <= 30000) ∧
  (sc_closed st = true → ∃ es', es = es' ++ [Cleanup]).
Proof.
  intros He. destruct (stream_exec_ok es 0 stream_start st out stream_start_ok) as (Hok & [Hn Ht] & Hc); [|done|].
  { split; [done|]. by intros ? ? ?%elem_of_nil. }
  split_and!; [done..| |].
  - intros t d Hin. rewrite (Ht t d Hin). split; [done|apply reconnect_delay_range].
  - intros [|]%Hc; done.
Qed.
End Connection.

Lemma stream_connection_witness : ∃ st out,
  stream_exec byte_compare [SourceOpen 0; SourceError 0; TimerFires 1; SourceError 2] stream_start = Some (st, out) ∧
  sc_retryIndex st = 2%nat ∧ br_timers st = [(3%nat, 2000)] ∧ br_sources st = [].
Proof.
  eexists _, _. split; [vm_compute; reflexivity|].
  destruct (stream_connection byte_compare [SourceOpen 0; SourceError 0; TimerFires 1; SourceError 2] _ _
    ltac:(vm_compute; reflexivity)) as (_ & H & _). split; [exact H|split; reflexivity].
Defined.

(** ** What the server sends is what the client reads *)

(** The integers of the wire that a double holds exactly. *)
Definition small (z : Z) : Prop := 0 <= z < 2 ^ 53.

Definition finite_opt (n : option num) : Prop := match n with Some x => is_finite x = true | None => True end.
Definition small_opt (z : option Z) : Prop := match z with Some x => small x | None => True end.
Definition light_wire (l : LanLightState) : Prop :=
  small (li_channel l) ∧ finite_opt (li_luminance l) ∧ finite_opt (li_temperature l) ∧ small_opt (li_rgb l).
Definition schedule_wire (e : LanScheduleDigestEntry) : Prop :=
  small (sd_channel e) ∧ sd_id e ≠ "" ∧ trim (sd_id e) = sd_id e ∧ small (sd_count e).

Record state_wire (d : DeviceStateDto) : Prop := {
  sw_uuid : ds_uuid d ≠ "" ∧ trim (ds_uuid d) = ds_uuid d;
  sw_channel : small (ds_channel d);
  sw_channels : Forall (λ c, small (tx_channel c)) (ds_channels d);
  sw_lights : Forall light_wire (ds_lights d);
  sw_light : match ds_light d with Some l => light_wire l | None => True end;
  sw_timerx : Forall schedule_wire (ds_timerxDigest d);
  sw_triggerx : Forall schedule_wire (ds_triggerxDigest d);
  sw_updatedAt : 0 < ds_updatedAt d < 2 ^ 53 }.

Record power_wire (p : DevicePowerDto) : Prop := {
  pw_uuid : dp_uuid p ≠ "" ∧ trim (dp_uuid p) = dp_uuid p;
  pw_channel : small (dp_channel p);
  pw_numbers : finite_opt (dp_voltageV p) ∧ finite_opt (dp_currentA p) ∧ finite_opt (dp_powerW p);
  pw_updatedAt : 0 < dp_updatedAt p < 2 ^ 53 }.

Definition message_wire (m : sse_message) : Prop :=
  match m with
  | MsgSnapshot l => Forall state_wire l
  | MsgPowerSnapshot l => Forall power_wire l
  | MsgState d | MsgStale d => state_wire d
  | MsgPower p | MsgPowerStale p => power_wire p
  | MsgHealth _ | MsgHeartbeat _ => True
  end.

(** The text of a message. *)
Definition message_text (m : sse_message) : string := json_stringify (snd (message_event m)).

(** A message in the ranges of what the server keeps, whose numbers read back from their own text. *)
Definition sendable_text (m : sse_message) : Prop := message_wire m ∧ json_ok (snd (message_event m)) = true.

(** The client's view of the server's data. *)
Definition client_light (l : LanLightState) : light_channel :=
  {| lc_channel := li_channel l; lc_onoff := li_onoff l; lc_luminance := li_luminance l;
     lc_temperature := li_temperature l; lc_rgb := num_of_Z <$> li_rgb l |}.

Definition source_text (r : poll_reason) : string := match r with RPoller => "poller" | RManual => "manual" end.

(** Reading an object literal: the properties that are [undefined] read as such. *)
Lemma prop_mk_obj k l : NoDup l.*1 → prop k (mk_obj l) = jget k l ?: VUndef.
Proof.
  cbn. induction l as [|[k' v] l IH]; [done|]. intros [Hk Hl]%NoDup_cons. cbn.
  destruct (decide (k' = k)) as [->|Hne].
  - destruct v; cbn; rewrite ?decide_True by done; try done. rewrite IH by done.
    by rewrite (proj2 (jget_None k l) Hk).
  - destruct v; cbn; rewrite ?decide_False by done; by apply IH.
Qed.

(** The value of a property of a literal, by the names alone. *)
Fixpoint literal_prop (k : string) (l : list (string * val)) : val :=
  match l with
  | [] => VUndef
  | (k', v) :: l => if String.eqb k' k then v else literal_prop k l
  end.

Lemma jget_literal k l : jget k l ?: VUndef = literal_prop k l.
Proof.
  induction l as [|[k' v] l IH]; [done|]. cbn.
  case_decide; destruct (String.eqb_spec k' k); try congruence; done.
Qed.

Lemma prop_VObj k l : prop k (VObj l) = literal_prop k l.
Proof. apply jget_literal. Qed.

Lemma prop_literal k l : NoDup l.*1 → prop k (mk_obj l) = literal_prop k l.
Proof. intros Hl. by rewrite prop_mk_obj, jget_literal. Qed.

(** Reads the properties of object literals. *)
Ltac read_props :=
  try match goal with |- context [mk_obj ?l] =>
    let H := fresh in
    assert (∀ k, prop k (mk_obj l) = literal_prop k l) as H
      by (intros k; apply prop_literal; apply (bool_decide_unpack _); vm_compute; exact I);
    rewrite !H; clear H end;
  cbn [record_of isObjectRecord is_object mk_obj]; rewrite ?prop_VObj;
  cbn [literal_prop String.eqb Ascii.eqb Bool.eqb to_num VZ].

Section Relay.
Context (localeCompare : string → string → Z).

Definition client_state (d : DeviceStateDto) : StreamDeviceState :=
  {| ss_uuid := ds_uuid d; ss_host := ds_host d; ss_kind := Some (kind_text (ds_kind d)); ss_channel := ds_channel d;
     ss_onoff := ds_onoff d; ss_channels := js_sort (λ a b, tx_channel a - tx_channel b) (ds_channels d);
     ss_lights := js_sort (λ a b, lc_channel a - lc_channel b) (map client_light (ds_lights d));
     ss_light := client_light <$> ds_light d;
     ss_timerxDigest := js_sort (schedule_cmp localeCompare) (ds_timerxDigest d);
     ss_triggerxDigest := js_sort (schedule_cmp localeCompare) (ds_triggerxDigest d);
     ss_updatedAt := num_of_Z (ds_updatedAt d); ss_stale := ds_stale d; ss_source := Some (source_text (ds_source d));
     ss_error := ds_error d |}.

Definition client_power (p : DevicePowerDto) : DevicePower :=
  {| dw_uuid := dp_uuid p; dw_host := dp_host p; dw_channel := dp_channel p; dw_voltageV := dp_voltageV p;
     dw_currentA := dp_currentA p; dw_powerW := dp_powerW p; dw_updatedAt := num_of_Z (dp_updatedAt p);
     dw_stale := dp_stale p; dw_error := dp_error p |}.

(** What the machine gets for a message of the server. *)
Definition client_events (m : sse_message) : list monitor_event :=
  match m with
  | MsgSnapshot l => [Snapshot (map client_state l)]
  | MsgPowerSnapshot l => [PowerSnapshot (map client_power l)]
  | MsgState d => [StateReceived (client_state d)]
  | MsgStale d => [DeviceStale (client_state d)]
  | MsgPower p => [PowerReceived (client_power p)]
  | MsgPowerStale _ | MsgHealth _ | MsgHeartbeat _ => []
  end.

Lemma nonneg_integer_VZ z : small z → nonneg_integer (num_of_Z z) = Some z.
Proof.
  intros [H0 H1]. unfold nonneg_integer. rewrite num_Z_of_Z by lia.
  by assert ((z <? 0) = false) as -> by (apply Z.ltb_ge; lia).
Qed.

Lemma finite_VZ z : Z.abs z < 2 ^ 53 → is_finite (num_of_Z z) = true.
Proof. intros Hz. eapply num_Z_finite. by apply num_Z_of_Z. Qed.

Lemma positive_VZ z : 0 < z < 2 ^ 53 → positive_time (num_of_Z z) = true.
Proof.
  intros Hz. unfold positive_time. rewrite finite_VZ by lia. destruct z as [|p|p]; [lia| |lia].
  unfold num_of_Z, binary_normalize. destruct (binary_round_small false p ltac:(lia)) as (m & e & -> & _). done.
Qed.

Lemma is_one_bit b : is_one (bit_val b) = b.
Proof. by destruct b. Qed.

Lemma finite_number_opt n : finite_opt n → finite_number (opt_val VNum n) = n.
Proof. destruct n as [x|]; [|done]. cbn. unfold finite_number. cbn. by intros ->. Qed.

Lemma finite_number_VZ z : small_opt z → finite_number (opt_val VZ z) = num_of_Z <$> z.
Proof.
  destruct z as [x|]; [|done]. intros [H0 H1]. unfold finite_number. cbn -[num_of_Z]. by rewrite finite_VZ by lia.
Qed.

Lemma parse_toggle c : small (tx_channel c) → parse_channel (toggle_val c) = Some c.
Proof.
  intros Hc. unfold parse_channel, toggle_val. read_props.
  rewrite nonneg_integer_VZ, is_one_bit by done. by destruct c.
Qed.

Lemma parse_light_val l : light_wire l → light_of_entry (light_val l) = Some (client_light l).
Proof.
  intros (Hc & Hl & Ht & Hr). unfold light_of_entry, light_val. read_props.
  by rewrite nonneg_integer_VZ, is_one_bit, !finite_number_opt, finite_number_VZ by done.
Qed.

Lemma parse_schedule_val e : schedule_wire e → parse_schedule (schedule_val e) = Some e.
Proof.
  intros (Hc & Hid & Htrim & Hn). unfold parse_schedule, schedule_val. read_props.
  rewrite nonneg_integer_VZ by done. unfold str_or_empty. cbn [coalesce nullish to_str]. rewrite Htrim.
  rewrite (proj2 (str_truthy_spec _) Hid). destruct Hn. rewrite (num_round_Z _ (sd_count e)) by (apply num_Z_of_Z; lia).
  rewrite Z.max_r by done. by destruct e.
Qed.
(** A list whose items are all read back. *)
Lemma omap_all {A B} (f : val → option B) (g : A → val) (h : A → B) (P : A → Prop) l :
  (∀ a, P a → f (g a) = Some (h a)) → Forall P l → omap f (map g l) = map h l.
Proof. intros Hf. induction 1 as [|a l Ha Hl IH]; [done|]. simpl. rewrite Hf by done. by f_equal. Qed.

Lemma parse_channels l : Forall (λ c, small (tx_channel c)) l →
  parseChannels (VArr (map toggle_val l)) = js_sort (λ a b, tx_channel a - tx_channel b) l.
Proof. intros Hl. unfold parseChannels. cbn [arr_items]. by rewrite (omap_all _ _ id _ l parse_toggle Hl), map_id. Qed.

Lemma parse_lights l : Forall light_wire l →
  parseLights (VArr (map light_val l)) = js_sort (λ a b, lc_channel a - lc_channel b) (map client_light l).
Proof. intros Hl. unfold parseLights. cbn [arr_items]. by rewrite (omap_all (λ item, light_of_entry (record_of item)) light_val client_light light_wire l parse_light_val Hl). Qed.

Lemma parse_schedules l : Forall schedule_wire l →
  parseScheduleDigest localeCompare (VArr (map schedule_val l)) = js_sort (schedule_cmp localeCompare) l.
Proof.
  intros Hl. unfold parseScheduleDigest. cbn [arr_items].
  by rewrite (omap_all _ _ id _ l parse_schedule_val Hl), map_id.
Qed.

Lemma as_str_opt o : as_str (opt_val VStr o) = o.
Proof. by destruct o. Qed.

(** Reading back what the server wrote. *)
Lemma parse_state d : state_wire d → parseStreamState localeCompare (state_val d) = Some (client_state d).
Proof.
  intros [[Hu Ht] Hc Hcs Hls Hl Htx Htr Hup]. unfold parseStreamState, state_val. read_props.
  unfold str_or_empty. cbn [coalesce nullish to_str negb]. rewrite Ht, (proj2 (str_truthy_spec _) Hu). cbn [negb].
  rewrite nonneg_integer_VZ, positive_VZ, is_one_bit, parse_channels, parse_lights, !parse_schedules, as_str_opt by done.
  cbn [negb]. unfold client_state. repeat f_equal.
  destruct (ds_light d) as [l|]; [|done]. cbn [null_val]. unfold parseLight. cbn [isObjectRecord is_object light_val mk_obj].
  by apply parse_light_val.
Qed.

Lemma parse_power p : power_wire p → parsePower (power_val p) = Some (client_power p).
Proof.
  intros [[Hu Ht] Hc (Hv & Ha & Hw) Hup]. unfold parsePower, power_val. read_props.
  unfold str_or_empty. cbn [coalesce nullish to_str negb]. rewrite Ht, (proj2 (str_truthy_spec _) Hu). cbn [negb].
  by rewrite nonneg_integer_VZ, positive_VZ, !finite_number_opt, as_str_opt by done.
Qed.

(** The events of a message. *)
Lemma relay_events m id data st :
  message_wire m → json_parse data = Some (snd (message_event m)) →
  stream_step localeCompare (SourceMessage id (fst (message_event m)) data) st = (st, client_events m).
Proof.
  intros Hm Hj. cbn. unfold on_message, parseMessage. rewrite Hj.
  destruct m as [l|l|s|d|d|p|p|a]; cbn -[state_val power_val parseStreamState parsePower]; cbn in Hm.
  - unfold parseSnapshotStates. read_props. cbn [arr_items].
    by rewrite (omap_all _ _ _ _ l parse_state Hm).
  - unfold parsePowerSnapshot. read_props. cbn [arr_items]. by rewrite (omap_all _ _ _ _ l parse_power Hm).
  - done.
  - by rewrite parse_state.
  - by rewrite parse_state.
  - by rewrite parse_power.
  - done.
  - done.
Qed.

(** C13: the text the server writes of a message ([JSON.stringify]) is read back by the parsers of the client and
    reaches the machine as the one event that carries the client's view of it, and the connection is as
    it was. Of a state every field is read back, with the channels, lights and schedules in the order
    the client sorts them; of a reading all but its source and the raw units of the device, which the
    client does not keep. Reports of health and heartbeats carry no event, and neither does the notice
    of a stale reading, which repeats the reading sent before it. *)
Theorem relay_message m id st : sendable_text m →
  stream_step localeCompare (SourceMessage id (fst (message_event m)) (message_text m)) st = (st, client_events m).
Proof. intros [Hw Hj]. by apply relay_events, json_parse_stringify. Qed.
End Relay.

Definition lamp : DeviceStateDto :=
  {| ds_uuid := "u1"; ds_host := "10.0.0.2"; ds_kind := KLight; ds_channel := 0; ds_onoff := true;
     ds_channels := [{| tx_channel := 0; tx_onoff := true |}];
     ds_lights := [{| li_channel := 0; li_onoff := true; li_luminance := Some (num_of_Z 40); li_temperature := None; li_rgb := Some 255 |}];
     ds_light := None; ds_timerxDigest := [{| sd_channel := 0; sd_id := "t"; sd_count := 2 |}]; ds_triggerxDigest := [];
     ds_updatedAt := 1700000000000; ds_source := RPoller; ds_stale := false; ds_error := None |}.

Lemma lamp_wire : state_wire lamp.
Proof. split; cbn; repeat constructor; try done; unfold small; try lia; cbn; lia. Qed.

Lemma relay_message_witness :
  stream_step byte_compare (SourceMessage 0 "device_state" (message_text (MsgState lamp))) stream_start =
    (stream_start, [StateReceived (client_state byte_compare lamp)]).
Proof.
  refine (relay_message byte_compare (MsgState lamp) 0 stream_start (conj lamp_wire _)). vm_compute. reflexivity.
Defined.

(** The notice of a stale reading is dropped: the client does not listen to it. *)
Example stale_notice_dropped : fst (message_event (MsgPowerStale
    {| dp_uuid := "u1"; dp_host := ""; dp_channel := 0; dp_voltageV := None; dp_currentA := None; dp_powerW := None;
       dp_voltageDv := None; dp_currentMa := None; dp_powerMw := None; dp_updatedAt := 1; dp_source := TPoller;
       dp_stale := true; dp_error := Some "timeout" |})) = "device_power_stale" ∧
  ∀ data, on_message byte_compare "device_power_stale" data = [].
Proof. by split. Qed.
