(* ===== verification/DevicesMachine.v ===== *)
(** * The devices machine of the web client

    The XState machine of apps/web/src/state/devicesMachine.ts: its context, the promises it invokes,
    its actions and guards, and its three parallel regions. No event is handled in two regions, nor both
    in a region and at the root, so the events of a region and those of the root are separate types. A
    region that gets an event its state does not name drops it; the end of a promise is an event of the
    region that invoked it. The actions of a transition run before those of entering its target, each
    on the context the previous one left, and the input of a promise is computed after them. *)

From S2P Require Export StreamClient WebApi.

Local Open Scope string_scope.
Local Open Scope Z_scope.
Local Open Scope list_scope.

(** ** Context *)

(** [None] for an absent list; [light] is absent or [null] alike. *)
Record DeviceState := {
  vs_host : string; vs_kind : option string; vs_channel : Z; vs_onoff : bool;
  vs_channels : option (list LanToggleXState); vs_lights : option (list light_channel); vs_light : option light_channel;
  vs_timerxDigest : option (list LanScheduleDigestEntry); vs_triggerxDigest : option (list LanScheduleDigestEntry);
  vs_updatedAt : num; vs_stale : bool; vs_source : option string; vs_error : option string }.

Record ToggleRollback := { tr_uuid : string; tr_previous : option DeviceState }.

(** [devices], [hosts] and [systemDump] are kept as the server answered them. *)
Record DevicesContext := {
  dc_devices : val; dc_hosts : val; dc_cidr : string;
  dc_deviceStates : list (string * DeviceState); dc_devicePower : list (string * DevicePower);
  dc_systemDump : option (string * val * val); dc_activeDeviceUuid : option string;
  dc_toggleRollback : option ToggleRollback }.

(** ** Promises *)

(** The [cidr] of a request: [input.cidr.trim() || undefined]. *)
Definition cidr_prop (cidr : string) : list (string * val) := opt_prop "cidr" VStr (nonempty (trim cidr)).

Definition get_hosts : web val := let! res := apiGet "/api/hosts" in of_result (member "hosts" res).

(** [refreshFromCloud] makes its two calls at once; what it returns once both have ended, from how each
    ended: a list of devices and the hosts. *)
Definition refresh_calls : list (web val) :=
  [apiPost "/api/cloud/devices/refresh" (VObj []);
   catch (apiGet "/api/hosts") (λ _, Ret (VObj [("hosts", VObj [])]))].

Definition refresh_output (devicesRes hostsRes : result val) : result (val * val) :=
  let? devices := devicesRes in
  let? res := hostsRes in
  let? hosts := member "hosts" res in
  Ok (prop "list" devices, hosts).

Definition suggestCidr : web val := apiGet "/api/lan/cidr-suggest".

Definition discoverHostsActor (cidr : string) : web val :=
  let! _ := apiPost "/api/hosts/discover" (VObj (cidr_prop cidr)) in get_hosts.

Definition resolveHostActor (uuid mac cidr : string) : web val :=
  let! _ := apiPost "/api/hosts/resolve" (VObj ([("uuid", VStr uuid); ("mac", VStr mac)] ++ cidr_prop cidr)) in get_hosts.

Definition toggleDeviceActor (uuid : string) (onoff : bool) : web (string * bool) :=
  let! _ := apiPost "/api/device/toggle" (VObj [("uuid", VStr uuid); ("channel", VZ 0); ("onoff", bit_val onoff)]) in
  Ret (uuid, onoff).

Definition fetchDiagnostics (uuid : string) : web (string * val * val) :=
  let! res := apiPost "/api/device/system-all" (VObj [("uuid", VStr uuid)]) in
  let! host := of_result (member "host" res) in
  Ret (uuid, host, prop "data" res).

(** ** Actions *)

Definition persistCidr (cidr : string) : web unit := let! _ := sys (WSetItem "merossity.cidr" cidr) in Ret tt.

Definition persistCidrRemote (cidr : string) : option (web unit) :=
  if str_truthy (trim cidr) then
    Some (catch (apiPost "/api/network/cidr" (VObj [("cidr", VStr (trim cidr))]) ;;! Ret tt) (λ _, Ret tt))
  else None.

Definition requestDeviceRefresh (uuid : string) : option (web unit) :=
  if str_truthy uuid then
    Some (catch (apiPost "/api/device/states" (VObj [("uuids", VArr [VStr uuid]); ("reason", VStr "manual")]) ;;! Ret tt)
                (λ _, Ret tt))
  else None.

Definition setCidrIfEmpty (default_ : val) (c : DevicesContext) : DevicesContext :=
  if str_truthy (trim (dc_cidr c)) then c else c <| dc_cidr := str_or_empty default_ |>.

(** [context.hosts[uuid]?.host], a text. *)
Definition host_of (uuid : string) (c : DevicesContext) : option string :=
  as_str (prop "host" (prop uuid (dc_hosts c))) ≫= nonempty.

(** The entries of channel 0 changed, or [new] in front when there is none. *)
Definition switch0 {A} (channel : A → Z) (change : A → A) (new : A) (l : list A) : list A :=
  if existsb (λ a, channel a =? 0) l then map (λ a, if channel a =? 0 then change a else a) l else new :: l.

Definition switch_channel0 (onoff : bool) : list LanToggleXState → list LanToggleXState :=
  switch0 tx_channel (λ c, {| tx_channel := tx_channel c; tx_onoff := onoff |}) {| tx_channel := 0; tx_onoff := onoff |}.

Definition with_light_onoff (onoff : bool) (l : light_channel) : light_channel :=
  {| lc_channel := lc_channel l; lc_onoff := onoff; lc_luminance := lc_luminance l;
     lc_temperature := lc_temperature l; lc_rgb := lc_rgb l |}.

Definition light0 (l : list light_channel) : option light_channel := js_find (λ l, lc_channel l =? 0) l.

(** The lights with channel 0 switched; none when nothing shows that the device has a light. *)
Definition switch_light0 (onoff : bool) (previous : option DeviceState) : option (list light_channel) :=
  let base := (previous ≫= vs_lights) ?: [] in
  let prev := match previous ≫= vs_light with Some l => Some l | None => light0 base end in
  match prev, base with
  | None, [] => None
  | _, _ =>
      let other := prev ?: {| lc_channel := 0; lc_onoff := (vs_onoff <$> previous) ?: false;
                              lc_luminance := None; lc_temperature := None; lc_rgb := None |} in
      Some (switch0 lc_channel (with_light_onoff onoff) (with_light_onoff onoff other) base)
  end.

(** The state shown while a toggle runs. *)
Definition optimistic_state (onoff : bool) (now : Z) (host : option string) (previous : option DeviceState) : DeviceState :=
  let lights := switch_light0 onoff previous in
  {| vs_host := match (previous ≫= λ p, nonempty (vs_host p)) with Some h => h | None => host ?: "" end;
     vs_kind := previous ≫= vs_kind; vs_channel := (vs_channel <$> previous) ?: 0; vs_onoff := onoff;
     vs_channels := Some (switch_channel0 onoff ((previous ≫= vs_channels) ?: []));
     vs_lights := lights;
     vs_light := match lights with Some l => light0 l | None => previous ≫= vs_light end;
     vs_timerxDigest := previous ≫= vs_timerxDigest; vs_triggerxDigest := previous ≫= vs_triggerxDigest;
     vs_updatedAt := num_of_Z now; vs_stale := false; vs_source := Some "optimistic"; vs_error := None |}.

Definition prepareOptimisticToggle (now : Z) (uuid : string) (onoff : bool) (c : DevicesContext) : DevicesContext :=
  let previous := jget uuid (dc_deviceStates c) in
  c <| dc_toggleRollback := Some {| tr_uuid := uuid; tr_previous := previous |} |>
    <| dc_deviceStates := jset uuid (optimistic_state onoff now (host_of uuid c) previous) (dc_deviceStates c) |>.

Definition rollbackOptimisticToggle (c : DevicesContext) : DevicesContext :=
  match dc_toggleRollback c with
  | None => c
  | Some r =>
      c <| dc_deviceStates := match tr_previous r with
                              | Some p => jset (tr_uuid r) p (dc_deviceStates c)
                              | None => jdel (tr_uuid r) (dc_deviceStates c)
                              end |>
        <| dc_toggleRollback := None |>
  end.

(** The state kept for a streamed one; an empty error is none. *)
Definition kept_state (s : StreamDeviceState) : DeviceState :=
  {| vs_host := ss_host s; vs_kind := ss_kind s; vs_channel := ss_channel s; vs_onoff := ss_onoff s;
     vs_channels := Some (ss_channels s); vs_lights := Some (ss_lights s); vs_light := ss_light s;
     vs_timerxDigest := Some (ss_timerxDigest s); vs_triggerxDigest := Some (ss_triggerxDigest s);
     vs_updatedAt := ss_updatedAt s; vs_stale := ss_stale s; vs_source := ss_source s;
     vs_error := ss_error s ≫= nonempty |}.

Definition setStreamDeviceState (s : StreamDeviceState) (c : DevicesContext) : DevicesContext :=
  c <| dc_deviceStates := jset (ss_uuid s) (kept_state s) (dc_deviceStates c) |>.

Definition mergeSnapshot (l : list StreamDeviceState) (c : DevicesContext) : DevicesContext :=
  c <| dc_deviceStates := foldl (λ m s, jset (ss_uuid s) (kept_state s) m) (dc_deviceStates c) l |>.

Definition mergePowerSnapshot (l : list DevicePower) (c : DevicesContext) : DevicesContext :=
  c <| dc_devicePower := foldl (λ m r, jset (dw_uuid r) r m) (dc_devicePower c) l |>.

Definition setPowerReading (r : DevicePower) (c : DevicesContext) : DevicesContext :=
  c <| dc_devicePower := jset (dw_uuid r) r (dc_devicePower c) |>.

Definition no_state : DeviceState :=
  {| vs_host := ""; vs_kind := None; vs_channel := 0; vs_onoff := false; vs_channels := None; vs_lights := None;
     vs_light := None; vs_timerxDigest := None; vs_triggerxDigest := None; vs_updatedAt := num_of_Z 0;
     vs_stale := false; vs_source := None; vs_error := None |}.

Definition failed_state (error : string) (s : DeviceState) : DeviceState :=
  s <| vs_stale := true |> <| vs_error := Some error |>.

Definition setDeviceError (uuid error : string) (c : DevicesContext) : DevicesContext :=
  c <| dc_deviceStates := jset uuid (failed_state error (jget uuid (dc_deviceStates c) ?: no_state)) (dc_deviceStates c) |>.

(** ** Guards *)

Definition needsCidrSuggest (c : DevicesContext) : bool := negb (str_truthy (trim (dc_cidr c))).

Definition hasHost (uuid : string) (c : DevicesContext) : bool :=
  match host_of uuid c with Some _ => true | None => false end.

(** ** The machine *)

Inductive inventory_state : Type := InvIdle | RefreshingCloud | SuggestingCidr | DiscoveringHosts.
Inductive operations_state : Type := OpIdle | Resolving | Toggling | FetchingDiagnostics.
Inductive monitor_state : Type := Connecting | Live | Degraded.

Record devices := {
  dm_inventory : inventory_state; dm_operations : operations_state; dm_monitor : monitor_state;
  dm_context : DevicesContext }.

Inductive inventory_event : Type :=
| Refresh
| ScanHosts
| RefreshDone (r : result (val * val))
| SuggestDone (r : result val)
| DiscoverDone (r : result val).

Inductive operations_event : Type :=
| Resolve (uuid mac title : string)
| Toggle (uuid : string) (onoff : bool)
| RefreshState (uuid : string)
| Diagnostics (uuid : string)
| ResolveDone (r : result val)
| ToggleDone (r : result (string * bool))
| DiagnosticsDone (r : result (string * val * val)).

Inductive devices_event : Type :=
| SetCidr (cidr : string)
| RequestRefresh (uuid : string)
| CloseSystemDump
| Monitor (e : monitor_event)
| Inventory (e : inventory_event)
| Operations (e : operations_event).

(** What a transition sets going: the promise of a state, or a call nobody waits for. *)
Inductive devices_command : Type :=
| InvokeRefresh
| InvokeSuggest
| InvokeDiscover (cidr : string)
| InvokeResolve (uuid mac cidr : string)
| InvokeToggle (uuid : string) (onoff : bool)
| InvokeDiagnostics (uuid : string)
| Detached (p : web unit).

Definition detach (p : option (web unit)) : list devices_command := match p with Some p => [Detached p] | None => [] end.

Definition devices_start (initialCidr : string) : devices :=
  {| dm_inventory := InvIdle; dm_operations := OpIdle; dm_monitor := Connecting;
     dm_context := {| dc_devices := VArr []; dc_hosts := VObj []; dc_cidr := initialCidr; dc_deviceStates := [];
                      dc_devicePower := []; dc_systemDump := None; dc_activeDeviceUuid := None;
                      dc_toggleRollback := None |} |}.

Definition inventory_step (e : inventory_event) (s : inventory_state) (c : DevicesContext) :
    inventory_state * DevicesContext * list devices_command :=
  match s, e with
  | InvIdle, Refresh => (RefreshingCloud, c, [InvokeRefresh])
  | InvIdle, ScanHosts =>
      if needsCidrSuggest c then (SuggestingCidr, c, [InvokeSuggest])
      else (DiscoveringHosts, c, [InvokeDiscover (dc_cidr c)])
  | RefreshingCloud, RefreshDone (Ok (list, hosts)) =>
      (InvIdle, c <| dc_devices := list |> <| dc_hosts := hosts |>, [])
  | RefreshingCloud, RefreshDone (Err _) => (InvIdle, c, [])
  | SuggestingCidr, SuggestDone r =>
      let c := match r with Ok out => setCidrIfEmpty (prop "default" out) c | Err _ => c end in
      (DiscoveringHosts, c, [InvokeDiscover (dc_cidr c)])
  | DiscoveringHosts, DiscoverDone (Ok hosts) => (InvIdle, c <| dc_hosts := hosts |>, [])
  | DiscoveringHosts, DiscoverDone (Err _) => (InvIdle, c, [])
  | _, _ => (s, c, [])
  end.

Definition activate (uuid : string) (c : DevicesContext) : DevicesContext := c <| dc_activeDeviceUuid := Some uuid |>.
Definition clearActiveDeviceUuid (c : DevicesContext) : DevicesContext := c <| dc_activeDeviceUuid := None |>.
Definition clearToggleRollback (c : DevicesContext) : DevicesContext := c <| dc_toggleRollback := None |>.

(** [now] is what [Date.now()] answers. *)
Definition operations_step (now : Z) (e : operations_event) (s : operations_state) (c : DevicesContext) :
    operations_state * DevicesContext * list devices_command :=
  match s, e with
  | OpIdle, Resolve uuid mac _ => (Resolving, activate uuid c, [InvokeResolve uuid mac (dc_cidr c)])
  | OpIdle, Toggle uuid onoff =>
      if hasHost uuid c then
        (Toggling, prepareOptimisticToggle now uuid onoff (activate uuid c), [InvokeToggle uuid onoff])
      else (OpIdle, c, [])
  | OpIdle, RefreshState uuid => (OpIdle, c, detach (requestDeviceRefresh uuid))
  | OpIdle, Diagnostics uuid =>
      if hasHost uuid c then (FetchingDiagnostics, activate uuid c, [InvokeDiagnostics uuid]) else (OpIdle, c, [])
  | Resolving, ResolveDone (Ok hosts) => (OpIdle, clearActiveDeviceUuid (c <| dc_hosts := hosts |>), [])
  | Resolving, ResolveDone (Err _) => (OpIdle, clearActiveDeviceUuid c, [])
  | Toggling, ToggleDone (Ok (uuid, _)) =>
      (OpIdle, clearActiveDeviceUuid (clearToggleRollback c), detach (requestDeviceRefresh uuid))
  | Toggling, ToggleDone (Err error) =>
      let c := rollbackOptimisticToggle c in
      let c := setDeviceError (dc_activeDeviceUuid c ?: "") (exn_message error) c in
      (OpIdle, clearActiveDeviceUuid (clearToggleRollback c), [])
  | FetchingDiagnostics, DiagnosticsDone (Ok dump) =>
      (OpIdle, clearActiveDeviceUuid (c <| dc_systemDump := Some dump |>), [])
  | FetchingDiagnostics, DiagnosticsDone (Err _) => (OpIdle, clearActiveDeviceUuid c, [])
  | _, _ => (s, c, [])
  end.

(** The region of the monitor moves on the events of the connection, the root keeps the data. *)
Definition monitor_step (e : monitor_event) (s : monitor_state) : monitor_state :=
  match s, e with
  | (Connecting | Degraded), StreamConnected => Live
  | (Connecting | Live), StreamDisconnected => Degraded
  | _, _ => s
  end.

Definition monitor_data (e : monitor_event) (c : DevicesContext) : DevicesContext :=
  match e with
  | StreamConnected | StreamDisconnected => c
  | StateReceived s | DeviceStale s => setStreamDeviceState s c
  | Snapshot l => mergeSnapshot l c
  | PowerSnapshot l => mergePowerSnapshot l c
  | PowerReceived r => setPowerReading r c
  end.

Definition devices_step (now : Z) (e : devices_event) (m : devices) : devices * list devices_command :=
  let c := dm_context m in
  match e with
  | SetCidr cidr => (m <| dm_context := c <| dc_cidr := cidr |> |>,
                     Detached (persistCidr cidr) :: detach (persistCidrRemote cidr))
  | RequestRefresh uuid => (m, detach (requestDeviceRefresh uuid))
  | CloseSystemDump => (m <| dm_context := c <| dc_systemDump := None |> |>, [])
  | Monitor e => (m <| dm_monitor := monitor_step e (dm_monitor m) |> <| dm_context := monitor_data e c |>, [])
  | Inventory e =>
      let '(s, c, cmds) := inventory_step e (dm_inventory m) c in
      (m <| dm_inventory := s |> <| dm_context := c |>, cmds)
  | Operations e =>
      let '(s, c, cmds) := operations_step now e (dm_operations m) c in
      (m <| dm_operations := s |> <| dm_context := c |>, cmds)
  end.

(** Events in order, each with the time it is handled at. *)
Definition devices_run (es : list (Z * devices_event)) (m : devices) : devices :=
  foldl (λ m '(now, e), fst (devices_step now e m)) m es.
