(* ===== verification/DevicesSpec.v ===== *)
(** * The devices machine: what it keeps

    Theorems on DevicesMachine.v: the regions and the context agree in every run, a toggle is shown at
    once and undone when it fails, a scan uses the block the user typed, and the tables of the client
    hold the last thing the server sent about each device. *)

From S2P Require Export DevicesMachine.
From S2P Require Import JsonText.

Local Open Scope string_scope.
Local Open Scope Z_scope.
Local Open Scope list_scope.

Abbreviation states m := (dc_deviceStates (dm_context m)).
Abbreviation powers m := (dc_devicePower (dm_context m)).
Abbreviation active m := (dc_activeDeviceUuid (dm_context m)).
Abbreviation rollback m := (dc_toggleRollback (dm_context m)).

Lemma devices_run_app es es' m : devices_run (es ++ es') m = devices_run es' (devices_run es m).
Proof. apply foldl_app. Qed.

(** ** The regions and the context agree *)

(** A device is active while an operation runs, and there is something to undo while a toggle does. *)
Record devices_ok (m : devices) : Prop := {
  do_active : match dm_operations m with OpIdle => active m = None | _ => is_Some (active m) end;
  do_rollback : match dm_operations m with
                | Toggling => ∃ r, rollback m = Some r ∧ active m = Some (tr_uuid r)
                | _ => rollback m = None
                end;
  do_states : jwf (states m);
  do_powers : jwf (powers m) }.

(** What a transition of the inventory, of the monitor or of the root leaves alone. *)
Record same_operation (c c' : DevicesContext) : Prop := {
  sm_active : dc_activeDeviceUuid c' = dc_activeDeviceUuid c;
  sm_rollback : dc_toggleRollback c' = dc_toggleRollback c;
  sm_states : jwf (dc_deviceStates c) → jwf (dc_deviceStates c');
  sm_powers : jwf (dc_devicePower c) → jwf (dc_devicePower c') }.

Lemma jwf_fold {A V} (k : A → string) (v : A → V) (l : list A) (m : list (string * V)) :
  jwf m → jwf (foldl (λ m a, jset (k a) (v a) m) m l).
Proof. revert m. induction l as [|a l IH]; intros m Hm; [done|]. by apply IH, jwf_set. Qed.

Lemma monitor_same e c : same_operation c (monitor_data e c).
Proof. destruct e; split; cbn; auto using jwf_set, jwf_fold. all: intros; apply (jwf_fold _ id); done. Qed.

Lemma inventory_same e s c : same_operation c (snd (fst (inventory_step e s c))).
Proof.
  unfold inventory_step, setCidrIfEmpty.
  destruct s, e as [| |[[list hosts]|e]|[out|e]|[hosts|e]]; cbn; repeat case_match; cbn; by split.
Qed.

Lemma same_ok m c i s : same_operation (dm_context m) c → devices_ok m →
  devices_ok {| dm_inventory := i; dm_operations := dm_operations m; dm_monitor := s; dm_context := c |}.
Proof. intros [Ha Hr Hs Hp] [H1 H2 H3 H4]. split; cbn; rewrite ?Ha, ?Hr; auto. Qed.

Lemma rollback_tables c : jwf (dc_deviceStates c) → jwf (dc_deviceStates (rollbackOptimisticToggle c)) ∧
  dc_devicePower (rollbackOptimisticToggle c) = dc_devicePower c.
Proof.
  intros Hc. unfold rollbackOptimisticToggle. destruct (dc_toggleRollback c) as [r|]; [|done].
  destruct (tr_previous r); split; cbn; auto using jwf_set, jwf_del.
Qed.

Lemma operations_ok now e m s c cmds : devices_ok m →
  operations_step now e (dm_operations m) (dm_context m) = (s, c, cmds) →
  devices_ok (m <| dm_operations := s |> <| dm_context := c |>).
Proof.
  intros [H1 H2 H3 H4] He. destruct (rollback_tables _ H3) as [Hr1 Hr2]. unfold operations_step in He.
  destruct (dm_operations m) eqn:Es, e as [uuid mac title|uuid onoff|uuid|uuid|[hosts|e]|[[uuid onoff]|e]|[[[uuid h] d]|e]];
    cbn in He; repeat (case_match; try discriminate); injection He as <- <- <-;
    split; cbn -[rollbackOptimisticToggle]; rewrite ?Es, ?Hr2; eauto using jwf_set.
Qed.

Lemma devices_step_ok now e m : devices_ok m → devices_ok (fst (devices_step now e m)).
Proof.
  intros Hm. destruct e as [cidr|uuid| |e|e|e]; cbn.
  - apply (same_ok m _ _ _); [by split|done].
  - done.
  - apply (same_ok m _ _ _); [by split|done].
  - apply (same_ok m _ _ _); [apply monitor_same|done].
  - pose proof (inventory_same e (dm_inventory m) (dm_context m)) as Hc.
    destruct (inventory_step e (dm_inventory m) (dm_context m)) as [[s c] cmds]. by apply (same_ok m _ _ _).
  - destruct (operations_step now e (dm_operations m) (dm_context m)) as [[s c] cmds] eqn:E. by eapply operations_ok.
Qed.

Lemma devices_run_ok es m : devices_ok m → devices_ok (devices_run es m).
Proof. revert m. induction es as [|[now e] es IH]; intros m Hm; [done|]. by apply IH, devices_step_ok. Qed.

(** C11: In every run, whatever the user does and the server answers, the machine has an active device
    exactly while an operation runs, so one operation at a time; there is a state to go back to exactly
    while a toggle runs, and it is that of the active device; no device has two entries in a table. *)
Theorem devices_invariant cidr es : devices_ok (devices_run es (devices_start cidr)).
Proof. apply devices_run_ok. split; cbn; try done; apply NoDup_nil_2. Qed.

(** ** The documented state chart

    docs/devices-machine-statechart.md draws the three regions as a chart; these are its arrows, labelled
    with the event and the guard. *)
Inductive inventory_chart (c : DevicesContext) : inventory_state → inventory_event → inventory_state → Prop :=
| ChartRefresh : inventory_chart c InvIdle Refresh RefreshingCloud
| ChartSuggest : needsCidrSuggest c = true → inventory_chart c InvIdle ScanHosts SuggestingCidr
| ChartDiscover : needsCidrSuggest c = false → inventory_chart c InvIdle ScanHosts DiscoveringHosts
| ChartRefreshed r : inventory_chart c RefreshingCloud (RefreshDone r) InvIdle
| ChartSuggested r : inventory_chart c SuggestingCidr (SuggestDone r) DiscoveringHosts
| ChartDiscovered r : inventory_chart c DiscoveringHosts (DiscoverDone r) InvIdle.

Inductive operations_chart (c : DevicesContext) : operations_state → operations_event → operations_state → Prop :=
| ChartResolve uuid mac title : operations_chart c OpIdle (Resolve uuid mac title) Resolving
| ChartToggle uuid onoff : hasHost uuid c = true → operations_chart c OpIdle (Toggle uuid onoff) Toggling
| ChartDiagnostics uuid : hasHost uuid c = true → operations_chart c OpIdle (Diagnostics uuid) FetchingDiagnostics
| ChartResolved r : operations_chart c Resolving (ResolveDone r) OpIdle
| ChartToggled r : operations_chart c Toggling (ToggleDone r) OpIdle
| ChartDiagnosed r : operations_chart c FetchingDiagnostics (DiagnosticsDone r) OpIdle.

Inductive monitor_chart : monitor_state → monitor_event → monitor_state → Prop :=
| ChartConnected : monitor_chart Connecting StreamConnected Live
| ChartFailed : monitor_chart Connecting StreamDisconnected Degraded
| ChartLost : monitor_chart Live StreamDisconnected Degraded
| ChartRegained : monitor_chart Degraded StreamConnected Live.

(** The chart of the parallel state: an event moves the region it belongs to. *)
Definition configuration : Type := inventory_state * operations_state * monitor_state.

Inductive chart (c : DevicesContext) : configuration → devices_event → configuration → Prop :=
| ChartInventory i i' o s e : inventory_chart c i e i' → chart c (i, o, s) (Inventory e) (i', o, s)
| ChartOperations i o o' s e : operations_chart c o e o' → chart c (i, o, s) (Operations e) (i, o', s)
| ChartMonitor i o s s' e : monitor_chart s e s' → chart c (i, o, s) (Monitor e) (i, o, s').

Definition configuration_of (m : devices) : configuration := (dm_inventory m, dm_operations m, dm_monitor m).

#[local] Hint Constructors inventory_chart operations_chart monitor_chart chart : core.

(** A step of a region goes along an arrow, or there is none for the event and it stays. *)
Lemma inventory_follows e i c : let i' := fst (fst (inventory_step e i c)) in
  inventory_chart c i e i' ∨ i' = i ∧ ∀ j, ¬ inventory_chart c i e j.
Proof.
  destruct i, e as [| |[[list hosts]|e]|[out|e]|[hosts|e]]; cbn; auto;
    try (right; split; [done|]; intros j Hj; by inversion Hj).
  destruct (needsCidrSuggest c) eqn:E; cbn; auto.
Qed.

Lemma operations_follows now e o c : let o' := fst (fst (operations_step now e o c)) in
  operations_chart c o e o' ∨ o' = o ∧ ∀ j, ¬ operations_chart c o e j.
Proof.
  destruct o, e as [uuid mac title|uuid onoff|uuid|uuid|[hosts|e]|[[uuid onoff]|e]|[[[uuid h] d]|e]]; cbn; auto;
    try (right; split; [done|]; intros j Hj; by inversion Hj).
  all: destruct (hasHost uuid c) eqn:E; cbn; auto; right; split; [done|]; intros j Hj; inversion Hj; congruence.
Qed.

Lemma monitor_follows e s : let s' := monitor_step e s in
  monitor_chart s e s' ∨ s' = s ∧ ∀ j, ¬ monitor_chart s e j.
Proof.
  destruct s, e; cbn; auto; right; (split; [done|]); intros j Hj; by inversion Hj.
Qed.

(** The arrows of one event lead to one configuration. *)
Lemma chart_functional c g e g1 g2 : chart c g e g1 → chart c g e g2 → g1 = g2.
Proof.
  intros H1 H2. destruct H1 as [i i' o s e H1|i o o' s e H1|i o s s' e H1]; inversion H2 as [? ? ? ? ? H3|? ? ? ? ? H3|? ? ? ? ? H3]; subst;
    destruct H1; inversion H3; congruence.
Qed.

(** C9: the machine implements its documented state chart: from any configuration, in any context, an
    event moves it along the arrow of the chart for that event when its guard holds, and leaves its
    configuration alone when there is none. *)
Theorem follows_chart now e m g :
  configuration_of (fst (devices_step now e m)) = g ↔
  chart (dm_context m) (configuration_of m) e g ∨
  g = configuration_of m ∧ ∀ g', ¬ chart (dm_context m) (configuration_of m) e g'.
Proof.
  assert (Hstep : let g' := configuration_of (fst (devices_step now e m)) in
    chart (dm_context m) (configuration_of m) e g' ∨
    g' = configuration_of m ∧ ∀ g'', ¬ chart (dm_context m) (configuration_of m) e g'').
  { cbv zeta. destruct e as [cidr|uuid| |e|e|e]; cbn -[monitor_data].
    1-3: right; split; [done|]; intros g' Hg; by inversion Hg.
    - destruct (monitor_follows e (dm_monitor m)) as [Hm|[Heq Hm]]; [left; by constructor|right].
      cbn in Heq. unfold configuration_of. cbn. rewrite Heq. split; [done|].
      intros g' Hg. inversion Hg. by eapply Hm.
    - pose proof (inventory_follows e (dm_inventory m) (dm_context m)) as Hi.
      destruct (inventory_step e (dm_inventory m) (dm_context m)) as [[i c] cmds]. cbn in Hi.
      destruct Hi as [Hi|[-> Hi]]; [left; by constructor|right]. split; [done|]. intros g' Hg. inversion Hg. by eapply Hi.
    - pose proof (operations_follows now e (dm_operations m) (dm_context m)) as Hi.
      destruct (operations_step now e (dm_operations m) (dm_context m)) as [[i c] cmds]. cbn in Hi.
      destruct Hi as [Hi|[-> Hi]]; [left; by constructor|right]. split; [done|]. intros g' Hg. inversion Hg. by eapply Hi. }
  split; [intros <-; exact Hstep|]. intros [Hg|[-> Hno]]; destruct Hstep as [Hs|[Hs Hn]].
  - by eapply chart_functional.
  - by apply Hn in Hg.
  - by apply Hno in Hs.
  - exact Hs.
Qed.

(** ** A toggle from its start to its end *)

Definition ends_toggle (e : devices_event) : bool := match e with Operations (ToggleDone _) => true | _ => false end.

(** What a running toggle holds on to. *)
Lemma toggling_step now e m : dm_operations m = Toggling → ends_toggle e = false →
  let m' := fst (devices_step now e m) in
  dm_operations m' = Toggling ∧ active m' = active m ∧ rollback m' = rollback m.
Proof.
  intros Ho He. destruct e as [cidr|uuid| |e|e|e]; cbn; rewrite ?Ho; try done.
  - destruct (monitor_same e (dm_context m)). auto.
  - pose proof (inventory_same e (dm_inventory m) (dm_context m)) as [Ha Hr _ _].
    destruct (inventory_step e (dm_inventory m) (dm_context m)) as [[s c] cmds]. auto.
  - by destruct e.
Qed.

Lemma toggling_run es m : dm_operations m = Toggling → Forall (λ e, ends_toggle (snd e) = false) es →
  dm_operations (devices_run es m) = Toggling ∧ active (devices_run es m) = active m ∧
  rollback (devices_run es m) = rollback m.
Proof.
  intros Ho Hes. revert m Ho. induction Hes as [|[now e] es He Hes IH]; intros m Ho; [done|].
  destruct (toggling_step now e m Ho He) as (Ho' & Ha & Hr).
  destruct (IH (fst (devices_step now e m)) Ho') as (H1 & H2 & H3).
  change (devices_run ((now, e) :: es) m) with (devices_run es (fst (devices_step now e m))).
  split_and!; [done|by rewrite H2|by rewrite H3].
Qed.

(** Going back is putting the old state, or none, in the place of the device. *)
Lemma rollback_get u r c : dc_toggleRollback c = Some r →
  jget u (dc_deviceStates (rollbackOptimisticToggle c)) =
    (if decide (tr_uuid r = u) then tr_previous r else jget u (dc_deviceStates c)).
Proof.
  intros Hr. unfold rollbackOptimisticToggle. rewrite Hr. cbn. destruct (tr_previous r).
  - apply jget_set.
  - apply jget_del.
Qed.

Lemma rollback_active c : dc_activeDeviceUuid (rollbackOptimisticToggle c) = dc_activeDeviceUuid c.
Proof. unfold rollbackOptimisticToggle. by destruct (dc_toggleRollback c). Qed.

(** C10: A toggle of a device with a known host sends one request and shows the wanted state at once.
    Until its answer comes nothing starts another operation, whatever arrives. When it succeeds the
    tables stay as the stream left them and a poll of the device is requested; when it fails the device
    is shown as it was before the toggle, stale and with the error, and the other devices stay as the
    stream left them. The state the stream sent for the device meanwhile is lost: the one from before
    the toggle replaces it, even when it is older. *)
Theorem toggle_round now uuid onoff m es :
  dm_operations m = OpIdle → hasHost uuid (dm_context m) = true → Forall (λ e, ends_toggle (snd e) = false) es →
  let '(m1, cmds) := devices_step now (Operations (Toggle uuid onoff)) m in
  let m2 := devices_run es m1 in
  (cmds = [InvokeToggle uuid onoff] ∧
   jget uuid (states m1) = Some (optimistic_state onoff now (host_of uuid (dm_context m)) (jget uuid (states m)))) ∧
  (dm_operations m2 = Toggling ∧ active m2 = Some uuid) ∧
  (∀ now' out, let '(m3, cmds) := devices_step now' (Operations (ToggleDone (Ok (uuid, out)))) m2 in
     dm_operations m3 = OpIdle ∧ states m3 = states m2 ∧ cmds = detach (requestDeviceRefresh uuid)) ∧
  (∀ now' error, let '(m3, cmds) := devices_step now' (Operations (ToggleDone (Err error))) m2 in
     dm_operations m3 = OpIdle ∧ cmds = [] ∧
     jget uuid (states m3) = Some (failed_state (exn_message error) (jget uuid (states m) ?: no_state)) ∧
     ∀ u, u ≠ uuid → jget u (states m3) = jget u (states m2)).
Proof.
  intros Ho Hh Hes. cbn -[optimistic_state]. rewrite Ho. cbn -[optimistic_state]. rewrite Hh. cbn -[optimistic_state].
  set (m1 := m <| dm_operations := Toggling |> <| dm_context := _ |>).
  destruct (toggling_run es m1 eq_refl Hes) as (H2 & Ha & Hr).
  set (m2 := devices_run es m1) in *. cbn in Ha, Hr.
  split_and!; [done|by rewrite jget_set_eq|done|done|..].
  - intros now' out. rewrite H2. done.
  - intros now' error. rewrite H2. cbn -[rollbackOptimisticToggle]. rewrite rollback_active, Ha. cbn.
    split_and!; [done..| |].
    + rewrite jget_set_eq, (rollback_get _ _ _ Hr), decide_True by done. done.
    + intros u Hu. rewrite jget_set_ne, (rollback_get _ _ _ Hr), decide_False by done. done.
Qed.

Definition streamed (onoff : bool) (at_ : Z) : StreamDeviceState :=
  client_state byte_compare
    {| ds_uuid := "u1"; ds_host := "10.0.0.2"; ds_kind := KTogglex; ds_channel := 0; ds_onoff := onoff;
       ds_channels := [{| tx_channel := 0; tx_onoff := onoff |}]; ds_lights := []; ds_light := None;
       ds_timerxDigest := []; ds_triggerxDigest := []; ds_updatedAt := at_; ds_source := RPoller; ds_stale := false;
       ds_error := None |}.

(** One device with a known host, as the stream showed it at time 5. *)
Definition one_device : devices :=
  devices_run [(1, Inventory Refresh);
               (2, Inventory (RefreshDone (Ok (VArr [], VObj [("u1", VObj [("host", VStr "10.0.0.2")])]))));
               (5, Monitor (StateReceived (streamed false 5)))] (devices_start "").

(** A state of time 30 arrives while the toggle of time 20 runs; the toggle fails, and the state of time
    5 is shown again. *)
Lemma toggle_round_witness :
  let m1 := fst (devices_step 20 (Operations (Toggle "u1" true)) one_device) in
  let m2 := devices_run [(30, Monitor (StateReceived (streamed true 30)))] m1 in
  let m3 := fst (devices_step 40 (Operations (ToggleDone (Err (ApiError "timeout" (VStr "timeout") VUndef 500)))) m2) in
  (vs_updatedAt <$> jget "u1" (states m2)) = Some (num_of_Z 30) ∧
  (vs_updatedAt <$> jget "u1" (states m3)) = Some (num_of_Z 5) ∧
  (vs_onoff <$> jget "u1" (states m3)) = Some false.
Proof.
  destruct (toggle_round 20 "u1" true one_device [(30, Monitor (StateReceived (streamed true 30)))] eq_refl eq_refl
    ltac:(repeat constructor)) as (_ & _ & _ & Hfail).
  destruct (Hfail 40 (ApiError "timeout" (VStr "timeout") VUndef 500)) as (_ & _ & Hget & _).
  cbv zeta. split; [vm_compute; reflexivity|].
  split; (etransitivity; [exact (f_equal (fmap _) Hget)|vm_compute; reflexivity]).
Defined.

(** ** What is shown while a toggle runs *)

Section Switch.
Context {A : Type} (channel : A → Z) (change : A → A) (new : A).
Hypothesis change_channel : ∀ a, channel (change a) = channel a.

Lemma switch0_cases l :
  (∃ a, a ∈ l ∧ channel a = 0) ∧ switch0 channel change new l = map (λ a, if channel a =? 0 then change a else a) l ∨
  Forall (λ a, channel a ≠ 0) l ∧ switch0 channel change new l = new :: l.
Proof.
  unfold switch0. destruct (existsb _ l) eqn:E; [left|right].
  - apply existsb_exists in E as (a & Ha & E0). apply Z.eqb_eq in E0. split; [|done]. exists a.
    by rewrite list_elem_of_In.
  - split; [|done]. apply Forall_forall. intros a Ha Hz.
    assert (existsb (λ a, channel a =? 0) l = true) as He; [|congruence].
    apply existsb_exists. exists a. split; [by apply list_elem_of_In|by apply Z.eqb_eq].
Qed.

(** The other channels keep their entries, in their order. *)
Lemma switch0_others l : channel new = 0 →
  filter (λ a, channel a ≠ 0) (switch0 channel change new l) = filter (λ a, channel a ≠ 0) l.
Proof.
  intros Hn. destruct (switch0_cases l) as [[_ ->]|[_ ->]]; [|by rewrite filter_cons_False by naive_solver].
  induction l as [|a l IH]; [done|]. rewrite map_cons. destruct (channel a =? 0) eqn:E; bool_hyps.
  - by rewrite !filter_cons_False by (rewrite ?change_channel; lia).
  - rewrite !filter_cons_True by done. by f_equal.
Qed.

(** Every entry of channel 0 is a changed one, and there is one. *)
Lemma switch0_changed l a : channel new = 0 → a ∈ switch0 channel change new l → channel a = 0 →
  a = new ∨ ∃ b, b ∈ l ∧ a = change b.
Proof.
  intros Hn Ha Hz. destruct (switch0_cases l) as [[_ Heq]|[Hl Heq]]; rewrite Heq in Ha.
  - apply list_elem_of_fmap in Ha as (b & -> & Hb). right. exists b. destruct (channel b =? 0) eqn:E; bool_hyps; done.
  - apply elem_of_cons in Ha as [->|Ha]; [by left|]. rewrite Forall_forall in Hl. by destruct (Hl a Ha).
Qed.

Lemma switch0_exists l : channel new = 0 → ∃ a, a ∈ switch0 channel change new l ∧ channel a = 0.
Proof.
  intros Hn. destruct (switch0_cases l) as [[(a & Ha & E0) ->]|[_ ->]]; [|by exists new; split; [left|]].
  exists (change a). rewrite change_channel. split; [|done]. apply list_elem_of_fmap. exists a. by rewrite E0.
Qed.
End Switch.

Lemma light0_Some l : (∃ a, a ∈ l ∧ lc_channel a = 0) → ∃ a, light0 l = Some a ∧ a ∈ l ∧ lc_channel a = 0.
Proof.
  intros (a & Ha & Hz). unfold light0. destruct (js_find _ l) as [b|] eqn:E.
  - apply js_find_Some in E as [Hb E0]. apply Z.eqb_eq in E0. eauto.
  - apply (proj1 (js_find_None _ _)) with (x := a) in E; [|done]. by apply Z.eqb_neq in E.
Qed.

(** A list of lights with the ones of channel 0 switched and no other changed. *)
Definition lights_switched (onoff : bool) (before after : list light_channel) : Prop :=
  filter (λ l, lc_channel l ≠ 0) after = filter (λ l, lc_channel l ≠ 0) before ∧
  Forall (λ l, lc_channel l = 0 → lc_onoff l = onoff) after ∧ Exists (λ l, lc_channel l = 0) after.

Definition channels_switched (onoff : bool) (before after : list LanToggleXState) : Prop :=
  filter (λ c, tx_channel c ≠ 0) after = filter (λ c, tx_channel c ≠ 0) before ∧
  Forall (λ c, tx_channel c = 0 → tx_onoff c = onoff) after ∧ Exists (λ c, tx_channel c = 0) after.

Lemma switch_channel0_switched onoff l : channels_switched onoff l (switch_channel0 onoff l).
Proof.
  unfold channels_switched, switch_channel0. split_and!.
  - by apply switch0_others.
  - apply Forall_forall. intros c Hc Hz. eapply switch0_changed in Hc as [->|(b & _ & ->)]; done.
  - apply Exists_exists. by apply switch0_exists.
Qed.

Lemma switch_lights_switched onoff l new : lc_channel new = 0 →
  lights_switched onoff l (switch0 lc_channel (with_light_onoff onoff) (with_light_onoff onoff new) l).
Proof.
  intros Hn. unfold lights_switched. split_and!.
  - by apply switch0_others.
  - apply Forall_forall. intros c Hc Hz. eapply switch0_changed in Hc as [->|(b & _ & ->)]; done.
  - apply Exists_exists. by apply switch0_exists.
Qed.

(** With a light of channel 0 in the list, what would be put in front of it does not matter. *)
Lemma switch_lights_found onoff l new a : light0 l = Some a →
  switch0 lc_channel (with_light_onoff onoff) new l =
  switch0 lc_channel (with_light_onoff onoff) (with_light_onoff onoff a) l.
Proof.
  intros Ha. unfold light0 in Ha. apply js_find_Some in Ha as [Hin Hz]. unfold switch0.
  assert (existsb (λ a, lc_channel a =? 0) l = true) as ->; [|done].
  apply existsb_exists. exists a. by rewrite <- list_elem_of_In.
Qed.

(** What is shown while a toggle runs is the state before it with channel 0 of the switches as
    wanted, added when there was none, and the other channels untouched, without error and not stale;
    the same for the lights of a device that has any. The exception is a device whose only light is on
    another channel: it is then shown a second time, switched, and the device as having no main light. *)
Theorem optimistic_toggle onoff now host previous :
  let s := optimistic_state onoff now host previous in
  let before := (previous ≫= vs_lights) ?: [] in
  (vs_onoff s = onoff ∧ vs_stale s = false ∧ vs_error s = None ∧ vs_kind s = previous ≫= vs_kind) ∧
  (∃ l, vs_channels s = Some l ∧ channels_switched onoff ((previous ≫= vs_channels) ?: []) l) ∧
  ((vs_lights s = None ∧ vs_light s = None ∧ before = [] ∧ previous ≫= vs_light = None) ∨
   (∃ l a, vs_lights s = Some l ∧ lights_switched onoff before l ∧ vs_light s = Some a ∧ lc_channel a = 0 ∧
           lc_onoff a = onoff) ∨
   (∃ a, previous ≫= vs_light = Some a ∧ lc_channel a ≠ 0 ∧ light0 before = None ∧
         vs_lights s = Some (with_light_onoff onoff a :: before) ∧ vs_light s = None)).
Proof.
  cbn zeta. split; [done|]. split; [by eexists; split; [|apply switch_channel0_switched]|].
  unfold optimistic_state. cbn [vs_lights vs_light]. unfold switch_light0.
  set (before := (previous ≫= vs_lights) ?: []).
  assert (Hsw : ∀ new, lc_channel new = 0 →
    let l := switch0 lc_channel (with_light_onoff onoff) (with_light_onoff onoff new) before in
    lights_switched onoff before l ∧ ∃ a, light0 l = Some a ∧ lc_channel a = 0 ∧ lc_onoff a = onoff).
  { intros new Hn. cbn zeta. pose proof (switch_lights_switched onoff before new Hn) as Hl. split; [done|].
    destruct Hl as (_ & Hall & Hex). apply Exists_exists, light0_Some in Hex as (a & Ha & Hin & Hz).
    exists a. rewrite Forall_forall in Hall. auto. }
  destruct (previous ≫= vs_light) as [a|] eqn:Ea, (light0 before) as [b|] eqn:Eb.
  - right; left. rewrite (switch_lights_found _ _ _ b Eb).
    destruct (Hsw b) as (H1 & c & H2 & H3 & H4); [unfold light0 in Eb; by apply js_find_Some in Eb as [_ ?%Z.eqb_eq]|].
    destruct before; eauto 10.
  - destruct (decide (lc_channel a = 0)) as [Hz|Hz].
    + right; left. destruct (Hsw a Hz) as (H1 & c & H2 & H3 & H4). destruct before; eauto 10.
    + right; right. exists a.
      assert (switch0 lc_channel (with_light_onoff onoff) (with_light_onoff onoff a) before = with_light_onoff onoff a :: before) as Hs.
      { destruct (switch0_cases lc_channel (with_light_onoff onoff) (with_light_onoff onoff a) before) as [[Hex _]|[_ ?]]; [|done].
        apply light0_Some in Hex as (? & ? & _). congruence. }
      cbn [default id]. rewrite Hs. split_and!; try done; destruct before; try done; cbn; unfold light0 in *; cbn;
      (destruct (lc_channel a =? 0) eqn:E; [by apply Z.eqb_eq in E|done]).
  - right; left. rewrite (switch_lights_found _ _ _ b Eb).
    destruct (Hsw b) as (H1 & c & H2 & H3 & H4); [unfold light0 in Eb; by apply js_find_Some in Eb as [_ ?%Z.eqb_eq]|].
    destruct before; eauto 10.
  - destruct before eqn:Ebf; [left; done|]. right; left. cbn [default id].
    edestruct (Hsw {| lc_channel := 0; lc_onoff := (vs_onoff <$> previous) ?: false; lc_luminance := None;
      lc_temperature := None; lc_rgb := None |} eq_refl) as (H1 & c & H2 & H3 & H4). eauto 10.
Qed.

(** ** The tables mirror what the server sent *)

(** The states and the readings that a message carries to the client. *)
Definition states_of (m : sse_message) : list DeviceStateDto :=
  match m with MsgSnapshot l => l | MsgState d | MsgStale d => [d] | _ => [] end.

Definition readings_of (m : sse_message) : list DevicePowerDto :=
  match m with MsgPowerSnapshot l => l | MsgPower p | MsgPowerStale p => [p] | _ => [] end.

(** Those that the client listens to: notices of stale readings are not among them. *)
Definition heard_readings (m : sse_message) : list DevicePowerDto :=
  match m with MsgPowerStale _ => [] | _ => readings_of m end.

(** The last item about a device. *)
Definition last_about {A} (key : A → string) (uuid : string) (l : list A) : option A :=
  last (filter (λ a, key a = uuid) l).

Lemma last_about_app {A} (key : A → string) uuid (l l' : list A) :
  last_about key uuid (l ++ l') = match last_about key uuid l' with Some a => Some a | None => last_about key uuid l end.
Proof. unfold last_about. rewrite filter_app, last_app. done. Qed.

(** A table written in order holds, for each key, the last value written. *)
Lemma fold_last {A V} (key : A → string) (v : A → V) uuid (l : list A) (m : list (string * V)) :
  jget uuid (foldl (λ m a, jset (key a) (v a) m) m l) =
    match last_about key uuid l with Some a => Some (v a) | None => jget uuid m end.
Proof.
  induction l as [|a l IH] using rev_ind; [done|]. rewrite foldl_app, last_about_app. cbn.
  unfold last_about at 1. destruct (decide (key a = uuid)) as [<-|Hne].
  - rewrite filter_cons_True by done. cbn. by rewrite jget_set_eq.
  - rewrite filter_cons_False by done. cbn. by rewrite jget_set_ne.
Qed.

Section Mirror.
Context (localeCompare : string → string → Z).

(** Messages of the source [id], with the time each comes at, through the actor to the machine. *)
Definition relay (id : nat) (st : stream) (m : devices) (ms : list (Z * sse_message)) : devices :=
  foldl (λ m '(now, msg),
    devices_run (map (λ e, (now, Monitor e))
                     (snd (stream_step localeCompare (SourceMessage id (fst (message_event msg)) (message_text msg)) st))) m) m ms.

Lemma relay_one id st m now msg : sendable_text msg →
  let m' := relay id st m [(now, msg)] in
  states m' = foldl (λ t d, jset (ds_uuid d) (kept_state (client_state localeCompare d)) t) (states m) (states_of msg) ∧
  powers m' = foldl (λ t p, jset (dp_uuid p) (client_power p) t) (powers m) (heard_readings msg).
Proof.
  intros [Hw Hj%json_parse_stringify]. cbn -[stream_step message_text]. rewrite relay_events by done. cbn [snd].
  destruct msg; cbn -[client_state client_power]; try done; by rewrite foldl_fmap.
Qed.

Lemma relay_fold id st ms m : Forall sendable_text ms.*2 →
  states (relay id st m ms) =
    foldl (λ t d, jset (ds_uuid d) (kept_state (client_state localeCompare d)) t) (states m) (ms.*2 ≫= states_of) ∧
  powers (relay id st m ms) = foldl (λ t p, jset (dp_uuid p) (client_power p) t) (powers m) (ms.*2 ≫= heard_readings).
Proof.
  revert m. induction ms as [|[now msg] ms IH]; intros m; [done|]. rewrite fmap_cons. intros [Hw Hms]%Forall_cons.
  destruct (relay_one id st m now msg Hw) as [Hs Hp].
  change (relay id st m ((now, msg) :: ms)) with (relay id st (relay id st m [(now, msg)]) ms).
  destruct (IH (relay id st m [(now, msg)]) Hms) as [IHs IHp]. cbn zeta in *. rewrite IHs, IHp, Hs, Hp.
  split; cbn [snd]; rewrite bind_cons, foldl_app; done.
Qed.

(** Where notices follow the messages they repeat, the last reading is one the client listens to. *)
Lemma last_heard uuid l : announced l →
  last_about dp_uuid uuid (l ≫= readings_of) = last_about dp_uuid uuid (l ≫= heard_readings).
Proof.
  induction l as [|n l IH] using rev_ind; [done|]. intros [Ha Hn]%announced_snoc.
  rewrite !bind_app, !last_about_app, (IH Ha). change ([n] ≫= readings_of) with (readings_of n ++ []). change ([n] ≫= heard_readings) with (heard_readings n ++ []).
  rewrite !app_nil_r.
  destruct n as [| | | | | |p|]; try done. cbn [readings_of heard_readings].
  specialize (Hn (MsgPower p) eq_refl). apply last_Some in Hn as [l' ->]. rewrite bind_app, last_about_app. cbn.
  by destruct (last_about dp_uuid uuid [p]).
Qed.

(** C8: the client mirrors the server's messages. After any messages that arrived, the state shown of a
    device is the one the last snapshot, state or stale state about it carried, whatever version it has; a
    device no message was about keeps what was shown before. The reading shown is likewise the last one
    that any message carried, a notice of a stale reading included, provided that notices directly follow
    the messages they repeat, as they do in what the server sends (C2); for the client does not listen
    to these notices, and without this shows the last reading of the messages it listens to. *)
Theorem client_mirrors id st m ms uuid : Forall sendable_text ms.*2 →
  let m' := relay id st m ms in
  jget uuid (states m') =
    match last_about ds_uuid uuid (ms.*2 ≫= states_of) with
    | Some d => Some (kept_state (client_state localeCompare d))
    | None => jget uuid (states m)
    end ∧
  (∀ readings, (readings = heard_readings ∨ readings = readings_of ∧ announced ms.*2) →
   jget uuid (powers m') =
     match last_about dp_uuid uuid (ms.*2 ≫= readings) with
     | Some p => Some (client_power p)
     | None => jget uuid (powers m)
     end).
Proof.
  intros Hms. cbn zeta. destruct (relay_fold id st ms m Hms) as [-> ->]. rewrite !fold_last. split; [done|].
  intros readings [->|[-> Ha]]; [done|]. by rewrite last_heard.
Qed.
End Mirror.

Lemma client_mirrors_witness :
  let at30 := {| ds_uuid := ds_uuid lamp; ds_host := ds_host lamp; ds_kind := KLight; ds_channel := 0; ds_onoff := false;
                 ds_channels := []; ds_lights := []; ds_light := None; ds_timerxDigest := []; ds_triggerxDigest := [];
                 ds_updatedAt := 30; ds_source := RManual; ds_stale := true; ds_error := Some "timeout" |} in
  let stale := {| dp_uuid := "u1"; dp_host := ""; dp_channel := 0; dp_voltageV := None; dp_currentA := None;
                  dp_powerW := None; dp_voltageDv := None; dp_currentMa := None; dp_powerMw := None; dp_updatedAt := 31;
                  dp_source := TPoller; dp_stale := true; dp_error := Some "timeout" |} in
  let ms := [(1, MsgState at30); (2, MsgStale at30); (3, MsgPower stale); (3, MsgPowerStale stale)] in
  let m := relay byte_compare 0 stream_start (devices_start "") ms in
  jget "u1" (states m) = Some (kept_state (client_state byte_compare at30)) ∧
  jget "u1" (powers m) = Some (client_power stale).
Proof.
  intros at30 stale ms m.
  assert (Hs : Forall sendable_text ms.*2).
  { repeat constructor; cbn [fst snd]; try (vm_compute; reflexivity); cbn; try done; lia. }
  assert (Ha : announced ms.*2).
  { change (announced (((([] ++ [MsgState at30]) ++ [MsgStale at30]) ++ [MsgPower stale]) ++ [MsgPowerStale stale])).
    rewrite !announced_snoc. split_and!; try apply announced_nil; intros x Hx; cbn in Hx; try discriminate Hx;
      rewrite last_snoc; exact Hx. }
  destruct (client_mirrors byte_compare 0 stream_start (devices_start "") ms "u1" Hs) as [H1 H2].
  split; [exact H1|]. specialize (H2 readings_of (or_intror (conj eq_refl Ha))).
  assert (E : last_about dp_uuid "u1" (ms.*2 ≫= readings_of) = Some stale) by reflexivity. rewrite E in H2. exact H2.
Defined.

(** ** A scan *)

Definition ends_suggestion (e : devices_event) : bool := match e with Inventory (SuggestDone _) => true | _ => false end.

Lemma suggesting_run es m : dm_inventory m = SuggestingCidr → Forall (λ e, ends_suggestion (snd e) = false) es →
  dm_inventory (devices_run es m) = SuggestingCidr.
Proof.
  intros Hi Hes. revert m Hi. induction Hes as [|[now e] es He Hes IH]; intros m Hi; [done|]. apply IH.
  destruct e as [cidr|uuid| |e|e|e]; cbn; try done.
  - rewrite Hi. by destruct e.
  - by destruct (operations_step now e (dm_operations m) (dm_context m)) as [[s c] cmds].
Qed.

(** A scan probes the block the user has typed by the time it starts. With one typed it starts at
    once; with none a suggestion is asked for first, and once it comes, or fails, the scan starts with
    what the user typed meanwhile, else with the suggestion, else with no block, which leaves the choice
    to the server. *)
Theorem scan_block now m :
  dm_inventory m = InvIdle →
  let '(m1, cmds) := devices_step now (Inventory ScanHosts) m in
  (trim (dc_cidr (dm_context m)) ≠ "" ∧ dm_inventory m1 = DiscoveringHosts ∧
   cmds = [InvokeDiscover (dc_cidr (dm_context m))]) ∨
  (trim (dc_cidr (dm_context m)) = "" ∧ dm_inventory m1 = SuggestingCidr ∧ cmds = [InvokeSuggest] ∧
   ∀ es now' r, Forall (λ e, ends_suggestion (snd e) = false) es →
     let m2 := devices_run es m1 in
     let typed := dc_cidr (dm_context m2) in
     let block := if str_truthy (trim typed) then typed
                  else match r with Ok out => str_or_empty (prop "default" out) | Err _ => typed end in
     let '(m3, cmds) := devices_step now' (Inventory (SuggestDone r)) m2 in
     dm_inventory m3 = DiscoveringHosts ∧ dc_cidr (dm_context m3) = block ∧ cmds = [InvokeDiscover block]).
Proof.
  intros Hi. cbn. rewrite Hi. cbn. unfold needsCidrSuggest. destruct (str_truthy (trim (dc_cidr (dm_context m)))) eqn:E; cbn.
  - left. split; [by apply str_truthy_spec|done].
  - right. split; [by apply str_truthy_false|]. split_and!; [done..|]. intros es now' r Hes. cbn zeta.
    set (m1 := m <| dm_inventory := SuggestingCidr |> <| dm_context := _ |>).
    rewrite (suggesting_run es m1 eq_refl Hes). cbn. unfold setCidrIfEmpty.
    destruct r as [out|e]; cbn; destruct (str_truthy (trim (dc_cidr (dm_context (devices_run es m1))))); done.
Qed.

Lemma scan_block_witness :
  let m1 := fst (devices_step 1 (Inventory ScanHosts) (devices_start " ")) in
  let '(m3, cmds) := devices_step 3 (Inventory (SuggestDone (Ok (VObj [("default", VStr "10.0.0.0/24")])))) m1 in
  cmds = [InvokeDiscover "10.0.0.0/24"].
Proof.
  destruct (scan_block 1 (devices_start " ") eq_refl) as [[Hne _]|(_ & _ & _ & H)].
  - vm_compute in Hne. done.
  - destruct (H [] 3 (Ok (VObj [("default", VStr "10.0.0.0/24")])) ltac:(constructor)) as (_ & _ & Hc). exact Hc.
Defined.
