(* ===== verification/Cli.v ===== *)
(** * The command line

    The commands of packages/cli/src/meross.ts over the effects of the server's runtime. A command
    returns what it prints on its way out; what it throws ends it. The numbers of the command line come
    as the parser of the flags gives them, channels as integers. [process.env.MEROSS_DEBUG_AUTH], which
    only turns logging on, is left out. *)

From S2P Require Export Server Handlers.

Local Open Scope string_scope.
Local Open Scope Z_scope.
Local Open Scope list_scope.

(** ** Output *)

(** [console.log] of a text, of [JSON.stringify(v)] and of [JSON.stringify(v, null, 2)]. *)
Inductive printed : Type :=
| PText (s : string)
| PJson (v : val)
| PPretty (v : val).

(** ** The table of devices *)

Record device_row := { rw_name : string; rw_type : string; rw_online : string; rw_uuid : string }.

Definition row_of_device (d : val) : device_row :=
  {| rw_name := str_or_empty (prop "devName" d); rw_type := str_or_empty (prop "deviceType" d);
     rw_online := str_or_empty (prop "onlineStatus" d); rw_uuid := str_or_empty (prop "uuid" d) |}.

Definition header_row : device_row := {| rw_name := "NAME"; rw_type := "TYPE"; rw_online := "ONLINE"; rw_uuid := "UUID" |}.

(** [Math.max(header.length, ...rows.map((r) => r.x.length))] *)
Definition column_width (field : device_row → string) (rows : list device_row) : nat :=
  foldl Nat.max (String.length (field header_row)) (map (λ r, String.length (field r)) rows).

Record widths := { wd_name : nat; wd_type : nat; wd_online : nat; wd_uuid : nat }.

Definition table_widths (rows : list device_row) : widths :=
  {| wd_name := Nat.min 36 (column_width rw_name rows); wd_type := Nat.min 12 (column_width rw_type rows);
     wd_online := Nat.min 10 (column_width rw_online rows); wd_uuid := column_width rw_uuid rows |}.

(** [s.length >= w ? s.slice(0, w) : s + ' '.repeat(w - s.length)] *)
Definition pad_to (s : string) (w : nat) : string :=
  if (w <=? String.length s)%nat then str_take w s else s +:+ str_repeat " " (w - String.length s).

Definition table_line (cell : string → nat → string) (w : widths) (r : device_row) : string :=
  cell (rw_name r) (wd_name w) +:+ "  " +:+ cell (rw_type r) (wd_type w) +:+ "  " +:+
  cell (rw_online r) (wd_online w) +:+ "  " +:+ cell (rw_uuid r) (wd_uuid w).

Definition printDevicesTable (dump : val) : list string :=
  let rows := map row_of_device (arr_items (prop "devices" dump)) in
  let w := table_widths rows in
  table_line pad_to w header_row :: table_line (λ _ n, str_repeat "-" n) w header_row :: map (table_line pad_to w) rows.

(** ** Shared steps *)

Section Cli.
Context {St R : Type} `{Runtime}.
(** The identifier the cloud module draws when it is loaded. *)
Variable LOG_IDENTIFIER : string.
Abbreviation M := (prog St R sysE).

Definition defaultDumpPath : M string :=
  let! home := sys HomeDir in Ret (home +:+ "/.config/merossity/meross-cloud-dump.json").

Definition loadMerossCloudDumpFile (path : string) : M val :=
  let! text := sys_try (ReadText path) in of_result (parseMerossCloudDump text).

(** [a ?? process.env.X ?? ...]: unlike [||], an empty text counts. *)
Definition flag_or_env (flag : option string) (name : string) : M (option string) :=
  match flag with Some s => Ret (Some s) | None => sys (GetEnv name) end.

Definition loadDumpMaybe (dumpPath : option string) : M (option val) :=
  let! given := flag_or_env dumpPath "MEROSS_DUMP" in
  let! candidate := match given with Some p => Ret p | None => defaultDumpPath end in
  catch (let! dump := loadMerossCloudDumpFile candidate in Ret (Some dump)) (λ _, Ret None).

Definition pickKey (explicitKey : option string) (dump : option val) : M (option string) :=
  let! given := flag_or_env explicitKey "MEROSS_KEY" in
  Ret (match given with Some k => Some k | None => dump ≫= λ d, as_str (prop "key" (prop "cloud" d)) end).

Definition missing_key : exn :=
  JsError ("Missing Meross key. Pass " +:+ quote +:+ "--key" +:+ quote +:+
           " or set MEROSS_KEY (or provide --dump with a cloud.key).").

(** The key of a LAN command. *)
Definition lan_key (key dump : option string) : M string :=
  let! dump := loadDumpMaybe dump in
  let! key := pickKey key dump in
  match key ≫= nonempty with Some k => Ret k | None => Throw missing_key end.

Record host_args := {
  ha_host : option string; ha_mac : option string; ha_sweep : bool; ha_subnet : option string;
  ha_sweepTimeoutMs : option num; ha_sweepConcurrency : option num }.

Definition resolveHostArgs (args : host_args) : M (option string) :=
  match ha_host args ≫= nonempty with
  | Some host => Ret (Some host)
  | None =>
      match ha_mac args ≫= nonempty with
      | None => Ret None
      | Some mac =>
          let! ip := resolveIpv4FromMac mac in
          match ip ≫= nonempty with
          | Some ip => Ret (Some ip)
          | None =>
              match (if ha_sweep args then ha_subnet args ≫= nonempty else None) with
              | None => Ret None
              | Some subnet =>
                  pingSweep subnet (Some (ha_sweepTimeoutMs args ?: num_of_Z 200))
                    (Some (ha_sweepConcurrency args ?: num_of_Z 64)) ;;!
                  resolveIpv4FromMac mac
              end
          end
      end
  end.

(** [Number.isFinite(flags.timeoutMs) ? Number(flags.timeoutMs) : undefined] *)
Definition finite_flag (n : num) : option num := if is_finite n then Some n else None.

(** [/^[0-9]{6}$/] *)
Definition six_digits (s : string) : bool := Nat.eqb (String.length s) 6 && str_all is_digit s.

Definition bad_flag (name expected : string) : exn :=
  JsError ("Invalid " +:+ quote +:+ name +:+ quote +:+ ". Expected " +:+ expected +:+ ".").

Definition scheme_ok (scheme : string) : bool := String.eqb scheme "https" || String.eqb scheme "http".

(** The first and the last four characters of the key. *)
Definition key_preview (key : string) : string := str_take 4 key +:+ ellipsis +:+ str_last 4 key.

(** The credentials into the configuration as it is now. *)
Definition store_creds (creds : MerossCloudCredentials) : M unit :=
  let! cfg := readConfig in
  let! at_ := nowIso in
  writeConfig (with_cloud creds at_ cfg).

(** ** meross:auth-debug *)

Record auth_debug_flags := {
  ad_email : string; ad_password : string; ad_mfaToken : string; ad_domain : option string; ad_scheme : string;
  ad_timeoutMs : num; ad_tryAll : bool; ad_writeConfig : bool }.

Definition guessRegion (tz : string) : string :=
  if starts_with "America/" tz then "us"
  else if starts_with "Europe/" tz then "eu"
  else if starts_with "Asia/" tz || starts_with "Australia/" tz || starts_with "Pacific/" tz then "ap"
  else "global".

Definition REGION_DOMAINS : list (string * string) :=
  [("global", "iotx.meross.com"); ("us", "iotx-us.meross.com"); ("eu", "iotx-eu.meross.com"); ("ap", "iotx-ap.meross.com")].

Definition debug_candidates (domain : option string) (tz : string) : list string :=
  match domain ≫= nonempty with
  | Some d => [d]
  | None => js_dedup (omap (λ k, jget k REGION_DOMAINS ≫= nonempty) [guessRegion tz; "us"; "eu"; "ap"; "global"])
  end.

Inductive login_outcome : Type :=
| Accepted (creds : MerossCloudCredentials)
| Refused (e : exn).

(** One entry of [results]. *)
Record login_result := { lr_domain : string; lr_elapsedMs : Z; lr_outcome : login_outcome }.

Definition login_result_val (r : login_result) : val :=
  let entry ok rest := mk_obj ([("domain", VStr (lr_domain r)); ("ok", VBool ok); ("elapsedMs", VZ (lr_elapsedMs r))] ++ rest) in
  match lr_outcome r with
  | Accepted creds =>
      entry true [("userEmail", VStr (cc_userEmail creds)); ("userId", VStr (cc_userId creds));
                  ("keyPreview", VStr (if str_truthy (cc_key creds) then key_preview (cc_key creds) else ""))]
  | Refused (CloudError m apiStatus info) =>
      entry false [("apiStatus", opt_val VNum apiStatus); ("info", info); ("error", VStr m)]
  | Refused e => entry false [("error", VStr (exn_message e))]
  end.

Definition debug_login (email password mfa scheme : string) (timeoutMs : num) (domain : string) : M login_outcome :=
  catch (let! creds := merossCloudLogin LOG_IDENTIFIER {| lp_email := email; lp_password := password; lp_mfaCode := Some mfa |}
                         {| cl_domain := Some domain; cl_scheme := Some scheme; cl_timeoutMs := finite_flag timeoutMs |} in
         Ret (Accepted creds))
        (λ e, Ret (Refused e)).

(** The domains in turn, up to the first that accepts unless all are to be tried. *)
Fixpoint try_domains (login : string → M login_outcome) (tryAll : bool) (domains : list string) : M (list login_result) :=
  match domains with
  | [] => Ret []
  | domain :: rest =>
      let! startedAt := sys Now in
      let! outcome := login domain in
      let! endedAt := sys Now in
      let r := {| lr_domain := domain; lr_elapsedMs := endedAt - startedAt; lr_outcome := outcome |} in
      match outcome with
      | Accepted _ => if tryAll then let! more := try_domains login tryAll rest in Ret (r :: more) else Ret [r]
      | Refused _ => let! more := try_domains login tryAll rest in Ret (r :: more)
      end
  end.

(** [success]: the last domain that accepted wins. *)
Definition last_success (results : list login_result) : option MerossCloudCredentials :=
  last (omap (λ r, match lr_outcome r with Accepted c => Some c | Refused _ => None end) results).

Definition auth_debug_report (tz : string) (candidates : list string) (results : list login_result) : val :=
  VObj [("timezone", VStr tz); ("candidates", VArr (map VStr candidates)); ("results", VArr (map login_result_val results));
        ("success", null_val (λ c, VObj [("userEmail", VStr (cc_userEmail c)); ("domain", VStr (cc_domain c));
                                         ("keyPreview", VStr (key_preview (cc_key c)))]) (last_success results))].

(** The report, and whether the exit code says failure. *)
Definition auth_debug (flags : auth_debug_flags) : M (list printed * bool) :=
  let mfa := trim (ad_mfaToken flags) in
  if negb (six_digits mfa) then Throw (bad_flag "--mfaToken" "6 digits")
  else if negb (scheme_ok (ad_scheme flags)) then
    Throw (bad_flag "--scheme" (quote +:+ "https" +:+ quote +:+ " or " +:+ quote +:+ "http" +:+ quote))
  else
    let! tz := sys TimeZone in
    let candidates := debug_candidates (ad_domain flags) tz in
    let! results := try_domains (debug_login (trim (ad_email flags)) (ad_password flags) mfa (ad_scheme flags)
                                   (ad_timeoutMs flags)) (ad_tryAll flags) candidates in
    (match last_success results with
     | Some creds => if ad_writeConfig flags then store_creds creds else Ret tt
     | None => Ret tt
     end) ;;!
    Ret ([PPretty (auth_debug_report tz candidates results)],
         match last_success results with Some _ => false | None => true end).

(** ** meross:login *)

Record login_flags := {
  lf_email : string; lf_password : string; lf_totp : string; lf_domain : option string; lf_scheme : string;
  lf_timeoutMs : num }.

Definition cli_login (flags : login_flags) : M (list printed) :=
  let totp := trim (lf_totp flags) in
  if negb (six_digits totp) then Throw (bad_flag "--totp" "6 digits")
  else if negb (scheme_ok (lf_scheme flags)) then
    Throw (bad_flag "--scheme" (quote +:+ "https" +:+ quote +:+ " or " +:+ quote +:+ "http" +:+ quote))
  else
    let! creds := merossCloudLogin LOG_IDENTIFIER
      {| lp_email := lf_email flags; lp_password := lf_password flags; lp_mfaCode := Some totp |}
      {| cl_domain := lf_domain flags ≫= nonempty; cl_scheme := Some (lf_scheme flags);
         cl_timeoutMs := finite_flag (lf_timeoutMs flags) |} in
    store_creds creds ;;!
    Ret [PJson (VObj [("userEmail", VStr (cc_userEmail creds)); ("domain", VStr (cc_domain creds));
                      ("key", VStr (if str_truthy (cc_key creds) then key_preview (cc_key creds) else ""))])].

(** ** meross:devices:refresh *)

Definition devices_refresh (timeoutMs : num) (json : bool) : M (list printed) :=
  let! cfg := readConfig in
  match cf_cloud cfg with
  | None => Throw (JsError "Not logged in. Run meross:login first.")
  | Some (creds, _) =>
      let! list := merossCloudListDevices creds (finite_flag timeoutMs) in
      let! at_ := nowIso in
      writeConfig (with_devices at_ list cfg) ;;!
      Ret [if json then PPretty (VArr list) else PJson (VObj [("count", VZ (Z.of_nat (length list)))])]
  end.

(** ** meross:hosts:discover *)

Record discover_flags := { df_cidr : option string; df_timeoutMs : num; df_concurrency : num; df_json : bool }.

(** [cfg.cloud?.key || process.env.MEROSS_KEY] *)
Definition configured_key (cfg : MerossConfig) : M (option string) :=
  match (match cf_cloud cfg with Some (c, _) => nonempty (cc_key c) | None => None end) with
  | Some key => Ret (Some key)
  | None => let! env := sys (GetEnv "MEROSS_KEY") in
            Ret (match env with Some k => nonempty k | None => None end)
  end.

Definition hosts_discover (flags : discover_flags) : M (list printed) :=
  let! cfg := readConfig in
  let! key := configured_key cfg in
  match key with
  | None => Throw (JsError "Missing Meross key. Run meross:login (or set MEROSS_KEY).")
  | Some key =>
      let! cidr := default_cidr (trim (df_cidr flags ?: "")) in
      if negb (str_truthy cidr) then
        Throw (JsError ("Missing CIDR and no auto-suggested CIDR found. Pass " +:+ quote +:+ "--cidr <x.x.x.x/yy>" +:+ quote +:+ "."))
      else
        warm_up cidr ;;!
        match listHostsInCidr cidr with
        | Err _ => Throw (JsError ("Invalid CIDR: " +:+ cidr))
        | Ok ips =>
            let! workers := of_result (array_length (num_max (num_of_Z 1) (floor_num (df_concurrency flags)))) in
            let! found := scan_all {| sc_ips := ips; sc_workers := workers; sc_key := key;
                                      sc_timeoutMs := num_max (num_of_Z 200) (df_timeoutMs flags) |} in
            writeConfig (with_hosts (jspread (hosts_of cfg) found) cfg) ;;!
            Ret [if df_json flags then PPretty (VObj [("cidr", VStr cidr); ("hosts", hosts_val found)])
                 else PJson (VObj [("cidr", VStr cidr); ("count", VZ (Z.of_nat (length found)))])]
        end
  end.

(** ** meross:devices *)

Definition cli_devices (dump : option string) (json : bool) : M (list printed) :=
  let! path := match dump ≫= nonempty with Some p => Ret p | None => env_or "MEROSS_DUMP" defaultDumpPath end in
  let! dump := loadMerossCloudDumpFile path in
  Ret (if json then [PPretty dump] else map PText (printDevicesTable dump)).

(** ** LAN commands *)

Record togglex_flags := {
  tf_args : host_args; tf_channel : Z; tf_on : bool; tf_off : bool; tf_key : option string; tf_dump : option string;
  tf_timeoutMs : num; tf_json : bool }.

Definition cli_togglex (flags : togglex_flags) : M (list printed) :=
  if Bool.eqb (tf_on flags) (tf_off flags) then
    Throw (JsError ("Specify exactly one of " +:+ quote +:+ "--on" +:+ quote +:+ " or " +:+ quote +:+ "--off" +:+ quote +:+ "."))
  else
    let! key := lan_key (tf_key flags) (tf_dump flags) in
    let! host := resolveHostArgs (tf_args flags) in
    match host ≫= nonempty with
    | None => Throw (JsError ("Provide " +:+ quote +:+ "--host" +:+ quote +:+ " or " +:+ quote +:+ "--mac" +:+ quote +:+
                              " (and optionally " +:+ quote +:+ "--sweep --subnet <cidr>" +:+ quote +:+ ")."))
    | Some host =>
        let! resp := setToggleX {| lt_host := host; lt_key := key; lt_timeoutMs := Some (tf_timeoutMs flags) |}
                       (tf_channel flags) (tf_on flags) in
        Ret [if tf_json flags then PPretty resp
             else PJson (mk_obj [("host", VStr host); ("channel", VZ (tf_channel flags)); ("onoff", bit_val (tf_on flags));
                                 ("error_code", path ["payload"; "error"; "code"] resp)])]
    end.

Record lan_flags := {
  la_host : string; la_key : option string; la_dump : option string; la_timeoutMs : num; la_format : string }.

(** Key, format, request and print: the shape of the remaining commands. *)
Definition lan_command (flags : lan_flags) (request : lan_target → M val) : M (list printed) :=
  let! key := lan_key (la_key flags) (la_dump flags) in
  if negb (String.eqb (la_format flags) "json" || String.eqb (la_format flags) "pretty") then
    Throw (bad_flag "--format" (quote +:+ "json" +:+ quote +:+ " or " +:+ quote +:+ "pretty" +:+ quote))
  else
    let! resp := request {| lt_host := la_host flags; lt_key := key; lt_timeoutMs := Some (la_timeoutMs flags) |} in
    Ret [if String.eqb (la_format flags) "json" then PJson resp else PPretty resp].

Definition cli_systemall (flags : lan_flags) : M (list printed) := lan_command flags getSystemAll.

Definition cli_timerx_get (flags : lan_flags) (id : string) : M (list printed) :=
  lan_command flags (λ t, getTimerX t id).

(** [timer && typeof timer === 'object' && !Array.isArray(timer)] with a non-empty id. *)
Definition timer_ok (timer : val) : bool :=
  is_object timer && negb (is_array timer) && str_truthy (trim (str_or_empty (prop "id" timer))).

Definition cli_timerx_set (flags : lan_flags) (timer : string) : M (list printed) :=
  lan_command flags (λ t,
    match json_parse timer with
    | None => Throw (JsError "Invalid --timer JSON")
    | Some timer =>
        if timer_ok timer then setTimerX t timer
        else Throw (JsError ("Invalid --timer payload (expected an object with a non-empty " +:+ quote +:+ "id" +:+ quote +:+ ")"))
    end).
End Cli.
