(* ===== verification/CliSpec.v ===== *)
(** * The command line: what the commands do

    Theorems on Cli.v: the table of devices is aligned, the sign-in across regions stops, reports and
    stores as its flags say, and the switch command sends one message at most. *)

From S2P Require Export Cli HandlersSpec.

Local Open Scope string_scope.
Local Open Scope Z_scope.
Local Open Scope list_scope.

(** ** The table *)

Lemma length_take s n : (n <= String.length s)%nat → String.length (str_take n s) = n.
Proof. revert n. induction s as [|c s IH]; intros [|n]; cbn; intros; try lia. by rewrite IH by lia. Qed.

Lemma length_pad s w : String.length (pad_to s w) = w.
Proof.
  unfold pad_to. destruct (w <=? String.length s)%nat eqn:E.
  - apply Nat.leb_le in E. by apply length_take.
  - apply Nat.leb_gt in E. rewrite length_app_str, length_repeat_char. lia.
Qed.

(** A cell that fits is shown in full. *)
Lemma pad_fits s w : (String.length s <= w)%nat → pad_to s w = s +:+ str_repeat " " (w - String.length s).
Proof.
  intros Hs. unfold pad_to. destruct (w <=? String.length s)%nat eqn:E; [|done]. apply Nat.leb_le in E.
  assert (w = String.length s) as -> by lia. by rewrite take_all, Nat.sub_diag, app_empty.
Qed.

Lemma foldl_max_le (n : nat) l : (n <= foldl Nat.max n l)%nat ∧ ∀ x, x ∈ l → (x <= foldl Nat.max n l)%nat.
Proof.
  revert n. induction l as [|y l IH]; intros n; cbn; [split; [done|by intros ? ?%elem_of_nil]|].
  destruct (IH (Nat.max n y)) as [H1 H2]. split; [lia|]. intros x [->|Hx]%elem_of_cons; [lia|by apply H2].
Qed.

Lemma column_fits field rows r : r ∈ rows → (String.length (field r) <= column_width field rows)%nat.
Proof.
  intros Hr. unfold column_width. apply foldl_max_le. apply list_elem_of_fmap. by exists r.
Qed.

Lemma table_line_length cell w r : (∀ s n, String.length (cell s n) = n) →
  String.length (table_line cell w r) = (wd_name w + wd_type w + wd_online w + wd_uuid w + 6)%nat.
Proof. intros Hc. unfold table_line. rewrite !length_app_str, !Hc. cbn [String.length]. lia. Qed.

(** The table of devices has a heading, a rule and a line for each device, all of the same length;
    names, types and states are cut to at most 36, 12 and 10 characters, and the line of a device ends
    with its whole uuid and spaces. *)
Theorem printDevicesTable_aligned dump :
  let rows := map row_of_device (arr_items (prop "devices" dump)) in
  let w := table_widths rows in
  let lines := printDevicesTable dump in
  length lines = (2 + length rows)%nat ∧
  (∀ l, l ∈ lines → String.length l = (wd_name w + wd_type w + wd_online w + wd_uuid w + 6)%nat) ∧
  (wd_name w <= 36)%nat ∧ (wd_type w <= 12)%nat ∧ (wd_online w <= 10)%nat ∧
  ∀ i r, rows !! i = Some r → ∃ front spaces,
    lines !! (2 + i)%nat = Some (front +:+ "  " +:+ rw_uuid r +:+ str_repeat " " spaces).
Proof.
  intros rows w lines. unfold lines, printDevicesTable. fold rows. fold w. split_and!.
  - cbn. by rewrite length_map.
  - intros l [->|[->|(r & -> & _)%list_elem_of_fmap]%elem_of_cons]%elem_of_cons; apply table_line_length;
      intros; apply length_pad || apply length_repeat_char.
  - apply Nat.le_min_l.
  - apply Nat.le_min_l.
  - apply Nat.le_min_l.
  - intros i r Hr. assert (Hi : (table_line pad_to w <$> rows) !! i = Some (table_line pad_to w r)) by (by rewrite list_lookup_fmap, Hr).
    unfold table_line in Hi at 2.
    rewrite (pad_fits (rw_uuid r)) in Hi by (apply column_fits; by eapply list_elem_of_lookup_2).
    exists (pad_to (rw_name r) (wd_name w) +:+ "  " +:+ pad_to (rw_type r) (wd_type w) +:+ "  " +:+
            pad_to (rw_online r) (wd_online w)), (wd_uuid w - String.length (rw_uuid r))%nat.
    refine (eq_trans Hi _). by rewrite !app_assoc_str.
Qed.

(** ** Signing in across regions *)

Definition is_accepted (o : login_outcome) : bool := match o with Accepted _ => true | Refused _ => false end.

(** Whether the loop may have ended with these results, [rest] being the domains not tried. *)
Definition search_ended (tryAll : bool) (results : list login_result) (rest : list string) : Prop :=
  if tryAll then rest = []
  else Forall (λ x, is_accepted (lr_outcome x) = false) (removelast results) ∧
       (rest ≠ [] → ∃ x, last results = Some x ∧ is_accepted (lr_outcome x) = true).

Section Debug.
Context {St R : Type} `{Runtime}.
Abbreviation M := (prog St R sysE).

(** An attempt at a domain: the clock before and after it, and the sign-in between. *)
Definition sign_in_outcome (p : M MerossCloudCredentials) (tr : list sys_event) (o : login_outcome) : Prop :=
  match o with Accepted creds => runs p tr (Ok creds) | Refused e => runs p tr (Err e) end.

Definition attempt_at (sign_in : string → M MerossCloudCredentials) (x : login_result) (tr : list sys_event) : Prop :=
  ∃ startedAt endedAt t, tr = Ev Now startedAt :: t ++ [Ev Now endedAt] ∧
    sign_in_outcome (sign_in (lr_domain x)) t (lr_outcome x) ∧ lr_elapsedMs x = endedAt - startedAt.

Lemma debug_login_runs log email password mfa scheme ms d tr r :
  runs (debug_login log email password mfa scheme ms d : M _) tr r →
  ∃ o, r = Ok o ∧
    sign_in_outcome (merossCloudLogin log {| lp_email := email; lp_password := password; lp_mfaCode := Some mfa |}
                       {| cl_domain := Some d; cl_scheme := Some scheme; cl_timeoutMs := finite_flag ms |}) tr o.
Proof.
  unfold debug_login. intros [(o & Hr & ->)|(t1 & t2 & e & -> & Hr & [-> ->])]%runs_catch.
  - apply runs_bind in Hr as [(t1 & t2 & creds & -> & Hr & [-> [= ->]])|(e & _ & [=])]. rewrite app_nil_r. by exists (Accepted creds).
  - rewrite app_nil_r. exists (Refused e). split; [done|].
    apply runs_bind in Hr as [(t3 & t4 & creds & _ & _ & [_ [=]])|(e' & Hr & [= <-])]. exact Hr.
Qed.

Lemma runs_now {A} (f : Z → M A) tr r : runs (bind (sys Now) f) tr r →
  ∃ at_ tr', tr = Ev Now at_ :: tr' ∧ runs (f at_) tr' r.
Proof. intros (at_ & tr' & -> & Hr). eauto. Qed.

(** The loop over the domains: what it calls is one attempt after the other. *)
Lemma try_domains_runs (login : string → M login_outcome) sign_in tryAll domains tr r :
  (∀ d t r', runs (login d) t r' → ∃ o, r' = Ok o ∧ sign_in_outcome (sign_in d) t o) →
  runs (try_domains login tryAll domains) tr r →
  ∃ results rest attempts, r = Ok results ∧ domains = map lr_domain results ++ rest ∧ search_ended tryAll results rest ∧
    tr = concat attempts ∧ Forall2 (attempt_at sign_in) results attempts.
Proof.
  intros Hlogin. revert tr r. induction domains as [|d domains IH]; intros tr r Hr.
  { destruct Hr as [-> ->]. exists [], [], []. split_and!; [done|done| |done|constructor].
    destruct tryAll; [done|]. by split. }
  cbn [try_domains] in Hr. apply runs_now in Hr as (t0 & tr' & -> & Hr).
  apply runs_bind in Hr as [(t1 & t2 & o & -> & Ho & Hr)|(e & He & ->)]; [|by destruct (Hlogin _ _ _ He) as (? & [=] & _)].
  destruct (Hlogin _ _ _ Ho) as (? & [= <-] & Hout).
  apply runs_now in Hr as (t3 & t4 & -> & Hr).
  set (x := {| lr_domain := d; lr_elapsedMs := t3 - t0; lr_outcome := o |}) in Hr.
  set (t := Ev Now t0 :: t1 ++ [Ev Now t3]).
  assert (Hx : attempt_at sign_in x t) by (by exists t0, t3, t1).
  assert (Htr : Ev Now t0 :: t1 ++ Ev Now t3 :: t4 = t ++ t4) by (unfold t; cbn; by rewrite <- app_assoc). rewrite Htr.
  assert (Hmore : (is_accepted o && negb tryAll = false) → runs (let! more := try_domains login tryAll domains in Ret (x :: more)) t4 r →
    ∃ results rest attempts, r = Ok results ∧ d :: domains = map lr_domain results ++ rest ∧ search_ended tryAll results rest ∧
      t ++ t4 = concat attempts ∧ Forall2 (attempt_at sign_in) results attempts).
  { intros Hgo [(t5 & t6 & more & -> & Hm & [-> ->])|(e & He & ->)]%runs_bind;
      [|by destruct (IH _ _ He) as (? & ? & ? & [=] & _)].
    destruct (IH _ _ Hm) as (results & rest & attempts & [= ->] & -> & Hend & -> & Hall). exists (x :: results), rest, (t :: attempts).
    split_and!; [done|done| |by rewrite app_nil_r|by constructor].
    destruct tryAll; [done|]. destruct Hend as [H1 H2]. rewrite andb_true_r in Hgo.
    destruct results as [|y results]; split; try done; [|by constructor].
    intros Hrest. by destruct (H2 Hrest) as (? & ? & _). }
  destruct o as [creds|e]; [|by apply Hmore]. destruct tryAll; [by apply Hmore|].
  destruct Hr as [-> ->]. exists [x], domains, [t]. split_and!; [done|done|split; [done|eauto]|done|by repeat constructor].
Qed.

Lemma unsaved_login log params options : calls unsaved (merossCloudLogin log params options : M _).
Proof.
  eapply calls_mono; [|apply unread_login]. by intros ev (_ & _ & ?).
Qed.
End Debug.

Section Store.
Context {St R : Type} `{Runtime}.
Abbreviation M := (prog St R sysE).

Lemma store_creds_runs creds tr r : runs (store_creds creds : M _) tr r →
  ∃ cfg at_, config_read tr cfg ∧ saved tr = [with_cloud creds at_ cfg] ∧ (r = Ok tt ∨ ∃ e, r = Err e).
Proof.
  intros [(t1 & t2 & cfg & -> & Hc & Hr)|(e & Hc & ->)]%runs_bind.
  2:{ by destruct (readConfig_runs _ _ Hc) as (_ & _ & ? & ? & _). }
  destruct (readConfig_runs _ _ Hc) as (_ & Hs & cfg' & [= <-] & Hread).
  apply runs_bind in Hr as [(t3 & t4 & at_ & -> & Ha & Hr)|(e & (? & ? & _ & _ & [=]) & _)].
  apply (unsaved_runs _ _ _ (silent_unsaved _ quiet_nowIso)) in Ha. destruct (writeConfig_runs _ _ _ Hr) as [Hw _].
  exists cfg, at_. rewrite !saved_app, Hs, Ha, Hw. split_and!; [by apply config_read_app; left|done|].
  destruct r as [[]|]; eauto.
Qed.

Lemma unsaved_try_domains (login : string → M login_outcome) tryAll domains :
  (∀ d, calls unsaved (login d)) → calls unsaved (try_domains login tryAll domains).
Proof.
  intros Hl. assert (Hnow : calls unsaved (sys Now : M _)) by (by apply calls_sys).
  induction domains as [|d domains IH]; [constructor|]. cbn [try_domains].
  apply calls_bind; [done|]. intros t0. apply calls_bind; [done|]. intros o. apply calls_bind; [done|]. intros t1.
  assert (Hmore : ∀ x, calls unsaved (let! more := try_domains login tryAll domains in Ret (x :: more) : M _)).
  { intros x. apply calls_bind; [done|]. intros. constructor. }
  destruct o; [destruct tryAll; [apply Hmore|constructor]|apply Hmore].
Qed.

Lemma unsaved_debug_login log email password mfa scheme ms d :
  calls unsaved (debug_login log email password mfa scheme ms d : M _).
Proof.
  apply calls_catch; [|intros; constructor]. apply calls_bind; [apply unsaved_login|]. intros. constructor.
Qed.

(** The domains of the flags or of the regions. *)
Lemma debug_candidates_spec domain tz :
  match domain ≫= nonempty with
  | Some d => debug_candidates domain tz = [d]
  | None =>
      NoDup (debug_candidates domain tz) ∧
      debug_candidates domain tz ≡ₚ ["iotx-us.meross.com"; "iotx-eu.meross.com"; "iotx-ap.meross.com"; "iotx.meross.com"] ∧
      head (debug_candidates domain tz) = Some (
        if starts_with "America/" tz then "iotx-us.meross.com"
        else if starts_with "Europe/" tz then "iotx-eu.meross.com"
        else if starts_with "Asia/" tz || starts_with "Australia/" tz || starts_with "Pacific/" tz then "iotx-ap.meross.com"
        else "iotx.meross.com")
  end.
Proof.
  unfold debug_candidates. destruct (domain ≫= nonempty) as [d|]; [done|]. split; [apply js_dedup_NoDup|]. unfold guessRegion.
  destruct (starts_with "America/" tz); [|destruct (starts_with "Europe/" tz); [|destruct (_ || _ || _)]];
    (split; [|by vm_compute]); apply NoDup_Permutation; try apply js_dedup_NoDup; try (apply (bool_decide_unpack _); by vm_compute);
    intros x; rewrite elem_of_js_dedup; cbn; set_solver.
Qed.

(** The sign-in that wins: the last one that was accepted. *)
Definition winner (results : list login_result) (success : option MerossCloudCredentials) : Prop :=
  match success with
  | Some creds => ∃ before x after, results = before ++ x :: after ∧ lr_outcome x = Accepted creds ∧
                    Forall (λ y, is_accepted (lr_outcome y) = false) after
  | None => Forall (λ y, is_accepted (lr_outcome y) = false) results
  end.

Lemma last_success_winner results : winner results (last_success results).
Proof.
  unfold last_success. induction results as [|x results IH] using rev_ind; [constructor|]. rewrite omap_app, last_app. cbn.
  destruct (lr_outcome x) as [creds|e] eqn:E; cbn.
  - exists results, x, []. split_and!; [done..|constructor].
  - assert (Hx : Forall (λ y, is_accepted (lr_outcome y) = false) [x]) by (constructor; [by rewrite E|constructor]).
    destruct (last _) as [creds|]; cbn in IH |- *; [|by apply Forall_app_2].
    destruct IH as (before & y & after & -> & Hy & Hafter). exists before, y, (after ++ [x]).
    split_and!; [by rewrite <- app_assoc|done|by apply Forall_app_2].
Qed.

(** What the report says of an attempt. *)
Definition reported (x : login_result) : val :=
  let entry ok rest := mk_obj ([("domain", VStr (lr_domain x)); ("ok", VBool ok); ("elapsedMs", VZ (lr_elapsedMs x))] ++ rest) in
  match lr_outcome x with
  | Accepted creds =>
      entry true [("userEmail", VStr (cc_userEmail creds)); ("userId", VStr (cc_userId creds));
                  ("keyPreview", VStr (if str_truthy (cc_key creds)
                                       then str_take 4 (cc_key creds) +:+ ellipsis +:+ str_last 4 (cc_key creds) else ""))]
  | Refused (CloudError m apiStatus info) => entry false [("apiStatus", opt_val VNum apiStatus); ("info", info); ("error", VStr m)]
  | Refused e => entry false [("error", VStr (exn_message e))]
  end.

Lemma reported_val x : login_result_val x = reported x.
Proof. done. Qed.

(** C15: the sign-in across regions refuses a code that is not six digits and then a scheme it does not know, before
    it does anything. Else it signs in with the flags' email, password and code at the domain of the
    flags alone or, without one, at those of the regions, the one guessed from the time zone first: one
    attempt after the other, in this order and each once, up to the first that is accepted, or at all of
    them when told to. The report has the time zone, the domains, for each attempt its domain, its time and
    what came of it, and the sign-in that wins, the last one accepted; without one the exit code is that of a
    failure. The configuration is written only after the attempts, only when told to and when a sign-in
    was accepted: once, with the winner's credentials and the rest as it is read then. *)
Theorem auth_debug_spec log flags tr r : runs (auth_debug log flags : M _) tr r →
  let mfa := trim (ad_mfaToken flags) in
  let sign_in domain : M _ := merossCloudLogin log
    {| lp_email := trim (ad_email flags); lp_password := ad_password flags; lp_mfaCode := Some mfa |}
    {| cl_domain := Some domain; cl_scheme := Some (ad_scheme flags); cl_timeoutMs := finite_flag (ad_timeoutMs flags) |} in
  (six_digits mfa = false ∧ tr = [] ∧ r = Err (bad_flag "--mfaToken" "6 digits")) ∨
  (six_digits mfa = true ∧ scheme_ok (ad_scheme flags) = false ∧ tr = [] ∧
   r = Err (bad_flag "--scheme" (quote +:+ "https" +:+ quote +:+ " or " +:+ quote +:+ "http" +:+ quote))) ∨
  (six_digits mfa = true ∧ scheme_ok (ad_scheme flags) = true ∧
   ∃ tz attempts stored results rest success,
    let candidates := debug_candidates (ad_domain flags) tz in
    tr = Ev TimeZone tz :: concat attempts ++ stored ∧ saved (concat attempts) = [] ∧
    Forall2 (attempt_at sign_in) results attempts ∧
    candidates = map lr_domain results ++ rest ∧ search_ended (ad_tryAll flags) results rest ∧ winner results success ∧
    match success with
    | Some creds => if ad_writeConfig flags then ∃ cfg at_, config_read stored cfg ∧ saved stored = [with_cloud creds at_ cfg]
                    else stored = []
    | None => stored = []
    end ∧
    (r = Ok ([PPretty (VObj [("timezone", VStr tz); ("candidates", VArr (map VStr candidates));
                             ("results", VArr (map reported results));
                             ("success", match success with
                                         | Some c => VObj [("userEmail", VStr (cc_userEmail c)); ("domain", VStr (cc_domain c));
                                                           ("keyPreview", VStr (str_take 4 (cc_key c) +:+ ellipsis +:+ str_last 4 (cc_key c)))]
                                         | None => VNull
                                         end)])], negb (bool_decide (is_Some success))) ∨
     saved stored ≠ [] ∧ ∃ e, r = Err e)).
Proof.
  intros Hr mfa sign_in. unfold auth_debug in Hr. cbv zeta in Hr. fold mfa in Hr.
  set (login := debug_login log (trim (ad_email flags)) (ad_password flags) mfa (ad_scheme flags) (ad_timeoutMs flags)) in Hr.
  assert (Hlogin : ∀ d t r', runs (login d) t r' → ∃ o, r' = Ok o ∧ sign_in_outcome (sign_in d) t o)
    by (intros d t r'; apply debug_login_runs).
  assert (Hun : ∀ d, calls unsaved (login d)) by (intros d; apply unsaved_debug_login). clearbody login sign_in.
  destruct (six_digits mfa); cbn [negb] in Hr; [right|left; by destruct Hr as [-> ->]].
  destruct (scheme_ok _); cbn [negb] in Hr; [right|left; by destruct Hr as [-> ->]]. split; [done|]. split; [done|].
  destruct Hr as (tz & tr' & -> & Hr). cbn [bind] in Hr. exists tz.
  apply runs_bind in Hr as [(t1 & t2 & res & -> & Hres & Hr)|(e & He & ->)].
  2:{ by destruct (try_domains_runs _ sign_in _ _ _ _ Hlogin He) as (? & ? & ? & [=] & _). }
  assert (Hs1 : saved t1 = []).
  { eapply unsaved_runs, Hres. by apply unsaved_try_domains. }
  destruct (try_domains_runs _ sign_in _ _ _ _ Hlogin Hres) as (results & rest & attempts & [= ->] & Hc & Hend & -> & Hall).
  exists attempts, t2, results, rest, (last_success results). cbv zeta.
  split; [done|]. split; [done|]. split; [done|]. split; [exact Hc|]. split; [done|]. split; [apply last_success_winner|].
  apply runs_bind in Hr as [(t3 & t4 & u & -> & Hw & [-> ->])|(e & Hw & ->)]; rewrite ?app_nil_r.
  all: unfold auth_debug_report; destruct (last_success results) as [creds|]; [destruct (ad_writeConfig flags)|].
  all: try (destruct Hw as [-> [=]]; fail); try (destruct Hw as [-> _]; split; [done|by left]; fail).
  all: destruct (store_creds_runs _ _ _ Hw) as (cfg & at_ & Hread & Hs & _); split; [by exists cfg, at_|].
  - by left.
  - right. rewrite Hs. eauto.
Qed.
End Store.

(** ** Switching a device *)

(** No message to a device or to the cloud, no write of the configuration. *)
Definition local (ev : sys_event) : Prop := is_fetch ev = false ∧ is_save ev = false.

Lemma local_trace tr : Forall local tr → fetched tr = [] ∧ saved tr = [].
Proof.
  induction 1 as [|ev tr [Hf Hs] H [IH1 IH2]]; [done|]. destruct ev as [X [] x]; try done; by split.
Qed.

Section Switch.
Context {St R : Type} `{Runtime}.
Abbreviation M := (prog St R sysE).

Lemma local_runs {A} (p : M A) tr r : calls local p → runs p tr r → fetched tr = [] ∧ saved tr = [].
Proof. intros Hp Hr. unfold calls in Hp. rewrite wp_runs in Hp. apply local_trace. by eapply Hp. Qed.

Lemma local_silent {A} (p : M A) : calls silent p → calls local p.
Proof. apply calls_mono. intros [X [] x] [? ?]; by split. Qed.

Lemma calls_sys_try (P : sys_event → Prop) {X} (e : sysE (result X)) :
  (∀ x, P (Ev e x)) → calls P (sys_try e : M X).
Proof. intros He x. apply wp_runs. intros tr r Hr. assert (tr = []) as -> by (destruct x; apply Hr). by constructor. Qed.

Lemma local_lan_key key dump : calls local (lan_key key dump : M _).
Proof.
  unfold lan_key, loadDumpMaybe, pickKey, flag_or_env, defaultDumpPath, loadMerossCloudDumpFile.
  quiet_tac; by apply calls_sys_try.
Qed.

Lemma lan_key_nonempty flag dump tr key : runs (lan_key flag dump : M _) tr (Ok key) → key ≠ "".
Proof.
  intros [(t1 & t2 & d & -> & _ & Hr)|(e & _ & [=])]%runs_bind.
  apply runs_bind in Hr as [(t3 & t4 & k & -> & _ & Hr)|(e & _ & [=])].
  destruct k as [k|]; [|by destruct Hr]. cbn in Hr. unfold nonempty in Hr.
  destruct (str_truthy k) eqn:Ek; [|by destruct Hr]. destruct Hr as [_ [= ->]]. by apply str_truthy_spec.
Qed.

Lemma local_resolveHostArgs args : calls local (resolveHostArgs args : M _).
Proof.
  assert (∀ mac, calls local (resolveIpv4FromMac mac : M _)) as Hmac
    by (intros; apply local_silent, silent_resolveIpv4FromMac).
  unfold resolveHostArgs, pingSweep. quiet_tac; apply Hmac.
Qed.

Lemma resolveHostArgs_source args tr host h : runs (resolveHostArgs args : M _) tr (Ok host) →
  host ≫= nonempty = Some h → h ≠ "" ∧ (ha_host args = Some h ∨ ∃ mac, ha_mac args = Some mac ∧ in_neighbours mac tr h).
Proof.
  unfold resolveHostArgs. intros Hr Hh. assert (Hne : ∀ o s, o ≫= nonempty = Some s → o = Some s ∧ s ≠ "").
  { intros [o|] s Ho; [|done]. by apply nonempty_Some in Ho as [-> ?]. }
  destruct (Hne _ _ Hh) as [-> Hh']. split; [done|].
  destruct (ha_host args ≫= nonempty) as [g|] eqn:Eg; [left; destruct Hr as [_ [= ->]]; by apply Hne|right].
  destruct (ha_mac args ≫= nonempty) as [mac|] eqn:Em; [|by destruct Hr].
  exists mac. split; [by apply Hne|].
  apply runs_bind in Hr as [(t1 & t2 & ip & -> & Hip & Hr)|(e & _ & [=])].
  destruct (ip ≫= nonempty) as [i|] eqn:Ei.
  - destruct Hr as [-> [= ->]]. destruct (Hne _ _ Ei) as [-> _]. rewrite app_nil_r. by eapply neighbour_source.
  - destruct (if ha_sweep args then _ else None) as [subnet|]; [|by destruct Hr].
    apply runs_bind in Hr as [(t3 & t4 & u & -> & _ & Hr)|(e & _ & [=])].
    eapply in_neighbours_mono, neighbour_source, Hr. set_solver.
Qed.

(** The switch command is refused unless exactly one of "on" and "off" is given, and without a key
    or a host. Else it sends one message, a signed SET of the ToggleX namespace that switches the
    channel of the flags, to the host given or, when none is given, to an address under which a
    neighbour table has the MAC, and prints the answer, or fails with the error of the device. It never
    writes the configuration. *)
Theorem cli_togglex_spec flags tr r : runs (cli_togglex flags : M _) tr r →
  (fetched tr = [] ∧ saved tr = [] ∧ ∃ e, r = Err e) ∨
  tf_on flags = negb (tf_off flags) ∧
  ∃ host key rq before after, tr = before ++ after ∧ host ≠ "" ∧ key ≠ "" ∧
    let t := {| lt_host := host; lt_key := key; lt_timeoutMs := Some (tf_timeoutMs flags) |} in
    fetched tr = [rq] ∧ saved tr = [] ∧
    signed_request t NAMESPACE_TOGGLEX "SET" (togglex_payload (tf_channel flags) (tf_on flags)) rq ∧
    (ha_host (tf_args flags) = Some host ∨
     ∃ mac, ha_mac (tf_args flags) = Some mac ∧ in_neighbours mac before host) ∧
    (∀ p, r = Ok p → ∃ resp, runs (setToggleX t (tf_channel flags) (tf_on flags) : M _) after (Ok resp)).
Proof.
  unfold cli_togglex. destruct (Bool.eqb _ _) eqn:E.
  { intros [-> ->]. left. eauto. }
  intros [(t1 & t2 & key & -> & Hk & Hr)|(e & He & ->)]%runs_bind.
  2:{ left. destruct (local_runs _ _ _ (local_lan_key _ _) He). eauto. }
  destruct (local_runs _ _ _ (local_lan_key _ _) Hk) as [Hkf Hks].
  apply runs_bind in Hr as [(t3 & t4 & host & -> & Hh & Hr)|(e & He & ->)].
  2:{ left. destruct (local_runs _ _ _ (local_resolveHostArgs _) He) as [? ?]. rewrite fetched_app, saved_app, Hkf, Hks. eauto. }
  destruct (local_runs _ _ _ (local_resolveHostArgs _) Hh) as [Hhf Hhs]. rewrite !fetched_app, !saved_app, Hkf, Hks, Hhf, Hhs.
  destruct (host ≫= nonempty) as [h|] eqn:Eh.
  2:{ left. destruct Hr as [-> ->]. eauto. }
  right. split; [by destruct (tf_on flags), (tf_off flags)|].
  destruct (resolveHostArgs_source _ _ _ _ Hh Eh) as [Hne Hsrc].
  unfold setToggleX in Hr. apply lan_then in Hr as (rq & t5 & t6 & -> & Hf & Hs & Hsig & Hend).
  exists h, key, rq, (t1 ++ t3), t5.
  assert (t6 = []) as -> by (destruct Hend as [(v & _ & [-> _])|(-> & _)]; done).
  rewrite !app_nil_r, <- app_assoc, Hf, Hs. split_and!; try done.
  - by eapply lan_key_nonempty.
  - destruct Hsrc as [?|(mac & ? & ?)]; [by left|right]. exists mac. split; [done|].
    eapply in_neighbours_mono; [|done]. set_solver.
  - intros p ->. destruct Hend as [(v & Hv & _)|(_ & e & _ & [=])]. by exists v.
Qed.
End Switch.

(** ** Concrete runs *)

(** A cloud whose European domain refuses and whose other domains accept. *)
Definition region_network (n : nat) (rq : http_request) : result http_response :=
  if starts_with "https://iotx-eu.meross.com" (rq_url rq) then json_response (mk_obj [("apiStatus", VZ 500)])
  else json_response sign_in_reply.

Definition region_run (flags : auth_debug_flags) :=
  exec (test_oracle (R := unit) tt (λ _, Ok tt) (ConfigText known_config) region_network) 0
    (@auth_debug unit unit test_runtime "id" flags).

Definition europe : auth_debug_flags :=
  {| ad_email := " a@b "; ad_password := "p"; ad_mfaToken := "123456"; ad_domain := None; ad_scheme := "https";
     ad_timeoutMs := num_of_Z 15000; ad_tryAll := false; ad_writeConfig := true |}.

(** The guessed domain refuses, the next one accepts and is the last one tried; its key is stored. *)
Lemma auth_debug_spec_witness : ∃ tz attempts stored results creds cfg at_,
  fst (region_run europe) = Ev TimeZone tz :: concat attempts ++ stored ∧ length results = length attempts ∧
  winner results (Some creds) ∧ config_read stored cfg ∧ saved stored = [with_cloud creds at_ cfg] ∧ cc_key creds = "k2".
Proof.
  destruct (@auth_debug_spec unit unit test_runtime "id" europe (fst (region_run europe)) (snd (region_run europe))
    (exec_runs _ _ _)) as [(E & _)|[(_ & E & _)|(_ & _ & tz & attempts & stored & results & rest & success & Htr & Hs & Hall & _ & _ & Hw & Hst & _)]];
    [discriminate|discriminate|].
  assert (Hsaved : saved (fst (region_run europe)) = saved stored).
  { rewrite Htr. change (saved (concat attempts ++ stored) = saved stored). by rewrite saved_app, Hs. }
  destruct success as [creds|]; [|subst stored; vm_compute in Hsaved; discriminate].
  destruct Hst as (cfg & at_ & Hread & Hst). exists tz, attempts, stored, results, creds, cfg, at_.
  split; [exact Htr|]. split; [by eapply Forall2_length|]. split; [exact Hw|]. split; [exact Hread|]. split; [exact Hst|].
  rewrite Hst in Hsaved. apply (f_equal (λ l, head l ≫= cf_cloud)) in Hsaved. vm_compute in Hsaved. injection Hsaved as <- _. reflexivity.
Defined.

Definition switch_on : togglex_flags :=
  {| tf_args := {| ha_host := Some "10.0.0.2"; ha_mac := None; ha_sweep := false; ha_subnet := None;
                   ha_sweepTimeoutMs := None; ha_sweepConcurrency := None |};
     tf_channel := 0; tf_on := true; tf_off := false; tf_key := Some "k"; tf_dump := None; tf_timeoutMs := num_of_Z 5000;
     tf_json := false |}.

Definition switch_run :=
  exec (test_oracle (R := unit) tt (λ _, Ok tt) Unreadable (λ _ _, json_response (VObj []))) 0
    (@cli_togglex unit unit test_runtime switch_on).

Lemma cli_togglex_spec_witness : ∃ rq, fetched (fst switch_run) = [rq] ∧ rq_url rq = "http://10.0.0.2/config".
Proof.
  destruct (@cli_togglex_spec unit unit test_runtime switch_on (fst switch_run) (snd switch_run) (exec_runs _ _ _))
    as [(Hf & _)|(_ & host & key & rq & b & a & _ & _ & _ & Hf & _ & (mid & ts & Hurl & _) & [[= <-]|(mac & [=] & _)] & _)].
  - vm_compute in Hf. discriminate.
  - exists rq. split; [exact Hf|exact Hurl].
Defined.
