(* ===== verification/Tui.v ===== *)
(** * The terminal interface

    packages/cli/src/tui.tsx: what the component [App] keeps, what a key does, and its calls to the cloud,
    the LAN and the configuration file as effects over that state. A callback closes over the state of
    the render it was made in, so its captured values are an argument and what it writes goes to the
    state as it is then; the writes of one block are gathered where nothing comes between them. Ink's
    rendering to text is left out. *)

From S2P Require Export Cli Inventory Threads.

Local Open Scope string_scope.
Local Open Scope Z_scope.
Local Open Scope list_scope.

(** ** State *)

Inductive tui_phase : Type := TuiBoot | TuiLogin | TuiHydrating | TuiInventory | TuiDiagnostics.
Inductive login_field : Type := FieldEmail | FieldPassword | FieldTotp | FieldSubmit.

#[export] Instance tui_phase_eq_dec : EqDecision tui_phase.
Proof. solve_decision. Defined.
#[export] Instance login_field_eq_dec : EqDecision login_field.
Proof. solve_decision. Defined.

(** [diag]: the JSON is kept as the value it is the text of. *)
Record diagnostics := { dg_uuid : string; dg_host : string; dg_json : val }.

(** The last three fields stand for React: how often [cfg] was set, which tells its identities apart,
    whether the effect that loads has run, and the dependencies the effect on [phase] last ran with. *)
Record tui := {
  tu_phase : tui_phase; tu_cfg : option MerossConfig; tu_error : option string; tu_busy : option string;
  tu_devices : list val; tu_hosts : list (string * host_entry); tu_cidr : string;
  tu_selectedUuid : option string; tu_expandedUuid : option string; tu_diag : option diagnostics;
  tu_loginEmail : string; tu_loginPassword : string; tu_loginTotp : string; tu_loginUseEnv : bool;
  tu_loginAdvanced : bool; tu_loginFocus : login_field; tu_exited : bool;
  tu_cfgSets : nat; tu_loaded : bool; tu_deps : option (tui_phase * nat * string) }.

Definition tui_start : tui :=
  {| tu_phase := TuiBoot; tu_cfg := None; tu_error := None; tu_busy := None; tu_devices := []; tu_hosts := [];
     tu_cidr := ""; tu_selectedUuid := None; tu_expandedUuid := None; tu_diag := None; tu_loginEmail := "";
     tu_loginPassword := ""; tu_loginTotp := ""; tu_loginUseEnv := false; tu_loginAdvanced := false;
     tu_loginFocus := FieldEmail; tu_exited := false; tu_cfgSets := 0; tu_loaded := false; tu_deps := None |}.

Definition setCfg (c : MerossConfig) (s : tui) : tui := s <| tu_cfg := Some c |> <| tu_cfgSets := S (tu_cfgSets s) |>.

(** [cfg?.x] reads nothing where there is no configuration, as an empty one does. *)
Definition cfg_of (s : tui) : MerossConfig := tu_cfg s ?: empty_config.

(** ** What is derived from it *)

Definition totpOk (s : tui) : bool := six_digits (trim (tu_loginTotp s)).

Definition canSubmitLogin (envReady : bool) (s : tui) : bool :=
  totpOk s && (if tu_loginUseEnv s then envReady else str_truthy (trim (tu_loginEmail s)) && str_truthy (tu_loginPassword s)).

(** [s.slice(0, -1)] *)
Definition drop_last (s : string) : string := str_take (String.length s - 1) s.

Section View.
Context `{Runtime}.

(** One row of [flat]: the name is shown, the uuid selects. *)
Record tui_row := { ro_ready : bool; ro_uuid : string; ro_name : string }.

Definition flat_row (ready : bool) (d : InventoryDevice) : tui_row :=
  {| ro_ready := ready; ro_uuid := iv_uuid d; ro_name := nonempty (iv_name d) ?: iv_uuid d |}.

Definition flat (s : tui) : list tui_row :=
  let groups := groupDevicesForControl (tu_devices s) (tu_hosts s) in
  map (flat_row true) (in_ready groups) ++ map (flat_row false) (in_inaccessible groups).

Definition flat_uuids (s : tui) : list string := map ro_uuid (flat s).

(** The effect on [flat] and [selectedUuid]. *)
Definition keep_selection (s : tui) : tui :=
  let first := head (flat_uuids s) in
  match tu_selectedUuid s ≫= nonempty with
  | None => s <| tu_selectedUuid := first |>
  | Some uuid => if bool_decide (uuid ∈ flat_uuids s) then s else s <| tu_selectedUuid := first |>
  end.

(** [selected.uuid] and [selected.host?.host]. *)
Definition selected_uuid (s : tui) : string := tu_selectedUuid s ?: "".
Definition selected_host (s : tui) : option string := he_host <$> jget (selected_uuid s) (tu_hosts s).

(** ** Screens

    The lines of the screen of a phase, top to bottom; their colours and spacing are left out. *)

(** What is read of the environment while rendering. *)
Record tui_env := { te_ready : bool; te_cfgPath : string; te_suggested : option string }.

(** A line, or a value shown as indented JSON. *)
Inductive screen_line : Type := Line (s : string) | JsonText (v : val).

Definition mask (s : string) : string :=
  if str_truthy s then str_repeat "•" (Nat.min 12 (String.length s)) else "".

Definition title (s : tui) : string :=
  "merossity · " +:+ (match cf_cloud (cfg_of s) with Some (c, _) => nonempty (cc_userEmail c) | None => None end ?: "not linked").

(** [{error ? ... : null}] and [{busy ? <Text>Busy: ...</Text> : null}] *)
Definition notices (s : tui) : list screen_line :=
  match tu_error s ≫= nonempty with Some e => [Line e] | None => [] end ++
  match tu_busy s ≫= nonempty with Some b => [Line ("Busy: " +:+ b)] | None => [] end.

Definition cursor (at_it : bool) : string := if at_it then ">" else " ".

Definition field_line (s : tui) (f : login_field) (label text : string) : screen_line :=
  Line (cursor (bool_decide (tu_loginFocus s = f)) +:+ " " +:+ label +:+ text).

Definition or_empty (text : string) : string := nonempty text ?: "(empty)".

Definition login_screen (env : tui_env) (s : tui) : list screen_line :=
  [Line (title s); Line "q/Esc: quit · Tab/j/k/arrows: focus · Enter: submit · a: advanced";
   Line ("Config: " +:+ te_cfgPath env)] ++ notices s ++
  [Line "Meross Cloud Key"; Line "Enter email, password, and TOTP (6 digits).";
   field_line s FieldEmail "Email: " (if tu_loginUseEnv s then "(env)" else or_empty (tu_loginEmail s));
   field_line s FieldPassword "Password: " (if tu_loginUseEnv s then "(env)" else or_empty (mask (tu_loginPassword s)));
   field_line s FieldTotp "TOTP: " (or_empty (tu_loginTotp s) +:+ " " +:+ (if totpOk s then "" else "(needs 6 digits)"));
   field_line s FieldSubmit "Fetch key " (if canSubmitLogin (te_ready env) s then "" else "(disabled)")] ++
  (if tu_loginAdvanced s then
     [Line "Advanced";
      Line ("e: toggle env mode · env email/password: " +:+ (if te_ready env then "present" else "missing"));
      Line ("Use env for email/password: " +:+ (if tu_loginUseEnv s then "ON" else "OFF"))]
   else []).

Definition hydrating_screen (env : tui_env) (s : tui) : list screen_line :=
  [Line (title s); Line "q/Esc: quit"] ++ match tu_error s ≫= nonempty with Some e => [Line e] | None => [] end ++
  [Line "Building inventory…"; Line "Devices: refresh from cloud";
   Line ("LAN: scan for IPs (" +:+
     (nonempty (trim (tu_cidr s)) ?: ((te_suggested env ≫= nonempty) ?: "(no suggestion)")) +:+ ")")] ++
  match tu_busy s ≫= nonempty with Some b => [Line ("Busy: " +:+ b)] | None => [] end.

Definition diagnostics_screen (s : tui) : list screen_line :=
  [Line "Diagnostics"; Line "q/Esc: back"] ++
  match tu_diag s with
  | Some d => [Line (dg_uuid d +:+ " · " +:+ dg_host d); JsonText (dg_json d)]
  | None => [Line "(no data)"]
  end.

(** The row of a device, and what it opens to. *)
Definition row_lines (s : tui) (uuid : string) : list screen_line :=
  let d := List.find (λ d, String.eqb (to_str (prop "uuid" d)) uuid) (tu_devices s) in
  let field name := match d with Some d => str_or_empty (prop name d) | None => "" end in
  let h := jget uuid (tu_hosts s) in
  let ip := h ≫= λ e, nonempty (he_host e) in
  let name := nonempty (field "devName") ?: uuid in
  Line (cursor (bool_decide (tu_selectedUuid s = Some uuid)) +:+ " " +:+ name +:+
        " (" +:+ (nonempty (field "onlineStatus") ?: "unknown") +:+ ") " +:+ (ip ?: "-")) ::
  if bool_decide (tu_expandedUuid s = Some uuid) then
    [Line ("uuid: " +:+ uuid)] ++
    match (h ≫= he_mac) ≫= nonempty with Some m => [Line ("mac: " +:+ m)] | None => [] end ++
    match h ≫= λ e, nonempty (he_updatedAt e) with Some t => [Line ("ip seen: " +:+ t)] | None => [] end ++
    [Line ("actions: " +:+ match ip with Some _ => "o=on f=off d=diagnostics" | None => "s=scan LAN to find IP" end)]
  else [].

Definition group_lines (s : tui) (label : string) (l : list InventoryDevice) : list screen_line :=
  Line (label +:+ " (" +:+ pretty (Z.of_nat (length l)) +:+ ")") ::
  match l with [] => [Line "(none)"] | _ => flat_map (λ d, row_lines s (iv_uuid d)) l end.

Definition inventory_screen (env : tui_env) (s : tui) : list screen_line :=
  let groups := groupDevicesForControl (tu_devices s) (tu_hosts s) in
  [Line (title s);
   Line "q/Esc: quit · j/k or arrows: move · Enter: open · r: refresh · s: scan · o/on f/off · d: diagnostics";
   Line ("Config: " +:+ te_cfgPath env)] ++ notices s ++
  group_lines s "Ready to control" (in_ready groups) ++ group_lines s "Inaccessible" (in_inaccessible groups).

Definition screen (env : tui_env) (s : tui) : list screen_line :=
  match tu_phase s with
  | TuiBoot => [Line (title s); Line "Loading…"]
  | TuiLogin => login_screen env s
  | TuiHydrating => hydrating_screen env s
  | TuiDiagnostics => diagnostics_screen s
  | TuiInventory => inventory_screen env s
  end.

(** ** Keys *)

Record key_press := {
  kp_input : string; kp_escape : bool; kp_tab : bool; kp_up : bool; kp_down : bool; kp_return : bool;
  kp_backspace : bool; kp_delete : bool }.

Definition types (c : string) (k : key_press) : bool := String.eqb (kp_input k) c.

(** The calls a key starts. *)
Inductive tui_call : Type :=
| CallLogin
| CallRefresh
| CallScan
| CallToggle (onoff : bool)
| CallDiagnostics.

Definition focus_order (useEnv : bool) : list login_field :=
  if useEnv then [FieldTotp; FieldSubmit] else [FieldEmail; FieldPassword; FieldTotp; FieldSubmit].

Definition index_of {A} `{EqDecision A} (x : A) (l : list A) : Z :=
  match list_find (λ y, y = x) l with Some (i, _) => Z.of_nat i | None => -1 end.

(** [order[(Math.max(0, order.indexOf(focus)) + by + order.length) % order.length]] *)
Definition move_focus (by_ : Z) (s : tui) : login_field :=
  let order := focus_order (tu_loginUseEnv s) in
  let n := Z.of_nat (length order) in
  let idx := Z.max 0 (index_of (tu_loginFocus s) order) in
  order !! Z.to_nat ((idx + by_ + n) mod n) ?: tu_loginFocus s.

Definition erase (s : tui) : tui :=
  match tu_loginFocus s with
  | FieldEmail => s <| tu_loginEmail := drop_last (tu_loginEmail s) |>
  | FieldPassword => s <| tu_loginPassword := drop_last (tu_loginPassword s) |>
  | FieldTotp => s <| tu_loginTotp := drop_last (tu_loginTotp s) |>
  | FieldSubmit => s
  end.

(** Typing into the field with the focus; the code takes digits only, at most six. *)
Definition type_text (input : string) (s : tui) : tui :=
  match tu_loginFocus s with
  | FieldEmail => s <| tu_loginEmail := tu_loginEmail s +:+ input |>
  | FieldPassword => s <| tu_loginPassword := tu_loginPassword s +:+ input |>
  | FieldTotp => s <| tu_loginTotp := str_take 6 (str_filter is_digit (tu_loginTotp s +:+ input)) |>
  | FieldSubmit => s
  end.

Definition login_key (k : key_press) (s : tui) : tui * option tui_call :=
  if types "a" k then (s <| tu_loginAdvanced := negb (tu_loginAdvanced s) |>, None)
  else if tu_loginAdvanced s && types "e" k then
    let s1 := s <| tu_loginUseEnv := negb (tu_loginUseEnv s) |> in
    (if tu_loginUseEnv s then s1 else s1 <| tu_loginFocus := FieldTotp |>, None)
  else if kp_tab k || kp_down k || types "j" k then (s <| tu_loginFocus := move_focus 1 s |>, None)
  else if kp_up k || types "k" k then (s <| tu_loginFocus := move_focus (-1) s |>, None)
  else if kp_return k then (s, if bool_decide (tu_loginFocus s = FieldSubmit) then Some CallLogin else None)
  else if bool_decide (tu_loginFocus s = FieldSubmit) then (s, None)
  else if kp_backspace k || kp_delete k then (erase s, None)
  else if negb (str_truthy (kp_input k)) then (s, None)
  else (type_text (kp_input k) s, None).

(** [flat[clamp(Math.max(0, flat.findIndex(...)) + by)]], of a list that is not empty. *)
Definition move_selection (by_ : Z) (s : tui) : tui :=
  let l := flat_uuids s in
  let idx := Z.max 0 (match tu_selectedUuid s with Some u => index_of u l | None => -1 end) in
  let i := Z.max 0 (Z.min (Z.of_nat (length l) - 1) (idx + by_)) in
  match l !! Z.to_nat i with Some u => s <| tu_selectedUuid := Some u |> | None => s end.

Definition toggle_expanded (s : tui) : tui :=
  let uuid := selected_uuid s in
  if negb (str_truthy uuid) then s
  else s <| tu_expandedUuid := if bool_decide (tu_expandedUuid s = Some uuid) then None else Some uuid |>.

Definition inventory_key (k : key_press) (s : tui) : tui * option tui_call :=
  if types "r" k then (s, Some CallRefresh)
  else if types "s" k then (s, Some CallScan)
  else if kp_down k || types "j" k then (move_selection 1 s, None)
  else if kp_up k || types "k" k then (move_selection (-1) s, None)
  else if kp_return k then (toggle_expanded s, None)
  else if types "o" k then (s, Some (CallToggle true))
  else if types "f" k then (s, Some (CallToggle false))
  else if types "d" k then (s, Some CallDiagnostics)
  else (s, None).

(** The handler given to [useInput]. *)
Definition tui_key (k : key_press) (s : tui) : tui * option tui_call :=
  if types "q" k || kp_escape k then
    match tu_phase s with
    | TuiDiagnostics => (s <| tu_phase := TuiInventory |> <| tu_diag := None |>, None)
    | _ => (s <| tu_exited := true |>, None)
    end
  else match tu_phase s with
       | TuiLogin => login_key k s
       | TuiInventory => inventory_key k s
       | _ => (s, None)
       end.
End View.

(** ** Calls *)

Section Calls.
Context `{Runtime} (LOG_IDENTIFIER : string).
Abbreviation T := (prog tui unit sysE).

Definition setBusy (b : option string) : T unit := modify (λ s, s <| tu_busy := b |>).
Definition setError (e : option string) : T unit := modify (λ s, s <| tu_error := e |>).
Definition setPhase (p : tui_phase) : T unit := modify (λ s, s <| tu_phase := p |>).

(** [try { setError(null); p } catch (e) { setError(e.message) } finally { setBusy(null) }] *)
Definition reporting (p : T unit) : T unit :=
  finally (catch (setError None ;;! p) (λ e, setError (Some (exn_message e)))) (setBusy None).

Definition load : T unit :=
  setBusy (Some "loading") ;;!
  setError None ;;!
  finally
    (catch
       (let! next := readConfig in
        modify (λ s, setCfg next s <| tu_devices := devices_of next |> <| tu_hosts := hosts_of next |>) ;;!
        setPhase (match cf_cloud next ≫= λ c, nonempty (cc_key (fst c)) with Some _ => TuiHydrating | None => TuiLogin end))
       (λ e,
        modify (λ s, setCfg empty_config s <| tu_devices := [] |> <| tu_hosts := [] |>) ;;!
        setPhase TuiLogin ;;!
        setError (Some (exn_message e))))
    (setBusy None).

(** [c] is the state of the render the callback belongs to. *)
Definition refreshDevices (c : tui) : T unit :=
  match cf_cloud (cfg_of c) with
  | None => Throw (JsError "Not logged in (missing cloud creds).")
  | Some (creds, _) =>
      setBusy (Some "refreshing devices") ;;!
      let! list := merossCloudListDevices creds None in
      let! at_ := nowIso in
      let next := with_devices at_ list (cfg_of c) in
      writeConfig next ;;!
      modify (λ s, setCfg next s <| tu_devices := list |>)
  end.

Definition tui_discoverHosts (c : tui) : T unit :=
  let! key := configured_key (cfg_of c) in
  match key with
  | None => Throw (JsError "Missing Meross key (cloud not linked and MEROSS_KEY not set).")
  | Some key =>
      let! cidr := default_cidr (trim (tu_cidr c)) in
      if negb (str_truthy cidr) then
        Throw (JsError ("Missing CIDR and no auto-suggested CIDR found. Set CIDR or pass " +:+ quote +:+ "--cidr" +:+ quote +:+ "."))
      else
        setBusy (Some ("scanning " +:+ cidr)) ;;!
        warm_up cidr ;;!
        let! ips := of_result (listHostsInCidr cidr) in
        let! found := scan_all {| sc_ips := ips; sc_workers := 24; sc_key := key; sc_timeoutMs := num_of_Z 900 |} in
        let next := with_hosts (jspread (hosts_of (cfg_of c)) found) (cfg_of c) in
        writeConfig next ;;!
        modify (λ s, setCfg next s <| tu_hosts := hosts_of next |>) ;;!
        if str_truthy (trim (tu_cidr c)) then Ret tt else modify (λ s, s <| tu_cidr := cidr |>)
  end.

Definition hydrate (c : tui) : T unit :=
  finally
    (catch (setError None ;;! refreshDevices c ;;! tui_discoverHosts c ;;! setPhase TuiInventory)
           (λ e, setPhase TuiInventory ;;! setError (Some (exn_message e))))
    (setBusy None).

Definition env_text (name : string) : T string := let! v := sys (GetEnv name) in Ret (v ?: "").

Definition doLogin (c : tui) : T unit :=
  let! email := env_text "MEROSS_EMAIL" in
  let! password := env_text "MEROSS_PASSWORD" in
  if negb (canSubmitLogin (str_truthy email && str_truthy password) c) then Ret tt
  else
    setBusy (Some "logging in") ;;!
    setError None ;;!
    finally
      (catch
         (let! creds := merossCloudLogin LOG_IDENTIFIER
            {| lp_email := if tu_loginUseEnv c then email else trim (tu_loginEmail c);
               lp_password := if tu_loginUseEnv c then password else tu_loginPassword c;
               lp_mfaCode := Some (trim (tu_loginTotp c)) |}
            {| cl_domain := None; cl_scheme := None; cl_timeoutMs := None |} in
          let! at_ := nowIso in
          let next := with_cloud creds at_ (cfg_of c) in
          writeConfig next ;;!
          modify (setCfg next) ;;!
          setPhase TuiHydrating)
         (λ e, setError (Some (exn_message e))))
      (setBusy None).

(** The key and the host of the selection, or what is thrown outside of the [try]. *)
Definition selected_target (c : tui) : T (string * string) :=
  let! key := configured_key (cfg_of c) in
  match key with
  | None => Throw (JsError "Missing Meross key.")
  | Some key =>
      match nonempty (selected_uuid c), selected_host c ≫= nonempty with
      | Some _, Some host => Ret (key, host)
      | _, _ => Throw (JsError "No host known for selection. Scan LAN first.")
      end
  end.

Definition on_selected (c : tui) (busy : string) (f : lan_target → T unit) : T unit :=
  let! '(key, host) := selected_target c in
  setBusy (Some busy) ;;!
  reporting (f {| lt_host := host; lt_key := key; lt_timeoutMs := Some (num_of_Z 5000) |}).

Definition doToggle (c : tui) (onoff : bool) : T unit :=
  on_selected c (if onoff then "turning on" else "turning off")
    (λ t, let! _ := setToggleX t 0 onoff in Ret tt).

Definition doDiagnostics (c : tui) : T unit :=
  on_selected c "fetching diagnostics" (λ t,
    let! resp := getSystemAll t in
    modify (λ s, s <| tu_diag := Some {| dg_uuid := selected_uuid c; dg_host := lt_host t; dg_json := resp |} |>
                   <| tu_phase := TuiDiagnostics |>)).

(** What a key starts, in a promise nobody waits for. *)
Definition tui_call_of (c : tui) (call : tui_call) : T unit :=
  match call with
  | CallLogin => doLogin c
  | CallRefresh => reporting (refreshDevices c)
  | CallScan => reporting (tui_discoverHosts c)
  | CallToggle onoff => doToggle c onoff
  | CallDiagnostics => doDiagnostics c
  end.

(** A key, handled with the closures of the last render. *)
Definition press (k : key_press) : T unit :=
  let! '(c, call) := atom (λ s, if tu_exited s then (s, (s, None)) else (fst (tui_key k s), (s, snd (tui_key k s)))) in
  match call with Some call => fork (tui_call_of c call) | None => Ret tt end.

(** ** Effects

    The effects that run after a render: [load] once, the choice of a selection, and [hydrate] whenever
    [phase], or what [hydrate] closes over, has changed while the phase is [hydrating]. *)

Definition hydrate_deps (s : tui) : tui_phase * nat * string := (tu_phase s, tu_cfgSets s, tu_cidr s).

(** Whether each of the two asynchronous effects is due, which it then no longer is. *)
Definition due_effects (s : tui) : tui * (bool * bool) :=
  let deps := hydrate_deps s in
  let changed := bool_decide (tu_deps s ≠ Some deps) in
  (keep_selection s <| tu_loaded := true |> <| tu_deps := Some deps |>,
   (negb (tu_loaded s), changed && bool_decide (tu_phase s = TuiHydrating))).

Definition effects : T unit :=
  let! '(c, (loads, hydrates)) := atom (λ s, (fst (due_effects s), (s, snd (due_effects s)))) in
  (if loads then fork load else Ret tt) ;;!
  (if hydrates then fork (hydrate c) else Ret tt).

(** ** Runs

    Keys and renders come at any time between the blocks of the calls under way. *)

Inductive tui_entry (P : key_press → Prop) : T unit → Prop :=
| te_press k : P k → tui_entry P (press k)
| te_effects : tui_entry P effects.

Definition never_settles (s : tui) (pid : nat) : option (result unit) := None.

Definition tui_steps (P : key_press → Prop) : @threads tui unit sysE → @threads tui unit sysE → Prop :=
  steps server_sync never_settles (tui_entry P).

Definition tui_reaches (P : key_press → Prop) : @threads tui unit sysE → Prop :=
  tui_steps P {| th_state := tui_start; th_threads := [] |}.
End Calls.
