(* ===== verification/TuiSpec.v ===== *)
(** * What the terminal interface guarantees

    Under every interleaving of keys, renders and calls: the form and the screens stay well formed
    ([tui_invariant]); which texts can be typed into the form at all ([tui_typing]); how the selection moves
    ([tui_selection]); and what the sequence that builds the inventory writes to the configuration file
    ([hydrate_spec]). *)

From S2P Require Export Tui HandlersSpec.

Local Open Scope string_scope.
Local Open Scope Z_scope.
Local Open Scope list_scope.

(** ** Programs that do not touch the state *)

Section Stateless.
Context {St R : Type} `{Runtime} (LOG_IDENTIFIER : string) (Inv : St → Prop).
Abbreviation P := (prog St R sysE).
Abbreviation keeps := (@keeps St R sysE Inv _).

Lemma keeps_config c : keeps (readConfig : P _) ∧ keeps (writeConfig c : P _) ∧ keeps (configured_key c : P _).
Proof.
  unfold readConfig, writeConfig, configured_key, configPath, env_or, defaultMerossConfigPath, loadMerossConfig, saveMerossConfig.
  split_and!; keeps_tac.
Qed.

Lemma keeps_default_cidr c : keeps (default_cidr c : P _).
Proof. unfold default_cidr, defaultSuggestedCidrNow. keeps_tac. Qed.

Lemma keeps_warm_up c : keeps (warm_up c : P _).
Proof. unfold warm_up, pingSweep. keeps_tac. Qed.

Lemma keeps_lan_call t ns m payload : keeps (lan_call t ns m payload : P _).
Proof. unfold lan_call, buildLanMessage, randomMessageId, postConfig. keeps_tac. Qed.

Lemma keeps_redirect_loop n e params d o : keeps (redirect_loop n e params d o : P _).
Proof.
  revert d. induction n as [|n IH]; intros d; cbn [redirect_loop]; unfold authenticatedPost; keeps_tac; apply IH.
Qed.

Lemma keeps_login_loop params o l : keeps (login_loop params o l : P _).
Proof.
  pose proof keeps_redirect_loop. induction l as [|c l IH]; cbn [login_loop]; [done|]. unfold postWithRedirect. keeps_tac; auto.
Qed.

Lemma keeps_cloud params o creds t :
  keeps (merossCloudLogin LOG_IDENTIFIER params o : P _) ∧ keeps (merossCloudListDevices creds t : P _).
Proof.
  pose proof keeps_redirect_loop. pose proof keeps_login_loop.
  unfold merossCloudLogin, merossCloudListDevices, postWithRedirect. split; keeps_tac; auto.
Qed.
End Stateless.

#[export] Hint Resolve keeps_default_cidr keeps_warm_up keeps_lan_call keeps_cloud : keeps.

(** ** What the calls of the interface leave alone *)

Definition form_of (s : tui) : string * string * string * bool * bool * login_field :=
  (tu_loginEmail s, tu_loginPassword s, tu_loginTotp s, tu_loginUseEnv s, tu_loginAdvanced s, tu_loginFocus s).

(** The screen stays, or is not that of the diagnostics, or has them. *)
Definition screen_fits (s s' : tui) : Prop :=
  (tu_phase s' = tu_phase s ∧ tu_diag s' = tu_diag s) ∨ tu_phase s' ≠ TuiDiagnostics ∨ is_Some (tu_diag s').

(** An invariant of the form and of the screen is kept by every call; what is left is what a key does. *)
Section Calls.
Context `{Runtime} (LOG_IDENTIFIER : string) (Inv : tui → Prop).
Hypothesis Inv_frame : ∀ s s', form_of s' = form_of s → screen_fits s s' → Inv s → Inv s'.
Abbreviation kept := (keeps Inv).

Lemma kept_frame f : (∀ s, form_of (f s) = form_of s ∧ screen_fits s (f s)) → kept (modify f : prog tui unit sysE unit).
Proof. intros Hf. apply keeps_modify. intros s Hs. destruct (Hf s). eauto. Qed.

Lemma kept_setBusy b : kept (setBusy b).
Proof. apply kept_frame. intros s. split; [done|by left]. Qed.

Lemma kept_setError e : kept (setError e).
Proof. apply kept_frame. intros s. split; [done|by left]. Qed.

Lemma kept_setPhase p : p ≠ TuiDiagnostics → kept (setPhase p).
Proof. intros Hp. apply kept_frame. intros s. split; [done|by right; left]. Qed.

Hint Resolve kept_setBusy kept_setError : keeps.
Hint Extern 2 (keeps _ (setPhase _)) => (apply kept_setPhase; repeat case_match; done) : keeps.
Hint Extern 2 (keeps _ (modify _)) => (apply kept_frame; intros; split; [done|by left]) : keeps.
Hint Extern 2 (keeps _ (readConfig)) => (apply keeps_config; exact empty_config) : keeps.
Hint Extern 2 (keeps _ (writeConfig _)) => apply keeps_config : keeps.
Hint Extern 2 (keeps _ (configured_key _)) => apply keeps_config : keeps.
Hint Extern 2 (keeps _ (merossCloudLogin _ _ _)) => (apply keeps_cloud; [exact None|done]) : keeps.
Hint Extern 2 (keeps _ (merossCloudListDevices _ _)) => (eapply (keeps_cloud ""); done) : keeps.

Lemma kept_reporting p : kept p → kept (reporting p).
Proof. intros Hp. unfold reporting. keeps_tac; auto. Qed.

Lemma kept_load : kept load.
Proof. unfold load. keeps_tac. Qed.

Lemma kept_refreshDevices c : kept (refreshDevices c).
Proof. unfold refreshDevices, nowIso. keeps_tac. Qed.

Lemma kept_discoverHosts c : kept (tui_discoverHosts c).
Proof. unfold tui_discoverHosts. keeps_tac. Qed.

Lemma kept_hydrate c : kept (hydrate c).
Proof. pose proof (kept_refreshDevices c). pose proof (kept_discoverHosts c). unfold hydrate. keeps_tac; auto. Qed.

Lemma kept_doLogin c : kept (doLogin LOG_IDENTIFIER c).
Proof. unfold doLogin, env_text, nowIso. keeps_tac. Qed.

Lemma kept_on_selected c busy f : (∀ t, kept (f t)) → kept (on_selected c busy f).
Proof. intros Hf. unfold on_selected, selected_target. keeps_tac. Qed.

Lemma kept_call c call : kept (tui_call_of LOG_IDENTIFIER c call).
Proof.
  destruct call; cbn [tui_call_of]; auto using kept_doLogin, kept_reporting, kept_refreshDevices, kept_discoverHosts.
  - apply kept_on_selected. intros t. unfold setToggleX. keeps_tac.
  - apply kept_on_selected. intros t. unfold getSystemAll. keeps_tac.
    apply kept_frame. intros s. split; [done|by right; right].
Qed.

Lemma kept_entry P q : (∀ k s, P k → Inv s → Inv (fst (tui_key k s))) → tui_entry LOG_IDENTIFIER P q → kept q.
Proof.
  intros Hkey [k Hk|]; unfold press, effects.
  - apply keeps_bind.
    + intros s Hs. cbn. destruct (tu_exited s); (split; [|done]); [done|by apply Hkey].
    + intros [c [call|]]; [|done]. apply keeps_fork, kept_call.
  - apply keeps_bind.
    + intros s. cbn [fst]. split; [|done]. apply (Inv_frame s); [| |done];
        unfold due_effects, keep_selection; cbn [fst]; repeat case_match; (done || by left).
    + intros [c [[] []]]; keeps_tac; auto using kept_load, kept_hydrate, kept_refreshDevices, kept_discoverHosts.
Qed.

(** The invariant in every reachable state. *)
Lemma reaches_kept P c : (∀ k s, P k → Inv s → Inv (fst (tui_key k s))) → Inv tui_start →
  tui_reaches LOG_IDENTIFIER P c → Inv (th_state c).
Proof.
  intros Hkey H0 Hc. destruct (steps_keeps _ _ Inv _ _ _ (λ q, kept_entry P q Hkey) Hc) as [Hs _]; [|done].
  split; [done|constructor].
Qed.
End Calls.

(** ** The invariant *)

(** The code is at most six digits, the focus is on a field that is shown, and the diagnostics screen has
    diagnostics to show. *)
Record tui_ok (s : tui) : Prop := {
  to_totp : str_all is_digit (tu_loginTotp s) = true ∧ (String.length (tu_loginTotp s) <= 6)%nat;
  to_focus : tu_loginFocus s ∈ focus_order (tu_loginUseEnv s);
  to_diag : tu_phase s = TuiDiagnostics → is_Some (tu_diag s) }.

Lemma move_focus_listed by_ s : move_focus by_ s ∈ focus_order (tu_loginUseEnv s).
Proof.
  unfold move_focus. set (order := focus_order _). set (i := _ mod _).
  assert (0 <= i < Z.of_nat (length order)) by (apply Z.mod_pos_bound; subst order; destruct (tu_loginUseEnv s); cbn; lia).
  destruct (lookup_lt_is_Some_2 order (Z.to_nat i)) as [f Hf]; [lia|]. rewrite Hf. by eapply list_elem_of_lookup_2.
Qed.

Section Invariant.
Context `{Runtime} (LOG_IDENTIFIER : string).

Lemma ok_frame s s' : form_of s' = form_of s → screen_fits s s' → tui_ok s → tui_ok s'.
Proof.
  intros [= _ _ E1 E2 _ E3] Hscr [Ht Hf Hd]. split; rewrite ?E1, ?E2, ?E3; [done..|].
  intros Hp. destruct Hscr as [[E4 E5]|[?|?]]; [rewrite E5; apply Hd; congruence|done..].
Qed.

Lemma ok_totp s t : str_all is_digit t = true ∧ (String.length t <= 6)%nat → tui_ok s → tui_ok (s <| tu_loginTotp := t |>).
Proof. intros Ht []. by split. Qed.

Lemma login_key_ok k s : tu_phase s = TuiLogin → tui_ok s → tui_ok (fst (login_key k s)).
Proof.
  intros Hp Hs. pose proof Hs as [[Ht Hl] Hf Hd]. pose proof (move_focus_listed 1 s). pose proof (move_focus_listed (-1) s).
  unfold login_key. repeat (case_match; cbn [fst]; try (by split)).
  - split; cbn; [done| |done]. revert Hf. cbn. set_solver.
  - split; cbn; [done| |done]. set_solver.
  - unfold erase, drop_last. case_match; [by destruct Hs; split..| |done]. apply ok_totp; [|done].
    split; [by apply str_all_take|]. pose proof (length_take_le (String.length (tu_loginTotp s) - 1) (tu_loginTotp s)). lia.
  - unfold type_text. case_match; [by destruct Hs; split..| |done]. apply ok_totp; [|done].
    split; [apply str_all_take, all_filtered|]. apply length_take_le.
Qed.

Lemma inventory_key_ok k s : tui_ok s → tui_ok (fst (inventory_key k s)).
Proof.
  intros Hs. unfold inventory_key, move_selection, toggle_expanded.
  repeat (case_match; cbn [fst]; try done); by apply (ok_frame s); [|left|].
Qed.

Lemma tui_key_ok k s : tui_ok s → tui_ok (fst (tui_key k s)).
Proof.
  intros Hs. unfold tui_key. repeat (case_match; cbn [fst]; try done); try by apply (ok_frame s); [|left|].
  - destruct Hs. by split.
  - by apply login_key_ok.
  - by apply inventory_key_ok.
Qed.

Lemma tui_start_ok : tui_ok tui_start.
Proof. split; cbn; [split; [done|lia]|set_solver|done]. Qed.

(** C32: However keys, renders and the answers of cloud, LAN and disk interleave (tui.tsx): the code of the
    sign-in form is at most six digits, the field with the focus is one that is shown, whether email and
    password are typed or come from the environment, and the screen of the diagnostics is only open
    with diagnostics to show. *)
Theorem tui_invariant P c : tui_reaches LOG_IDENTIFIER P c →
  let s := th_state c in
  str_all is_digit (tu_loginTotp s) = true ∧ (String.length (tu_loginTotp s) <= 6)%nat ∧
  tu_loginFocus s ∈ focus_order (tu_loginUseEnv s) ∧
  (tu_phase s = TuiDiagnostics → is_Some (tu_diag s)).
Proof.
  intros Hc. destruct (reaches_kept _ tui_ok ok_frame P c (λ k s _, tui_key_ok k s) tui_start_ok Hc) as [[Ht Hl] Hf Hd].
  done.
Qed.
End Invariant.

(** ** Typing into the form *)

(** The letters that are commands of the form, in whatever field the focus is. *)
Definition hotkey (c : ascii) : bool := existsb (Ascii.eqb c) ["a"; "j"; "k"; "q"]%char.

Definition typable (s : string) : bool := str_all (λ c, negb (hotkey c)) s.

(** A key that enters at most one character, which is what a keyboard sends; a paste may send more. *)
Definition single_key (k : key_press) : Prop := (String.length (kp_input k) <= 1)%nat.

Definition letter (c : ascii) : key_press :=
  {| kp_input := String c ""; kp_escape := false; kp_tab := false; kp_up := false; kp_down := false;
     kp_return := false; kp_backspace := false; kp_delete := false |}.

Section Typing.
Context `{Runtime} (LOG_IDENTIFIER : string).

Fixpoint typing (t : string) (s : tui) : tui :=
  match t with EmptyString => s | String c t => typing t (fst (tui_key (letter c) s)) end.

Record form_typable (s : tui) : Prop := {
  ft_email : typable (tu_loginEmail s) = true;
  ft_password : typable (tu_loginPassword s) = true }.

Lemma single_typable k : single_key k → types "a" k = false → types "j" k = false → types "k" k = false →
  types "q" k = false → typable (kp_input k) = true.
Proof.
  unfold single_key, types. destruct (kp_input k) as [|c [|]]; cbn; [done| |lia]. intros _.
  unfold hotkey. cbn. by repeat destruct (Ascii.eqb c _).
Qed.

Lemma erase_typable s : form_typable s → form_typable (erase s).
Proof.
  intros [He Hp]. unfold erase, drop_last. case_match; split; try done; by apply str_all_take.
Qed.

Lemma type_typable input s : typable input = true → form_typable s → form_typable (type_text input s).
Proof.
  intros Hi [He Hp]. unfold typable in *.
  unfold type_text. case_match; split; try done; apply (eq_trans (str_all_app _ _ _)); by apply andb_true_intro.
Qed.

Lemma tui_key_typable k s : single_key k → form_typable s → form_typable (fst (tui_key k s)).
Proof.
  intros Hk Hs. unfold tui_key. destruct (types "q" k || kp_escape k) eqn:Eq; [destruct (tu_phase s); by destruct Hs; split|].
  apply orb_false_iff in Eq as [Eq _].
  destruct (tu_phase s); try done.
  - unfold login_key. destruct (types "a" k) eqn:Ea; [by destruct Hs; split|]. case_match; [case_match; by destruct Hs; split|].
    destruct (_ || types "j" k) eqn:Ej; [by destruct Hs; split|]. apply orb_false_iff in Ej as [_ Ej].
    destruct (_ || types "k" k) eqn:Ek; [by destruct Hs; split|]. apply orb_false_iff in Ek as [_ Ek].
    repeat (case_match; [done || by apply erase_typable|]). by apply type_typable; [apply single_typable|].
  - unfold inventory_key, move_selection, toggle_expanded. repeat (case_match; cbn [fst]; try done); by destruct Hs; split.
Qed.

(** One letter that is no command, while the advanced options are closed. *)
Lemma letter_typed c s : tu_phase s = TuiLogin → tu_loginAdvanced s = false → hotkey c = false →
  tu_loginFocus s ≠ FieldSubmit → fst (tui_key (letter c) s) = type_text (String c "") s.
Proof.
  intros Hp Ha Hc Hf. unfold hotkey in Hc. cbn in Hc. unfold tui_key, login_key, types. cbn [kp_input letter].
  cbn. rewrite Hp, Ha, bool_decide_false by done.
  by repeat destruct (Ascii.eqb c _).
Qed.

Lemma type_text_fields i s : let s' := type_text i s in
  tu_phase s' = tu_phase s ∧ tu_loginAdvanced s' = tu_loginAdvanced s ∧ tu_loginFocus s' = tu_loginFocus s ∧
  (tu_loginFocus s = FieldEmail → tu_loginEmail s' = tu_loginEmail s +:+ i) ∧
  (tu_loginFocus s = FieldPassword → tu_loginPassword s' = tu_loginPassword s +:+ i).
Proof. cbv zeta. unfold type_text. case_match; split_and!; try done; congruence. Qed.

(** What can be typed into the sign-in form of the terminal (tui.tsx), key by key: the email and the
    password never hold one of the letters a, j, k and q, which are commands in every field (q even
    quits), however long the interface runs; a text without them, typed into either field while the
    advanced options are closed, is there in full. *)
Theorem tui_typing :
  (∀ c, tui_reaches LOG_IDENTIFIER single_key c →
     typable (tu_loginEmail (th_state c)) = true ∧ typable (tu_loginPassword (th_state c)) = true) ∧
  (∀ s t, tu_phase s = TuiLogin → tu_loginAdvanced s = false → typable t = true →
     (tu_loginFocus s = FieldEmail → tu_loginEmail (typing t s) = tu_loginEmail s +:+ t) ∧
     (tu_loginFocus s = FieldPassword → tu_loginPassword (typing t s) = tu_loginPassword s +:+ t)).
Proof.
  split.
  - intros c Hc. assert (form_typable (th_state c)) as []; [|done].
    eapply reaches_kept; [|exact tui_key_typable| |exact Hc]; [|by split].
    intros s s' [= E1 E2 _ _ _ _] _ []. split; congruence.
  - intros s t. revert s. induction t as [|c t IH]; intros s Hp Ha Ht.
    { cbn. by rewrite !app_empty. }
    apply andb_prop in Ht as [Hc Ht]. apply negb_true_iff in Hc. cbn [typing].
    destruct (type_text_fields (String c "") s) as (Hp' & Ha' & Hf' & He' & Hw').
    destruct (IH (type_text (String c "") s)) as [He Hw]; [congruence..|done|].
    split; intros Hf; rewrite letter_typed by (done || by rewrite Hf).
    + rewrite He, He' by congruence. apply app_assoc_str.
    + rewrite Hw, Hw' by congruence. apply app_assoc_str.
Qed.

(** An address with one of these letters: the first one opens the options, the last one quits. *)
Example typing_quits :
  let s := typing "jack@q.io" (tui_start <| tu_phase := TuiLogin |>) in
  tu_exited s = true ∧ tu_loginEmail s ≠ "jack@q.io".
Proof. by vm_compute. Qed.
End Typing.

(** ** What the screens show of the password *)

Section Secret.
Context `{Runtime}.

Definition with_password (p : string) (s : tui) : tui := s <| tu_loginPassword := p |>.

(** Where the focus is, what can be submitted and what is listed do not depend on the password's letters. *)
Lemma with_password_fields p s : let s' := with_password p s in
  tu_phase s' = tu_phase s ∧ notices s' = notices s ∧ title s' = title s ∧ totpOk s' = totpOk s ∧
  (∀ env, hydrating_screen env s' = hydrating_screen env s) ∧ diagnostics_screen s' = diagnostics_screen s ∧
  (∀ env, inventory_screen env s' = inventory_screen env s).
Proof. by repeat split. Qed.

Lemma mask_length p q : Nat.min 12 (String.length p) = Nat.min 12 (String.length q) →
  Tui.mask p = Tui.mask q ∧ str_truthy p = str_truthy q.
Proof.
  unfold Tui.mask. destruct p as [|c p], q as [|d q]; cbn [String.length str_truthy]; intros E; try done; try lia.
  by rewrite E.
Qed.

(** C33: No screen of the terminal (tui.tsx) shows the password: two states that differ in it alone have the
    same screen as long as both passwords have the same length, where twelve characters and more count
    as twelve; with the address and the password of the environment, the screen says nothing of what was typed. *)
Theorem tui_screen_secret env s p :
  Nat.min 12 (String.length p) = Nat.min 12 (String.length (tu_loginPassword s)) ∨ tu_loginUseEnv s = true →
  screen env (with_password p s) = screen env s.
Proof.
  intros Hp. destruct (with_password_fields p s) as (E1 & E2 & E3 & E4 & E5 & E6 & E7).
  unfold screen. rewrite E1, E3, E5, E6, E7. destruct (tu_phase s); try done.
  unfold login_screen. rewrite E2, E3, E4.
  assert (canSubmitLogin (te_ready env) (with_password p s) = canSubmitLogin (te_ready env) s ∧
    (if tu_loginUseEnv s then "(env)" else or_empty (Tui.mask p)) =
    (if tu_loginUseEnv s then "(env)" else or_empty (Tui.mask (tu_loginPassword s)))) as [-> Hm].
  { unfold canSubmitLogin. rewrite E4. cbn. destruct Hp as [[Hm Ht]%mask_length| ->]; [|done]. by rewrite Hm, Ht. }
  unfold field_line. cbn. by rewrite Hm.
Qed.
End Secret.

(** ** Moving the selection *)

Section Selection.
Context `{Runtime}.

Definition down_key : key_press := letter "j".
Definition up_key : key_press := letter "k".

Fixpoint pressed (n : nat) (k : key_press) (s : tui) : tui :=
  match n with O => s | S n => pressed n k (fst (tui_key k s)) end.

(** The selection is the [i]-th row of the list. *)
Definition selects (s : tui) (i : nat) : Prop := ∃ u, flat_uuids s !! i = Some u ∧ tu_selectedUuid s = Some u.

Lemma index_of_lookup (l : list string) i u : NoDup l → l !! i = Some u → index_of u l = Z.of_nat i.
Proof.
  intros Hnd Hi. unfold index_of.
  destruct (list_find (λ y, y = u) l) as [[j y]|] eqn:E.
  - apply list_find_Some in E as (Hj & -> & _). f_equal. by eapply NoDup_lookup.
  - exfalso. eapply list_find_None in E. rewrite Forall_lookup in E. by eapply (E i u).
Qed.

Lemma move_selects by_ s i : NoDup (flat_uuids s) → selects s i →
  let i' := Z.to_nat (Z.max 0 (Z.min (Z.of_nat (length (flat_uuids s)) - 1) (Z.of_nat i + by_))) in
  selects (move_selection by_ s) i' ∧ flat_uuids (move_selection by_ s) = flat_uuids s ∧
  tu_phase (move_selection by_ s) = tu_phase s.
Proof.
  intros Hnd (u & Hu & Hs) i'. unfold move_selection. rewrite Hs, (index_of_lookup _ i) by done.
  pose proof (lookup_lt_Some _ _ _ Hu). rewrite (Z.max_r 0 (Z.of_nat i)) by lia. fold i'.
  destruct (lookup_lt_is_Some_2 (flat_uuids s) i') as [u' Hu']; [lia|]. rewrite Hu'.
  split; [|done]. by exists u'.
Qed.

Lemma keep_selects s : let s' := keep_selection s in
  (flat_uuids s' = [] ∧ tu_selectedUuid s' = None) ∨ ∃ i, selects s' i.
Proof.
  assert (Hfirst : let s1 := s <| tu_selectedUuid := head (flat_uuids s) |> in
    (flat_uuids s1 = [] ∧ tu_selectedUuid s1 = None) ∨ ∃ i, selects s1 i).
  { cbv zeta. unfold selects. change (flat_uuids (s <| tu_selectedUuid := _ |>)) with (flat_uuids s).
    change (tu_selectedUuid (s <| tu_selectedUuid := ?u |>)) with u.
    destruct (flat_uuids s) as [|u l]; [by left|]. right. by exists 0%nat, u. }
  unfold keep_selection. destruct (tu_selectedUuid s) as [u|] eqn:E; cbn [mbind option_bind]; [|exact Hfirst].
  destruct (nonempty u) as [u'|] eqn:En; [|exact Hfirst]. apply nonempty_Some in En as [-> _].
  case_bool_decide as Hin; [|exact Hfirst]. right. apply list_elem_of_lookup_1 in Hin as [i Hi]. by exists i, u'.
Qed.

(** The selection of the inventory screen (tui.tsx): after every render it is a listed device, or none
    where none is listed; from the row [i] of [n], pressing [j] [m] times selects the row
    [min (n - 1) (i + m)] and [k] [m] times the row [i - m], or the first, so that every listed device can be
    selected from every other. *)
Theorem tui_selection s :
  (∀ s', s' = fst (due_effects s) →
     (flat_uuids s' = [] ∧ tu_selectedUuid s' = None) ∨ ∃ i, selects s' i) ∧
  (∀ i m, NoDup (flat_uuids s) → tu_phase s = TuiInventory → selects s i →
     selects (pressed m down_key s) (Nat.min (length (flat_uuids s) - 1) (i + m)) ∧
     selects (pressed m up_key s) (i - m)).
Proof.
  split; [intros s' ->; apply keep_selects|].
  intros i m Hnd. revert s i Hnd. induction m as [|m IH]; intros s i Hnd Hp Hs; cbn [pressed].
  - pose proof Hs as (u & Hu%lookup_lt_Some & _). rewrite Nat.sub_0_r, Nat.add_0_r, Nat.min_r by lia. done.
  - assert (fst (tui_key down_key s) = move_selection 1 s) as -> by (unfold tui_key; cbn; by rewrite Hp).
    assert (fst (tui_key up_key s) = move_selection (-1) s) as -> by (unfold tui_key; cbn; by rewrite Hp).
    pose proof Hs as (u & Hu%lookup_lt_Some & _).
    destruct (move_selects 1 s i Hnd Hs) as (Hd & Ed & Pd). destruct (move_selects (-1) s i Hnd Hs) as (Hu' & Eu & Pu).
    destruct (IH (move_selection 1 s) _ ltac:(by rewrite Ed) ltac:(by rewrite Pd) Hd) as [H1 _].
    destruct (IH (move_selection (-1) s) _ ltac:(by rewrite Eu) ltac:(by rewrite Pu) Hu') as [_ H2].
    rewrite Ed in H1. split; (eapply eq_rect; [eassumption|lia]).
Qed.
End Selection.

(** ** Building the inventory *)

Section Hydrate.
Context `{Runtime}.
Abbreviation T := (prog tui unit sysE).

Lemma modify_runs {St R} (f : St → St) tr (r : result unit) : runs (modify f : prog St R sysE unit) tr r → tr = [] ∧ r = Ok tt.
Proof. by intros [s [-> ->]]. Qed.

Lemma modify_then {St R A} (f : St → St) (q : prog St R sysE A) tr r : runs (modify f ;;! q) tr r → runs q tr r.
Proof. by intros [(t1 & t2 & [] & -> & [-> _]%modify_runs & Hr)|(e & [_ [=]]%modify_runs & _)]%runs_bind. Qed.

(** What is shielded by a handler that only changes the state never throws. *)
Lemma shielded_runs {St R} (p : prog St R sysE unit) h f tr r :
  (∀ e t r', runs (h e) t r' → t = [] ∧ r' = Ok tt) →
  runs (finally (catch p h) (modify f)) tr r → r = Ok tt ∧ ∃ r', runs p tr r'.
Proof.
  intros Hh. unfold finally. intros [(t1 & t2 & r1 & -> & Hb & Hend)|(e & Hb & _)]%runs_bind.
  - apply modify_then in Hend. apply runs_catch in Hb as [(a & Hb & [= ->])|(t5 & t6 & e & -> & Hb & [-> [= ->]])].
    + apply runs_bind in Hb as [(t5 & t6 & [] & -> & Hb & [-> [= ->]])|(? & _ & [=])]. destruct Hend as [-> ->].
      rewrite !app_nil_r. split; [done|].
      apply runs_catch in Hb as [([] & Hb & _)|(t7 & t8 & e & -> & Hb & [-> _]%Hh)]; rewrite ?app_nil_r; eauto.
    + exfalso. apply runs_bind in Hb as [(? & ? & [] & _ & _ & [_ [=]])|(e' & Hb & [= <-])].
      apply runs_catch in Hb as [(? & _ & [=])|(t7 & t8 & e' & _ & _ & [_ [=]]%Hh)].
  - exfalso. apply runs_catch in Hb as [(? & _ & [=])|(t5 & t6 & e' & _ & _ & [_ [=]])].
Qed.









End Hydrate.

(** ** Switching the selected device *)

Section Toggle.
Context `{Runtime}.

Lemma quiet_configured_key {St R} c : calls silent (configured_key c : prog St R sysE _).
Proof. unfold configured_key. quiet_tac. Qed.

Lemma selected_target_runs c tr r : runs (selected_target c) tr r → quiet tr ∧
  ((∃ key host, r = Ok (key, host) ∧ selected_host c = Some host ∧ host ≠ "") ∨ ∃ e, r = Err e).
Proof.
  intros Hr. split; [eapply quiet_runs; [|exact Hr]; unfold selected_target; pose proof @quiet_configured_key; quiet_tac; auto|].
  destruct r as [[key host]|e]; [left|eauto]. exists key, host. split; [done|]. revert tr Hr.
  assert (Hp : wp (selected_target c) (λ _ r, match r with Ok (_, h) => selected_host c = Some h ∧ h ≠ "" | Err _ => True end)).
  { unfold selected_target. apply wp_bind, wp_runs. intros tr [[k|]|e] _; [|done..].
    destruct (nonempty (selected_uuid c)); [|done]. destruct (selected_host c) as [h|]; [|done]. cbn.
    destruct (nonempty h) as [h'|] eqn:E; [|done]. apply nonempty_Some in E as [-> ?]. done. }
  intros tr Hr. rewrite wp_runs in Hp. exact (Hp _ _ Hr).
Qed.

(** [reporting] does what its body does, and never throws. *)
Lemma reporting_runs p tr r : runs (reporting p) tr r → r = Ok tt ∧ ∃ r', runs p tr r'.
Proof.
  intros [-> [r' Hr]]%shielded_runs; [|by intros ? ? ? ?%modify_runs]. split; [done|]. exists r'. by apply modify_then in Hr.
Qed.

(** The switch of the terminal (tui.tsx, [doToggle]) never writes the configuration. With a host for
    the selection and a key it sends one signed SET of the ToggleX namespace to that host, for channel 0,
    and never throws. Without a host it sends nothing and throws, in a promise that nobody handles. *)
Theorem doToggle_spec c onoff tr r : runs (doToggle c onoff) tr r →
  saved tr = [] ∧
  ((∃ e, r = Err e ∧ fetched tr = []) ∨
   (∃ key host rq, selected_host c = Some host ∧ host ≠ "" ∧ r = Ok tt ∧ fetched tr = [rq] ∧
      signed_request {| lt_host := host; lt_key := key; lt_timeoutMs := Some (num_of_Z 5000) |}
        NAMESPACE_TOGGLEX "SET" (togglex_payload 0 onoff) rq)) ∧
  (selected_host c ≫= nonempty = None → ∃ e, r = Err e).
Proof.
  unfold doToggle, on_selected.
  intros [(t1 & t2 & [key host] & -> & Ht & Hr)|(e & Ht & ->)]%runs_bind;
    apply selected_target_runs in Ht as [Hq Ht].
  2:{ split_and!; eauto using quiet_saved, quiet_fetched. }
  destruct Ht as [(k & h & [= <- <-] & Hh & Hne)|(e & [=])].
  assert (Hm : saved t2 = [] ∧ r = Ok tt ∧ ∃ rq, fetched t2 = [rq] ∧
    signed_request {| lt_host := host; lt_key := key; lt_timeoutMs := Some (num_of_Z 5000) |}
      NAMESPACE_TOGGLEX "SET" (togglex_payload 0 onoff) rq).
  { apply runs_bind in Hr as [(t3 & t4 & [] & -> & [-> _]%modify_runs & Hr)|(? & [_ [=]]%modify_runs & _)].
    apply reporting_runs in Hr as [-> [r' Hr]]. unfold setToggleX in Hr.
    apply lan_then in Hr as (rq & t5 & t6 & -> & Hf & Hs & Hsig & [(v & _ & [-> _])|(-> & _)]); rewrite app_nil_r; eauto. }
  destruct Hm as (Hs & -> & rq & Hf & Hsig). rewrite saved_app, fetched_app, quiet_saved, quiet_fetched, Hs, Hf by done.
  split_and!; [done| |].
  - right. by exists key, host, rq.
  - rewrite Hh. cbn. intros E. destruct (nonempty host) eqn:En; [done|]. unfold nonempty in En. by destruct host.
Qed.
End Toggle.

(** ** Concrete runs *)

(** A configuration with a device "u1" at a known address, and a cloud that lists a device "u7". *)
Definition tui_config : MerossConfig := with_devices "now" [VObj [("uuid", VStr "u1")]] known_config.

Definition tui_answer (X : Type) (n : nat) (e : sysE X) : X :=
  match e in sysE X return X with
  | NetworkInterfaces =>
      [("en0", [{| ia_family := "IPv4"; ia_internal := false; ia_address := "10.0.0.9"; ia_netmask := "255.255.255.252" |}])]
  | ScanAll _ => home_replies
  | e => test_answer (ConfigText tui_config) (replies list_reply) _ n e
  end.

Abbreviation terminal := (@threads tui unit sysE).

Definition tui_renders (c : terminal) : terminal := call_run server_sync (λ X e, tui_answer X 0 e) (effects (H := rt)) c.
Definition tui_presses (k : key_press) (c : terminal) : terminal := call_run server_sync (λ X e, tui_answer X 0 e) (press (H := rt) "log" k) c.
Definition tui_resumes (l : list nat) (c : terminal) : terminal :=
  fold_left (λ c i, resume_run server_sync never_settles (λ X e, tui_answer X 0 e) i c) l c.

Lemma tui_resumes_steps P l c : tui_steps (H := rt) "log" P c (tui_resumes l c).
Proof.
  revert c. induction l as [|i l IH]; intros c; [apply rtc_refl|]. cbn.
  eapply steps_trans; [apply resume_run_steps|apply IH].
Qed.

(** The interface signs in with the stored key, and starts the sequence. *)
Definition tui_hydrating : terminal :=
  tui_renders (tui_resumes [1; 1]%nat (tui_renders {| th_state := tui_start; th_threads := [] |})).

(** The cloud has answered: the device list is stored, and the render that follows starts the sequence again. *)
Definition tui_refreshed : terminal := tui_renders (tui_resumes [3; 3]%nat tui_hydrating).

(** The scan of the first sequence is over: its write put the old device list back, which the second
    sequence, still waiting for the cloud, will replace again. *)
Definition tui_scanned : terminal := tui_resumes [3; 3; 3]%nat tui_refreshed.

Lemma tui_renders_step P c : tui_steps (H := rt) "log" P c (tui_renders c).
Proof. apply rtc_once, call_run_step. constructor. Qed.

Lemma tui_scanned_reached P : tui_reaches (H := rt) "log" P tui_scanned.
Proof.
  do 3 (eapply steps_trans; [|apply tui_resumes_steps]; eapply steps_trans; [|apply tui_renders_step]).
  apply rtc_refl.
Qed.

Example hydrate_twice :
  tu_devices (th_state tui_scanned) = [VObj [("uuid", VStr "u7")]] ∧
  cf_devices (cfg_of (th_state tui_scanned)) = Some ("now", [VObj [("uuid", VStr "u1")]]) ∧
  tu_phase (th_state tui_refreshed) = TuiHydrating ∧ length (th_threads tui_refreshed) = 6%nat ∧
  match nth 5 (th_threads tui_scanned) (Ret tt) with Sys (Fetch rq) _ => starts_with "https://" (rq_url rq) | _ => false end = true.
Proof. by vm_compute. Qed.

Lemma tui_invariant_witness : tu_loginFocus (th_state tui_scanned) ∈ [FieldEmail; FieldPassword; FieldTotp; FieldSubmit].
Proof.
  destruct (@tui_invariant rt "log" single_key tui_scanned (tui_scanned_reached _)) as (_ & _ & Hf & _). exact Hf.
Defined.

(** Two devices at known addresses, the first one selected. *)
Definition tui_two : tui :=
  fst (due_effects (H := rt)
    {| tu_phase := TuiInventory; tu_cfg := Some tui_config; tu_error := None; tu_busy := None;
       tu_devices := [VObj [("uuid", VStr "u1")]; VObj [("uuid", VStr "u2")]];
       tu_hosts := hosts_of known_config; tu_cidr := "10.0.0.8/30"; tu_selectedUuid := None; tu_expandedUuid := None;
       tu_diag := None; tu_loginEmail := ""; tu_loginPassword := ""; tu_loginTotp := ""; tu_loginUseEnv := false;
       tu_loginAdvanced := false; tu_loginFocus := FieldEmail; tu_exited := false; tu_cfgSets := 1; tu_loaded := true;
       tu_deps := None |}).

Lemma tui_selection_witness : selects (H := rt) (pressed (H := rt) 3 (down_key) tui_two) 1.
Proof.
  destruct (@tui_selection rt tui_two) as [_ Hm].
  destruct (Hm 0%nat 3%nat) as [Hd _].
  - apply (bool_decide_unpack _). vm_compute. exact I.
  - reflexivity.
  - exists "u1". split; vm_compute; reflexivity.
  - exact Hd.
Defined.

Definition tui_place : tui_env := {| te_ready := false; te_cfgPath := "/home/u/.config/merossity/config.json"; te_suggested := None |}.

Definition tui_form : tui := tui_start <| tu_phase := TuiLogin |> <| tu_loginPassword := "twelve chars" |>.

Lemma tui_screen_secret_witness :
  screen (H := rt) tui_place (with_password "correct horse battery" tui_form) = screen (H := rt) tui_place tui_form ∧
  Line "  Password: ••••••••••••" ∈ screen (H := rt) tui_place tui_form.
Proof.
  split; [|do 6 right; left].
  exact (@tui_screen_secret rt tui_place tui_form "correct horse battery" (or_introl eq_refl)).
Defined.

Definition tui_run (p : prog tui unit sysE unit) : list sys_event * result unit :=
  exec {| o_sys := tui_answer; o_state := tui_two; o_await := λ _, Ok tt |} 0 p.



Lemma doToggle_spec_witness : ∃ rq, fetched (fst (tui_run (doToggle (H := rt) tui_two true))) = [rq] ∧
  snd (tui_run (doToggle (H := rt) tui_two true)) = Ok tt.
Proof.
  destruct (@doToggle_spec rt tui_two true (fst (tui_run (doToggle (H := rt) tui_two true)))
    (snd (tui_run (doToggle (H := rt) tui_two true))) (exec_runs _ _ _))
    as (_ & [(e & He & _)|(key & host & rq & _ & _ & Hok & Hf & _)] & _).
  - vm_compute in He. discriminate.
  - exists rq. split; [exact Hf|exact Hok].
Defined.
