(* ===== verification/Views.v ===== *)
(** * What the views of the web client decide

    The logic inside the React components of apps/web/src/views/devices: which light and which state a
    card shows, the colours as text, the requests it posts, the tabs it offers (SmartLightControls.tsx,
    DeviceCard.tsx), and when the inventory scans after a refresh (InventoryView.tsx). What they show and
    the local state of the inputs are in Lights.v, Card.v and Shell.v. *)

From S2P Require Export DevicesMachine.

Local Open Scope string_scope.
Local Open Scope Z_scope.
Local Open Scope list_scope.

(** ** Lights (SmartLightControls.tsx) *)

(** The light the controls show: the main one, that of channel 0, else the first. *)
Definition shown_light (state : option DeviceState) : option light_channel :=
  let lights := (state ≫= vs_lights) ?: [] in
  match state ≫= vs_light with
  | Some l => Some l
  | None => match light0 lights with Some l => Some l | None => head lights end
  end.

(** [clamp(n, lo, hi)], and [clamp(Math.round(n), lo, hi)], which is exact where the rounding is. *)
Definition clamp (n : num) (lo hi : Z) : num := num_max (num_of_Z lo) (num_min (num_of_Z hi) n).

Definition clamp_round (n : num) (lo hi : Z) : num :=
  match num_round n with Some z => num_of_Z (Z.max lo (Z.min hi z)) | None => clamp n lo hi end.

(** [Number.isFinite(Number(v)) ? clamp(Number(v), 0, hi) : fallback] *)
Definition shown_number (v : option num) (hi fallback : Z) : num :=
  match v with Some n => if is_finite n then clamp n 0 hi else num_of_Z fallback | None => num_of_Z fallback end.

Definition deviceLum (light : option light_channel) : num := shown_number (light ≫= lc_luminance) 100 50.
Definition deviceTemp (light : option light_channel) : num := shown_number (light ≫= lc_temperature) 100 50.
Definition deviceRgb (light : option light_channel) : num := shown_number (light ≫= lc_rgb) 16777215 16738816.

(** [n.toString(16)] of a natural number with at most [fuel] digits. *)
Fixpoint radix16 (fuel : nat) (n : Z) (acc : string) : string :=
  match fuel with
  | O => acc
  | S fuel => let acc := String (hex_digit (n mod 16)) acc in if n <? 16 then acc else radix16 fuel (n / 16) acc
  end.

(** [s.padStart(n, '0')] *)
Definition pad_start (n : nat) (s : string) : string := str_repeat "0" (n - String.length s) +:+ s.

(** [rgbToHex]; what [toString(16)] makes of no number is [NaN]. *)
Definition rgbToHex (rgb : num) : string :=
  "#" +:+ pad_start 6 (match num_Z (clamp_round rgb 0 16777215) with Some z => radix16 6 z "" | None => "NaN" end).

(** [/^#?([0-9a-f]{6})/i], and with [$]: the six digits as a number. *)
Definition drop_hash (s : string) : string := match s with String "#" s' => s' | _ => s end.

Definition hex6 (s : string) : option Z :=
  let digits := str_take 6 s in
  if Nat.eqb (String.length digits) 6 && str_all is_hex digits then read_radix 16 0 digits else None.

Definition rgbIntFromColor (text : string) : option Z := hex6 (drop_hash (trim text)).

(** [x >> n] *)
Definition sar (x n : Z) : Z := Z.shiftr (int32 x) n.

Definition hexToRgb (hex : string) : option (Z * Z * Z) :=
  let s := drop_hash (trim hex) in
  if Nat.eqb (String.length s) 6 then
    (λ raw, (bit_and (sar raw 16) 255, bit_and (sar raw 8) 255, bit_and raw 255)) <$> hex6 s
  else None.

(** What the controls change; [None] for a field left out. *)
Record light_patch := { lp_luminance : option num; lp_temperature : option num; lp_rgb : option num }.

(** The body of [sendLight]: any adjustment turns the light on. *)
Definition light_body (uuid : string) (patch : light_patch) : val :=
  VObj ([("uuid", VStr uuid); ("channel", VZ 0); ("onoff", VZ 1)] ++
        opt_prop "luminance" (λ n, VNum (clamp_round n 0 100)) (lp_luminance patch) ++
        opt_prop "temperature" (λ n, VNum (clamp_round n 0 100)) (lp_temperature patch) ++
        opt_prop "rgb" (λ n, VNum (clamp_round n 0 16777215)) (lp_rgb patch)).

(** ** The card of a device (DeviceCard.tsx) *)

Definition device_text (k : string) (d : val) : string := str_or_empty (prop k d).

Definition friendlyDeviceTypeFromModel (model : string) : string :=
  let m := to_upper (trim model) in
  match js_find (λ '(prefix, _), starts_with prefix m)
          [("MSS", "Smart Wi-Fi Plug"); ("MSL", "Smart Wi-Fi Light"); ("MSP", "Smart Power Strip");
           ("MTS", "Smart Thermostat"); ("MSH", "Smart Sensor"); ("MSG", "Smart Garage Opener");
           ("MRS", "Smart Roller Shutter")] with
  | Some (_, label) => label
  | None => ""
  end.

Definition type_key (d : val) : string := device_text "deviceType" d +:+ " " +:+ device_text "subType" d.

Definition prefersToggleFor (d : val) : bool :=
  let typeKey := to_lower (type_key d) in
  includes "msl" typeKey || includes "mss" typeKey || includes "light" typeKey || includes "switch" typeKey.

Definition isPlugLike (d : val) : bool :=
  let m := to_upper (trim (device_text "deviceType" d)) in
  let typeKey := to_upper (type_key d) in
  starts_with "MSS" m || starts_with "MSP" m ||
  (includes "MSS" typeKey || includes "MSP" typeKey || includes "PLUG" typeKey || includes "STRIP" typeKey).

Definition isSmartLight (d : val) (state : option DeviceState) : bool :=
  starts_with "MSL" (to_upper (trim (device_text "deviceType" d))) ||
  bool_decide (state ≫= vs_kind = Some "light") || bool_decide (state ≫= vs_kind = Some "mixed") ||
  negb (Nat.eqb (length ((state ≫= vs_lights) ?: [])) 0).

(** Whether the device is shown on or off, or neither. *)
Definition lanOn (state : option DeviceState) : option bool :=
  match state with
  | None => None
  | Some s =>
      let light := match vs_light s with Some l => Some l | None => light0 (vs_lights s ?: []) end in
      let ch0 := js_find (λ c, tx_channel c =? 0) (vs_channels s ?: []) in
      Some (match light with
            | Some l => lc_onoff l
            | None => match ch0 with Some c => tx_onoff c | None => vs_onoff s end
            end)
  end.

Inductive ManageTabId : Type := TabColor | TabPower | TabSchedules | TabDiagnostics.

#[export] Instance ManageTabId_eq_dec : EqDecision ManageTabId.
Proof. solve_decision. Defined.

Definition availableTabs (smartLight plugLike : bool) : list ManageTabId :=
  (if smartLight then [TabColor] else []) ++ (if plugLike then [TabPower] else []) ++ [TabSchedules; TabDiagnostics].

Definition normalizeTab (tabs : list ManageTabId) (t : ManageTabId) : ManageTabId :=
  if bool_decide (t ∈ tabs) then t else head tabs ?: TabDiagnostics.

(** The body of [refreshPowerHistory]: the last six hours in buckets of a minute. *)
Definition power_history_body (uuid : string) (now : Z) : val :=
  VObj [("uuid", VStr uuid); ("channel", VZ 0); ("fromMs", VZ (now - 6 * 60 * 60 * 1000)); ("toMs", VZ now);
        ("bucketMs", VZ 60000)].

(** The form of a timer: its fields are texts. *)
Record timer_editor := {
  te_create : bool; te_id : string; te_alias : string; te_channel : string; te_enable : bool; te_type : string;
  te_week : string; te_time : string; te_sunOffset : string; te_duration : string; te_toggleOnoff : bool }.

(** [isObjectRecord] of this file, which takes no array, and [toggleOnoffFromExtend]. *)
Definition plain_record (v : val) : bool := is_object v && negb (is_array v).

Definition toggleOnoffFromExtend (extend : val) : option bool :=
  let toggle := if plain_record extend then prop "toggle" extend else VUndef in
  if negb (plain_record toggle) then None
  else if is_undef (prop "onoff" toggle) then None
  else Some (is_one (prop "onoff" toggle)).

(** "Edit" of a listed rule: [String(t.k ?? fallback)]. *)
Definition editor_text (k : string) (fallback : Z) (t : val) : string := to_str (coalesce (prop k t) (VZ fallback)).

Definition rule_enabled (t : val) : bool :=
  match prop "enable" t with VNum n => num_eqb n (num_of_Z 1) | _ => false end.

Definition edit_timer (t : val) : timer_editor :=
  {| te_create := false; te_id := to_str (prop "id" t); te_alias := str_or_empty (prop "alias" t);
     te_channel := editor_text "channel" 0 t; te_enable := rule_enabled t; te_type := editor_text "type" 0 t;
     te_week := editor_text "week" 0 t; te_time := editor_text "time" (-1) t;
     te_sunOffset := editor_text "sunOffset" 0 t; te_duration := editor_text "duration" 0 t;
     te_toggleOnoff := toggleOnoffFromExtend (prop "extend" t) ?: false |}.

(** [Number(text)] *)
Definition number_of (text : string) : val := VNum (str_to_num text).

(** The request of "Save": the route and its body; [None] without an id. *)
Definition timer_patch (ed : timer_editor) : val :=
  VObj [("alias", VStr (te_alias ed)); ("channel", number_of (te_channel ed)); ("enable", bit_val (te_enable ed));
        ("type", number_of (te_type ed)); ("week", number_of (te_week ed)); ("time", number_of (te_time ed));
        ("sunOffset", number_of (te_sunOffset ed)); ("duration", number_of (te_duration ed));
        ("toggleOnoff", bit_val (te_toggleOnoff ed))].

Definition timer_record (id : string) (ed : timer_editor) : val :=
  VObj [("id", VStr id); ("alias", VStr (te_alias ed)); ("channel", number_of (te_channel ed));
        ("enable", bit_val (te_enable ed)); ("type", number_of (te_type ed)); ("week", number_of (te_week ed));
        ("time", number_of (te_time ed)); ("sunOffset", number_of (te_sunOffset ed));
        ("duration", number_of (te_duration ed));
        ("extend", VObj [("toggle", VObj [("onoff", bit_val (te_toggleOnoff ed))])]); ("createTime", VZ 0)].

Definition save_timer (uuid : string) (ed : timer_editor) : option (string * val) :=
  let id := trim (te_id ed) in
  if negb (str_truthy id) then None
  else if te_create ed then Some ("/api/device/timerx/set", VObj [("uuid", VStr uuid); ("timer", timer_record id ed)])
  else Some ("/api/device/timerx/patch", VObj [("uuid", VStr uuid); ("id", VStr id); ("patch", timer_patch ed)]).

(** "New timer", with the id drawn at random. *)
Definition create_timer (id : string) : timer_editor :=
  {| te_create := true; te_id := id; te_alias := ""; te_channel := "0"; te_enable := true; te_type := "0";
     te_week := "0"; te_time := "-1"; te_sunOffset := "0"; te_duration := "0"; te_toggleOnoff := true |}.

(** [res.k ?? []] *)
Definition list_of {St R} (k : string) (res : val) : prog St R webE val :=
  let! v := of_result (member k res) in Ret (coalesce v (VArr [])).

Definition listed_timers {St R} (uuid : string) : prog St R webE (val * val) :=
  let! res := apiPost "/api/device/timerx/list" (VObj [("uuid", VStr uuid)]) in
  let! digest := list_of "digest" res in
  let! timers := list_of "timers" res in
  Ret (digest, timers).

(** The trigger opened after a refresh: the id and the JSON shown, that of the reply or just the id. *)
Definition opened_trigger (digest res : val) : option (val * val) :=
  let firstId := match arr_items digest with e :: _ => coalesce (prop "id" e) VNull | [] => VNull end in
  if negb (truthy firstId) then None
  else
    let raw := prop (to_str firstId) (coalesce (prop "rawById" res) (VObj [])) in
    let payload := if plain_record raw then prop "payload" raw else VNull in
    let rule := if truthy payload && plain_record (prop "triggerx" payload) then prop "triggerx" payload else VNull in
    Some (firstId, coalesce rule (VObj [("id", firstId)])).

Definition listed_triggers {St R} (uuid : string) : prog St R webE val :=
  let! res := apiPost "/api/device/triggerx/list" (VObj [("uuid", VStr uuid)]) in list_of "digest" res.

(** "Save" of a trigger: its JSON, checked. *)
Definition trigger_of (text : string) : val + string :=
  match json_parse (if str_truthy text then text else "null") with
  | None => inr "Invalid JSON"
  | Some obj =>
      if plain_record obj && str_truthy (trim (str_or_empty (prop "id" obj))) then inl obj
      else inr ("Trigger JSON must be an object with a non-empty " +:+ quote +:+ "id" +:+ quote)
  end.

Definition trigger_body (uuid : string) (obj : val) : val := VObj [("uuid", VStr uuid); ("trigger", obj)].

(** ** The inventory (InventoryView.tsx) *)

(** The refs of the component, and the value of [isRefreshing] its effect last ran with. *)
Record inventory_view := {
  vw_shouldScanAfterRefresh : bool; vw_sawRefreshStart : bool; vw_isRefreshing : bool }.

Definition isRefreshing (m : devices) : bool := match dm_inventory m with RefreshingCloud => true | _ => false end.

Definition isScanning (m : devices) : bool :=
  match dm_inventory m with SuggestingCidr | DiscoveringHosts => true | _ => false end.

(** The effect on [isRefreshing]: the next refs, and whether it sends [SCAN]. *)
Definition refresh_effect (refreshing : bool) (v : inventory_view) : inventory_view * bool :=
  if refreshing then (v <| vw_sawRefreshStart := true |>, false)
  else if negb (vw_shouldScanAfterRefresh v) then (v, false)
  else if negb (vw_sawRefreshStart v) then (v, false)
  else (v <| vw_sawRefreshStart := false |> <| vw_shouldScanAfterRefresh := false |>, true).

(** The component after a change of the machine: it renders at once (React may skip a render when two
    changes come together), and its effect runs if [isRefreshing]
    changed; what it sends is handled and rendered in turn. *)
Definition render (now : Z) (v : inventory_view) (m : devices) : inventory_view * devices :=
  let v1 := v <| vw_isRefreshing := isRefreshing m |> in
  if Bool.eqb (isRefreshing m) (vw_isRefreshing v) then (v1, m)
  else let '(v2, scan) := refresh_effect (isRefreshing m) v1 in
       if scan then (v2, fst (devices_step now (Inventory ScanHosts) m)) else (v2, m).

Definition view_step (now : Z) (e : devices_event) (s : inventory_view * devices) : inventory_view * devices :=
  render now (fst s) (fst (devices_step now e (snd s))).

(** [startReload], of a button that is disabled while the inventory is busy. *)
Definition startReload (now : Z) (s : inventory_view * devices) : inventory_view * devices :=
  if isRefreshing (snd s) || isScanning (snd s) then s
  else view_step now (Inventory Refresh) ((fst s) <| vw_shouldScanAfterRefresh := true |>, snd s).

(** The first render: the effect that loads once sends [REFRESH], then the effect on [isRefreshing] runs
    with the value that was rendered. *)
Definition mount (now : Z) (m : devices) : inventory_view * devices :=
  let v := {| vw_shouldScanAfterRefresh := true; vw_sawRefreshStart := false; vw_isRefreshing := isRefreshing m |} in
  let m1 := fst (devices_step now (Inventory Refresh) m) in
  let '(v1, scan) := refresh_effect (isRefreshing m) v in
  render now v1 (if scan then fst (devices_step now (Inventory ScanHosts) m1) else m1).

Definition view_run (es : list (Z * devices_event)) (s : inventory_view * devices) : inventory_view * devices :=
  foldl (λ s '(now, e), view_step now e s) s es.
