(* ===== verification/ViewsSpec.v ===== *)
(** * What the views of the web client guarantee

    The colour shown as text reads back as the colour, the numbers a control sends are the ones the
    server passes on to the device, a reload scans exactly once, and which rules the timer editor can
    save: SmartLightControls.tsx, InventoryView.tsx and DeviceCard.tsx against the handlers behind them. *)

From S2P Require Export Views HandlersSpec.

Local Open Scope string_scope.
Local Open Scope Z_scope.
Local Open Scope list_scope.

(** ** Colours *)

Definition hex_char (c : ascii) : bool := is_hex c && negb (is_ws c).

Lemma hex_digit_ok z : 0 <= z < 16 → hex_char (hex_digit z) = true ∧ hex_val (hex_digit z) = z.
Proof.
  intros Hz. assert (F : Forall (λ z, hex_char (hex_digit z) = true ∧ hex_val (hex_digit z) = z) (seqZ 0 16))
    by (repeat (constructor; [done|]); constructor).
  rewrite Forall_forall in F. apply F, elem_of_seqZ. lia.
Qed.

Lemma read_radix_digit a d t : 0 <= d < 16 → read_radix 16 a (String (hex_digit d) t) = read_radix 16 (16 * a + d) t.
Proof.
  intros Hd. destruct (hex_digit_ok d Hd) as [[Hx _]%andb_prop Hv].
  assert (E : read_radix 16 a (String (hex_digit d) t) =
    if is_hex (hex_digit d) && (hex_val (hex_digit d) <? 16) then read_radix 16 (16 * a + hex_val (hex_digit d)) t else None)
    by reflexivity.
  rewrite E, Hx, Hv. by replace (d <? 16) with true by lia.
Qed.

Lemma read_radix_zeros k s : read_radix 16 0 (str_repeat "0" k +:+ s) = read_radix 16 0 s.
Proof. induction k as [|k IH]; cbn; [done|]. exact IH. Qed.

Lemma zeros_hex k : str_all hex_char (str_repeat "0" k) = true.
Proof. induction k as [|k IH]; [done|]. exact IH. Qed.

(** The digits of a number, before any text: hexadecimal ones, which read as the number. *)
Lemma radix16_ok fuel n acc : (fuel ≠ 0)%nat → 0 <= n < 16 ^ Z.of_nat fuel →
  ∃ s, radix16 fuel n acc = s +:+ acc ∧ str_all hex_char s = true ∧ (String.length s <= fuel)%nat ∧
       ∀ t, read_radix 16 0 (s +:+ t) = read_radix 16 n t.
Proof.
  revert n acc. induction fuel as [|fuel IH]; intros n acc Hf Hn; [done|]. cbn [radix16].
  pose proof (Z.mod_pos_bound n 16 eq_refl) as Hmod. pose proof (Z.div_mod n 16 ltac:(done)) as Hdm.
  destruct (hex_digit_ok (n mod 16) Hmod) as [Hh _].
  destruct (Z.ltb_spec n 16) as [Hs|Hs].
  - rewrite Z.mod_small in Hh |- * by lia. exists (String (hex_digit n) ""). split_and!; [done| |cbn; lia|].
    + exact (andb_true_intro (conj Hh eq_refl)).
    + intros t. change (String (hex_digit n) "" +:+ t) with (String (hex_digit n) t).
      rewrite read_radix_digit by lia. done.
  - rewrite Nat2Z.inj_succ, Z.pow_succ_r in Hn by lia.
    destruct fuel as [|fuel]; [change (16 ^ Z.of_nat 0) with 1 in Hn; lia|].
    destruct (IH (n / 16) (String (hex_digit (n mod 16)) acc) ltac:(done)) as (s & Hs1 & Hs2 & Hs3 & Hs4).
    { split; [apply Z.div_pos; lia|apply Z.div_lt_upper_bound; lia]. }
    exists (s +:+ String (hex_digit (n mod 16)) ""). rewrite Hs1. split_and!.
    + by rewrite app_assoc_str.
    + rewrite str_all_app, Hs2. exact (andb_true_intro (conj Hh eq_refl)).
    + rewrite length_app_str. cbn. lia.
    + intros t. rewrite app_assoc_str, Hs4.
      change (String (hex_digit (n mod 16)) "" +:+ t) with (String (hex_digit (n mod 16)) t).
      rewrite read_radix_digit by lia. f_equal. lia.
Qed.

(** The six digits of a colour. *)
Lemma colour_digits z : 0 <= z <= 16777215 →
  let s := pad_start 6 (radix16 6 z "") in
  str_all hex_char s = true ∧ String.length s = 6%nat ∧ read_radix 16 0 s = Some z.
Proof.
  intros Hz. destruct (radix16_ok 6 z "") as (s & -> & Hs & Hl & Hr); [done|lia|].
  specialize (Hr ""). rewrite app_empty in *. unfold pad_start. cbv zeta.
  split_and!.
  - by rewrite str_all_app, zeros_hex, Hs.
  - rewrite length_app_str, length_repeat_char. lia.
  - by rewrite read_radix_zeros, Hr.
Qed.

Lemma trim_end_solid s : str_all (λ c, negb (is_ws c)) s = true → trim_end s = s.
Proof.
  induction s as [|c s IH]; cbn; [done|]. intros [Hc Hs]%andb_prop. rewrite (IH Hs).
  apply negb_true_iff in Hc. rewrite Hc. by destruct s.
Qed.

Lemma str_all_mono (p q : ascii → bool) s : (∀ c, p c = true → q c = true) → str_all p s = true → str_all q s = true.
Proof. intros Hpq. induction s as [|c s IH]; cbn; [done|]. rewrite !andb_true_iff. naive_solver. Qed.

Lemma trim_colour s : str_all hex_char s = true → trim (String "#" s) = String "#" s.
Proof.
  intros Hs. unfold trim. rewrite trim_start_head by done. apply trim_end_solid. cbn.
  revert Hs. apply str_all_mono. unfold hex_char. intros c. rewrite andb_true_iff. tauto.
Qed.

(** The number a clamped one is, where the argument is finite. *)
Lemma clamp_round_Z n r lo hi : num_round n = Some r → - 2 ^ 53 < lo <= hi → hi < 2 ^ 53 →
  num_Z (clamp_round n lo hi) = Some (Z.max lo (Z.min hi r)).
Proof. intros Hr Hlo Hhi. unfold clamp_round. rewrite Hr. apply num_Z_of_Z. lia. Qed.

(** A colour shown as text reads back as the colour (SmartLightControls.tsx): for every finite number
    [rgbToHex] writes a hash and six hexadecimal digits, [rgbIntFromColor] of that text is the number
    rounded and cut to 24 bits, and [hexToRgb] its three bytes. *)
Theorem rgb_hex_roundtrip rgb r : num_round rgb = Some r →
  let z := Z.max 0 (Z.min 16777215 r) in
  String.length (rgbToHex rgb) = 7%nat ∧ rgbIntFromColor (rgbToHex rgb) = Some z ∧
  hexToRgb (rgbToHex rgb) = Some (z / 65536, z / 256 mod 256, z mod 256).
Proof.
  intros Hr z. assert (Hz : 0 <= z <= 16777215) by lia.
  destruct (colour_digits z Hz) as (Hs & Hl & Hv).
  unfold rgbToHex. rewrite (clamp_round_Z _ r) by done. fold z.
  set (s := pad_start 6 _) in *. change ("#" +:+ s) with (String "#" s).
  assert (H6 : hex6 s = Some z).
  { assert (Ht : str_take 6 s = s) by (rewrite <- Hl; apply take_all).
    unfold hex6. rewrite Ht, Hl. cbn [Nat.eqb andb].
    rewrite (str_all_mono hex_char) by (done || by intros c [? _]%andb_prop). exact Hv. }
  unfold rgbIntFromColor, hexToRgb. rewrite !trim_colour by done. cbn [drop_hash]. split_and!.
  - cbn. by rewrite Hl.
  - exact H6.
  - rewrite Hl, H6. cbn [fmap option_fmap option_map]. unfold sar. clearbody z. rewrite !bit_and_255, (int32_id z), !Z.shiftr_div_pow2 by lia.
    change (2 ^ 16) with 65536. change (2 ^ 8) with 256.
    rewrite (Z.mod_small (z / 65536)); [done|]. split; [apply Z.div_pos; lia|apply Z.div_lt_upper_bound; lia].
Qed.

Lemma rgb_hex_roundtrip_witness :
  rgbIntFromColor (rgbToHex (num_of_Z 65535)) = Some 65535 ∧
  hexToRgb (rgbToHex (num_of_Z 65535)) = Some (0, 255, 255).
Proof. exact (proj2 (rgb_hex_roundtrip (num_of_Z 65535) 65535 eq_refl)). Defined.

(** ** What the controls send *)

(** A number left out, or one that the server reads back as the slider showed it. *)
Definition sent_number (hi : Z) (o : option num) : option Z := (λ n, Z.max 0 (Z.min hi (round_finite n))) <$> o.

Definition patch_finite (p : light_patch) : Prop :=
  ∀ n, lp_luminance p = Some n ∨ lp_temperature p = Some n ∨ lp_rgb p = Some n → is_finite n = true.

Lemma read_number k hi m c body o : 0 <= hi < 2 ^ 53 → (∀ n, o = Some n → is_finite n = true) →
  prop k body = match o with Some n => VNum (clamp_round n 0 hi) | None => VUndef end →
  light_number k hi m c body = Go (sent_number hi o).
Proof.
  intros Hhi Hfin Hp. unfold light_number. rewrite Hp. destruct o as [n|]; [|done].
  assert (is_Some (num_round n)) as [r Hr] by (apply num_round_finite; eauto).
  unfold clampInt, asFiniteInt, loose_number, sent_number, round_finite. cbn [fmap option_fmap option_map].
  rewrite (num_round_Z _ (Z.max 0 (Z.min hi r))) by (apply clamp_round_Z; [done|lia..]). rewrite Hr.
  cbn. do 2 f_equal. lia.
Qed.

Lemma body_numbers uuid patch k o hi :
  In (k, o, hi) [("luminance", lp_luminance patch, 100); ("temperature", lp_temperature patch, 100);
                 ("rgb", lp_rgb patch, 16777215)] →
  prop k (light_body uuid patch) = match o with Some n => VNum (clamp_round n 0 hi) | None => VUndef end.
Proof.
  unfold light_body. intros [[= <- <- <-]|[[= <- <- <-]|[[= <- <- <-]|[]]]];
    by destruct (lp_luminance patch), (lp_temperature patch), (lp_rgb patch).
Qed.

(** What the light controls send (SmartLightControls.tsx) is what the light handler takes
    (set-device-light.ts): for finite numbers the body of [sendLight] names the device and channel 0,
    and the server reads it as a command that turns the light on and carries the numbers of the patch,
    each rounded and clamped once, and no other. *)
Theorem sendLight_accepted uuid patch : patch_finite patch →
  let body := light_body uuid patch in
  str_or_empty (prop "uuid" body) = uuid ∧ channel_of body = Some 0 ∧
  light_request body = Go {| lf_onoff := Some true; lf_luminance := sent_number 100 (lp_luminance patch);
                             lf_temperature := sent_number 100 (lp_temperature patch);
                             lf_rgb := sent_number 16777215 (lp_rgb patch) |}.
Proof.
  intros Hfin body. split; [done|]. split; [done|]. unfold light_request, body.
  rewrite (read_number "luminance" 100 _ _ _ (lp_luminance patch)) by (lia || eauto || (apply body_numbers; cbn; auto)).
  rewrite (read_number "temperature" 100 _ _ _ (lp_temperature patch)) by (lia || eauto || (apply body_numbers; cbn; auto)).
  rewrite (read_number "rgb" 16777215 _ _ _ (lp_rgb patch)) by (lia || eauto || (apply body_numbers; cbn; auto)).
  reflexivity.
Qed.

Lemma sendLight_accepted_witness :
  light_request (light_body "dev" {| lp_luminance := Some (str_to_num "140.2"); lp_temperature := None;
                                     lp_rgb := Some (num_of_Z 255) |}) =
  Go {| lf_onoff := Some true; lf_luminance := Some 100; lf_temperature := None; lf_rgb := Some 255 |}.
Proof.
  refine (proj2 (proj2 (sendLight_accepted "dev" _ _))).
  intros n [[= <-]|[[=]|[= <-]]]; reflexivity.
Defined.

(** ** Saving a timer *)

Definition action_path : list string := ["extend"; "toggle"; "onoff"].

Lemma path_jset ks k v rule : k ≠ "extend" →
  path ("extend" :: ks) (VObj (jset k v rule)) = path ("extend" :: ks) (VObj rule).
Proof. intros Hk. unfold path. cbn [foldl prop]. by rewrite jget_set_ne. Qed.

Lemma path_patch_field ks k f patch rule : k ≠ "extend" →
  path ("extend" :: ks) (VObj (patch_field k f patch rule)) = path ("extend" :: ks) (VObj rule).
Proof. intros Hk. unfold patch_field. case_match; [by apply path_jset|done]. Qed.

Lemma patch_toggle_go patch rule : wants "toggleOnoff" patch = true →
  (∃ rule', patch_toggle patch rule = Go rule') ↔ path action_path (VObj rule) ≠ VUndef.
Proof.
  intros Hw. unfold patch_toggle, path, action_path. rewrite Hw. cbn [foldl].
  destruct (prop "extend" (VObj rule)) as [| | | | | |e]; try (split; [by intros [? ?]|done]).
  destruct (prop "toggle" (VObj e)) as [| | | | | |t]; try (split; [by intros [? ?]|done]).
  destruct (prop "onoff" (VObj t)); cbn; split; try (by intros [? ?]); eauto; done.
Qed.

(** A number field of the form, before the rest of the patch. *)
Lemma patch_int_go k ok m c patch rule text (rest : record → outcome record) (Q : Prop) :
  prop k patch = number_of text → (∀ v, (∃ rule', rest (jset k v rule) = Go rule') ↔ Q) →
  (∃ rule', obind (patch_int k ok m c patch rule) rest = Go rule') ↔
  (is_finite (str_to_num text) = true ∧ ok (round_finite (str_to_num text)) = true) ∧ Q.
Proof.
  intros Hp HQ. unfold patch_int, wants, round_finite. rewrite Hp. cbn [is_undef negb number_of].
  unfold asFiniteInt, loose_number, number_of. rewrite num_round_finite.
  destruct (num_round (str_to_num text)) as [n|]; cbn [default id];
    [destruct (ok n) eqn:E; cbn [obind]; [specialize (HQ (VZ n))|]|].
  - rewrite HQ. split; [eauto|tauto].
  - split; [by intros [? ?]|]. intros [[_ ?] _]. congruence.
  - split; [by intros [? ?]|]. by intros [[[? ?] _] _].
Qed.

(** The texts of the form that have to be numbers. *)
Definition timer_texts (ed : timer_editor) : list string :=
  [te_channel ed; te_type ed; te_week ed; te_time ed; te_sunOffset ed; te_duration ed].

(** C28: Which rules the timer editor can save (DeviceCard.tsx against patch-device-timerx.ts): the patch
    it sends is applied exactly when the texts of its six number fields are finite numbers, the channel is not
    negative and the rule of the device already has an on/off action; a rule without one is refused
    whatever was edited, since the editor always sends [toggleOnoff]. *)
Theorem timer_save ed rule :
  (∃ rule', apply_patch (timer_patch ed) rule = Go rule') ↔
  Forall (λ t, is_finite (str_to_num t) = true) (timer_texts ed) ∧
  0 <= round_finite (str_to_num (te_channel ed)) ∧ path action_path (VObj rule) ≠ VUndef.
Proof.
  unfold apply_patch. cbv zeta.
  assert (Q : ∀ rule', path action_path (VObj rule') = path action_path (VObj rule) →
    (∃ r, patch_toggle (timer_patch ed) rule' = Go r) ↔ path action_path (VObj rule) ≠ VUndef)
    by (intros rule' <-; by apply patch_toggle_go).
  assert (∀ P Q1 Q2 : Prop, (P ↔ Q1) → (Q1 ↔ Q2) → P ↔ Q2) as trans by tauto.
  eapply trans; [repeat (eapply patch_int_go; [reflexivity|intros ?]); apply Q; unfold action_path; by rewrite !path_jset, !path_patch_field by done|].
  unfold timer_texts. rewrite !Forall_cons, Forall_nil, Z.leb_le. unfold any_int. tauto.
Qed.

(** ** The other requests of a card *)

Section Requests.
Context `{Runtime}.

(** A write of a rule that is well formed goes to the device. *)
Lemma set_rule_go hasPoller kind call req uuid rule id :
  uuid ≠ "" → kind ≠ "uuid" → body_of req = VObj [("uuid", VStr uuid); (kind, VObj rule)] →
  trim (str_or_empty (prop "id" (VObj rule))) = id → id ≠ "" →
  set_rule hasPoller kind call req = on_lan uuid (λ host key,
    let! resp := call (to_device host key) (VObj rule) in
    refresh_after hasPoller uuid ;;!
    apiOk (VObj [("host", VStr host); ("id", VStr id); ("resp", resp)])).
Proof.
  intros Hu%str_truthy_spec Hk Hb Hid Hne%str_truthy_spec. unfold set_rule. cbv zeta. rewrite Hb.
  assert (str_or_empty (prop "uuid" (VObj [("uuid", VStr uuid); (kind, VObj rule)])) = uuid) as -> by done.
  assert (prop kind (VObj [("uuid", VStr uuid); (kind, VObj rule)]) = VObj rule) as ->.
  { cbn. destruct (decide (kind = "uuid")); [done|]. by rewrite decide_True. }
  rewrite Hu. cbn [negb as_record]. by rewrite Hid, Hne.
Qed.

(** The other requests of a device card (DeviceCard.tsx against the handlers behind them) have the shape its handler
    asks for, so what happens next is up to the device and the database: a new timer and a checked trigger are
    written under their id, and the query of the power history is the last six hours in buckets of a
    minute, never refused for its range. *)
Theorem card_requests hasPoller uuid req : uuid ≠ "" →
  (∀ ed route body, te_create ed = true → save_timer uuid ed = Some (route, body) → body_of req = body →
     ∃ id timer, id = trim (te_id ed) ∧ prop "timer" body = timer ∧ to_str (prop "id" timer) = id ∧
     setDeviceTimerX hasPoller req = on_lan uuid (λ host key,
       let! resp := setTimerX (to_device host key) timer in
       refresh_after hasPoller uuid ;;!
       apiOk (VObj [("host", VStr host); ("id", VStr id); ("resp", resp)]))) ∧
  (∀ text obj, trigger_of text = inl obj → body_of req = trigger_body uuid obj →
     setDeviceTriggerX hasPoller req = on_lan uuid (λ host key,
       let! resp := setTriggerX (to_device host key) obj in
       refresh_after hasPoller uuid ;;!
       apiOk (VObj [("host", VStr host); ("id", VStr (trim (str_or_empty (prop "id" obj)))); ("resp", resp)]))) ∧
  (∀ now now', 0 <= now < 2 ^ 52 →
     history_request uuid 0 now' (power_history_body uuid now) =
     Go {| hq_uuid := uuid; hq_channel := 0; hq_fromMs := Z.max 0 (now - 21600000); hq_toMs := now;
           hq_bucketMs := 60000 |}).
Proof.
  intros Hu. split_and!.
  - intros ed route body Hc. unfold save_timer. rewrite Hc.
    destruct (str_truthy (trim (te_id ed))) eqn:Eid; [|done]. intros [= <- <-] Hb.
    eexists _, _. split_and!; [done..|].
    eapply (set_rule_go _ "timer"); [done..|exact Hb| |by apply str_truthy_spec].
    change (trim (trim (te_id ed)) = trim (te_id ed)). apply trim_idemp.
  - intros text obj Ht Hb. unfold trigger_of in Ht. destruct (json_parse _) as [obj'|]; [|done].
    destruct (plain_record obj' && _) eqn:E; [|done]. simplify_eq. apply andb_prop in E as [Ho Hid].
    destruct obj as [| | | | | |o]; try done.
    by eapply (set_rule_go _ "trigger"), str_truthy_spec.
  - intros now now' Hnow. unfold history_request. cbv zeta.
    assert (Hq : ∀ k lo fb z, prop k (power_history_body uuid now) = VZ z → Z.abs z < 2 ^ 53 →
      query_number k lo fb (power_history_body uuid now) = Z.max lo z).
    { intros k lo fb z Hp Hz. unfold query_number. rewrite Hp. unfold VZ, to_num. by rewrite (num_floor_Z _ z) by by apply num_Z_of_Z. }
    rewrite (Hq "toMs" 0 now' now), (Hq "fromMs" 0 _ (now - 21600000)), (Hq "bucketMs" 1000 60000 60000) by (done || lia).
    rewrite (proj2 (Z.ltb_ge _ _)), (proj2 (Z.ltb_ge _ _)) by lia. do 2 f_equal; lia.
Qed.
End Requests.

Lemma card_requests_witness :
  let trigger := VObj [("id", VStr " t1 ")] in
  (∃ f, @setDeviceTriggerX rt true (post_body (trigger_body "u1" trigger)) = on_lan "u1" f) ∧
  history_request "u1" 0 5 (power_history_body "u1" 30000000) =
  Go {| hq_uuid := "u1"; hq_channel := 0; hq_fromMs := 8400000; hq_toMs := 30000000; hq_bucketMs := 60000 |}.
Proof.
  intros trigger.
  destruct (@card_requests rt true "u1" (post_body (trigger_body "u1" trigger)) ltac:(discriminate))
    as (_ & Ht & Hh).
  split; [|exact (Hh 30000000 5 ltac:(lia))].
  eexists. apply (Ht (json_stringify trigger)); vm_compute; reflexivity.
Defined.

(** ** Reloading the inventory *)

Definition ends_refresh (e : devices_event) : bool := match e with Inventory (RefreshDone _) => true | _ => false end.

Lemma refreshing_step now e m : dm_inventory m = RefreshingCloud → ends_refresh e = false →
  dm_inventory (fst (devices_step now e m)) = RefreshingCloud.
Proof.
  intros Hi He. destruct e as [cidr|uuid| |e|e|e]; cbn; try done.
  - rewrite Hi. by destruct e.
  - by destruct (operations_step now e (dm_operations m) (dm_context m)) as [[s c] cmds].
Qed.

(** The view while the refresh it asked for runs, and at rest. *)
Definition waiting : inventory_view :=
  {| vw_shouldScanAfterRefresh := true; vw_sawRefreshStart := true; vw_isRefreshing := true |}.

Lemma waiting_run es m : dm_inventory m = RefreshingCloud → Forall (λ e, ends_refresh (snd e) = false) es →
  view_run es (waiting, m) = (waiting, devices_run es m) ∧ dm_inventory (devices_run es m) = RefreshingCloud.
Proof.
  intros Hi Hes. revert m Hi. induction Hes as [|[now e] es He _ IH]; intros m Hi; [done|].
  cbn [snd] in He. pose proof (refreshing_step now e m Hi He) as Hi'.
  change (view_run ((now, e) :: es) (waiting, m)) with (view_run es (view_step now e (waiting, m))).
  change (devices_run ((now, e) :: es) m) with (devices_run es (fst (devices_step now e m))).
  assert (view_step now e (waiting, m) = (waiting, fst (devices_step now e m))) as ->; [|by apply IH].
  unfold view_step, render. cbn [fst snd]. unfold isRefreshing. by rewrite Hi'.
Qed.

(** Nothing is sent without a reload: the view follows the machine. *)
Lemma resting_run es s : vw_shouldScanAfterRefresh (fst s) = false →
  snd (view_run es s) = devices_run es (snd s).
Proof.
  revert s. induction es as [|[now e] es IH]; intros [v m] Hv; [done|]. cbn [fst] in Hv.
  change (view_run ((now, e) :: es) (v, m)) with (view_run es (view_step now e (v, m))).
  assert (vw_shouldScanAfterRefresh (fst (view_step now e (v, m))) = false ∧
          snd (view_step now e (v, m)) = fst (devices_step now e m)) as [H1 H2].
  { unfold view_step, render, refresh_effect. cbn [fst snd]. case_match; [done|]. case_match.
    case_match; simplify_eq; [done|]. cbn in *. rewrite Hv in *. simplify_eq/=. done. }
  rewrite IH by done. by rewrite H2.
Qed.

(** C26: A reload of the inventory (InventoryView.tsx against devicesMachine.ts), from the button or the
    first render: the view refreshes the cloud list, and whatever else happens meanwhile, when that ends,
    even in an error, it sends one [SCAN] that starts the search at once; no later event makes it scan
    again until the next reload. *)
Theorem reload_round now v m (es : list (Z * devices_event)) now' r :
  dm_inventory m = InvIdle → vw_isRefreshing v = false → Forall (λ e, ends_refresh (snd e) = false) es →
  let s0 := startReload now (v, m) in
  let s1 := view_run es s0 in
  let m1 := fst (devices_step now' (Inventory (RefreshDone r)) (snd s1)) in
  let s2 := view_step now' (Inventory (RefreshDone r)) s1 in
  mount now m = s0 ∧ dm_inventory (snd s1) = RefreshingCloud ∧ dm_inventory m1 = InvIdle ∧
  snd s2 = fst (devices_step now' (Inventory ScanHosts) m1) ∧ isScanning (snd s2) = true ∧
  ∀ es', snd (view_run es' s2) = devices_run es' (snd s2).
Proof.
  intros Hi Hv Hes s0.
  assert (Hs0 : s0 = (waiting, m <| dm_inventory := RefreshingCloud |>)).
  { unfold s0, startReload, view_step, render. cbn [fst snd]. unfold isRefreshing, isScanning. cbn. rewrite Hi. cbn. 
    rewrite Hv. cbn. destruct v, m; cbn in *. by simplify_eq. }
  assert (Hm : mount now m = s0).
  { rewrite Hs0. unfold mount, render. cbn. unfold isRefreshing. rewrite Hi. cbn. by destruct m. }
  assert (Hr0 : dm_inventory (m <| dm_inventory := RefreshingCloud |>) = RefreshingCloud) by done.
  destruct (waiting_run es _ Hr0 Hes) as [Hw Hr].
  cbv zeta. rewrite Hs0, Hw in *. cbn [snd]. set (m' := devices_run es _) in *.
  assert (Hi1 : dm_inventory (fst (devices_step now' (Inventory (RefreshDone r)) m')) = InvIdle)
    by (cbn; rewrite Hr; by destruct r as [[list hosts]|e]).
  set (m1 := fst (devices_step now' _ m')) in *.
  assert (Hs2 : view_step now' (Inventory (RefreshDone r)) (waiting, m') =
    ({| vw_shouldScanAfterRefresh := false; vw_sawRefreshStart := false; vw_isRefreshing := false |},
     fst (devices_step now' (Inventory ScanHosts) m1))).
  { unfold view_step, render. cbn [fst snd]. fold m1. unfold isRefreshing. by rewrite Hi1. }
  rewrite Hs2. cbn [snd]. split_and!; [done..| |].
  - cbn. rewrite Hi1. cbn. by destruct (needsCidrSuggest (dm_context m1)).
  - intros es'. by apply resting_run.
Qed.

Definition fresh_view : inventory_view :=
  {| vw_shouldScanAfterRefresh := false; vw_sawRefreshStart := false; vw_isRefreshing := false |}.

(** The cloud cannot be reached, and the live stream breaks meanwhile: the scan is done all the same. *)
Lemma reload_round_witness :
  let s1 := view_run [(2, Monitor StreamDisconnected)] (startReload 1 (fresh_view, devices_start "10.0.0.0/24")) in
  let s2 := view_step 3 (Inventory (RefreshDone (Err (JsError "offline")))) s1 in
  dm_inventory (snd s1) = RefreshingCloud ∧ isScanning (snd s2) = true.
Proof.
  destruct (reload_round 1 fresh_view (devices_start "10.0.0.0/24") [(2, Monitor StreamDisconnected)] 3
              (Err (JsError "offline"))) as (_ & H1 & _ & _ & H2 & _);
    [reflexivity|reflexivity|repeat constructor|]. by split.
Defined.
