(* ===== verification/Shell.v ===== *)
(** * The page of the web client

    apps/web/src/App.tsx with the views it chooses from: the form to sign in (views/AuthView.tsx) over the machines of
    WebAuth.v, and the inventory (views/devices/InventoryView.tsx, DeviceGroup.tsx) over the devices machine. Styles are
    left out, and so are the checks a browser makes of the inputs of a form before it is submitted. *)

From S2P Require Export WebAuth Views Threads.

Local Open Scope string_scope.
Local Open Scope Z_scope.
Local Open Scope list_scope.

(** ** The form (AuthView.tsx) *)

(** The elements top to bottom; an input that is not enabled does nothing. [edit] is the event an input sends for the
    text typed. *)
Inductive auth_node : Type :=
| AuthText (s : string)
| RegionSelect (value : LoginRegion) (enabled : bool)
| AuthField (label value : string) (enabled : bool) (edit : string → auth_event)
| SubmitButton (enabled pending : bool).

(** What a user does: choose an option of the list, type, or submit the form, by its button or the return key. *)
Inductive auth_input : Type :=
| Choose (option : string)
| TypeIn (text : string)
| SubmitForm.

Inductive auth_action : Type := SendAuth (e : auth_event) | SubmitWith (region : LoginRegion).

(** A disabled submit button also keeps the return key from submitting. *)
Definition auth_react (region : LoginRegion) (n : auth_node) (i : auth_input) : option auth_action :=
  match n, i with
  | RegionSelect _ true, Choose next => (λ r, SendAuth (SetRegion r)) <$> isLoginRegion next
  | AuthField _ _ true edit, TypeIn text => Some (SendAuth (edit text))
  | SubmitButton true _, SubmitForm => Some (SubmitWith region)
  | _, _ => None
  end.

Definition isSubmitting (m : auth) : bool := match am_state m with Submitting => true | _ => false end.

Definition isSuccess (m : auth) : bool := match am_state m with Success => true | _ => false end.

Definition form_canSubmit (c : AuthContext) : bool :=
  if negb (isTotpValid (au_totp c)) then false else str_truthy (trim (au_email c)) && str_truthy (au_password c).

(** [totp.replace(/[^0-9]/g, '').slice(0, 6)] *)
Definition totp_text (text : string) : string := str_take 6 (str_filter is_digit text).

Section Form.
(** The region the browser suggests, and why. *)
Variable likely : LoginRegion * string.

Definition regionHint (region : LoginRegion) : string :=
  match region with
  | RAuto => "Auto tries multiple regions on failure. Likely: " +:+ region_text (fst likely) +:+ "."
  | _ => "Likely: " +:+ region_text (fst likely) +:+ "."
  end.

Definition form_view (m : auth) : list auth_node :=
  let c := am_context m in
  let enabled := negb (isSubmitting m) in
  [AuthText "Meross Account Login"; AuthText "Sign In to Continue"; RegionSelect (au_region c) enabled;
   AuthText (regionHint (au_region c)); AuthText ("Heuristic basis: " +:+ snd likely +:+ ".");
   AuthField "Email" (au_email c) enabled SetEmail;
   AuthField "Password" (au_password c) enabled SetPassword;
   AuthField "TOTP (6 digits)" (au_totp c) enabled (λ text, SetTotp (totp_text text))] ++
  match au_error c ≫= nonempty with Some e => [AuthText e] | None => [] end ++
  [SubmitButton (negb (isSubmitting m || negb (form_canSubmit c))) (isSubmitting m)].

(** ** The shell (App.tsx) *)

(** The form while it is mounted: its machine, the login it invokes by number, [didInitRegionRef], and the value of
    [isSuccess] the first effect last ran with (the cloud changes with it only). *)
Record auth_page := { ag_auth : auth; ag_login : option nat; ag_didInitRegion : bool; ag_isSuccess : bool }.

(** The application, the form when it is mounted, and the number of the next login. *)
Record shell := { sh_app : merossityApp; sh_form : option auth_page; sh_next : nat }.

Abbreviation Sh := (prog shell unit webE).

Definition form_start : auth_page :=
  {| ag_auth := auth_start; ag_login := None; ag_didInitRegion := false; ag_isSuccess := false |}.

Inductive page : Type := BootPage | AuthPage | DevicesPage (cloud : val) | BlankPage.

(** [AppRouter] *)
Definition app_page (a : merossityApp) : page :=
  match ap_state a with
  | Booting => BootPage
  | Active WebAuth.AuthView => AuthPage
  | Active DevicesView => if truthy (ap_cloud a) then DevicesPage (ap_cloud a) else BlankPage
  end.

(** The form is mounted while its page is shown, with a machine of its own. *)
Definition mount_form (s : shell) : shell :=
  match app_page (sh_app s), sh_form s with
  | AuthPage, None => s <| sh_form := Some form_start |>
  | AuthPage, Some _ => s
  | _, _ => s <| sh_form := None |>
  end.

(** An event of the application's machine, and the render that follows. *)
Definition app_send (e : app_event) : Sh unit := modify (λ s, mount_form (s <| sh_app := app_step e (sh_app s) |>)).

(** An event of the form's machine; [Some] is the login it starts, with its number. *)
Definition form_step (e : auth_event) (s : shell) : shell * option (nat * login_input) :=
  match sh_form s with
  | None => (s, None)
  | Some f =>
      let '(m, start) := auth_step e (ag_auth f) in
      match start with
      | Some i => (s <| sh_form := Some (f <| ag_auth := m |> <| ag_login := Some (sh_next s) |>) |> <| sh_next := S (sh_next s) |>,
                   Some (sh_next s, i))
      | None => (s <| sh_form := Some (f <| ag_auth := m |>) |>, None)
      end
  end.

(** The first effect: a success is told to the application, once. *)
Definition success_effect : Sh unit :=
  let! tell := atom (λ s,
    match sh_form s with
    | Some f =>
        let now := isSuccess (ag_auth f) in
        let cloud := au_cloud (am_context (ag_auth f)) in
        (s <| sh_form := Some (f <| ag_isSuccess := now |>) |>,
         if negb (Bool.eqb now (ag_isSuccess f)) && now && truthy cloud then Some cloud else None)
    | None => (s, None)
    end) in
  match tell with Some cloud => app_send (LoginSuccess cloud) | None => Ret tt end.

(** The end of a login is an event of the machine that invoked it, unless that is gone or waits for another. *)
Definition login_done (n : nat) (r : result val) (s : shell) : shell :=
  match sh_form s with
  | Some f => match ag_login f with
              | Some k => if Nat.eqb k n then
                            fst (form_step (LoginDone r) (s <| sh_form := Some (f <| ag_login := None |>) |>))
                          else s
              | None => s
              end
  | None => s
  end.

Definition run_login (n : nat) (i : login_input) : Sh unit :=
  let! r := catch (let! cloud := loginFlow i in Ret (Ok cloud)) (λ e, Ret (Err e)) in
  modify (login_done n r) ;;!
  success_effect.

(** [auth.send(e)] with what follows: the call it starts, and the effects after the render. *)
Definition form_send (e : auth_event) : Sh unit :=
  let! start := atom (form_step e) in
  match start with Some (n, i) => fork (run_login n i) | None => Ret tt end ;;!
  success_effect.

(** The second effect: the region saved, else the likely one, once for the form. *)
Definition region_effect : Sh unit :=
  let! first := atom (λ s,
    match sh_form s with
    | Some f => (s <| sh_form := Some (f <| ag_didInitRegion := true |>) |>, negb (ag_didInitRegion f))
    | None => (s, false)
    end) in
  if first : bool then
    let! saved := getStoredLoginRegion in
    form_send (SetRegion (saved ?: fst likely))
  else Ret tt.

(** An event of the application, with the effects of a form it mounts. *)
Definition app_event_run (e : app_event) : Sh unit := app_send e ;;! success_effect ;;! region_effect.

(** The start of the application. *)
Definition boot : Sh unit := let! cloud := checkCloudCreds in app_event_run (CredsDone cloud).

Definition auth_act (a : auth_action) : Sh unit :=
  match a with
  | SendAuth e => form_send e
  | SubmitWith region => persistLoginRegion region ;;! form_send Submit
  end.

(** A user acts on an element of the form as it is rendered. *)
Definition form_touch (k : nat) (i : auth_input) : Sh unit :=
  let! f := gets sh_form in
  match f with
  | Some f =>
      match form_view (ag_auth f) !! k ≫= λ n, auth_react (au_region (am_context (ag_auth f))) n i with
      | Some a => auth_act a
      | None => Ret tt
      end
  | None => Ret tt
  end.

(** What happens to the application: it is started, a user touches the form, or the user is signed out. *)
Inductive shell_entry : Sh unit → Prop :=
| se_boot : shell_entry boot
| se_touch k i : shell_entry (form_touch k i)
| se_logout : shell_entry (app_event_run Logout).
End Form.

Definition shell_start : shell := {| sh_app := app_start; sh_form := None; sh_next := 0 |}.

Definition no_promise (s : shell) (pid : nat) : option (result unit) := None.

Definition shell_reaches (likely : LoginRegion * string) : @threads shell unit webE → Prop :=
  steps browser_sync no_promise (shell_entry likely) {| th_state := shell_start; th_threads := [] |}.

(** ** The inventory (InventoryView.tsx, DeviceGroup.tsx) *)

Inductive inventory_node : Type :=
| InventoryText (s : string)
| ReloadButton (enabled : bool)
| CardOf (uuid : string) (device : val).

(** The hosts of the machine's context, as the grouping reads them. *)
Definition host_entry_of (entry : val) : host_entry :=
  let text k := if truthy (prop k entry) then Some (to_str (prop k entry)) else None in
  {| he_host := text "host" ?: ""; he_updatedAt := text "updatedAt" ?: ""; he_mac := text "mac" |}.

Definition hosts_of_val (hosts : val) : list (string * host_entry) :=
  match hosts with VObj l => map (λ '(k, v), (k, host_entry_of v)) l | _ => [] end.

(** [deviceByUuid]: the last device of a uuid. *)
Definition deviceByUuid (devices : list val) : list (string * val) :=
  foldl (λ m d, let uuid := str_or_empty (prop "uuid" d) in if str_truthy uuid then jset uuid d m else m) [] devices.

Definition device_group (title : string) (uuids : list string) (byUuid : list (string * val)) (emptyTitle emptyCopy : string) :
    list inventory_node :=
  InventoryText title ::
  match uuids with
  | [] => [InventoryText emptyTitle; InventoryText emptyCopy]
  | _ => map (λ uuid, CardOf uuid (jget uuid byUuid ?: VNull)) uuids
  end.

Definition isDegraded (m : devices) : bool := match dm_monitor m with Degraded => true | _ => false end.

Definition reloadBusy (m : devices) : bool := isRefreshing m || isScanning m.

Definition reloadWorkingLabel (m : devices) : string :=
  if isRefreshing m then "Syncing devices" else if isScanning m then "Scanning LAN" else "".

Definition show {A} (b : bool) (l : list A) : list A := if b then l else [].

Section Inventory.
Context `{Runtime}.

Definition inventory_groups (m : devices) : inventory :=
  groupDevicesForControl (arr_items (dc_devices (dm_context m))) (hosts_of_val (dc_hosts (dm_context m))).

Definition inventory_page (m : devices) : list inventory_node :=
  let devices := arr_items (dc_devices (dm_context m)) in
  let groups := inventory_groups m in
  let byUuid := deviceByUuid devices in
  [InventoryText "Merossity"; InventoryText "Devices"] ++
  show (isDegraded m) [InventoryText "Live updates degraded"] ++
  show (reloadBusy m) [InventoryText (reloadWorkingLabel m)] ++
  [ReloadButton (negb (reloadBusy m))] ++
  show (isScanning m) [InventoryText "Scanning LAN";
                       InventoryText "Looking up IPs. Devices with a known IP remain controllable while scan runs."] ++
  match devices with
  | [] => [InventoryText "No devices yet."; InventoryText "Reload to pull devices from cloud and scan your LAN for IPs."]
  | _ =>
      device_group "Ready to control" (map iv_uuid (in_ready groups)) byUuid "No devices ready yet."
        "Discovered, controllable devices will appear here." ++
      device_group "Inaccessible" (map iv_uuid (in_inaccessible groups)) byUuid "No inaccessible devices."
        "If all devices are reachable, this section stays empty."
  end.
End Inventory.
