(* ===== verification/ShellSpec.v ===== *)
(** * What the page of the web client guarantees

    Its parts agree in every run: the page is never blank, the form is there exactly on its page, one login at a time is
    under way ([shell_agrees]); the button of the form is enabled exactly when it signs in ([submit_signs_in]); every
    device has one card ([inventory_cards]). *)

From S2P Require Export Shell WebSpec.

Local Open Scope string_scope.
Local Open Scope Z_scope.
Local Open Scope list_scope.

(** ** The parts of the page *)

Lemma truthy_prop k v : truthy (prop k v) = true → truthy v = true.
Proof. destruct v; try done. Qed.

Record form_ok (next : nat) (f : auth_page) : Prop := {
  fm_auth : auth_ok (ag_auth f);
  fm_login : is_Some (ag_login f) ↔ am_state (ag_auth f) = Submitting;
  fm_next : ∀ n, ag_login f = Some n → (n < next)%nat;
  fm_seen : ag_isSuccess f = true → am_state (ag_auth f) = Success;
  fm_totp : let t := au_totp (am_context (ag_auth f)) in str_all is_digit t = true ∧ (String.length t <= 6)%nat }.

Record shell_ok (s : shell) : Prop := {
  sk_devices : ap_state (sh_app s) = Active DevicesView → truthy (ap_cloud (sh_app s)) = true;
  sk_form : is_Some (sh_form s) ↔ ap_state (sh_app s) = Active WebAuth.AuthView;
  sk_page : ∀ f, sh_form s = Some f → form_ok (sh_next s) f }.

(** The events that the elements of the form send. *)
Definition form_event (e : auth_event) : Prop :=
  match e with
  | SetTotp t => str_all is_digit t = true ∧ (String.length t <= 6)%nat
  | LoginDone _ => False
  | _ => True
  end.

Lemma totp_text_ok text : form_event (SetTotp (totp_text text)).
Proof. split; [apply str_all_take, all_filtered|apply length_take_le]. Qed.

(** What the form does on an input. *)
Definition action_ok (region : LoginRegion) (a : auth_action) : Prop :=
  match a with SendAuth e => form_event e | SubmitWith r => r = region end.

Lemma form_nodes_ok likely m region : Forall (λ n, ∀ i a, auth_react region n i = Some a → action_ok region a) (form_view likely m).
Proof.
  pose proof totp_text_ok as Ht. unfold form_view. repeat first [apply Forall_app_2 | apply Forall_cons_2 | apply Forall_nil_2].
  all: try (destruct (_ ≫= _); repeat constructor).
  all: intros i a; unfold auth_react; destruct i; repeat case_match; try done; intros H'; try (injection H' as <-; by try apply Ht).
  by apply fmap_Some in H' as (r & _ & ->).
Qed.

Lemma form_touched likely m region k i a : form_view likely m !! k ≫= (λ n, auth_react region n i) = Some a → action_ok region a.
Proof.
  destruct (form_view likely m !! k) as [n|] eqn:Hk; [|done]. cbn.
  pose proof (form_nodes_ok likely m region) as Hf. rewrite Forall_lookup in Hf. by apply (Hf k n).
Qed.

(** ** Every write keeps the parts in step *)

Abbreviation skeeps := (@keeps shell unit webE shell_ok _).

Lemma form_start_ok next : form_ok next form_start.
Proof. split; cbn; [done|split; [by intros []|done]|done|done|by split; [|lia]]. Qed.

Lemma mount_form_ok s : (ap_state (sh_app s) = Active DevicesView → truthy (ap_cloud (sh_app s)) = true) →
  (∀ f, sh_form s = Some f → form_ok (sh_next s) f) → shell_ok (mount_form s).
Proof.
  intros Hd Hp. pose proof (form_start_ok (sh_next s)) as Hstart. destruct s as [[st cloud] f next]. unfold mount_form, app_page. cbn in *.
  destruct st as [|[|]].
  - split; [done| |]; cbn; [|done]. split; [by intros []|done].
  - destruct f as [f|]; split; cbn; try done. intros f E. by assert (form_start = f) as <- by congruence.
  - rewrite Hd by done. by split; cbn; [|split; [intros []|]|].
Qed.

(** What the application is told keeps a cloud where the devices are shown. *)
Lemma app_step_devices e a : match e with LoginSuccess cloud => truthy cloud = true | _ => True end →
  (ap_state a = Active DevicesView → truthy (ap_cloud a) = true) →
  ap_state (app_step e a) = Active DevicesView → truthy (ap_cloud (app_step e a)) = true.
Proof.
  destruct a as [st cloud]. unfold app_step. cbn. intros He Ha. destruct st as [|[|]], e as [c|c|]; cbn; try done.
  unfold determiningView. destruct (hasCloudKey c) eqn:Hk; [|done]. intros _. by eapply truthy_prop.
Qed.

Lemma app_send_ok e : match e with LoginSuccess cloud => truthy cloud = true | _ => True end → skeeps (app_send e).
Proof.
  intros He. apply keeps_modify. intros s [Hd Hf Hp]. apply mount_form_ok; cbn; [|done]. by apply app_step_devices.
Qed.

(** A step of the form's machine, for a form event and for the end of the login under way. *)
Lemma auth_step_totp e m : let good t := str_all is_digit t = true ∧ (String.length t <= 6)%nat in
  (∀ t, e = SetTotp t → good t) → good (au_totp (am_context m)) → good (au_totp (am_context (fst (auth_step e m)))).
Proof.
  intros good He Hm. destruct m as [st c]. unfold auth_step. cbn [am_state am_context] in *.
  destruct st, e as [v|v|v|v| |[cl|er]]; cbn; try done; try by apply He.
  all: try by destruct (canSubmit c).
  by split; [|cbn; lia].
Qed.

Lemma auth_step_state e m : am_state (fst (auth_step e m)) = Submitting ↔
  (∃ i, snd (auth_step e m) = Some i) ∨ (am_state m = Submitting ∧ match e with LoginDone _ => False | _ => True end).
Proof.
  destruct m as [st c]. unfold auth_step. cbn [am_state am_context].
  destruct st, e as [v|v|v|v| |[cl|er]]; cbn; try (destruct (canSubmit c); cbn); naive_solver.
Qed.

Lemma auth_step_final e m : am_state m = Success → fst (auth_step e m) = m.
Proof. destruct m as [st c]. cbn. intros ->. by destruct e. Qed.

Lemma form_step_ok e s : form_event e → shell_ok s → shell_ok (fst (form_step e s)).
Proof.
  intros He [Hd Hf Hp]. unfold form_step. destruct (sh_form s) as [f|] eqn:Ef; [|by split; cbn; rewrite ?Ef].
  destruct (Hp f eq_refl) as [Hok Hl Hn Hse Ht]. pose proof (auth_step_ok e (ag_auth f) Hok) as [Hok' Hst].
  assert (Hse' : ag_isSuccess f = true → am_state (fst (auth_step e (ag_auth f))) = Success) by (intros H; rewrite auth_step_final; auto).
  pose proof (auth_step_state e (ag_auth f)) as Hs. assert (Ht' := Ht). apply (auth_step_totp e) in Ht'; [|by intros t ->].
  destruct (auth_step e (ag_auth f)) as [m [i|]]; cbn [fst snd] in *.
  - split; cbn; [done|by rewrite <- Hf|]. intros f' [= <-]. split; cbn; [done| |intros n [= <-]; lia|done|done].
    rewrite Hs. split; [by left; eauto|done].
  - split; cbn; [done|by rewrite <- Hf|]. intros f' [= <-]. split; cbn; [done| |done|done|done].
    rewrite Hl, Hs. destruct e; naive_solver.
Qed.

Lemma login_done_ok n r s : shell_ok s → shell_ok (login_done n r s).
Proof.
  intros Hs. assert (Hs' := Hs). destruct Hs' as [Hd Hf Hp]. unfold login_done. destruct (sh_form s) as [f|] eqn:Ef; [|done].
  destruct (ag_login f) as [k|] eqn:El; [|done]. destruct (Nat.eqb k n); [|done].
  destruct (Hp f eq_refl) as [Hok Hl Hn Hse Ht]. unfold form_step. cbn -[auth_step].
  pose proof (auth_step_ok (LoginDone r) (ag_auth f) Hok) as [Hok' Hst]. pose proof (auth_step_state (LoginDone r) (ag_auth f)) as Hst'.
  assert (Hse' : ag_isSuccess f = true → am_state (fst (auth_step (LoginDone r) (ag_auth f))) = Success) by (intros H; rewrite auth_step_final; auto).
  assert (Ht' := Ht). apply (auth_step_totp (LoginDone r)) in Ht'; [|done].
  assert (Hno : ∀ i, snd (auth_step (LoginDone r) (ag_auth f)) ≠ Some i).
  { intros i E. destruct (Hst i E) as (_ & E' & _). assert (am_state (ag_auth f) = Submitting) by (apply Hl; eauto). congruence. }
  destruct (auth_step (LoginDone r) (ag_auth f)) as [m [i|]]; cbn [fst snd] in *; [by destruct (Hno i)|].
  split; cbn; [done|by rewrite <- Hf|]. intros f' [= <-]. split; cbn; [done| |done|done|done]. rewrite Hst'. split; [by intros []|].
  intros [[i [=]]|[_ []]].
Qed.

(** *** The programs *)

Lemma skeeps_success : skeeps success_effect.
Proof.
  unfold success_effect. intros s Hs. cbn [bind atom]. destruct (sh_form s) as [f|] eqn:Ef; cbn [fst snd]; [|by split].
  split.
  - destruct Hs as [Hd Hf Hp]. destruct (Hp f Ef) as [? ? ? ? ?]. split; cbn; [done|by rewrite <- Hf, Ef|].
    intros f' [= <-]. split; cbn; try done. unfold isSuccess. by destruct (am_state _).
  - destruct (_ && truthy _) eqn:E; [|done]. apply andb_prop in E as [_ E]. by apply app_send_ok.
Qed.

Lemma skeeps_apiPost path body : skeeps (apiPost path body).
Proof. unfold apiPost. apply keeps_bind; [apply keeps_sys_try|]. intros res. apply keeps_of_result. Qed.

Lemma skeeps_apiGet path : skeeps (apiGet path).
Proof. unfold apiGet. apply keeps_bind; [apply keeps_sys_try|]. intros res. apply keeps_of_result. Qed.

Lemma skeeps_login n i : skeeps (run_login n i).
Proof.
  unfold run_login. apply keeps_bind.
  - apply keeps_catch; [|done]. apply keeps_bind; [|done]. unfold loginFlow. apply keeps_bind; [apply skeeps_apiPost|].
    intros res. apply keeps_of_result.
  - intros r. apply keeps_bind; [apply keeps_modify; intros s; apply login_done_ok|]. intros _. apply skeeps_success.
Qed.

Lemma skeeps_send e : form_event e → skeeps (form_send e).
Proof.
  intros He. unfold form_send. intros s Hs. split; [by apply form_step_ok|]. cbn [bind atom]. apply keeps_bind; [|intros _; apply skeeps_success].
  destruct (snd (form_step e s)) as [[n i]|]; [|done]. apply keeps_fork, skeeps_login.
Qed.

Section Entries.
Variable likely : LoginRegion * string.

Lemma skeeps_region : skeeps (region_effect likely).
Proof.
  unfold region_effect. intros s Hs. cbn [bind atom]. destruct (sh_form s) as [f|] eqn:Ef; cbn [fst snd]; [|done].
  split.
  - destruct Hs as [Hd Hf Hp]. destruct (Hp f Ef) as [? ? ? ? ?]. split; cbn; [done|by rewrite <- Hf, Ef|].
    intros f' [= <-]. by split.
  - destruct (negb _); [|done]. unfold getStoredLoginRegion. intros [[raw|e]|]; cbn [bind]; by apply skeeps_send.
Qed.

Lemma skeeps_app e : match e with LoginSuccess _ => False | _ => True end → skeeps (app_event_run likely e).
Proof.
  intros He. unfold app_event_run. apply keeps_bind; [apply app_send_ok; by destruct e|]. intros _.
  apply keeps_bind; [apply skeeps_success|]. intros _. apply skeeps_region.
Qed.

Lemma skeeps_touch k i : skeeps (form_touch likely k i).
Proof.
  unfold form_touch. intros s Hs. split; [done|]. cbn [bind fst snd gets]. destruct (sh_form s) as [f|]; [|done].
  case_match eqn:E; [|done]. apply form_touched in E. destruct a as [e|r]; [by apply skeeps_send|].
  intros x. cbn [bind]. by apply skeeps_send.
Qed.

Lemma skeeps_entry q : shell_entry likely q → skeeps q.
Proof.
  intros [|k i|]; [|apply skeeps_touch|by apply skeeps_app]. unfold boot. apply keeps_bind.
  - unfold checkCloudCreds. apply keeps_catch; [|done]. apply keeps_bind; [apply skeeps_apiGet|]. intros res. apply keeps_of_result.
  - intros cloud. by apply skeeps_app.
Qed.

(** C40: In every run of the client, whatever a user does and however calls and answers interleave, the parts of the page
    agree: the page is never blank; the form is mounted exactly while its page is shown; a form waits for at most one
    login, exactly while it says that it is submitting; and the code it holds is at most six digits. *)
Theorem shell_agrees c : shell_reaches likely c → let s := th_state c in
  app_page (sh_app s) ≠ BlankPage ∧
  (is_Some (sh_form s) ↔ app_page (sh_app s) = AuthPage) ∧
  (∀ f, sh_form s = Some f →
     (is_Some (ag_login f) ↔ isSubmitting (ag_auth f) = true) ∧ auth_ok (ag_auth f) ∧
     str_all is_digit (au_totp (am_context (ag_auth f))) = true ∧ (String.length (au_totp (am_context (ag_auth f))) <= 6)%nat).
Proof.
  intros Hr s. assert (Hs : shell_ok s).
  { apply (steps_keeps browser_sync no_promise shell_ok (shell_entry likely) _ c skeeps_entry Hr). split; [|constructor].
    split; [done|split; [by intros []|done]|done]. }
  destruct Hs as [Hd Hf Hp]. unfold app_page. split_and!.
  - destruct (ap_state (sh_app s)) as [|[|]]; try done. by rewrite Hd.
  - rewrite Hf. destruct (ap_state (sh_app s)) as [|[|]]; try done. by destruct (truthy _).
  - intros f Ef. destruct (Hp f Ef) as [Hok Hl _ _ Ht]. split_and!; [|done|apply Ht|apply Ht]. rewrite Hl. unfold isSubmitting.
    by destruct (am_state _).
Qed.
End Entries.

Lemma form_canSubmit_spec c : form_canSubmit c = canSubmit c.
Proof. unfold form_canSubmit, canSubmit. by destruct (isTotpValid _). Qed.

(** The request of a sign-in. *)
Definition login_request (i : login_input) : web_request :=
  {| wq_path := "/api/cloud/login"; wq_method := "POST";
     wq_headers := [("content-type", "application/json"); ("accept", "application/json")];
     wq_body := Some (json_stringify (login_body i)) |}.

Lemma submit_button likely m k en pend : form_view likely m !! k = Some (SubmitButton en pend) →
  en = negb (isSubmitting m || negb (form_canSubmit (am_context m))).
Proof.
  assert (H : Forall (λ n, ∀ en pend, n = SubmitButton en pend → en = negb (isSubmitting m || negb (form_canSubmit (am_context m)))) (form_view likely m)).
  { unfold form_view. repeat first [apply Forall_app_2 | apply Forall_cons_2 | apply Forall_nil_2].
    all: try (destruct (_ ≫= _); repeat constructor). all: intros en' pend'; by intros [=]. }
  intros Hk. rewrite Forall_lookup in H. by apply (H k _ Hk en pend).
Qed.

(** The button of the form is enabled exactly when the machine takes its event. Submitting the form then starts one
    login, whose first call is the request for what was typed, all of it there; the form waits for it, and its region
    is offered to the storage first. A form that is submitted otherwise changes nothing and asks nothing of anybody. *)
Theorem submit_signs_in likely k s f en pend p' s' l : sh_form s = Some f → auth_ok (ag_auth f) →
  form_view likely (ag_auth f) !! k = Some (SubmitButton en pend) →
  adv browser_sync (form_touch likely k SubmitForm) s p' s' l →
  let c := am_context (ag_auth f) in
  (en = true ↔ am_state (ag_auth f) = Editing ∧ complete_input (input_of c)) ∧ p' = Ret tt ∧
  if en then
    (∃ call, l = [Sys (WFetch (login_request (input_of c))) call]) ∧ sh_app s' = sh_app s ∧
    ∃ f', sh_form s' = Some f' ∧ am_state (ag_auth f') = Submitting ∧ am_context (ag_auth f') = c ∧ ag_login f' = Some (sh_next s)
  else s' = s ∧ l = [].
Proof.
  intros Hf Hok Hk Hadv c. pose proof (submit_button _ _ _ _ _ Hk) as Hen.
  assert (Hiff : en = true ↔ am_state (ag_auth f) = Editing ∧ complete_input (input_of c)).
  { rewrite Hen, form_canSubmit_spec. unfold isSubmitting, auth_ok in *. fold c. fold c in Hok. destruct (am_state (ag_auth f)); cbn.
    - rewrite negb_involutive. split; [intros H; split; [done|by apply canSubmit_complete]|]. intros [_ (H1 & H2 & H3)].
      unfold canSubmit. rewrite !andb_true_iff, !str_truthy_spec. done.
    - split; [done|by intros []].
    - destruct Hok as (Hp & _). unfold canSubmit. rewrite Hp, andb_false_r. split; [done|by intros []]. }
  split; [done|]. unfold form_touch in Hadv. cbn [bind adv gets fst snd] in Hadv. rewrite Hf, Hk in Hadv. cbn [mbind option_bind auth_react] in Hadv.
  destruct en; [|cbn in Hadv; destruct Hadv as (-> & -> & ->); done].
  destruct (proj1 Hiff eq_refl) as [Hst Hin]. unfold auth_act, persistLoginRegion in Hadv. cbn [bind adv sys browser_sync] in Hadv.
  assert (Hc : canSubmit c = true).
  { destruct Hin as (H1 & H2 & H3). unfold canSubmit. rewrite !andb_true_iff, !str_truthy_spec. done. }
  set (f1 := f <| ag_auth := {| am_state := Submitting; am_context := c |} |> <| ag_login := Some (sh_next s) |>).
  assert (Hstep : form_step Submit s = (s <| sh_form := Some f1 |> <| sh_next := S (sh_next s) |>, Some (sh_next s, input_of c))).
  { unfold form_step, auth_step. rewrite Hf, Hst. fold c. by rewrite Hc. }
  destruct Hadv as [x Hadv]. unfold form_send in Hadv. cbn [bind adv atom] in Hadv. rewrite Hstep in Hadv. cbn [bind adv fst snd fork] in Hadv.
  destruct Hadv as (q' & s1 & l1 & l2 & Hq & Hrest & ->). cbn in Hq. destruct Hq as (-> & -> & ->).
  unfold success_effect in Hrest. cbn in Hrest. rewrite andb_false_r in Hrest. destruct Hrest as (-> & -> & ->).
  split; [done|]. split; [by eexists|]. split; [done|]. by eexists.
Qed.

(** The end of the login under way, in one go: a success with a cloud shows its devices and takes the form away; a
    failure leaves the form as it was typed, with the error, ready to be submitted again. *)
Theorem login_ends n r s f : shell_ok s → sh_form s = Some f → ag_login f = Some n →
  blk browser_sync (modify (login_done n r) ;;! success_effect) (λ r' s' l, r' = Ok tt ∧ l = [] ∧
    match r with
    | Ok cloud => truthy cloud = true → app_page (sh_app s') = DevicesPage cloud ∧ sh_form s' = None
    | Err e => sh_app s' = sh_app s ∧ ∃ f', sh_form s' = Some f' ∧ ag_login f' = None ∧ ag_auth f' =
        {| am_state := Editing; am_context := (am_context (ag_auth f)) <| au_error := Some (formatAuthError e) |> |}
    end) s.
Proof.
  intros [Hd Hf Hp] Ef El. destruct (Hp f Ef) as [Hok Hl Hn Hse Ht].
  assert (Happ : ap_state (sh_app s) = Active WebAuth.AuthView) by (apply Hf; rewrite Ef; eauto).
  assert (Hst : am_state (ag_auth f) = Submitting) by (apply Hl; eauto).
  assert (Hseen : ag_isSuccess f = false) by (destruct (ag_isSuccess f); [by rewrite Hse in Hst|done]).
  set (m := fst (auth_step (LoginDone r) (ag_auth f))).
  assert (Hm : m = match r with
    | Ok cloud => {| am_state := Success; am_context := (am_context (ag_auth f)) <| au_cloud := coalesce cloud VNull |> <| au_error := None |>
                       <| au_password := "" |> <| au_totp := "" |> |}
    | Err e => {| am_state := Editing; am_context := (am_context (ag_auth f)) <| au_error := Some (formatAuthError e) |> |}
    end) by (unfold m, auth_step; rewrite Hst; by destruct r).
  assert (Hdone : login_done n r s = s <| sh_form := Some (f <| ag_login := None |> <| ag_auth := m |>) |>).
  { unfold login_done. rewrite Ef, El, Nat.eqb_refl. unfold form_step. cbn -[auth_step]. unfold m, auth_step. rewrite Hst. by destruct r. }
  cbn -[login_done success_effect]. rewrite Hdone. unfold success_effect. cbn. rewrite Hseen, Hm. clear Hm Hdone. destruct r as [cloud|e]; cbn.
  - destruct (truthy (coalesce cloud VNull)) eqn:Hc; cbn.
    + split_and!; [done..|]. intros Ht'. unfold mount_form, app_page, app_step. cbn. rewrite Happ. cbn.
      assert (coalesce cloud VNull = cloud) as -> by by destruct cloud. rewrite Ht'. cbn. by rewrite Ht'.
    + split_and!; [done..|]. intros Ht'. destruct cloud; cbn in *; congruence.
  - split_and!; [done..|]. by eexists.
Qed.

(** ** Every device has one card *)

Section Inventory.
Context `{Runtime}.

Definition inventory_cards_of (l : list inventory_node) : list (string * val) :=
  omap (λ n, match n with CardOf uuid device => Some (uuid, device) | _ => None end) l.

Definition device_uuid (d : val) : string := str_or_empty (prop "uuid" d).

Lemma device_group_cards title uuids byUuid a b :
  inventory_cards_of (device_group title uuids byUuid a b) = map (λ uuid, (uuid, jget uuid byUuid ?: VNull)) uuids.
Proof.
  unfold device_group, inventory_cards_of. cbn. destruct uuids as [|u us]; [done|]. cbn [map omap list_omap]. f_equal.
  induction us as [|v us IH]; [done|]. cbn. by rewrite IH.
Qed.

(** The table of the devices holds a device for each uuid there is. *)
Lemma deviceByUuid_ok devices : let byUuid := deviceByUuid devices in
  (∀ u d, jget u byUuid = Some d → device_uuid d = u ∧ d ∈ devices) ∧
  (∀ d, d ∈ devices → device_uuid d ≠ "" → is_Some (jget (device_uuid d) byUuid)).
Proof.
  unfold deviceByUuid. cbv zeta. rewrite <- (rev_involutive devices). generalize (rev devices). clear devices. intros l.
  induction l as [|d l IH]; [split; [done|by intros d ?%elem_of_nil]|]. cbn [rev]. rewrite foldl_app. cbn [foldl].
  destruct IH as [IH1 IH2]. change (str_or_empty (prop "uuid" d)) with (device_uuid d).
  destruct (str_truthy (device_uuid d)) eqn:E; split.
  - intros u d'. rewrite jget_set. destruct (decide _) as [<-|]; [intros [= <-]; set_solver|].
    intros [? ?]%IH1. set_solver.
  - intros d' Hd Hne. rewrite jget_set. destruct (decide _); [by eexists|]. apply IH2; [set_solver|done].
  - intros u d' [? ?]%IH1. set_solver.
  - intros d' Hd Hne. apply IH2; [|done]. apply str_truthy_false in E.
    apply elem_of_app in Hd as [| ->%list_elem_of_singleton]; done.
Qed.

Lemma inventory_uuids hosts devices : map iv_uuid (omap (inventory_device hosts) devices) = List.filter str_truthy (map device_uuid devices).
Proof.
  induction devices as [|d devices IH]; [done|]. cbn [omap list_omap map List.filter]. unfold inventory_device at 1.
  change (str_or_empty (prop "uuid" d)) with (device_uuid d). destruct (str_truthy (device_uuid d)); cbn; by rewrite <- IH.
Qed.

Lemma cards_app l1 l2 : inventory_cards_of (l1 ++ l2) = inventory_cards_of l1 ++ inventory_cards_of l2.
Proof. apply omap_app. Qed.

Definition is_reload (n : inventory_node) : bool := match n with ReloadButton _ => true | _ => false end.

Lemma group_no_reload title uuids byUuid a b : existsb is_reload (device_group title uuids byUuid a b) = false.
Proof. unfold device_group. destruct uuids as [|u us]; [done|]. cbn. induction us as [|v us IH]; done. Qed.

Lemma no_reload l b : existsb is_reload l = false → ReloadButton b ∉ l.
Proof.
  intros Hl Hin. apply not_true_iff_false in Hl. apply Hl, existsb_exists. exists (ReloadButton b). split; [|done]. by apply list_elem_of_In.
Qed.

(** The inventory shows one card for every device with a uuid, each with its own device, those with an address first;
    a device without a uuid has none. The button to reload is enabled exactly while neither a refresh nor a scan runs. *)
Theorem inventory_cards (m : devices) :
  let devices := arr_items (dc_devices (dm_context m)) in
  let groups := inventory_groups m in
  let cards := inventory_cards_of (inventory_page m) in
  map fst cards = map iv_uuid (in_ready groups) ++ map iv_uuid (in_inaccessible groups) ∧
  map fst cards ≡ₚ List.filter str_truthy (map device_uuid devices) ∧
  Forall (λ c, device_uuid c.2 = c.1 ∧ c.2 ∈ devices) cards ∧
  (∀ b, ReloadButton b ∈ inventory_page m ↔ b = negb (reloadBusy m)).
Proof.
  intros devices groups cards. destruct (deviceByUuid_ok devices) as [Hby1 Hby2].
  pose proof (groupDevicesForControl_spec devices (hosts_of_val (dc_hosts (dm_context m)))) as (Hperm & _ & _ & _).
  assert (Hu : map iv_uuid (in_ready groups) ++ map iv_uuid (in_inaccessible groups) ≡ₚ List.filter str_truthy (map device_uuid devices)).
  { rewrite <- map_app, <- (inventory_uuids (hosts_of_val (dc_hosts (dm_context m)))). by apply Permutation_map. }
  assert (Hcards : cards = map (λ uuid, (uuid, jget uuid (deviceByUuid devices) ?: VNull)) (map iv_uuid (in_ready groups) ++ map iv_uuid (in_inaccessible groups))).
  { unfold cards, inventory_page. fold devices groups. rewrite map_app. destruct devices as [|d ds] eqn:Ed.
    - symmetry in Hu. apply Permutation_nil_l, eq_sym, app_nil in Hu as [-> ->]. rewrite !cards_app. unfold show. by destruct (isDegraded m), (reloadBusy m), (isScanning m).
    - rewrite !cards_app, !device_group_cards. unfold show. by destruct (isDegraded m), (reloadBusy m), (isScanning m). }
  assert (Hfst : map fst cards = map iv_uuid (in_ready groups) ++ map iv_uuid (in_inaccessible groups)).
  { rewrite Hcards, map_map. cbn. by rewrite map_id. }
  split; [done|]. split; [by rewrite Hfst|]. split.
  - rewrite Hcards. apply Forall_forall. intros [u d] Hin. apply list_elem_of_fmap in Hin as (u' & [= -> ->] & Hin).
    rewrite Hu in Hin. apply list_elem_of_In, filter_In in Hin as [Hin Ht]. apply in_map_iff in Hin as (d & <- & Hd).
    apply list_elem_of_In in Hd. destruct (Hby2 d Hd) as [d' Hd']; [by apply str_truthy_spec|]. cbn. rewrite Hd'. cbn. by apply Hby1.
  - intros b. unfold inventory_page. fold devices groups.
    match goal with |- _ ∈ ?t ++ ?deg ++ ?lab ++ [ReloadButton ?en] ++ ?sc ++ ?tail ↔ _ =>
      assert (H1 : ReloadButton b ∉ t ++ deg ++ lab) by (apply no_reload; unfold show; destruct (isDegraded m), (reloadBusy m); done);
      assert (H2 : ReloadButton b ∉ sc ++ tail); [apply no_reload; rewrite existsb_app|] end.
    2: { rewrite !elem_of_app in H1. rewrite elem_of_app in H2. rewrite !elem_of_app, list_elem_of_singleton.
         split; [|intros ->; tauto]. intros [?|[?|[?|[[= ->]|?]]]]; tauto. }
    assert (existsb is_reload (show (isScanning m) [InventoryText "Scanning LAN";
      InventoryText "Looking up IPs. Devices with a known IP remain controllable while scan runs."]) = false) as -> by by destruct (isScanning m).
    destruct devices; [done|]. by rewrite existsb_app, !group_no_reload.
Qed.
End Inventory.

(** ** On a concrete run *)

(** A server without credentials that accepts a sign-in, and a browser without storage. *)
Definition demo_cloud : string := "{" +:+ quote +:+ "key" +:+ quote +:+ ":" +:+ quote +:+ "k" +:+ quote +:+ "}".

Definition demo_envelope (data : string) : string :=
  "{" +:+ quote +:+ "ok" +:+ quote +:+ ":true," +:+ quote +:+ "data" +:+ quote +:+ ":{" +:+ quote +:+ "cloud" +:+ quote +:+ ":" +:+ data +:+ "}}".

Definition demo_answer (X : Type) (e : webE X) : X :=
  match e with
  | WFetch rq => Ok {| rs_ok := true; rs_status := 200; rs_statusText := "OK";
                       rs_text := Some (demo_envelope (if String.eqb (wq_path rq) "/api/cloud/login" then demo_cloud else "null")) |}
  | WGetItem _ | WSetItem _ _ => None
  | WNow => 0
  | WRandom36 => "0.4fzyo82m"
  end.

Definition demo_likely : LoginRegion * string := (REu, "timezone: Europe/Berlin").

Definition demo_type (k : nat) (i : auth_input) (c : @threads shell unit webE) : @threads shell unit webE :=
  call_run browser_sync demo_answer (form_touch demo_likely k i) c.

(** The form once the application has started, filled in and submitted; and the end of the login. *)
Definition demo_booted : @threads shell unit webE :=
  resume_run browser_sync no_promise demo_answer 0
    (call_run browser_sync demo_answer (boot demo_likely) {| th_state := shell_start; th_threads := [] |}).

Definition demo_submitted : @threads shell unit webE :=
  demo_type 8 SubmitForm (demo_type 7 (TypeIn "12 34-567") (demo_type 6 (TypeIn "secret") (demo_type 5 (TypeIn "a@b.c") demo_booted))).

Definition demo_signed_in : @threads shell unit webE := resume_run browser_sync no_promise demo_answer 5 demo_submitted.

Lemma demo_reaches : shell_reaches demo_likely demo_submitted.
Proof.
  unfold demo_submitted, demo_type, shell_reaches. do 4 (eapply rtc_r; [|apply call_run_step; constructor]).
  unfold demo_booted. eapply steps_trans; [|apply resume_run_steps]. apply rtc_once, call_run_step. constructor.
Qed.

Lemma shell_agrees_witness : let s := th_state demo_submitted in
  app_page (sh_app s) = AuthPage ∧ au_totp ∘ am_context ∘ ag_auth <$> sh_form s = Some "123456" ∧
  app_page (sh_app (th_state demo_signed_in)) ≠ BlankPage ∧ app_page (sh_app s) ≠ BlankPage ∧
  (∀ f, sh_form s = Some f → is_Some (ag_login f) ↔ isSubmitting (ag_auth f) = true).
Proof.
  intros s. split; [by vm_compute|]. split; [by vm_compute|]. split; [by vm_compute|].
  destruct (shell_agrees demo_likely demo_submitted demo_reaches) as (H1 & _ & H3). split; [exact H1|].
  intros f Hf. by destruct (H3 f Hf).
Defined.

(** The sign-in ends on the page of the devices, with the region of the browser in the form. *)
Example demo_sign_in :
  au_region ∘ am_context ∘ ag_auth <$> sh_form (th_state demo_submitted) = Some REu ∧
  app_page (sh_app (th_state demo_signed_in)) = DevicesPage (VObj [("key", VStr "k")]) ∧ sh_form (th_state demo_signed_in) = None.
Proof. by vm_compute. Qed.
