(* ===== verification/Lights.v ===== *)
(** * The controls of a light

    apps/web/src/views/devices/SmartLightControls.tsx: the full controls of the dialog, and the widget of the
    card with the strip that behaves like it. Each keeps drafts of what the user is choosing, which follow
    the device, and posts what was chosen. The colours of the library's wheel are a parameter; drawing
    is left out, except for the colour of a slider's thumb. A callback closes over the properties and
    the state of the render it was made in. *)

From S2P Require Export Views Threads.

Local Open Scope string_scope.
Local Open Scope Z_scope.
Local Open Scope list_scope.

(** ** Colours of a thumb *)

Definition rgb_triple : Type := num * num * num.

Definition js_round (x : num) : num := match num_round x with Some z => num_of_Z z | None => x end.

Definition mix1 (a b t : num) : num :=
  js_round (num_add a (num_mul (num_sub b a) (clamp t 0 1))).

Definition mixRgb (a b : rgb_triple) (t : num) : rgb_triple :=
  let '(a0, a1, a2) := a in let '(b0, b1, b2) := b in (mix1 a0 b0 t, mix1 a1 b1 t, mix1 a2 b2 t).

Definition rgbToCss (rgb : rgb_triple) : string :=
  let '(r, g, b) := rgb in "rgb(" +:+ num_to_str r +:+ " " +:+ num_to_str g +:+ " " +:+ num_to_str b +:+ ")".

Definition of_ints (c : Z * Z * Z) : rgb_triple := let '(r, g, b) := c in (num_of_Z r, num_of_Z g, num_of_Z b).

(** The thumb of a slider, whose track is that of the temperature or of the luminance. *)
Definition thumbFill (temperature : bool) (tintHex : string) (percent : num) : string :=
  let tint := hexToRgb tintHex ?: (255, 106, 0) in
  rgbToCss (if temperature then mixRgb (of_ints (255, 160, 64)) (of_ints (160, 236, 255)) percent else of_ints tint).

(** The value a slider shows. *)
Definition slider_value (draft : num) : num := clamp_round draft 0 100.

(** ** What both kinds of controls share *)

Record light_props := { lt_uuid : string; lt_state : option DeviceState }.

Definition props_light (p : light_props) : option light_channel := shown_light (lt_state p).
Definition props_lum (p : light_props) : num := deviceLum (props_light p).
Definition props_temp (p : light_props) : num := deviceTemp (props_light p).
Definition deviceHex (p : light_props) : string := rgbToHex (deviceRgb (props_light p)).

(** What the outside gets: the parent's [onRequestRefresh] or [onOpenTuning], or a toast. *)
Inductive light_note : Type :=
| NoteRefresh
| NoteTuning
| NoteToast (title detail : string).

Definition only_luminance (n : num) : light_patch := {| lp_luminance := Some n; lp_temperature := None; lp_rgb := None |}.

(** ** The full controls *)

Section Controls.
(** [Color] of the library, [parseColor] and [c.toString('hex')]. *)
Context {Color : Type} (parseColor : string → Color) (toHex : Color → string).

(** [rgbIntFromColor] *)
Definition color_rgb (c : Color) : option Z := rgbIntFromColor (toHex c).

Record controls := {
  ct_white : bool; ct_draftLum : num; ct_draftTemp : num; ct_draftColor : Color;
  ct_dragLum : bool; ct_dragTemp : bool; ct_dragColor : bool; ct_busy : bool;
  ct_deps : num * num * string }.

Definition light_deps (p : light_props) : num * num * string := (props_lum p, props_temp p, deviceHex p).

(** The first render, and its effects, which set the drafts to what they are. *)
Definition controls_start (p : light_props) : controls :=
  {| ct_white := match props_light p ≫= lc_temperature with Some _ => true | None => false end;
     ct_draftLum := props_lum p; ct_draftTemp := props_temp p; ct_draftColor := parseColor (deviceHex p);
     ct_dragLum := false; ct_dragTemp := false; ct_dragColor := false; ct_busy := false; ct_deps := light_deps p |}.

(** The state with the last properties, what it told the outside and the bodies it posted. *)
Record controls_world := {
  lw_props : light_props; lw_controls : controls; lw_notes : list light_note; lw_posts : list val }.

Abbreviation L := (prog controls_world unit webE).

Definition on_controls (f : controls → controls) : L unit := modify (λ w, w <| lw_controls := f (lw_controls w) |>).
Definition note (n : light_note) : L unit := modify (λ w, w <| lw_notes := lw_notes w ++ [n] |>).

(** The three effects, each of which runs when its dependency has changed. *)
Definition follow (now : num * num * string) (s : controls) : controls :=
  let '(lum, temp, hex) := now in
  let '(lum0, temp0, hex0) := ct_deps s in
  let s := if bool_decide (lum ≠ lum0) && negb (ct_dragLum s) then s <| ct_draftLum := lum |> else s in
  let s := if bool_decide (temp ≠ temp0) && negb (ct_dragTemp s) then s <| ct_draftTemp := temp |> else s in
  let s := if bool_decide (hex ≠ hex0) && negb (ct_dragColor s) then s <| ct_draftColor := parseColor hex |> else s in
  s <| ct_deps := now |>.

(** A render with other properties of the same device. *)
Definition controls_render (state : option DeviceState) : L unit :=
  modify (λ w, let p := (lw_props w) <| lt_state := state |> in
               w <| lw_props := p |> <| lw_controls := follow (light_deps p) (lw_controls w) |>).

Definition sendLight (p : light_props) (patch : light_patch) : L unit :=
  on_controls (λ s, s <| ct_busy := true |>) ;;!
  modify (λ w, w <| lw_posts := lw_posts w ++ [light_body (lt_uuid p) patch] |>) ;;!
  finally
    (catch (apiPost "/api/device/light" (light_body (lt_uuid p) patch) ;;! note NoteRefresh)
           (λ e, note (NoteToast "Light update failed" (exn_message e))))
    (on_controls (λ s, s <| ct_busy := false |>)).

(** What the controls do; the numbers and colours are those of the library's sliders and wheel. *)
Inductive light_action : Type :=
| LumChange (n : num)
| LumChangeEnd (n : num)
| SelectMode (white : bool)
| TempChange (n : num)
| TempChangeEnd (n : num)
| TempPreset (n : Z)
| ColorChange (c : Color)
| ColorChangeEnd (c : Color)
| Swatch (rgb : Z)
| Sync
| Dim.

Definition with_temperature (s : controls) (n : num) : light_patch :=
  {| lp_luminance := Some (ct_draftLum s); lp_temperature := Some n; lp_rgb := None |}.

Definition with_rgb (s : controls) (rgb : Z) : light_patch :=
  {| lp_luminance := Some (ct_draftLum s); lp_temperature := None; lp_rgb := Some (num_of_Z rgb) |}.

Definition light_act (p : light_props) (s : controls) (a : light_action) : L unit :=
  match a with
  | LumChange n => on_controls (λ s, s <| ct_dragLum := true |> <| ct_draftLum := n |>)
  | LumChangeEnd n =>
      on_controls (λ s, s <| ct_dragLum := false |> <| ct_draftLum := n |>) ;;!
      fork (sendLight p (only_luminance n))
  | SelectMode white => on_controls (λ s, s <| ct_white := white |>)
  | TempChange n => on_controls (λ s, s <| ct_dragTemp := true |> <| ct_draftTemp := n |>)
  | TempChangeEnd n =>
      on_controls (λ s, s <| ct_dragTemp := false |> <| ct_draftTemp := n |>) ;;!
      fork (sendLight p (with_temperature s n))
  | TempPreset n =>
      on_controls (λ s, s <| ct_draftTemp := num_of_Z n |>) ;;!
      fork (sendLight p (with_temperature s (num_of_Z n)))
  | ColorChange c => on_controls (λ s, s <| ct_dragColor := true |> <| ct_draftColor := c |>)
  | ColorChangeEnd c =>
      on_controls (λ s, s <| ct_dragColor := false |> <| ct_draftColor := c |>) ;;!
      match color_rgb c with
      | None => Ret tt
      | Some rgb => fork (sendLight p (with_rgb s rgb))
      end
  | Swatch rgb =>
      on_controls (λ s, s <| ct_draftColor := parseColor (rgbToHex (num_of_Z rgb)) |>) ;;!
      fork (sendLight p (with_rgb s rgb))
  | Sync => note NoteRefresh
  | Dim => fork (sendLight p (only_luminance (num_of_Z 0)))
  end.

(** ** What is shown *)

Inductive light_node : Type :=
| LightText (s : string)
| LightSlider (label : string) (value : num) (enabled : bool) (change changeEnd : num → light_action)
| LightTab (label : string) (a : light_action)
| LightButton (label : string) (enabled : bool) (a : light_action)
| LightWheel (fill : string) (enabled : bool).

Inductive light_input : Type :=
| LightPress
| SlideTo (n : num)
| SlideEnd (n : num)
| WheelTo (c : Color)
| WheelEnd (c : Color).

Definition light_react (n : light_node) (i : light_input) : option light_action :=
  match n, i with
  | LightSlider _ _ true change _, SlideTo n => Some (change n)
  | LightSlider _ _ true _ changeEnd, SlideEnd n => Some (changeEnd n)
  | (LightTab _ a | LightButton _ true a), LightPress => Some a
  | LightWheel _ true, WheelTo c => Some (ColorChange c)
  | LightWheel _ true, WheelEnd c => Some (ColorChangeEnd c)
  | _, _ => None
  end.

Definition swatches : list Z := [16726843; 16738816; 16764928; 3003583; 3900150; 11032055].

Definition white_panel (s : controls) : list light_node :=
  [LightSlider "Temperature" (slider_value (ct_draftTemp s)) (negb (ct_busy s)) TempChange TempChangeEnd;
   LightButton "Warm" (negb (ct_busy s)) (TempPreset 20); LightButton "Neutral" (negb (ct_busy s)) (TempPreset 52);
   LightButton "Cool" (negb (ct_busy s)) (TempPreset 84)].

Definition color_panel (p : light_props) (s : controls) : list light_node :=
  [LightWheel (rgbToHex (match color_rgb (ct_draftColor s) with Some z => num_of_Z z | None => deviceRgb (props_light p) end))
     (negb (ct_busy s)); LightText "Hue";
   LightText "Spin the ring to pick a color. Brightness stays on the slider above."] ++
  map (λ rgb, LightButton ("Set color to " +:+ rgbToHex (num_of_Z rgb)) (negb (ct_busy s)) (Swatch rgb)) swatches.

Definition light_tip : string :=
  "Tip: if the bulb is off, switch it on first. Adjustments intentionally turn it on, but the state might lag a " +:+
  "moment on slower Wi-Fi.".

Definition light_view (p : light_props) (s : controls) : list light_node :=
  let onoff := match props_light p with Some l => lc_onoff l | None => false end in
  [LightText "Light controls";
   LightText (if bool_decide (lt_state p ≫= vs_kind = Some "mixed") then "Bulb + relay" else "Smart bulb");
   LightText (deviceHex p);
   LightSlider "Brightness" (slider_value (ct_draftLum s)) (negb (ct_busy s)) LumChange LumChangeEnd;
   LightTab "White" (SelectMode true); LightTab "Color" (SelectMode false)] ++
  (if ct_white s then white_panel s else color_panel p s) ++
  [LightText (if ct_busy s then "sending…" else if onoff then "ready" else "off");
   LightButton "Sync" (negb (ct_busy s)) Sync; LightButton "Dim" (negb (ct_busy s)) Dim] ++
  (if ct_busy s || negb onoff then [LightText light_tip] else []).

(** ** Runs *)

Definition light_touch (k : nat) (i : light_input) : L unit :=
  let! '(p, s) := gets (λ w, (lw_props w, lw_controls w)) in
  match light_view p s !! k ≫= λ n, light_react n i with
  | Some a => light_act p s a
  | None => Ret tt
  end.

(** What the sliders of the library can send: [ok] holds of their numbers. *)
Definition input_ok (ok : num → Prop) (i : light_input) : Prop :=
  match i with SlideTo n | SlideEnd n => ok n | _ => True end.

Inductive controls_entry (ok : num → Prop) : L unit → Prop :=
| le_touch k i : input_ok ok i → controls_entry ok (light_touch k i)
| le_render state : controls_entry ok (controls_render state).

Definition light_settled (w : controls_world) (pid : nat) : option (result unit) := None.

Definition controls_init (p : light_props) : controls_world :=
  {| lw_props := p; lw_controls := controls_start p; lw_notes := []; lw_posts := [] |}.

Definition controls_reaches (ok : num → Prop) (p : light_props) : @threads controls_world unit webE → Prop :=
  steps browser_sync light_settled (controls_entry ok) {| th_state := controls_init p; th_threads := [] |}.
End Controls.

(** ** The widget of the card, and the strip *)

Record widget := { wg_draftLum : num; wg_busy : bool; wg_dep : num }.

Definition widget_start (p : light_props) : widget :=
  {| wg_draftLum := props_lum p; wg_busy := false; wg_dep := props_lum p |}.

Record widget_world := {
  ww_props : light_props; ww_widget : widget; ww_notes : list light_note; ww_posts : list val }.

Abbreviation W := (prog widget_world unit webE).

Definition on_widget (f : widget → widget) : W unit := modify (λ w, w <| ww_widget := f (ww_widget w) |>).
Definition widget_note (n : light_note) : W unit := modify (λ w, w <| ww_notes := ww_notes w ++ [n] |>).

(** Its draft follows the device whatever the user is doing. *)
Definition widget_follow (lum : num) (s : widget) : widget :=
  (if bool_decide (lum ≠ wg_dep s) then s <| wg_draftLum := lum |> else s) <| wg_dep := lum |>.

Definition widget_render (state : option DeviceState) : W unit :=
  modify (λ w, let p := (ww_props w) <| lt_state := state |> in
               w <| ww_props := p |> <| ww_widget := widget_follow (props_lum p) (ww_widget w) |>).

Definition widget_sendLight (p : light_props) (n : num) : W unit :=
  on_widget (λ s, s <| wg_busy := true |>) ;;!
  modify (λ w, w <| ww_posts := ww_posts w ++ [light_body (lt_uuid p) (only_luminance n)] |>) ;;!
  finally
    (catch (apiPost "/api/device/light" (light_body (lt_uuid p) (only_luminance n)) ;;! widget_note NoteRefresh)
           (λ e, widget_note (NoteToast "Light update failed" (exn_message e))))
    (on_widget (λ s, s <| wg_busy := false |>)).

Inductive widget_action : Type :=
| OpenLightTuning
| WidgetChange (n : num)
| WidgetChangeEnd (n : num).

Definition widget_act (p : light_props) (a : widget_action) : W unit :=
  match a with
  | OpenLightTuning => widget_note NoteTuning
  | WidgetChange n => on_widget (λ s, s <| wg_draftLum := n |>)
  | WidgetChangeEnd n => on_widget (λ s, s <| wg_draftLum := n |>) ;;! fork (widget_sendLight p n)
  end.

Inductive widget_node : Type :=
| WidgetText (s : string)
| WidgetButton (label : string) (enabled : bool) (a : widget_action)
| WidgetSlider (label : string) (value : num) (enabled : bool).

Definition widget_react (n : widget_node) (i : option (bool * num)) : option widget_action :=
  match n, i with
  | WidgetButton _ true a, None => Some a
  | WidgetSlider _ _ true, Some (ended, n) => Some (if ended then WidgetChangeEnd n else WidgetChange n)
  | _, _ => None
  end.

(** [SmartLightActionWidget] and [SmartLightQuickStrip] *)
Definition widget_view (s : widget) : list widget_node :=
  [WidgetButton "Open light tuning" (negb (wg_busy s)) OpenLightTuning;
   WidgetSlider "Brightness" (slider_value (wg_draftLum s)) (negb (wg_busy s));
   WidgetText (num_to_str (js_round (wg_draftLum s)) +:+ "%")].

Definition strip_view (s : widget) : list widget_node :=
  [WidgetText "Quick"; WidgetButton "Tune" (negb (wg_busy s)) OpenLightTuning;
   WidgetSlider "Brightness" (slider_value (wg_draftLum s)) (negb (wg_busy s))].

(** [view] is one of the two. *)
Definition widget_touch (view : widget → list widget_node) (k : nat) (i : option (bool * num)) : W unit :=
  let! '(p, s) := gets (λ w, (ww_props w, ww_widget w)) in
  match view s !! k ≫= λ n, widget_react n i with
  | Some a => widget_act p a
  | None => Ret tt
  end.

(** ** Toasts (ui/toast.tsx)

    One at a time, each with a timer that the next one, or its own end, clears. *)

Record toast := { to_ok : bool; to_title : string; to_detail : option string }.
Record toasts := { ts_toast : option toast; ts_timeout : option Z }.

Definition no_toast : toasts := {| ts_toast := None; ts_timeout := None |}.

Definition show_toast (now : Z) (t : toast) (s : toasts) : toasts :=
  {| ts_toast := Some t; ts_timeout := Some (now + 4500) |}.

(** The timers that are due. *)
Definition toast_tick (now : Z) (s : toasts) : toasts :=
  match ts_timeout s with Some at_ => if at_ <=? now then no_toast else s | None => s end.

Definition toast_lines (s : toasts) : list string :=
  match ts_toast s with
  | None => []
  | Some t => [if to_ok t then "OK" else "ERROR"; "merossity"; to_title t] ++
              match to_detail t ≫= nonempty with Some d => [d] | None => [] end
  end.
