(* ===== verification/LightsSpec.v ===== *)
(** * What the controls of a light guarantee

    Whatever is done to the controls, and however the answers and the changes of the device interleave, each
    request they make is one that the server accepts ([controls_requests]). The examples show what a
    failed update and a change of the device in the middle of a drag leave on the screen. *)

From S2P Require Export Lights ViewsSpec.

Local Open Scope string_scope.
Local Open Scope Z_scope.
Local Open Scope list_scope.

(** ** Finite numbers *)

Definition finite (n : num) : Prop := is_finite n = true.

Lemma finite_of_Z z : Z.abs z < 2 ^ 53 → finite (num_of_Z z).
Proof. intros Hz. eapply num_Z_finite, num_Z_of_Z, Hz. Qed.

Lemma finite_minmax a b : finite a → finite b → finite (num_min a b) ∧ finite (num_max a b).
Proof.
  unfold finite, num_min, num_max. intros Ha Hb.
  assert (is_nan a = false ∧ is_nan b = false) as [-> ->] by (split; [by destruct a|by destruct b]). cbn.
  by split; case_match.
Qed.

Lemma finite_clamp n lo hi : Z.abs lo < 2 ^ 53 → Z.abs hi < 2 ^ 53 → finite n → finite (clamp n lo hi).
Proof. intros Hlo%finite_of_Z Hhi%finite_of_Z Hn. unfold clamp. by apply finite_minmax; [|apply finite_minmax]. Qed.

Lemma finite_shown v hi fallback : Z.abs hi < 2 ^ 53 → Z.abs fallback < 2 ^ 53 → finite (shown_number v hi fallback).
Proof.
  intros Hhi Hf. unfold shown_number. destruct v as [n|]; [|by apply finite_of_Z].
  destruct (is_finite n) eqn:E; [by apply finite_clamp|by apply finite_of_Z].
Qed.

Lemma finite_props p : finite (props_lum p) ∧ finite (props_temp p).
Proof. split; by apply finite_shown. Qed.

Lemma hex_val_nonneg c : is_hex c = true → 0 <= hex_val c.
Proof. destruct c as [[] [] [] [] [] [] [] []]; vm_compute; done. Qed.

Lemma read_radix_bound r s a b k : read_radix r a s = Some b → 0 < r → 0 <= a < k → 0 <= b < k * r ^ Z.of_nat (String.length s).
Proof.
  revert a k. induction s as [|c s IH]; intros a k; cbn [read_radix].
  { intros [= ->] ? ?. cbn. lia. }
  destruct (is_hex c && _) eqn:E; [|done]. intros Hb Hr Ha. apply andb_prop in E as [Hx Hv%Z.ltb_lt].
  pose proof (hex_val_nonneg c Hx).
  cbn [String.length]. rewrite Nat2Z.inj_succ, Z.pow_succ_r by lia.
  specialize (IH (r * a + hex_val c) (k * r) Hb Hr). rewrite Z.mul_assoc. apply IH. nia.
Qed.

Lemma color_bound s z : rgbIntFromColor s = Some z → 0 <= z < 16777216.
Proof.
  unfold rgbIntFromColor, hex6. cbv zeta. intros H. destruct (Nat.eqb _ 6 && _) eqn:E; [|done]. apply andb_prop in E as [El%Nat.eqb_eq _].
  apply (read_radix_bound _ _ _ _ 1) in H; [|lia..]. rewrite El in H. exact H.
Qed.

(** ** Every request *)

(** What the light handler makes of a body: the light of channel 0 is turned on, with numbers in range. *)
Definition accepted_body (uuid : string) (body : val) : Prop :=
  str_or_empty (prop "uuid" body) = uuid ∧ channel_of body = Some 0 ∧
  ∃ fields, light_request body = Go fields ∧ lf_onoff fields = Some true ∧
    (∀ z, lf_luminance fields = Some z → 0 <= z <= 100) ∧ (∀ z, lf_temperature fields = Some z → 0 <= z <= 100) ∧
    (∀ z, lf_rgb fields = Some z → 0 <= z <= 16777215).

Lemma sent_bound hi o z : 0 <= hi → sent_number hi o = Some z → 0 <= z <= hi.
Proof. intros Hhi. unfold sent_number. destruct o; cbn; [|done]. intros [= <-]. lia. Qed.

Lemma body_accepted uuid patch : patch_finite patch → accepted_body uuid (light_body uuid patch).
Proof.
  intros Hp. destruct (sendLight_accepted uuid patch Hp) as (Hu & Hc & Hr). split; [done|]. split; [done|].
  eexists. split; [exact Hr|]. split; [done|]. cbn. split_and!; intros z; by apply sent_bound.
Qed.

Section Controls.
Context {Color : Type} (parseColor : string → Color) (toHex : Color → string) (uuid : string).

Record controls_ok (w : controls_world (Color := Color)) : Prop := {
  co_uuid : lt_uuid (lw_props w) = uuid;
  co_lum : finite (ct_draftLum (lw_controls w));
  co_posts : Forall (accepted_body uuid) (lw_posts w) }.

Abbreviation kept := (keeps controls_ok).

Lemma kept_controls f : (∀ s, finite (ct_draftLum s) → finite (ct_draftLum (f s))) → kept (on_controls f : prog _ unit webE unit).
Proof. intros Hf. apply keeps_modify. intros w [Hu Hl Hp]. by split; [|apply Hf|]. Qed.

Lemma kept_note n : kept (note n : prog _ unit webE unit).
Proof. apply keeps_modify. intros w []. by split. Qed.

Lemma kept_post body : accepted_body uuid body →
  kept (modify (λ w, w <| lw_posts := lw_posts w ++ [body] |>) : prog _ unit webE unit).
Proof. intros Hb. apply keeps_modify. intros w [Hu Hl Hp]. split; [done|done|]. apply Forall_app. split; [done|by apply Forall_singleton]. Qed.

Lemma kept_apiPost path body : kept (apiPost path body : prog (controls_world (Color := Color)) unit webE val).
Proof. unfold apiPost. keeps_tac. Qed.

Hint Resolve kept_note kept_apiPost : keeps.

Lemma kept_sendLight p patch : lt_uuid p = uuid → patch_finite patch → kept (sendLight p patch).
Proof.
  intros Hu Hp. unfold sendLight. apply keeps_bind; [by apply kept_controls|]. intros _.
  apply keeps_bind; [apply kept_post; rewrite Hu; by apply body_accepted|]. intros _.
  apply keeps_finally; [|by apply kept_controls]. keeps_tac.
Qed.

Lemma patch_of_luminance n : finite n → patch_finite (only_luminance n).
Proof. intros Hn m [[= <-]|[[=]|[=]]]. done. Qed.

Lemma patch_of_temperature (s : controls (Color := Color)) n : finite (ct_draftLum s) → finite n → patch_finite (with_temperature s n).
Proof. intros Hs Hn m [[= <-]|[[= <-]|[=]]]; done. Qed.

Lemma patch_of_rgb (s : controls (Color := Color)) z : finite (ct_draftLum s) → 0 <= z < 16777216 → patch_finite (with_rgb s z).
Proof. intros Hs Hz m [[= <-]|[[=]|[= <-]]]; [done|]. apply finite_of_Z. lia. Qed.

(** The numbers of an action come from a slider, from the wheel or from the table of the view. *)
Definition action_ok (a : light_action (Color := Color)) : Prop :=
  match a with
  | LumChange n | LumChangeEnd n | TempChange n | TempChangeEnd n => finite n
  | TempPreset n => 0 <= n <= 100
  | Swatch rgb => 0 <= rgb < 16777216
  | _ => True
  end.

Lemma kept_act p s a : lt_uuid p = uuid → finite (ct_draftLum s) → action_ok a → kept (light_act parseColor toHex p s a).
Proof.
  intros Hu Hs Ha. destruct a; cbn [light_act action_ok] in *;
    repeat (apply keeps_bind; [by apply kept_controls|intros _]); try by apply kept_controls.
  - by apply keeps_fork, kept_sendLight, patch_of_luminance.
  - by apply keeps_fork, kept_sendLight, patch_of_temperature.
  - apply keeps_fork, kept_sendLight, patch_of_temperature; [done..|]. apply finite_of_Z. lia.
  - destruct (color_rgb toHex c) as [z|] eqn:E; [|done]. apply color_bound in E. by apply keeps_fork, kept_sendLight, patch_of_rgb.
  - by apply keeps_fork, kept_sendLight, patch_of_rgb.
  - apply kept_note.
  - by apply keeps_fork, kept_sendLight, patch_of_luminance, finite_of_Z.
Qed.

Definition view_action_ok (i : light_input) (n : light_node (Color := Color)) : Prop :=
  ∀ a, light_react n i = Some a → action_ok a.

Lemma view_ok p s i : input_ok finite i → Forall (view_action_ok i) (light_view toHex p s).
Proof.
  intros Hi. unfold light_view, white_panel, color_panel. repeat (apply Forall_app; split); repeat case_match;
    repeat (apply Forall_cons; split); try apply Forall_nil; try done;
    intros a; destruct i; cbn; repeat case_match; try done; intros [= <-]; cbn; try done; lia.
Qed.

Lemma kept_light_entry q : controls_entry parseColor toHex finite q → kept q.
Proof.
  intros [k i Hi|state].
  - intros w Hw. split; [exact Hw|].
    change (kept (match light_view toHex (lw_props w) (lw_controls w) !! k ≫= λ n, light_react n i with
                  | Some a => light_act parseColor toHex (lw_props w) (lw_controls w) a | None => Ret tt end)).
    destruct (light_view _ _ _ !! k) as [n|] eqn:Hn; [|done]. cbn [mbind option_bind].
    destruct (light_react n i) as [a|] eqn:Ha; [|done]. destruct Hw as [Hu Hl _]. apply kept_act; [done..|].
    pose proof (view_ok (lw_props w) (lw_controls w) i Hi) as Hv. rewrite Forall_lookup in Hv. by apply (Hv k n Hn).
  - apply keeps_modify. intros w [Hu Hl Hp]. split; [done| |done]. cbn. unfold follow, light_deps.
    pose proof (finite_props ((lw_props w) <| lt_state := state |>)) as [Hlum _]. by repeat case_match.
Qed.
End Controls.

(** C27: Every request the controls of a light ever make (SmartLightControls.tsx) is one that the server accepts
    (set-device-light.ts): whatever is done to the sliders, whose numbers are finite, to the wheel, whatever
    colour the library makes of it, and to the buttons, however the answers and the changes of the device
    interleave, it names the device, channel 0 and "on", and the numbers the handler reads from it are in the
    range of a light. *)
Theorem controls_requests {Color} (parseColor : string → Color) (toHex : Color → string) p th :
  controls_reaches parseColor toHex (λ n, is_finite n = true) p th →
  Forall (λ body,
    str_or_empty (prop "uuid" body) = lt_uuid p ∧ channel_of body = Some 0 ∧
    ∃ fields, light_request body = Go fields ∧ lf_onoff fields = Some true ∧
      (∀ z, lf_luminance fields = Some z → 0 <= z <= 100) ∧ (∀ z, lf_temperature fields = Some z → 0 <= z <= 100) ∧
      (∀ z, lf_rgb fields = Some z → 0 <= z <= 16777215)) (lw_posts (th_state th)).
Proof.
  intros Hth. destruct (steps_keeps _ _ (controls_ok (lt_uuid p)) _ _ _ (kept_light_entry parseColor toHex (lt_uuid p)) Hth)
    as [[_ _ Hposts] _]; [|exact Hposts].
  split; [|constructor]. split; [done|apply finite_props|constructor].
Qed.

(** ** Runs *)

(** A library whose colours are their hexadecimal text. *)
Definition demo_light (lum : num) : option DeviceState :=
  Some (no_state <| vs_light := Some {| lc_channel := 0; lc_onoff := true; lc_luminance := Some lum;
                                        lc_temperature := None; lc_rgb := Some (num_of_Z 255) |} |>).

Definition demo_light_props : light_props := {| lt_uuid := "lamp"; lt_state := demo_light (num_of_Z 40) |}.

Abbreviation light_threads := (@threads (controls_world (Color := string)) unit webE).

Definition light_begin : light_threads := {| th_state := controls_init id demo_light_props; th_threads := [] |}.

(** No answer comes on its own. *)
Definition silent (X : Type) (e : webE X) : X :=
  match e with
  | WFetch _ => Err (JsError "Failed to fetch")
  | WGetItem _ | WSetItem _ _ => None
  | WNow => 0
  | WRandom36 => "0"
  end.

Definition touch_light (k : nat) (i : light_input) (th : light_threads) : light_threads :=
  call_run browser_sync silent (light_touch id id k i) th.

Definition fail_call (i : nat) (th : light_threads) : light_threads := resume_run browser_sync light_settled silent i th.

Definition render_light (lum : num) (th : light_threads) : light_threads :=
  call_run browser_sync silent (controls_render id (demo_light lum)) th.

Lemma touch_light_steps k i th : input_ok (λ n, is_finite n = true) i →
  steps browser_sync light_settled (controls_entry id id (λ n, is_finite n = true)) th (touch_light k i th).
Proof. intros Hi. apply rtc_once, call_run_step. by constructor. Qed.

(** A drag of the brightness, its end, and a swatch: the first request is on its way, and the swatch does nothing
    while the controls are busy. *)
Lemma controls_requests_witness :
  let th := touch_light 9 LightPress (touch_light 3 (SlideEnd (str_to_num "70.4")) (touch_light 3 (SlideTo (num_of_Z 60)) light_begin)) in
  map (λ b, option_map (λ f, lf_luminance f) (match light_request b with Go f => Some f | _ => None end)) (lw_posts (th_state th))
    = [Some (Some 70)] ∧
  Forall (λ body, str_or_empty (prop "uuid" body) = "lamp") (lw_posts (th_state th)).
Proof.
  intros th. split; [vm_compute; reflexivity|].
  assert (Hth : controls_reaches id id (λ n, is_finite n = true) demo_light_props th).
  { eapply steps_trans; [eapply steps_trans|]; apply touch_light_steps; exact I || reflexivity. }
  eapply Forall_impl; [exact (controls_requests id id demo_light_props th Hth)|]. intros body (Hu & _). exact Hu.
Defined.

(** An update that fails leaves the value the user chose on the slider; the device still has 40. *)
Example failed_update_stays :
  let th := fail_call 1 (touch_light 3 (SlideEnd (num_of_Z 90)) light_begin) in
  let w := th_state th in
  (num_Z (ct_draftLum (lw_controls w)), num_Z (props_lum (lw_props w)), ct_busy (lw_controls w), lw_notes w) =
  (Some 90, Some 40, false, [NoteToast "Light update failed" "Failed to fetch"]).
Proof. by vm_compute. Qed.

(** A change of the device while the slider is being dragged is not shown, neither then nor, when the update
    fails, after the end of the drag: the device has 10. *)
Example change_during_drag_lost :
  let th := render_light (num_of_Z 10) (touch_light 3 (SlideTo (num_of_Z 60)) light_begin) in
  let th' := fail_call 2 (touch_light 3 (SlideEnd (num_of_Z 60)) th) in
  (num_Z (ct_draftLum (lw_controls (th_state th))), num_Z (ct_draftLum (lw_controls (th_state th'))),
   num_Z (props_lum (lw_props (th_state th')))) = (Some 60, Some 60, Some 10).
Proof. by vm_compute. Qed.

(** The widget's slider jumps to the device's value in the middle of a drag. *)
Example widget_jumps :
  let s := (widget_start demo_light_props) <| wg_draftLum := num_of_Z 60 |> in
  num_Z (wg_draftLum (widget_follow (num_of_Z 10) s)) = Some 10.
Proof. by vm_compute. Qed.

Example thumb_colours :
  (thumbFill true "#000000" (num_of_Z 0), thumbFill true "" (str_to_num "0.5"), thumbFill true "" (num_of_Z 1),
   thumbFill false "#2dd4bf" (num_of_Z 0), thumbFill false "?" (num_of_Z 0)) =
  ("rgb(255 160 64)", "rgb(208 198 160)", "rgb(160 236 255)", "rgb(45 212 191)", "rgb(255 106 0)").
Proof. by vm_compute. Qed.

(** ** Toasts *)

(** A toast is shown for 4.5 seconds from when it came, unless another one replaces it. *)
Lemma toast_shown now at_ t s : toast_lines (toast_tick at_ (show_toast now t s)) = [] ↔ now + 4500 <= at_.
Proof.
  unfold toast_tick, show_toast. cbn. destruct (Z.leb_spec (now + 4500) at_) as [H|H]; [done|]. split; [done|lia].
Qed.
