(* ===== verification/Card.v ===== *)
(** * The card of a device

    apps/web/src/views/devices/DeviceCard.tsx: what the component reads of the devices machine, its local
    state, what it shows and the callbacks behind its controls, as effects over that state. A callback
    closes over the properties and the state of the render it was made in, which are arguments; what it
    writes goes to the state as it is then. The writes of one block are gathered where nothing comes
    between them. Class names other than that of the card, and the components of the library that draw
    the controls, are left out; the controls of a light are a component of their own (Lights.v). *)

From S2P Require Export Views Threads.

Local Open Scope string_scope.
Local Open Scope Z_scope.
Local Open Scope list_scope.

(** ** Numbers as text *)

(** The expression of [rgbToHex]. *)
Definition fmtRgbHex (rgb : num) : string := rgbToHex rgb.

Definition fmtW (w : num) : string :=
  let n := if is_finite w then w else num_of_Z 0 in
  if num_leb (num_of_Z 1000) (SFabs n) then to_fixed 2 (num_div n (num_of_Z 1000)) +:+ " kW"
  else if num_leb (num_of_Z 100) (SFabs n) then to_fixed 0 n +:+ " W"
  else if num_leb (num_of_Z 10) (SFabs n) then to_fixed 1 n +:+ " W"
  else to_fixed 2 n +:+ " W".

Definition fmtV (v : num) : string := to_fixed (if num_leb (num_of_Z 100) v then 0 else 1) v +:+ " V".
Definition fmtA (a : num) : string := to_fixed (if num_leb (num_of_Z 10) a then 1 else 2) a +:+ " A".

(** The finite numbers of the list, each with its index. *)
Definition spark_points (values : list (option num)) : list (Z * num) :=
  omap (λ '(i, v), match v with Some v => if is_finite v then Some (i, v) else None | None => None end)
       (zip (seqZ 0 (Z.of_nat (length values))) values).

Definition sparklinePath (values : list (option num)) (width height pad : Z) : string :=
  let pts := spark_points values in
  if (length pts <? 2)%nat then ""
  else
    let min := foldl num_min (S754_infinity false) (map snd pts) in
    let max := foldl num_max (S754_infinity true) (map snd pts) in
    let span := num_max (str_to_num "0.0001") (num_sub max min) in
    let inner side := num_of_Z (side - pad * 2) in
    let xFor i := num_add (num_of_Z pad)
      (num_mul (num_div (num_of_Z i) (num_of_Z (Z.max 1 (Z.of_nat (length values) - 1)))) (inner width)) in
    let yFor v := num_add (num_of_Z pad)
      (num_mul (num_sub (num_of_Z 1) (num_div (num_sub v min) span)) (inner height)) in
    foldl (λ d '(i, v), let at_ := to_fixed 2 (xFor i) +:+ " " +:+ to_fixed 2 (yFor v) in
                        d +:+ (if str_truthy d then " L " else "M ") +:+ at_) "" pts.

(** ** What the card reads

    Its properties and what its selectors take of the machine. *)

Record card_props := {
  cp_uuid : string; cp_device : val; cp_hostEntry : val; cp_state : option DeviceState; cp_power : option DevicePower;
  cp_toggling : bool; cp_fetching : bool; cp_systemDump : option (string * val * val) }.

Definition is_operation (m : devices) (uuid : string) (s : operations_state → bool) : bool :=
  s (dm_operations m) && bool_decide (dc_activeDeviceUuid (dm_context m) = Some uuid).

Definition card_props_of (uuid : string) (device : val) (m : devices) : card_props :=
  let c := dm_context m in
  {| cp_uuid := uuid; cp_device := device; cp_hostEntry := prop uuid (dc_hosts c);
     cp_state := jget uuid (dc_deviceStates c); cp_power := jget uuid (dc_devicePower c);
     cp_toggling := is_operation m uuid (λ s, match s with Toggling => true | _ => false end);
     cp_fetching := is_operation m uuid (λ s, match s with FetchingDiagnostics => true | _ => false end);
     cp_systemDump := dc_systemDump c |}.

Section Props.
Variable p : card_props.

Definition card_device : val := coalesce (cp_device p) (VObj [("uuid", VStr (cp_uuid p))]).

(** [entry?.k ? String(entry.k) : ''] *)
Definition text_if (k : string) (entry : val) : string := if truthy (prop k entry) then to_str (prop k entry) else "".

Definition card_host : string := text_if "host" (cp_hostEntry p).
Definition hostUpdatedAt : string := text_if "updatedAt" (cp_hostEntry p).
Definition card_ready : bool := str_truthy card_host.

Definition card_title : string := nonempty (device_text "devName" card_device) ?: cp_uuid p.
Definition card_model : string := trim (device_text "deviceType" card_device).

Definition card_subtitle : string :=
  join " / " (List.filter str_truthy [friendlyDeviceTypeFromModel card_model; card_model]).

Definition card_mac : string :=
  let macCloud := coalesce (coalesce (prop "macAddress" card_device) (prop "mac" card_device)) (VStr "") in
  if truthy macCloud then to_str macCloud else text_if "mac" (cp_hostEntry p).

Definition card_plug : bool := isPlugLike card_device.
Definition card_light : bool := isSmartLight card_device (cp_state p).
Definition togglable : bool := card_ready && prefersToggleFor card_device.
Definition toggleDisabled : bool := negb card_ready || cp_toggling p.

Definition cardClass : string :=
  if negb card_ready then "device-card device-card--inaccessible"
  else match lanOn (cp_state p) with
       | Some true => "device-card device-card--on"
       | Some false => "device-card device-card--off"
       | None => "device-card"
       end.

Definition card_tabs : list ManageTabId := availableTabs card_light card_plug.

Definition tab_text (t : ManageTabId) : string :=
  match t with TabColor => "color" | TabPower => "power" | TabSchedules => "schedules" | TabDiagnostics => "diagnostics" end.

Definition coerceTab (s : string) : ManageTabId :=
  match js_find (λ t, String.eqb s (tab_text t)) [TabColor; TabPower; TabSchedules; TabDiagnostics] with
  | Some t => t
  | None => if bool_decide (TabDiagnostics ∈ card_tabs) then TabDiagnostics else head card_tabs ?: TabDiagnostics
  end.
End Props.

(** ** Local state

    The lists are kept as the server answered them, [VNull] before that. *)

Record card := {
  cd_manageOpen : bool; cd_manageTab : ManageTabId;
  cd_powerHistory : val; cd_powerHistoryError : option string; cd_powerHistoryLoading : bool;
  cd_timerxLoading : bool; cd_timerxError : option string; cd_timerxDigest : val; cd_timerxTimers : val;
  cd_timerxPending : list (string * bool); cd_timerEditor : option timer_editor;
  cd_triggerxLoading : bool; cd_triggerxError : option string; cd_triggerxDigest : val; cd_triggerJson : string;
  cd_activeTriggerId : val; cd_triggerxPending : list (string * bool) }.

Definition card_start : card :=
  {| cd_manageOpen := false; cd_manageTab := TabDiagnostics; cd_powerHistory := VNull; cd_powerHistoryError := None;
     cd_powerHistoryLoading := false; cd_timerxLoading := false; cd_timerxError := None; cd_timerxDigest := VNull;
     cd_timerxTimers := VNull; cd_timerxPending := []; cd_timerEditor := None; cd_triggerxLoading := false;
     cd_triggerxError := None; cd_triggerxDigest := VNull; cd_triggerJson := ""; cd_activeTriggerId := VNull;
     cd_triggerxPending := [] |}.

(** The card with what it was last rendered with, the events it sent to the machine, and the saves and
    deletions of timers under way: each has a number of its own and the key it is pending under. *)
Record card_world := {
  cw_props : card_props; cw_card : card; cw_sent : list devices_event;
  cw_flights : list (nat * string); cw_next : nat }.

Abbreviation C := (prog card_world unit webE).

Definition on_card (f : card → card) : C unit := modify (λ w, w <| cw_card := f (cw_card w) |>).
Definition send (e : devices_event) : C unit := modify (λ w, w <| cw_sent := cw_sent w ++ [e] |>).

Definition pending (key : string) (l : list (string * bool)) : bool := jget key l ?: false.

(** [randomTimerId()] *)
Definition random_part : C string := let! s := sys WRandom36 in Ret (str_take 8 (str_drop 2 s)).
Definition randomTimerId : C string := let! a := random_part in let! b := random_part in Ret (a +:+ b).

(** ** Lists *)

Section Callbacks.
Variables (p : card_props) (c : card).

Definition monitor_refresh : C unit := send (RequestRefresh (cp_uuid p)).

(** [setError(null); setLoading(true); try { p } catch (e) { setError(e.message) } finally { setLoading(false) }],
    the setters being those of one of the three lists. *)
Definition loading (set_error : option string → card → card) (set_loading : bool → card → card) (body : C unit) : C unit :=
  on_card (λ s, set_loading true (set_error None s)) ;;!
  finally (catch body (λ e, on_card (set_error (Some (exn_message e))))) (on_card (set_loading false)).

Definition powerHistoryError (e : option string) (s : card) : card := s <| cd_powerHistoryError := e |>.
Definition timerxError (e : option string) (s : card) : card := s <| cd_timerxError := e |>.
Definition triggerxError (e : option string) (s : card) : card := s <| cd_triggerxError := e |>.

Definition refreshPowerHistory : C unit :=
  if negb (card_ready p) || negb (card_plug p) then Ret tt
  else
    let! now := sys WNow in
    on_card (λ s, powerHistoryError None s <| cd_powerHistoryLoading := true |>) ;;!
    finally
      (catch (let! res := apiPost "/api/telemetry/power/history" (power_history_body (cp_uuid p) now) in
              let! points := list_of "points" res in
              on_card (λ s, s <| cd_powerHistory := points |>))
             (λ e, on_card (λ s, powerHistoryError (Some (exn_message e)) (s <| cd_powerHistory := VNull |>))))
      (on_card (λ s, s <| cd_powerHistoryLoading := false |>)).

Definition show_timers : C unit :=
  let! '(digest, timers) := listed_timers (cp_uuid p) in
  on_card (λ s, s <| cd_timerxDigest := digest |> <| cd_timerxTimers := timers |>).

(** "Refresh" of the timers, and [refreshTimerX], which does the same for a device that is ready. *)
Definition reload_timers : C unit :=
  loading timerxError (λ b s, s <| cd_timerxLoading := b |>) show_timers.

Definition refreshTimerX : C unit := if card_ready p then reload_timers else Ret tt.

Definition show_triggers : C unit :=
  let! res := apiPost "/api/device/triggerx/list" (VObj [("uuid", VStr (cp_uuid p))]) in
  let! digest := list_of "digest" res in
  on_card (λ s,
    let s := s <| cd_triggerxDigest := digest |> in
    match opened_trigger digest res with
    | Some (id, rule) => s <| cd_activeTriggerId := id |> <| cd_triggerJson := json_pretty rule |>
    | None => s
    end).

Definition reload_triggers : C unit :=
  loading triggerxError (λ b s, s <| cd_triggerxLoading := b |>) show_triggers.

Definition refreshTriggerX : C unit := if card_ready p then reload_triggers else Ret tt.

(** ** The dialog *)

Definition refreshDiagnostics : C unit :=
  if card_ready p then monitor_refresh ;;! send (Operations (Diagnostics (cp_uuid p))) else Ret tt.

Definition startFetchForTab (tab : ManageTabId) : C unit :=
  match tab with
  | TabColor => if card_ready p then monitor_refresh else Ret tt
  | TabPower => fork refreshPowerHistory
  | TabSchedules => fork refreshTimerX ;;! fork refreshTriggerX
  | TabDiagnostics => refreshDiagnostics
  end.

Definition openManage (desired : ManageTabId) : C unit :=
  let tab := normalizeTab (card_tabs p) desired in
  on_card (λ s, s <| cd_manageTab := tab |> <| cd_manageOpen := true |>) ;;!
  startFetchForTab tab.

(** [onOpenChange] of the dialog. *)
Definition onOpenChange (open : bool) : C unit :=
  on_card (λ s, s <| cd_manageOpen := open |>) ;;!
  if open then
    let tab := normalizeTab (card_tabs p) (cd_manageTab c) in
    on_card (λ s, s <| cd_manageTab := tab |>) ;;!
    startFetchForTab tab
  else
    on_card (λ s, s <| cd_timerEditor := None |> <| cd_timerxError := None |> <| cd_triggerxError := None |>) ;;!
    send CloseSystemDump.

Definition onSelectionChange (key : string) : C unit :=
  let next := normalizeTab (card_tabs p) (coerceTab p key) in
  on_card (λ s, s <| cd_manageTab := next |>) ;;!
  startFetchForTab next.

(** ** Timers *)

Definition newTimer : C unit :=
  let! id := randomTimerId in on_card (λ s, s <| cd_timerEditor := Some (create_timer id) |>).

Definition edit_form (f : timer_editor → timer_editor) : C unit :=
  on_card (λ s, match cd_timerEditor s with Some ed => s <| cd_timerEditor := Some (f ed) |> | None => s end).

(** [setPending(key, true); try { p } catch (e) { setError(e.message) } finally { setPending(key, false) }] *)
Definition begin_flight (key : string) : C nat :=
  atom (λ w, let s := cw_card w in
    (w <| cw_card := s <| cd_timerxPending := jset key true (cd_timerxPending s) |> |>
       <| cw_flights := (cw_next w, key) :: cw_flights w |> <| cw_next := S (cw_next w) |>, cw_next w)).

Definition end_flight (n : nat) (key : string) : C unit :=
  modify (λ w, let s := cw_card w in
    w <| cw_card := s <| cd_timerxPending := jset key false (cd_timerxPending s) |> |>
      <| cw_flights := List.filter (λ f, negb (Nat.eqb (fst f) n)) (cw_flights w) |>).

Definition while_pending (key : string) (body : C unit) : C unit :=
  let! n := begin_flight key in
  finally (catch body (λ e, on_card (timerxError (Some (exn_message e))))) (end_flight n key).

Definition save_key (id : string) : string := id +:+ ":save".
Definition delete_key (id : string) : string := id +:+ ":delete".

Definition saveTimer : C unit :=
  match cd_timerEditor c with
  | None => Ret tt
  | Some ed =>
      on_card (timerxError None) ;;!
      match save_timer (cp_uuid p) ed with
      | None => on_card (timerxError (Some "Missing timer id"))
      | Some (route, body) =>
          while_pending (save_key (trim (te_id ed)))
            (let! _ := apiPost route body in
             show_timers ;;! on_card (λ s, s <| cd_timerEditor := None |>) ;;! monitor_refresh)
      end
  end.

Definition deleteTimer (t : val) : C unit :=
  on_card (timerxError None) ;;!
  while_pending (delete_key (to_str (prop "id" t)))
    (let! _ := apiPost "/api/device/timerx/delete" (VObj [("uuid", VStr (cp_uuid p)); ("id", prop "id" t)]) in
     show_timers ;;! monitor_refresh).

(** ** Triggers *)

Definition selectTrigger (entry : val) : C unit :=
  on_card (λ s, s <| cd_activeTriggerId := prop "id" entry |>
                  <| cd_triggerJson := json_pretty (VObj [("id", prop "id" entry)]) |>).

Definition newTrigger : C unit :=
  let! id := randomTimerId in
  on_card (λ s, s <| cd_activeTriggerId := VStr id |>
                  <| cd_triggerJson := json_pretty (VObj [("id", VStr id); ("enable", VZ 1)]) |>).

Definition setTriggerPending (key : string) (b : bool) : C unit :=
  on_card (λ s, s <| cd_triggerxPending := jset key b (cd_triggerxPending s) |>).

Definition trigger_write (key : string) (body : C unit) : C unit :=
  setTriggerPending key true ;;!
  finally (catch body (λ e, on_card (triggerxError (Some (exn_message e))))) (setTriggerPending key false).

Definition deleteTrigger : C unit :=
  let id := cd_activeTriggerId c in
  if negb (truthy id) then Ret tt
  else
    on_card (triggerxError None) ;;!
    trigger_write (delete_key (to_str id))
      (let! _ := apiPost "/api/device/triggerx/delete" (VObj [("uuid", VStr (cp_uuid p)); ("id", id)]) in
       let! digest := listed_triggers (cp_uuid p) in
       on_card (λ s, s <| cd_triggerxDigest := digest |> <| cd_activeTriggerId := VNull |> <| cd_triggerJson := "" |>) ;;!
       monitor_refresh).

Definition saveTrigger : C unit :=
  on_card (triggerxError None) ;;!
  match trigger_of (cd_triggerJson c) with
  | inr message => on_card (triggerxError (Some message))
  | inl obj =>
      let id := trim (to_str (prop "id" obj)) in
      trigger_write (save_key id)
        (let! _ := apiPost "/api/device/triggerx/set" (trigger_body (cp_uuid p) obj) in
         let! digest := listed_triggers (cp_uuid p) in
         on_card (λ s, s <| cd_triggerxDigest := digest |> <| cd_activeTriggerId := VStr id |>) ;;!
         monitor_refresh)
  end.
End Callbacks.

(** ** Actions

    What the controls of the card do. *)

Inductive card_action : Type :=
| OpenTab (t : ManageTabId)
| OpenTuning
| SwitchPower (onoff : bool)
| OpenChange (open : bool)
| SelectTab (key : string)
| RefreshHistory
| ReloadTimers
| NewTimer
| EditTimer (t : val)
| CancelTimer
| EditForm (f : timer_editor → timer_editor)
| SaveTimer
| DeleteTimer (t : val)
| ReloadTriggers
| SelectTrigger (entry : val)
| NewTrigger
| DeleteTrigger
| SaveTrigger
| TypeTrigger (text : string)
| RefreshState'
| FetchDiagnostics.

Definition card_act (p : card_props) (c : card) (a : card_action) : C unit :=
  match a with
  | OpenTab t => openManage p t
  | OpenTuning => monitor_refresh p ;;! openManage p TabColor
  | SwitchPower onoff => send (Operations (Toggle (cp_uuid p) onoff))
  | OpenChange open => onOpenChange p c open
  | SelectTab key => onSelectionChange p key
  | RefreshHistory => fork (refreshPowerHistory p)
  | ReloadTimers => reload_timers p
  | NewTimer => newTimer
  | EditTimer t => on_card (λ s, s <| cd_timerEditor := Some (edit_timer t) |>)
  | CancelTimer => on_card (λ s, s <| cd_timerEditor := None |>)
  | EditForm f => edit_form f
  | SaveTimer => saveTimer p c
  | DeleteTimer t => deleteTimer p t
  | ReloadTriggers => reload_triggers p
  | SelectTrigger entry => selectTrigger entry
  | NewTrigger => newTrigger
  | DeleteTrigger => deleteTrigger p c
  | SaveTrigger => saveTrigger p c
  | TypeTrigger text => on_card (λ s, s <| cd_triggerJson := text |>)
  | RefreshState' => monitor_refresh p
  | FetchDiagnostics => refreshDiagnostics p
  end.

(** ** What is shown

    The elements top to bottom. A control carries what it does; one that is not enabled does nothing. *)

Inductive card_node : Type :=
| Text (s : string)
| Json (v : val)
| Curve (d : string)
| Button (label : string) (enabled : bool) (a : card_action)
| Switch (label : string) (selected enabled : bool) (a : bool → card_action)
| Field (label value : string) (a : string → card_action)
| LightWidget
| LightControls.

(** What a user does to an element. A child component calls its [onRequestRefresh] on its own. *)
Inductive card_input : Type :=
| Press
| Turn (on : bool)
| TypeText (text : string)
| ChildRefresh.

Definition react (n : card_node) (i : card_input) : option card_action :=
  match n, i with
  | Button _ true a, Press => Some a
  | Switch _ _ true a, Turn on => Some (a on)
  | Field _ _ a, TypeText text => Some (a text)
  | LightWidget, Press => Some OpenTuning
  | (LightWidget | LightControls), ChildRefresh => Some RefreshState'
  | _, _ => None
  end.

Section View.
Variables (p : card_props) (c : card).

Definition when {A} (b : bool) (l : list A) : list A := if b then l else [].
Definition texts (o : option string) : list card_node := match o ≫= nonempty with Some s => [Text s] | None => [] end.

Definition power_label (pw : DevicePower) : string := match dw_error pw ≫= nonempty with Some _ => "unavailable" | None => "stale" end.

(** The line under the name: only plugs have one. *)
Definition power_line : list card_node :=
  [Text "power";
   Text (match cp_power p with
         | Some pw => if dw_stale pw then power_label pw
                      else match dw_powerW pw with Some w => fmtW w | None => "(pending)" end
         | None => "(pending)"
         end)].

Definition power_controls : list card_node :=
  if negb (card_ready p) then []
  else
    Button "Schedules" true (OpenTab TabSchedules) ::
    if togglable p then [Switch "Power" (bool_decide (lanOn (cp_state p) = Some true)) (negb (toggleDisabled p)) SwitchPower]
    else [Button "On" (negb (toggleDisabled p)) (SwitchPower true); Button "Off" (negb (toggleDisabled p)) (SwitchPower false)].

Definition heading : list card_node := [Text (card_title p); Text (nonempty (card_subtitle p) ?: "device")].

Definition card_front : list card_node :=
  heading ++ when (card_plug p) power_line ++ power_controls ++ when (card_ready p && card_light p) [LightWidget].

(** The tab of the power history. *)
Definition power_panel : list card_node :=
  let reading (f : DevicePower → option num) := cp_power p ≫= f in
  [Text "Live power";
   Button (if cd_powerHistoryLoading c then "Refreshing…" else "Refresh history")
     (card_ready p && negb (cd_powerHistoryLoading c)) RefreshHistory;
   Text "now"; Text (match reading dw_powerW with Some w => fmtW w | None => "(pending)" end)] ++
  match reading dw_voltageV with Some v => [Text "v"; Text (fmtV v)] | None => [] end ++
  match reading dw_currentA with Some a => [Text "a"; Text (fmtA a)] | None => [] end ++
  match cp_power p with Some pw => when (dw_stale pw) [Text (power_label pw)] | None => [] end ++
  [Text "last 6h"] ++
  match cd_powerHistoryError c ≫= nonempty with
  | Some e => [Text "error"; Text e]
  | None =>
      match arr_items (cd_powerHistory c) with
      | [] => [Text "No samples yet"]
      | points => [Curve (sparklinePath (map (λ pt, match prop "powerWAvg" pt with VNum n => Some n | _ => None end) points)
                                        300 56 6)]
      end
  end.

(** The form of a timer. *)
Definition form_field (label value : string) (set : string → timer_editor → timer_editor) : card_node :=
  Field label value (λ v, EditForm (set v)).

Definition timer_form (ed : timer_editor) : list card_node :=
  let saving := pending (save_key (trim (te_id ed))) (cd_timerxPending c) in
  [Text (if te_create ed then "Create Timer" else "Edit Timer"); Button "Cancel" true CancelTimer;
   form_field "ID" (te_id ed) (λ v e, e <| te_id := v |>);
   form_field "Alias" (te_alias ed) (λ v e, e <| te_alias := v |>);
   form_field "Channel" (te_channel ed) (λ v e, e <| te_channel := v |>);
   form_field "Type" (te_type ed) (λ v e, e <| te_type := v |>);
   form_field "Week (raw)" (te_week ed) (λ v e, e <| te_week := v |>);
   form_field "Time (raw)" (te_time ed) (λ v e, e <| te_time := v |>);
   form_field "Sun offset (raw)" (te_sunOffset ed) (λ v e, e <| te_sunOffset := v |>);
   form_field "Duration (raw)" (te_duration ed) (λ v e, e <| te_duration := v |>);
   Switch "Enabled" (te_enable ed) true (λ b, EditForm (λ e, e <| te_enable := b |>));
   Switch "Action on/off" (te_toggleOnoff ed) true (λ b, EditForm (λ e, e <| te_toggleOnoff := b |>));
   Button (if saving then "Saving…" else "Save") (card_ready p && negb saving) SaveTimer].

(** One rule of the list. *)
Definition rule_field (label k : string) (t : val) : string :=
  if is_undef (prop k t) then "" else label +:+ " " +:+ to_str (prop k t).

Definition timer_row (t : val) : list card_node :=
  let id := to_str (prop "id" t) in
  let deleting := pending (delete_key id) (cd_timerxPending c) in
  [Text (nonempty (trim (str_or_empty (prop "alias" t))) ?: id);
   Text (nonempty (join " · " (List.filter str_truthy
           [rule_field "ch" "channel" t; rule_field "type" "type" t; rule_field "week" "week" t;
            rule_field "time" "time" t; rule_field "sun" "sunOffset" t; rule_field "dur" "duration" t])) ?: id);
   Button "Edit" (card_ready p) (EditTimer t);
   Button (if deleting then "Deleting…" else "Delete") (card_ready p && negb deleting) (DeleteTimer t);
   Text ("enabled: " +:+ (if rule_enabled t then "yes" else "no") +:+ " · action: " +:+
         match toggleOnoffFromExtend (prop "extend" t) with None => "n/a" | Some true => "on" | Some false => "off" end)].

Definition timers_panel : list card_node :=
  [Text "TimerX";
   Button (if cd_timerxLoading c then "Refreshing…" else "Refresh") (card_ready p && negb (cd_timerxLoading c)) ReloadTimers;
   Button "New timer" (card_ready p) NewTimer] ++
  texts (cd_timerxError c) ++
  match cd_timerEditor c with Some ed => timer_form ed | None => [] end ++
  match arr_items (cd_timerxTimers c), arr_items (cd_timerxDigest c) with
  | [], [] => [Text "No timers reported."]
  | [], _ => [Text "Timer IDs exist in digest, but no rules parsed yet. Hit Refresh."]
  | l, _ => flat_map timer_row l
  end.

(** The id of the JSON being edited, as the label of "Save" reads it. *)
Definition typed_trigger_id : string :=
  match json_parse (if str_truthy (cd_triggerJson c) then cd_triggerJson c else "null") with
  | Some o => if plain_record o then str_or_empty (prop "id" o) else ""
  | None => ""
  end.

Definition triggers_panel : list card_node :=
  let active := cd_activeTriggerId c in
  let deleting := truthy active && pending (delete_key (to_str active)) (cd_triggerxPending c) in
  let saving := str_truthy typed_trigger_id && pending (save_key typed_trigger_id) (cd_triggerxPending c) in
  [Text "TriggerX";
   Button (if cd_triggerxLoading c then "Refreshing…" else "Refresh") (card_ready p && negb (cd_triggerxLoading c)) ReloadTriggers] ++
  texts (cd_triggerxError c) ++ [Text "Trigger IDs"] ++
  match arr_items (cd_triggerxDigest c) with
  | [] => [Text "No triggers reported."]
  | l => map (λ e, Button (to_str (prop "id" e)) (card_ready p) (SelectTrigger e)) l
  end ++
  [Button "New trigger" (card_ready p) NewTrigger;
   Text ("Trigger JSON " +:+ (if truthy active then "(" +:+ to_str active +:+ ")" else ""));
   Button (if deleting then "Deleting…" else "Delete") (card_ready p && truthy active && negb deleting) DeleteTrigger;
   Button (if saving then "Saving…" else "Save") (card_ready p) SaveTrigger;
   Field "" (cd_triggerJson c) TypeTrigger].

Definition diagnostics_panel : list card_node :=
  [Text "ip"; Text (nonempty (card_host p) ?: "(unknown)"); Text "uuid"; Text (cp_uuid p)] ++
  match nonempty (card_mac p) with Some m => [Text "mac"; Text m] | None => [] end ++
  match nonempty (hostUpdatedAt p) with Some t => [Text "last seen"; Text t] | None => [] end ++
  [Button "Refresh state" (card_ready p) RefreshState';
   Button "Fetch diagnostics" (negb (cp_fetching p) && card_ready p) FetchDiagnostics] ++
  match cp_systemDump p ≫= (λ '(uuid, _, data), if String.eqb uuid (cp_uuid p) then Some data else None) with
  | Some data => [Text "Appliance.System.All (raw)"; Json data]
  | None => [Text ("No diagnostics JSON yet. Switch to this tab (or click Fetch diagnostics) to pull " +:+
                   "Appliance.System.All.")]
  end.

Definition schedules_note : string :=
  "TimerX and TriggerX schemas vary by device. This UI is best-effort and uses raw numeric fields for schedule timing. " +:+
  "“Delete” may degrade to “disable” if the device does not support hard deletion.".

(** The panel of the selected tab, where the card has that tab; that of the schedules holds both its lists. *)
Definition manage_panel : list card_node :=
  match cd_manageTab c with
  | TabColor => when (card_light p) [Text "Fine tune brightness, white temperature, and color."; LightControls]
  | TabPower => when (card_plug p) power_panel
  | TabSchedules => [Text schedules_note] ++ timers_panel ++ triggers_panel
  | TabDiagnostics => diagnostics_panel
  end.

Definition tab_label (t : ManageTabId) : string :=
  match t with TabColor => "Color" | TabPower => "Power" | TabSchedules => "Schedules" | TabDiagnostics => "Diagnostics" end.

Definition manage_dialog : list card_node :=
  if negb (cd_manageOpen c) then []
  else heading ++ [Button "Close" true (OpenChange false)] ++
       map (λ t, Button (tab_label t) true (SelectTab (tab_text t))) (card_tabs p) ++ manage_panel.

Definition card_view : list card_node := card_front ++ manage_dialog.
End View.

(** ** Runs

    A user acts on an element of the card as it was last rendered, the machine changes, and the calls of
    the card go on in between. *)

Definition touch (k : nat) (i : card_input) : C unit :=
  let! '(p, c) := gets (λ w, (cw_props w, cw_card w)) in
  match card_view p c !! k ≫= λ n, react n i with
  | Some a => card_act p c a
  | None => Ret tt
  end.

(** The card keeps its device, whatever else the machine tells it. *)
Definition rerender (p : card_props) : C unit :=
  modify (λ w, w <| cw_props := p <| cp_uuid := cp_uuid (cw_props w) |> |>).

Inductive card_entry : C unit → Prop :=
| ce_touch k i : card_entry (touch k i)
| ce_rerender p : card_entry (rerender p).

Definition never_settled (w : card_world) (pid : nat) : option (result unit) := None.

Definition card_init (p : card_props) : card_world :=
  {| cw_props := p; cw_card := card_start; cw_sent := []; cw_flights := []; cw_next := 0 |}.

Definition card_reaches (p : card_props) : @threads card_world unit webE → Prop :=
  steps browser_sync never_settled card_entry {| th_state := card_init p; th_threads := [] |}.
