(* ===== verification/CardSpec.v ===== *)
(** * What the card of a device guarantees

    Without an address the card makes no request of its own ([card_offline]); at no time are two saves, or two
    deletions, of one timer under way ([card_single_flight]); what a save does for every answer of the
    server ([saveTimer_spec]). The examples at the end are interleavings of two calls. *)

From S2P Require Export Card ViewsSpec.

Local Open Scope string_scope.
Local Open Scope Z_scope.
Local Open Scope list_scope.

(** ** What is offered *)

Create HintDb card discriminated.

Section Offered.
Variables (p : card_props) (c : card).

(** What a control may do although the card has no address. *)
Definition local_action (a : card_action) : bool :=
  match a with
  | OpenChange false | SelectTab _ | CancelTimer | EditForm _ | TypeTrigger _ => true
  | _ => false
  end.

(** The saves and deletions of timers, with the key each is pending under. *)
Definition flight_key (a : card_action) : option string :=
  match a with
  | SaveTimer => (λ ed, save_key (trim (te_id ed))) <$> cd_timerEditor c
  | DeleteTimer t => Some (delete_key (to_str (prop "id" t)))
  | _ => None
  end.

Record allowed (n : card_node) (a : card_action) : Prop := {
  al_offline : card_ready p = false → local_action a = true ∨ n = LightControls ∧ a = RefreshState';
  al_pending : ∀ key, flight_key a = Some key → pending key (cd_timerxPending c) = false }.

Definition node_ok (n : card_node) : Prop := ∀ i a, react n i = Some a → allowed n a.

Lemma passive_ok n : (∀ i, react n i = None) → node_ok n.
Proof. intros Hn i a. by rewrite Hn. Qed.

Lemma local_ok n : (∀ i a, react n i = Some a → local_action a = true ∧ flight_key a = None) → node_ok n.
Proof. intros Hn i a H. destruct (Hn i a H) as [? E]. split; [auto|]. by rewrite E. Qed.

(** A button or a switch that is only enabled for a card that is ready. *)
Lemma button_ok l en a : (en = true → card_ready p = true) →
  (∀ key, en = true → flight_key a = Some key → pending key (cd_timerxPending c) = false) → node_ok (Button l en a).
Proof. intros Hr Hp i a'. destruct en, i; try done. intros [= <-]. split; [|auto]. rewrite Hr by done. done. Qed.

Lemma switch_ok l sel en a : (en = true → card_ready p = true) → (∀ b, flight_key (a b) = None) →
  node_ok (Switch l sel en a).
Proof. intros Hr Hp i a'. destruct en, i; try done. intros [= <-]. split; [rewrite Hr by done; done|]. by rewrite Hp. Qed.

(** What is enabled, or in a branch, only for a card that is ready. *)
Ltac ready_tac := unfold toggleDisabled in *; destruct (card_ready p); rewrite ?andb_false_r in *; simpl in *; done.

Hint Extern 2 (node_ok (Text _)) => (by apply passive_ok) : card.
Hint Extern 2 (node_ok (Card.Json _)) => (by apply passive_ok) : card.
Hint Extern 2 (node_ok (Curve _)) => (by apply passive_ok) : card.
Hint Extern 2 (node_ok (Field _ _ _)) => (apply local_ok; intros [] ?; cbn; intros [= <-]; done) : card.
Hint Extern 2 (node_ok (form_field _ _ _)) => (apply local_ok; intros [] ?; cbn; intros [= <-]; done) : card.
Hint Extern 2 (node_ok (Switch _ _ true _)) => (apply local_ok; intros [] ?; cbn; intros [= <-]; done) : card.
Hint Extern 2 (node_ok (Button _ true _)) => (apply local_ok; intros [] ?; cbn; intros [= <-]; done) : card.
Hint Extern 3 (node_ok (Button _ _ _)) => (apply button_ok; [ready_tac|by intros ? ?]) : card.
Hint Extern 3 (node_ok (Switch _ _ _ _)) => (apply switch_ok; [ready_tac|done]) : card.

(** Splits a list of elements by its shape. *)
Ltac nodes_tac :=
  repeat
    match goal with
    | _ => solve [auto 2 with card]
    | |- Forall _ [] => apply Forall_nil_2
    | |- Forall _ (_ :: _) => apply Forall_cons_2
    | |- Forall _ (_ ++ _) => apply Forall_app_2
    | |- Forall _ (match ?x with _ => _ end) => destruct x eqn:?
    | |- Forall _ (when ?b _) => destruct b eqn:?; cbn [when]
    | |- Forall _ (map _ _) => apply Forall_fmap, Forall_true; intros ?; cbn [compose]
    | |- Forall _ (flat_map _ _) => apply Forall_flat_map, Forall_true; intros ?
    end.

Lemma widget_ok : card_ready p = true → node_ok LightWidget.
Proof. intros Hr [] a; intros [= <-]; (split; [by rewrite Hr|done]). Qed.

Lemma controls_ok : node_ok LightControls.
Proof. intros [] a; intros [= <-]. split; [by right|done]. Qed.

Lemma front_ok : Forall node_ok (card_front p).
Proof.
  unfold card_front, heading, power_line, power_controls. nodes_tac. apply widget_ok. ready_tac.
Qed.

Lemma power_panel_ok : Forall node_ok (power_panel p c).
Proof. unfold power_panel, power_label. nodes_tac. Qed.

Lemma timer_form_ok ed : cd_timerEditor c = Some ed → Forall node_ok (timer_form p c ed).
Proof.
  intros Hed. unfold timer_form. nodes_tac. apply button_ok; [ready_tac|]. intros key [_ Hp]%andb_prop.
  cbn. rewrite Hed. intros [= <-]. by apply negb_true_iff.
Qed.

Lemma timer_row_ok t : Forall node_ok (timer_row p c t).
Proof.
  unfold timer_row. nodes_tac. apply button_ok; [ready_tac|]. intros key [_ Hp]%andb_prop. intros [= <-].
  by apply negb_true_iff.
Qed.

Lemma panels_ok : Forall node_ok (manage_panel p c).
Proof.
  pose proof power_panel_ok. pose proof timer_form_ok. pose proof timer_row_ok. pose proof controls_ok.
  unfold manage_panel, timers_panel, triggers_panel, diagnostics_panel, texts. nodes_tac; auto.
Qed.

Lemma card_view_ok : Forall node_ok (card_view p c).
Proof.
  pose proof front_ok. pose proof panels_ok. unfold card_view, manage_dialog, heading. nodes_tac; auto.
Qed.
End Offered.

Lemma touched p c k i a : card_view p c !! k ≫= (λ n, react n i) = Some a →
  ∃ n, card_view p c !! k = Some n ∧ allowed p c n a.
Proof.
  destruct (card_view p c !! k) as [n|] eqn:Hk; [|done]. intros Ha. exists n. split; [done|].
  pose proof (card_view_ok p c) as Hok. rewrite Forall_lookup in Hok. by apply (Hok k n Hk i).
Qed.

(** ** Without an address *)

Abbreviation cblk := (blk browser_sync).

(** The end of a block that wrote the local state only, and sent [sent]. *)
Record stayed (w w' : card_world) (sent : list devices_event) : Prop := {
  st_props : cw_props w' = cw_props w;
  st_flights : cw_flights w' = cw_flights w;
  st_sent : cw_sent w' = cw_sent w ++ sent }.

Definition quiet_calls (l : list (C unit)) : Prop := Forall (λ q, q = Ret tt) l.

Lemma offline_fetch p tab w : card_ready p = false →
  cblk (startFetchForTab p tab) (λ r w' l, r = Ok tt ∧ w' = w ∧ quiet_calls l) w.
Proof.
  intros Hr. unfold startFetchForTab, refreshDiagnostics, refreshTimerX, refreshTriggerX, refreshPowerHistory. rewrite Hr.
  destruct tab; cbn; try by repeat constructor.
  - intros q' s1 l1 (-> & -> & ->). by repeat constructor.
  - intros q' s1 l1 (-> & -> & ->) q2 s2 l2 (-> & -> & ->). by repeat constructor.
Qed.

Lemma local_act p c a w : card_ready p = false → local_action a = true →
  cblk (card_act p c a) (λ r w' l, r = Ok tt ∧ quiet_calls l ∧
    ∃ sent, stayed w w' sent ∧ Forall (eq CloseSystemDump) sent) w.
Proof.
  intros Hr Ha. assert (Hno : ∀ w', cw_props w' = cw_props w → cw_flights w' = cw_flights w → cw_sent w' = cw_sent w →
    ∃ sent, stayed w w' sent ∧ Forall (eq CloseSystemDump) sent).
  { intros w' ? ? ?. exists []. split; [split; [done..|by rewrite app_nil_r]|constructor]. }
  destruct a as [| | |[]|key| | | | | |f| | | | | | | |text| |]; try done; cbn -[startFetchForTab normalizeTab coerceTab].
  - split_and!; [done|constructor|]. exists [CloseSystemDump]. by repeat constructor.
  - eapply blk_mono, offline_fetch, Hr. intros r s' l (-> & -> & Hl). split_and!; [done..|]. by apply Hno.
  - split_and!; [done|constructor|]. by apply Hno.
  - split_and!; [done|constructor|]. by apply Hno.
  - split_and!; [done|constructor|]. by apply Hno.
Qed.

(** C30: a card whose device has no known address (DeviceCard.tsx) makes no request of its own: whatever a user
    does to any element of the card or of its open dialog, the handler runs to its end at once, no call it
    starts is left waiting for the server, and no save or deletion is started. The only thing it can tell the
    machine is that the dump of the dialog is closed. The controls of a light are the exception: they are
    another component, still embedded in the open dialog, which makes its requests itself; all the card
    does for them, and for nothing else, is to pass on that they ask for a refresh of this device. *)
Theorem card_offline k i w : card_ready (cw_props w) = false →
  let p := cw_props w in
  cblk (touch k i) (λ r w' l, r = Ok tt ∧ Forall (λ q, q = Ret tt) l ∧ cw_props w' = p ∧ cw_flights w' = cw_flights w ∧
    ∃ sent, cw_sent w' = cw_sent w ++ sent ∧
      match card_view p (cw_card w) !! k with
      | Some LightControls =>
          cw_card w' = cw_card w ∧ sent = match i with ChildRefresh => [RequestRefresh (cp_uuid p)] | _ => [] end
      | _ => Forall (eq CloseSystemDump) sent
      end) w.
Proof.
  intros Hr p. unfold touch. cbn -[card_view]. fold p.
  destruct (card_view p (cw_card w) !! k ≫= _) as [a|] eqn:E.
  - destruct (touched _ _ _ _ _ E) as (n & Hn & [Hoff _]). rewrite Hn in E |- *. destruct (Hoff Hr) as [Hl|[-> ->]].
    + assert (Hnl : n ≠ LightControls) by (intros ->; destruct i; try done; by injection E as <-).
      eapply blk_mono, local_act; [|done..]. intros r s' l (-> & Hq & sent & [] & Hsent). split_and!; [done..|].
      exists sent. split; [done|]. by destruct n.
    + destruct i; try done. cbn. split_and!; [done|constructor|done..|]. by eexists.
  - cbn -[card_view]. split_and!; [done|constructor|done..|]. exists []. split; [by rewrite app_nil_r|].
    destruct (card_view p (cw_card w) !! k) as [[]|]; try by constructor. by destruct i.
Qed.

Definition demo_card_props (host : string) : card_props :=
  {| cp_uuid := "u1"; cp_device := VNull; cp_hostEntry := VObj [("host", VStr host)]; cp_state := None; cp_power := None;
     cp_toggling := false; cp_fetching := false; cp_systemDump := None |}.

(** A browser without a network. *)
Definition offline_answer (X : Type) (e : webE X) : X :=
  match e with
  | WFetch _ => Err (JsError "Failed to fetch")
  | WGetItem _ | WSetItem _ _ => None
  | WNow => 0
  | WRandom36 => "0.4fzyo82m"
  end.

(** The tab of the schedules of an open dialog. *)
Lemma card_offline_witness :
  let w := (card_init (demo_card_props "")) <| cw_card := card_start <| cd_manageOpen := true |> |> in
  let w' := w <| cw_card := (cw_card w) <| cd_manageTab := TabSchedules |> |> in
  card_ready (cw_props w) = false ∧
  run browser_sync offline_answer (touch 5 Press) w = (Ret tt, w', [Ret tt; Ret tt]) ∧ cw_flights w' = cw_flights w.
Proof.
  intros w w'. assert (Hrun : run browser_sync offline_answer (touch 5 Press) w = (Ret tt, w', [Ret tt; Ret tt])) by reflexivity.
  split; [reflexivity|]. split; [exact Hrun|].
  pose proof (run_adv browser_sync offline_answer (touch 5 Press) w) as Hadv. rewrite Hrun in Hadv.
  destruct (blk_adv browser_sync _ _ _ _ _ _ (card_offline 5 Press w eq_refl) Hadv) as (r & _ & _ & _ & _ & Hf & _).
  exact Hf.
Defined.

(** ** One save at a time *)

Record flights_ok (w : card_world) : Prop := {
  fo_keys : NoDup (map snd (cw_flights w));
  fo_numbers : NoDup (map fst (cw_flights w));
  fo_next : ∀ n, n ∈ map fst (cw_flights w) → (n < cw_next w)%nat;
  fo_pending : ∀ key, pending key (cd_timerxPending (cw_card w)) = true ↔ key ∈ map snd (cw_flights w) }.

(** What the number of a call under way protects: that it is under way, with its key. *)
Definition keeps_flight (n : nat) (w w' : card_world) : Prop := ∀ key, (n, key) ∈ cw_flights w → (n, key) ∈ cw_flights w'.

Lemma keeps_flight_trans n w1 w2 w3 : keeps_flight n w1 w2 → keeps_flight n w2 w3 → keeps_flight n w1 w3.
Proof. intros H1 H2 key ?. auto. Qed.

Definition any_move (w w' : card_world) : Prop := True.

Abbreviation crg := (rg browser_sync never_settled flights_ok any_move keeps_flight cw_next).
Abbreviation cok := (ok_step flights_ok any_move keeps_flight cw_next).
Abbreviation cenv := (env_step flights_ok any_move keeps_flight cw_next).

Record same_flights (w w' : card_world) : Prop := {
  sf_flights : cw_flights w' = cw_flights w;
  sf_next : cw_next w' = cw_next w;
  sf_pending : cd_timerxPending (cw_card w') = cd_timerxPending (cw_card w) }.

(** A program that neither starts nor ends a flight. *)
Definition quiet {A} (q : C A) : Prop := ∀ O w, flights_ok w →
  crg q (λ _ O' w', O' = O ∧ flights_ok w' ∧ ∀ n, n ∈ O → keeps_flight n w w') O w.

Lemma quiet_result {A} (r : result A) : quiet (of_result r).
Proof. intros O w Hw. destruct r; (split_and!; [done..|by intros n _ key]). Qed.

Lemma quiet_ret {A} (a : A) : quiet (Ret a).
Proof. intros O w Hw. split_and!; [done..|by intros n _ key]. Qed.

Lemma quiet_throw {A} e : quiet (Throw e : C A).
Proof. exact (quiet_result (Err e)). Qed.

Lemma quiet_sys_k {A X} (e : webE X) (k : X → C A) : (∀ x, quiet (k x)) → quiet (Sys e k).
Proof.
  intros Hk O w Hw. cbn [rg]. destruct (browser_sync X e); [intros x; by apply Hk|].
  intros w' x []. eapply rg_mono, Hk; [|done]. intros r O' w2 (-> & ? & H). split_and!; [done..|].
  intros n Hn key ?. apply H; [done|]. by apply es_rely.
Qed.

Lemma quiet_sys {X} (e : webE X) : quiet (sys e).
Proof. apply quiet_sys_k, quiet_ret. Qed.

Lemma quiet_sys_try {X} (e : webE (result X)) : quiet (sys_try e).
Proof. apply quiet_sys_k, quiet_result. Qed.

Lemma same_step O w w' : flights_ok w → same_flights w w' → cok O w O w'.
Proof.
  intros [] [E1 E2 E3]. split.
  - split; rewrite ?E1, ?E2, ?E3; done.
  - exact I.
  - by rewrite E2.
  - auto.
  - intros n _ _ key. by rewrite E1.
Qed.

Lemma quiet_modify f : (∀ w, same_flights w (f w)) → quiet (modify f).
Proof.
  intros Hf O w Hw. exists O. pose proof (same_step O w (f w) Hw (Hf w)) as Hok. split; [done|].
  split_and!; [done|apply Hok|]. intros n _ key. cbn. by rewrite (sf_flights _ _ (Hf w)).
Qed.

Lemma quiet_bind {A B} (q : C A) (f : A → C B) : quiet q → (∀ a, quiet (f a)) → quiet (bind q f).
Proof.
  intros Hq Hf O w Hw. apply rg_bind. eapply rg_mono, Hq; [|done]. intros [a|e] O' w' (-> & Hw' & H); [|done].
  eapply rg_mono, Hf; [|done]. intros r O2 w2 (-> & ? & H2). split_and!; [done..|]. intros n Hn key ?. by apply H2, H.
Qed.

Lemma quiet_catch {A} (q : C A) h : quiet q → (∀ e, quiet (h e)) → quiet (catch q h).
Proof.
  intros Hq Hf O w Hw. apply rg_catch. eapply rg_mono, Hq; [|done]. intros [a|e] O' w' (-> & Hw' & H); [done|].
  eapply rg_mono, Hf; [|done]. intros r O2 w2 (-> & ? & H2). split_and!; [done..|]. intros n Hn key ?. by apply H2, H.
Qed.

Lemma quiet_finally {A} (q : C A) d : quiet q → quiet d → quiet (finally q d).
Proof.
  intros Hq Hd. apply quiet_bind.
  - apply quiet_catch; [apply quiet_bind; [done|]|]; intros; apply quiet_ret.
  - intros r. apply quiet_bind; [done|]. intros _. apply quiet_result.
Qed.

Lemma quiet_fork q : quiet q → quiet (fork q).
Proof.
  intros Hq O w Hw. split; [eapply rg_mono, Hq; done|]. intros w' []. split_and!; [done..|auto].
Qed.

Create HintDb quiet discriminated.
#[local] Hint Resolve @quiet_ret @quiet_throw @quiet_result @quiet_sys @quiet_sys_try @quiet_fork : quiet.
#[local] Hint Extern 2 (quiet (modify _)) => (apply quiet_modify; intros; repeat case_match; by split) : quiet.
#[local] Hint Extern 2 (quiet (on_card _)) =>
  (apply quiet_modify; intros; cbv zeta; repeat case_match; by split) : quiet.

(** Proves a program quiet by its shape. *)
Ltac quiet_tac :=
  repeat first
    [ progress intros
    | match goal with |- quiet (match ?x with _ => _ end) => destruct x end
    | solve [eauto 2 with quiet nocore]
    | apply quiet_bind | apply quiet_catch | apply quiet_finally | apply quiet_fork
    | progress cbv zeta ].

Section Quiet.
Variables (p : card_props) (c : card).

Lemma quiet_apiPost path body : quiet (apiPost path body).
Proof. unfold apiPost. quiet_tac. Qed.

Lemma quiet_list_of k v : quiet (list_of k v).
Proof. unfold list_of. quiet_tac. Qed.

Hint Resolve quiet_apiPost quiet_list_of : quiet.

Lemma quiet_send e : quiet (send e).
Proof. apply quiet_modify. by split. Qed.

Lemma quiet_monitor_refresh : quiet (monitor_refresh p).
Proof. apply quiet_send. Qed.

Hint Resolve quiet_send quiet_monitor_refresh : quiet.

Lemma quiet_power : quiet (refreshPowerHistory p).
Proof. unfold refreshPowerHistory. quiet_tac. Qed.

Lemma quiet_show_timers : quiet (show_timers p).
Proof. unfold show_timers, listed_timers. quiet_tac. Qed.

Lemma quiet_listed_triggers : quiet (listed_triggers (cp_uuid p) : C val).
Proof. unfold listed_triggers. quiet_tac. Qed.

Lemma quiet_show_triggers : quiet (show_triggers p).
Proof. unfold show_triggers. quiet_tac. Qed.

Hint Resolve quiet_power quiet_show_timers quiet_listed_triggers quiet_show_triggers : quiet.

Lemma quiet_reload : quiet (reload_timers p) ∧ quiet (reload_triggers p).
Proof. unfold reload_timers, reload_triggers, loading, timerxError, triggerxError. split; quiet_tac. Qed.

Lemma quiet_fetch tab : quiet (startFetchForTab p tab).
Proof.
  destruct quiet_reload. unfold startFetchForTab, refreshDiagnostics, refreshTimerX, refreshTriggerX. quiet_tac.
Qed.

Hint Resolve quiet_fetch : quiet.

Lemma quiet_new_id : quiet randomTimerId.
Proof. unfold randomTimerId, random_part. quiet_tac. Qed.

Lemma quiet_trigger_pending key b : quiet (setTriggerPending key b).
Proof. unfold setTriggerPending. quiet_tac. Qed.

Lemma quiet_trigger_error e : quiet (on_card (triggerxError e)).
Proof. unfold triggerxError. quiet_tac. Qed.

Hint Resolve quiet_new_id quiet_trigger_pending quiet_trigger_error : quiet.

(** All but the saves and the deletions of timers. *)
Lemma quiet_act a : flight_key c a = None → quiet (card_act p c a).
Proof.
  intros Ha. destruct quiet_reload.
  destruct a; cbn [card_act]; try done; unfold openManage, onOpenChange, onSelectionChange, newTimer, edit_form,
    selectTrigger, newTrigger, deleteTrigger, saveTrigger, refreshDiagnostics; try solve [quiet_tac].
  unfold saveTimer. cbn in Ha. destruct (cd_timerEditor c); [done|quiet_tac].
Qed.
End Quiet.

(** ** The saves and deletions *)

Lemma NoDup_map_eq {A B} (f : A → B) l x y : NoDup (map f l) → x ∈ l → y ∈ l → f x = f y → x = y.
Proof.
  induction l as [|a l IH]; [set_solver|]. cbn. intros [Ha Hl]%NoDup_cons Hx Hy Hf.
  assert (Hin : ∀ z, z ∈ l → f z ∈ map f l) by (intros z Hz; by apply (list_elem_of_fmap_2 f)).
  apply elem_of_cons in Hx as [->|Hx], Hy as [->|Hy]; auto.
  - destruct Ha. rewrite Hf. auto.
  - destruct Ha. rewrite <- Hf. auto.
Qed.

Lemma sublist_filtered {A} (f : A → bool) l : List.filter f l `sublist_of` l.
Proof. induction l as [|a l IH]; cbn; [constructor|]. destruct (f a); by constructor. Qed.

Lemma elem_of_ended n f l : f ∈ List.filter (λ f : nat * string, negb (Nat.eqb (fst f) n)) l ↔ f ∈ l ∧ fst f ≠ n.
Proof. rewrite !list_elem_of_In, filter_In, negb_true_iff, Nat.eqb_neq. done. Qed.

Lemma pending_set key key' b l : pending key' (jset key b l) = if decide (key = key') then b else pending key' l.
Proof. unfold pending. rewrite jget_set. by case_decide. Qed.

Lemma elem_keys key (l : list (nat * string)) : key ∈ map snd l ↔ ∃ n, (n, key) ∈ l.
Proof.
  rewrite (list_elem_of_fmap snd). split.
  - intros [[n key'] [-> H]]. eauto.
  - intros [n H]. by exists (n, key).
Qed.

Definition started_flight (key : string) (w : card_world) : card_world :=
  w <| cw_card := (cw_card w) <| cd_timerxPending := jset key true (cd_timerxPending (cw_card w)) |> |>
    <| cw_flights := (cw_next w, key) :: cw_flights w |> <| cw_next := S (cw_next w) |>.

Lemma start_ok key w : flights_ok w → pending key (cd_timerxPending (cw_card w)) = false →
  cok ∅ w {[cw_next w]} (started_flight key w).
Proof.
  intros [Hk Hn Hlt Hp] Hkey. split; cbn -[pending].
  - split; cbn -[pending].
    + apply NoDup_cons. split; [|done]. rewrite <- Hp. congruence.
    + apply NoDup_cons. split; [|done]. intros Hin%Hlt. lia.
    + intros n [->|Hin%Hlt]%elem_of_cons; lia.
    + intros key'. rewrite pending_set, elem_of_cons, <- Hp. case_decide; [subst; naive_solver|naive_solver].
  - exact I.
  - lia.
  - intros t ->%elem_of_singleton. right. lia.
  - intros t _ _ key' Hin. by apply elem_of_cons; right.
Qed.

Definition ended_flight (n : nat) (key : string) (w : card_world) : card_world :=
  w <| cw_card := (cw_card w) <| cd_timerxPending := jset key false (cd_timerxPending (cw_card w)) |> |>
    <| cw_flights := List.filter (λ f, negb (Nat.eqb (fst f) n)) (cw_flights w) |>.

Lemma end_ok n key w : flights_ok w → (n, key) ∈ cw_flights w → cok {[n]} w ∅ (ended_flight n key w).
Proof.
  intros [Hk Hn Hlt Hp] Hin. pose proof (sublist_filtered (λ f, negb (Nat.eqb (fst f) n)) (cw_flights w)) as Hsub.
  split; cbn -[pending].
  - split; cbn -[pending].
    + eapply sublist_NoDup, (fmap_sublist snd), Hsub. done.
    + eapply sublist_NoDup, (fmap_sublist fst), Hsub. done.
    + intros m Hm. apply Hlt. eapply elem_of_sublist; [exact Hm|by apply (fmap_sublist fst)].
    + intros key'. rewrite pending_set, elem_keys. setoid_rewrite elem_of_ended. cbn -[pending]. case_decide as Hd.
      * subst key'. split; [done|]. intros [m [Hm Hne]]. destruct Hne.
        by pose proof (NoDup_map_eq snd _ (m, key) (n, key) Hk Hm Hin eq_refl) as [= ->].
      * rewrite Hp, elem_keys. split; [|naive_solver]. intros [m Hm]. exists m. split; [done|]. intros ->.
        pose proof (NoDup_map_eq fst _ (n, key') (n, key) Hn Hm Hin eq_refl) as [= ->]. done.
  - exact I.
  - lia.
  - set_solver.
  - intros t _ Ht key' Hm. apply elem_of_ended. split; [done|]. cbn. set_solver.
Qed.

Lemma rg_while_pending key q w : quiet q → flights_ok w → pending key (cd_timerxPending (cw_card w)) = false →
  crg (while_pending key q) any ∅ w.
Proof.
  intros Hq Hw Hkey. pose proof (start_ok key w Hw Hkey) as Hstart. pose proof (os_inv _ _ _ _ _ _ _ _ Hstart) as Hw1.
  exists {[cw_next w]}. split; [exact Hstart|].
  change (crg (finally (catch q (λ e, on_card (timerxError (Some (exn_message e))))) (end_flight (cw_next w) key)) any
    {[cw_next w]} (started_flight key w)).
  assert (Hbody : quiet (catch (let! a := catch q (λ e, on_card (timerxError (Some (exn_message e)))) in Ret (Ok a))
                               (λ e, Ret (Err e)))).
  { unfold timerxError. quiet_tac; auto. }
  unfold finally. apply rg_bind. eapply rg_mono, Hbody; [|exact Hw1]. intros r O w2 (-> & Hw2 & Hkeep). destruct r as [r|e]; [|done].
  exists ∅. split; [|by destruct r]. apply end_ok; [done|]. apply Hkeep; [set_solver|]. by apply elem_of_cons; left.
Qed.

Lemma rg_touch k i w : flights_ok w → crg (touch k i) any ∅ w.
Proof.
  intros Hw. exists ∅. split; [by apply same_step|].
  change (crg (match card_view (cw_props w) (cw_card w) !! k ≫= (λ n, react n i) with
               | Some a => card_act (cw_props w) (cw_card w) a | None => Ret tt end) any ∅ w).
  destruct (card_view _ _ !! k ≫= _) as [a|] eqn:Ea; [|done]. destruct (touched _ _ _ _ _ Ea) as (n & _ & [_ Hfree]).
  destruct (flight_key (cw_card w) a) as [key|] eqn:Hkey; [|eapply rg_mono, quiet_act; done].
  specialize (Hfree key eq_refl).
  assert (Hend : quiet (monitor_refresh (cw_props w)) ∧ quiet (show_timers (cw_props w))) by
    (split; [apply quiet_monitor_refresh|apply quiet_show_timers]).
  destruct Hend. assert (Hpost : ∀ path body, quiet (apiPost path body)) by (intros; apply quiet_apiPost).
  assert (Hclear : same_flights w (w <| cw_card := timerxError None (cw_card w) |>)) by by split.
  destruct a; try done; cbn [card_act flight_key] in *.
  - unfold saveTimer. destruct (cd_timerEditor _) as [ed|]; [|done]. injection Hkey as <-.
    exists ∅. split; [by apply same_step|]. cbn [fst snd bind]. destruct (save_timer _ ed) as [[route body]|].
    + apply rg_while_pending; [|by eapply os_inv, (same_step ∅), Hclear|done]. unfold on_card. quiet_tac.
    + exists ∅. split; [|done]. apply same_step; [by eapply os_inv, (same_step ∅), Hclear|by split].
  - injection Hkey as <-. exists ∅. split; [by apply same_step|]. cbn [fst snd bind].
    apply rg_while_pending; [|by eapply os_inv, (same_step ∅), Hclear|done]. quiet_tac.
Qed.

Lemma rg_rerender p w : flights_ok w → crg (rerender p) any ∅ w.
Proof. intros Hw. exists ∅. split; [by apply same_step|done]. Qed.

(** C29: At no time are two saves, or two deletions, of the same timer under way (DeviceCard.tsx), whatever the
    user does to the controls that are shown, however the answers of the server are delayed and
    reordered, and whatever the machine does to the device meanwhile; and a key is pending, which disables
    its button and has it say so, exactly while its call is under way. *)
Theorem card_single_flight p th : card_reaches p th →
  NoDup (map snd (cw_flights (th_state th))) ∧
  ∀ key, pending key (cd_timerxPending (cw_card (th_state th))) = true ↔ key ∈ map snd (cw_flights (th_state th)).
Proof.
  intros Hth.
  assert (Hinit : flights_ok (card_init p)) by (split; cbn; [constructor|constructor|set_solver|intros key; set_solver]).
  assert (Hent : entry_ok browser_sync never_settled flights_ok any_move keeps_flight cw_next card_entry).
  { intros q w [k i|p'] Hw; [by apply rg_touch|by apply rg_rerender]. }
  assert (threads_ok browser_sync never_settled flights_ok any_move keeps_flight cw_next th ∧
          flights_ok (th_state th) ∧ any_move (card_init p) (th_state th)) as (_ & [] & _); [|done].
  refine (reachable_ok browser_sync never_settled flights_ok any_move keeps_flight cw_next (λ _, I) (λ _ _ _ _ _, I)
    (λ _ _ _ H, H) keeps_flight_trans card_entry _ th Hent _ Hth).
  split; [exact Hinit|]. exists []. split_and!; [constructor|done|set_solver].
Qed.

(** A user who presses the elements [ks] one after the other, while no answer has come yet. *)
Definition press_all (ks : list nat) (th : @threads card_world unit webE) : @threads card_world unit webE :=
  foldl (λ th k, call_run browser_sync offline_answer (touch k Press) th) th ks.

Lemma press_all_steps ks th : steps browser_sync never_settled card_entry th (press_all ks th).
Proof.
  revert th. induction ks as [|k ks IH]; intros th; [apply rtc_refl|]. eapply rtc_l; [|apply IH].
  apply call_run_step. constructor.
Qed.

Definition card_begin (host : string) : @threads card_world unit webE :=
  {| th_state := card_init (demo_card_props host); th_threads := [] |}.

(** The schedules are opened, a new timer is saved, and "Save" is pressed a second time: one save is under way. *)
Lemma card_single_flight_witness :
  let th := press_all [2; 13; 26; 26]%nat (card_begin "10.0.0.7") in
  cw_flights (th_state th) = [(0%nat, "4fzyo82m4fzyo82m:save")] ∧ NoDup (map snd (cw_flights (th_state th))).
Proof.
  intros th. split; [reflexivity|].
  exact (proj1 (card_single_flight _ th (press_all_steps [2; 13; 26; 26]%nat (card_begin "10.0.0.7")))).
Defined.

(** ** What a save does *)

Section Save.
Variable answer : ∀ X, webE X → X.
Variables (p : card_props) (c : card).

Definition post_request (path : string) (body : val) : web_request :=
  {| wq_path := path; wq_method := "POST";
     wq_headers := [("content-type", "application/json"); ("accept", "application/json")];
     wq_body := Some (if is_undef body then "{}" else json_stringify body) |}.

Definition posted (path : string) (body : val) : result val :=
  match answer _ (WFetch (post_request path body)) with Ok res => api_data res | Err e => Err e end.

Lemma alone_post path body w : alone answer (apiPost path body : C val) w = Some (posted path body, w).
Proof.
  unfold apiPost, posted, post_request. cbn. destruct (answer _ _) as [res|e]; cbn; [|done]. by destruct (api_data res).
Qed.

(** The two lists of an answer to the list route. *)
Definition timer_lists (res : val) : result (val * val) :=
  if nullish res then Err (JsError ("Cannot read properties of " +:+ to_str res))
  else Ok (coalesce (prop "digest" res) (VArr []), coalesce (prop "timers" res) (VArr [])).

Definition shown_lists (digest timers : val) (s : card) : card :=
  s <| cd_timerxDigest := digest |> <| cd_timerxTimers := timers |>.

Lemma alone_show_timers w :
  alone answer (show_timers p) w =
  Some (match rbind (posted "/api/device/timerx/list" (VObj [("uuid", VStr (cp_uuid p))])) timer_lists with
        | Ok (digest, timers) => (Ok tt, w <| cw_card := shown_lists digest timers (cw_card w) |>)
        | Err e => (Err e, w)
        end).
Proof.
  unfold show_timers, listed_timers, list_of, member, timer_lists. rewrite !alone_bind, alone_post.
  destruct (posted _ _) as [res|e]; [|done]. cbn -[to_str]. by destruct (nullish res).
Qed.

(** How a save ends: with the new lists and no form, or with an error. *)
Definition save_outcome (route : string) (body : val) : result (val * val) :=
  rbind (posted route body) (λ _,
  rbind (posted "/api/device/timerx/list" (VObj [("uuid", VStr (cp_uuid p))])) timer_lists).

Definition after_save (key : string) (r : result (val * val)) (s : card) : card :=
  let s := timerxError None s in
  match r with
  | Ok (digest, timers) => shown_lists digest timers s <| cd_timerEditor := None |>
  | Err e => timerxError (Some (exn_message e)) s
  end <| cd_timerxPending := jset key false (jset key true (cd_timerxPending s)) |>.

Lemma filter_young n (key : string) (l : list (nat * string)) : (∀ m, m ∈ map fst l → (m < n)%nat) →
  List.filter (λ f, negb (Nat.eqb (fst f) n)) ((n, key) :: l) = l.
Proof.
  intros Hl. cbn. rewrite Nat.eqb_refl. cbn. induction l as [|[m k] l IH]; [done|]. cbn.
  assert (m < n)%nat by (apply Hl; set_solver). rewrite (proj2 (Nat.eqb_neq m n)) by lia. cbn. f_equal. apply IH. set_solver.
Qed.

Lemma alone_saveTimer w ed route body : flights_ok w → cd_timerEditor c = Some ed →
  save_timer (cp_uuid p) ed = Some (route, body) →
  let r := save_outcome route body in
  alone answer (saveTimer p c) w =
  Some (Ok tt, w <| cw_card := after_save (save_key (trim (te_id ed))) r (cw_card w) |>
                 <| cw_sent := cw_sent w ++ (if is_ok r then [RequestRefresh (cp_uuid p)] else []) |>
                 <| cw_next := S (cw_next w) |>).
Proof.
  intros [_ _ Hlt _] Hed Hs r. unfold saveTimer. rewrite Hed, Hs. set (key := save_key _).
  set (w0 := w <| cw_card := timerxError None (cw_card w) |>).
  unfold while_pending. rewrite !alone_bind.
  change (alone answer (on_card (timerxError None)) w) with (Some (@Ok unit tt, w0)). cbv beta iota.
  rewrite alone_bind. change (alone answer (begin_flight key) w0) with (Some (Ok (cw_next w), started_flight key w0)).
  cbv beta iota. unfold end_flight. rewrite alone_finally, alone_catch, alone_bind, alone_post.
  subst r. unfold save_outcome. destruct (posted route body) as [u|e]; cbn [rbind].
  2: { cbn -[List.filter]. rewrite filter_young, app_nil_r by done. done. }
  rewrite alone_bind, alone_show_timers. destruct (rbind _ timer_lists) as [[digest timers]|e].
  - cbn -[List.filter]. rewrite filter_young by done. done.
  - cbn -[List.filter]. rewrite filter_young, app_nil_r by done. done.
Qed.
End Save.

(** The response of the server to a handler's answer. *)
Definition carries (r : result http_response) (a : api_response) : Prop :=
  ∃ res, r = Ok res ∧ nonempty (rs_text res ?: "") ≫= json_parse = Some (response_val a) ∧
         (rs_ok res = false → ∃ m c d, a = ApiErr m c d).

Lemma posted_carries (answer : ∀ X, webE X → X) path body a : carries (answer _ (WFetch (post_request path body))) a →
  ∃ status, posted answer path body = client_result a status.
Proof.
  intros (res & E & Htext & Hok). exists (rs_status res). unfold posted. rewrite E. exact (api_data_response_val a res Htext Hok).
Qed.

Definition list_body (p : card_props) : val := VObj [("uuid", VStr (cp_uuid p))].

(** C31: "Save" of the timer form (DeviceCard.tsx) against any answers of the server, with nothing else going on. The
    handler ends and leaves no call under way and its key not pending. When the server refuses the write, and
    when it accepts it but then fails to list the timers, its message is shown, the form stays as it is, the
    lists stay and the machine is told nothing; when both succeed, the form is closed, the lists are the
    server's, no error is shown and the machine is asked to refresh the device. *)
Theorem saveTimer_spec (answer : ∀ X, webE X → X) p c w ed route body a1 a2 :
  flights_ok w → cd_timerEditor c = Some ed → save_timer (cp_uuid p) ed = Some (route, body) →
  carries (answer _ (WFetch (post_request route body))) a1 →
  carries (answer _ (WFetch (post_request "/api/device/timerx/list" (list_body p)))) a2 →
  ∃ w', alone answer (saveTimer p c) w = Some (Ok tt, w') ∧ cw_flights w' = cw_flights w ∧
    pending (save_key (trim (te_id ed))) (cd_timerxPending (cw_card w')) = false ∧
    let before := cw_card w in let after := cw_card w' in
    match a1, a2 with
    | ApiErr message _ _, _ | ApiOk _, ApiErr message _ _ =>
        cd_timerxError after = Some message ∧ cd_timerEditor after = cd_timerEditor before ∧
        cd_timerxTimers after = cd_timerxTimers before ∧ cd_timerxDigest after = cd_timerxDigest before ∧
        cw_sent w' = cw_sent w
    | ApiOk _, ApiOk data =>
        nullish data = false →
        cd_timerxError after = None ∧ cd_timerEditor after = None ∧
        cd_timerxTimers after = coalesce (prop "timers" data) (VArr []) ∧
        cd_timerxDigest after = coalesce (prop "digest" data) (VArr []) ∧
        cw_sent w' = cw_sent w ++ [RequestRefresh (cp_uuid p)]
    end.
Proof.
  intros Hw Hed Hs H1 H2. apply posted_carries in H1 as [s1 H1], H2 as [s2 H2].
  eexists. split; [by eapply alone_saveTimer|]. split; [done|]. cbn -[pending after_save save_outcome].
  assert (Hout : save_outcome answer p route body = rbind (client_result a1 s1) (λ _, rbind (client_result a2 s2) timer_lists))
    by (unfold save_outcome; fold (list_body p); by rewrite H1, H2).
  rewrite Hout. split.
  { unfold after_save. destruct (rbind _ _) as [[]|]; cbn -[pending]; rewrite pending_set; by rewrite decide_True. }
  destruct a1 as [d1|m cd d]; [destruct a2 as [d2|m cd d]|]; cbn -[nullish]; [|by rewrite app_nil_r..].
  intros Hd. unfold timer_lists. by rewrite Hd.
Qed.

(** A server that answers by route. *)
Definition route_answer (f : string → result http_response) (X : Type) (e : webE X) : X :=
  match e with
  | WFetch rq => f (wq_path rq)
  | e => offline_answer _ e
  end.

Definition demo_saves (refused : bool) (path : string) : result http_response :=
  Ok (if String.eqb path "/api/device/timerx/list"
      then demo_response true (ApiOk (VObj [("digest", VArr []); ("timers", VArr [VObj [("id", VStr "t1")]])]))
      else if refused then demo_response false (ApiErr "Invalid timer" "invalid_request" VUndef)
      else demo_response true (ApiOk (VObj []))).

Definition demo_form : card := card_start <| cd_timerEditor := Some (create_timer "t1") |>.
Definition demo_world : card_world := (card_init (demo_card_props "10.0.0.7")) <| cw_card := demo_form |>.

Lemma demo_carries refused :
  let route := "/api/device/timerx/set" in
  let body := VObj [("uuid", VStr "u1"); ("timer", timer_record "t1" (create_timer "t1"))] in
  carries (route_answer (demo_saves refused) _ (WFetch (post_request route body)))
    (if refused then ApiErr "Invalid timer" "invalid_request" VUndef else ApiOk (VObj [])) ∧
  carries (route_answer (demo_saves refused) _ (WFetch (post_request "/api/device/timerx/list" (list_body (demo_card_props "10.0.0.7")))))
    (ApiOk (VObj [("digest", VArr []); ("timers", VArr [VObj [("id", VStr "t1")]])])).
Proof.
  destruct refused; (split; eexists; (split; [reflexivity|]); (split; [vm_compute; reflexivity|])); try done.
  intros _. by eexists _, _, _.
Qed.

Lemma saveTimer_spec_witness :
  (∃ w', alone (route_answer (demo_saves true)) (saveTimer (demo_card_props "10.0.0.7") demo_form) demo_world = Some (Ok tt, w') ∧
         cd_timerxError (cw_card w') = Some "Invalid timer" ∧ cd_timerEditor (cw_card w') = Some (create_timer "t1")) ∧
  (∃ w', alone (route_answer (demo_saves false)) (saveTimer (demo_card_props "10.0.0.7") demo_form) demo_world = Some (Ok tt, w') ∧
         cd_timerEditor (cw_card w') = None ∧ cd_timerxTimers (cw_card w') = VArr [VObj [("id", VStr "t1")]] ∧
         cw_sent w' = [RequestRefresh "u1"]).
Proof.
  assert (Hw : flights_ok demo_world) by (split; cbn; [constructor|constructor|set_solver|intros key; set_solver]).
  split.
  - destruct (saveTimer_spec _ (demo_card_props "10.0.0.7") demo_form demo_world (create_timer "t1") _ _ _ _ Hw eq_refl eq_refl
      (proj1 (demo_carries true)) (proj2 (demo_carries true))) as (w' & Hrun & _ & _ & He & Hf & _).
    exists w'. split; [exact Hrun|]. split; [exact He|exact Hf].
  - destruct (saveTimer_spec _ (demo_card_props "10.0.0.7") demo_form demo_world (create_timer "t1") _ _ _ _ Hw eq_refl eq_refl
      (proj1 (demo_carries false)) (proj2 (demo_carries false))) as (w' & Hrun & _ & _ & Hok).
    destruct (Hok eq_refl) as (_ & Hf & Ht & _ & Hs). exists w'. split; [exact Hrun|]. split; [exact Hf|]. split; [exact Ht|exact Hs].
Defined.

(** ** Two calls at once *)

Definition demo_props : card_props := demo_card_props "10.0.0.7".
Definition demo_threads (s : card) : @threads card_world unit webE :=
  {| th_state := (card_init demo_props) <| cw_card := s |>; th_threads := [] |}.

Definition does (a : card_action) (th : @threads card_world unit webE) : @threads card_world unit webE :=
  call_run browser_sync offline_answer (card_act demo_props (cw_card (th_state th)) a) th.

Definition answered (f : string → result http_response) (i : nat) (th : @threads card_world unit webE) :
    @threads card_world unit webE :=
  resume_run browser_sync never_settled (route_answer f) i th.

(** A save that ends closes whatever form is open then: here that of another timer, opened meanwhile. *)
Example save_closes_other_form :
  let th := does (EditTimer (VObj [("id", VStr "t2")])) (does CancelTimer (does SaveTimer (demo_threads demo_form))) in
  te_id <$> cd_timerEditor (cw_card (th_state th)) = Some "t2" ∧
  cd_timerEditor (cw_card (th_state (answered (demo_saves false) 0 (answered (demo_saves false) 0 th)))) = None.
Proof. by vm_compute. Qed.

Definition list_of_ids (ids : list string) (_ : string) : result http_response :=
  Ok (demo_response true (ApiOk (VObj [("timers", VArr (map (λ id, VObj [("id", VStr id)]) ids))]))).

(** Of two refreshes of the list the one that is answered last is shown, although it was asked first. *)
Example older_list_wins :
  let th := does ReloadTimers (does ReloadTimers (demo_threads card_start)) in
  let th1 := answered (list_of_ids ["t1"; "t2"]) 1 th in
  cd_timerxTimers (cw_card (th_state th1)) = VArr [VObj [("id", VStr "t1")]; VObj [("id", VStr "t2")]] ∧
  cd_timerxTimers (cw_card (th_state (answered (list_of_ids ["t1"]) 0 th1))) = VArr [VObj [("id", VStr "t1")]].
Proof. by vm_compute. Qed.

(** "Save" of a trigger says that it is saving, but can be pressed again: two writes are under way. *)
Example trigger_saved_twice :
  let s := card_start <| cd_manageOpen := true |> <| cd_manageTab := TabSchedules |>
             <| cd_triggerJson := json_stringify (VObj [("id", VStr "x")]) |> in
  let presses_save (n : card_node) := match n with Button "Saving…" true SaveTrigger => true | _ => false end in
  let th := does SaveTrigger (demo_threads s) in
  existsb presses_save (card_view demo_props (cw_card (th_state th))) = true ∧
  length (th_threads (does SaveTrigger th)) = 2%nat.
Proof. by vm_compute. Qed.

(** What the card shows of a reading, and the curve of four samples, one of them missing. *)
Example card_texts :
  map fmtW [num_of_Z 0; str_to_num "9.994"; str_to_num "12.34"; str_to_num "999.6"; num_of_Z 1500; num_nan] =
    ["0.00 W"; "9.99 W"; "12.3 W"; "1000 W"; "1.50 kW"; "0.00 W"] ∧
  (fmtV (str_to_num "229.6"), fmtA (str_to_num "0.125")) = ("230 V", "0.13 A") ∧
  sparklinePath [Some (num_of_Z 0); None; Some (num_of_Z 10); Some (num_of_Z 5)] 300 56 6 =
    "M 6.00 50.00 L 198.00 6.00 L 294.00 28.00" ∧
  sparklinePath [Some (num_of_Z 3); None] 300 56 6 = "".
Proof. by vm_compute. Qed.
